(* ===== verification/_CoqProject ===== *)
-Q . S2P
Prelude.v
Effects.v
GoStrings.v
GoPath.v
Float64.v
JudgeModel.v
JudgeConfig.v
Cmp.v
Grading.v
Json.v
JudgeEvents.v
JudgeApi.v
Sse.v
Stream.v
CommitDb.v
BackendHub.v
EndToEnd.v
Language.v
Queue.v
Workspace.v
ShellConfig.v
WorkspaceProofs.v
Runner.v
RunnerProofs.v
Quota.v
Outputs.v
Publisher.v
PublisherProofs.v
Sql.v
Catalog.v
Limits.v
LimitsProofs.v
TestCases.v
Visibility.v
Objects.v
Authoring.v
AuthoringProofs.v
AuthoringUpdate.v
History.v
Submission.v
SubmissionProofs.v
HistoryProofs.v
Handover.v
Throttle.v
Accounts.v
Sessions.v
AccountsProofs.v
SessionsProofs.v
AccountLinks.v
Cache.v
Classes.v
ClassesProofs.v
Gradebook.v
GradebookProofs.v
GradebookCsv.v
Archive.v
ArchiveProofs.v
ArchiveExact.v
Exercises.v
Batch.v
BatchProofs.v
ExportProofs.v
BatchAccept.v
BatchExamples.v
ExercisesProofs.v
Transfer.v
TransferProofs.v
TransferExamples.v
ExerciseFiles.v
Podman.v
