(* ===== verification/Prelude.v ===== *)
(** * run.codes: the judge and the backend around it

    run.codes grades programming exercises. A professor keeps classes, exercises and
    test cases in the backend (src/backend, an HTTP server over PostgreSQL, an S3 store,
    Redis and a mail relay); a student submits a program; the judge (src/judge, one or
    several processes) takes the queued commit, runs it in a container against the
    exercise's cases and publishes what happens as a replayable event stream; the
    backend reads the stream, stores results and shows them to whoever may see them.
    This library models the Go code of both programs and proves what they promise.

    ** How the parts interact

    <<
      browser -> backend services --(rows, objects)--> PostgreSQL, S3
                   |  Submission.v registers a queued commit, wakes the judge
                   v
      judge: Queue.v claims it -> Workspace.v prepares a directory
             -> Runner.v runs the container, Grading.v grades each case (Cmp.v),
                Publisher.v uploads generated files (Outputs.v)
             -> JudgeEvents.v keeps the log, JudgeApi.v serves it
                   |  Stream.v: frames written, frames read (Sse.v)
                   v
      backend: BackendHub.v consumes -> CommitDb.v stores -> Visibility.v, History.v show
    >>

    ** Conventions

    A definition has the name of the Go function, type or constant it models. Errors are
    [res] and [eff] values ([Effects.v]); state is passed explicitly. What a process does
    not decide is an argument: the clock, random draws, which statement or request to a
    service fails ([fault], by its number), what a container prints, how goroutines and
    requests interleave (step relations and lists of operations). Machine integers are
    [Z], with their width where the code depends on it; [float64] is [Float64.v]. Code of
    third-party packages (bcrypt, the JWT library, the HTTP router, the PostgreSQL driver)
    is a class or argument, never defined. A loop that is not structural takes fuel, and a
    lemma says how much is enough: the length of an input ([Cmp.lenient_loop]), the number
    of digits ([GoStrings.fmt_digits]), or the code's own bound on its attempts
    ([BackendHub.run_loop]); concurrent loops are steps of a relation with a
    measure ([PublisherProofs.publisher_run_ends]).

    ** The judge

    - [JudgeModel.v] (internal/model), [JudgeConfig.v] (internal/config), [Language.v]
      (internal/language): domain types, phase timings, settings, the language of a
      submission.
    - [Cmp.v] (internal/cmp): strict, lenient and numeric comparison of outputs.
      [Grading.v] (engine/grading.go): from the monitor's report and the files a case left
      to its verdict, and the score of a run; [correct_verdict_iff] says exactly when a
      case passes, [graded_case_well_formed] what every result satisfies.
    - [Workspace.v], [ShellConfig.v], [WorkspaceProofs.v] (engine/workspace.go): the run
      directory. Extraction stays inside it, the configuration is read back by the shell as
      it was meant, and no run leaves a directory behind.
    - [Runner.v], [RunnerProofs.v] (engine/runner.go, container.go): a run as a trace of
      effects; it follows the event protocol, publishes each case once and ends with the
      verdict of what it published.
    - [Quota.v] (engine/workspace_quota.go, sweeper.go): the sampler of a workspace kills
      exactly at the first sample over the quota, a verdict vouches for every sample taken,
      and a sweep spares the runs that may still be active.
    - [Podman.v] (internal/podman): what a container is created with, the containers pruned,
      the images ensured, and its log: however it arrives, what is sent is its lines, cut at
      a bound.
    - [Outputs.v], [Publisher.v], [PublisherProofs.v] (engine/outputs.go): generated files.
      Every interleaving of the log reader and the workers refines an abstract ledger, and
      ends.
    - [JudgeEvents.v] (internal/events), [JudgeApi.v] (internal/api), [Json.v]: the log of
      a run, its subscribers, its eviction, and the endpoints.
    - [Queue.v] (internal/store, internal/worker): claims under FOR UPDATE SKIP LOCKED by
      any number of judges; no commit is claimed twice.

    ** Between the two

    - [Sse.v] (backend/judge/sse.go), [Stream.v], [EndToEnd.v]: what is written is what is
      read, up to the line limit; a reconnection replays what was not stored; a verdict
      that cannot be stored becomes a server error.
    - [CommitDb.v] (backend/judge/events.go, reconcile.go), [BackendHub.v] (hub.go): the
      statements that store a run, idempotent under replay and frozen once settled; the
      consumer leaves no commit unsettled.
    - [Handover.v]: what the judge finds of an accepted submission is gradable, its
      language the one the backend matched.

    ** The backend

    - [Sql.v], [Objects.v]: statements, transactions, objects and the replacer that backs
      an object up before it is overwritten. [Catalog.v]: the tables and the access of a
      caller to an exercise (exercise-access-service.go).
    - [Exercises.v], [ExercisesProofs.v] (exercises-service.go): creating, changing, removing
      and listing exercises. No service leaves a limit for a language its exercise does not
      allow.
    - [ExerciseFiles.v] (compilation-files-service.go, attached-files-service.go): the sources
      submissions are compiled with and the material students download; an upload replaces
      the file of its name or changes nothing.
    - [Limits.v], [LimitsProofs.v] (limits-service.go): three layers of limits, their pages
      and the snapshot a commit runs under.
    - [TestCases.v] and [Authoring.v], [AuthoringProofs.v], [AuthoringUpdate.v]
      (test-cases-service.go, test-case-repository.go): the cases the judge reads; creating,
      changing and deleting one keeps rows and objects together.
    - [Submission.v], [SubmissionProofs.v] (submissions-service.go, submissions-validation.go
      and the handler), [History.v], [HistoryProofs.v] (submissions-history.go): who may
      submit, all-or-nothing registration, the numbers of a student's submissions and the
      source they get back.
    - [Visibility.v] (output-visibility.go, storage/keys.go, submissions-handler.go):
      hidden cases' files and outputs reach authors only.
    - [Throttle.v] (mail-throttle.go), [Accounts.v], [AccountsProofs.v] (users-, verification-
      and password-reset-service.go, AdminUpdateUser, validation), [Sessions.v],
      [SessionsProofs.v], [AccountLinks.v] (users-, profile-, verification-, preview- and
      password-reset-handler.go, preview-service.go): a session ends with the credentials
      it was issued for, a link works once, public answers do not tell accounts apart, mail
      is spaced. The executions are sequences of requests, of which the ones that read and
      later write are cut in two.
    - [Cache.v] (cache/cache.go): what a hit is worth when invalidations may fail.
      [Classes.v], [ClassesProofs.v] (offerings-, enrollments-, offering-members- and
      enrollment-code-service.go, AdminUpdateOffering): the relation of a user to a class,
      joining, members, bans, codes and transfer.
    - [Gradebook.v], [GradebookProofs.v], [GradebookCsv.v] (grades-service.go, grades-csv.go,
      grades-handler.go): the grade table is the best of each student's commits, its
      statistics are those of the rows shown, with every binary64 rounding, and the CSV file
      reads back as the table.
    - [Archive.v], [ArchiveProofs.v], [ArchiveExact.v], [Batch.v], [BatchProofs.v],
      [BatchAccept.v], [ExportProofs.v], [BatchExamples.v] (test-cases-batch-service.go):
      an archive of test cases is read within its limits and no file of it is lost without
      a report; an import creates every case with its objects or leaves rows and objects as
      they were, and succeeds when nothing fails; an exported exercise imports as a copy.
    - [Transfer.v], [TransferProofs.v], [TransferExamples.v] (offering-transfer-service.go): a
      class as an archive and back. An import creates the class with every exercise, case,
      limit, file and object of the archive, or nothing.

    ** Shared

    This file: [res], its lemmas, generic lemmas and tactics. [GoStrings.v], [GoPath.v],
    [Float64.v], [Effects.v]: the parts of Go's standard library the code calls, and weakest
    preconditions with [keeps], the invariants of a computation.

    ** Bounds

    The line limit of the event reader (4 MiB), the sizes the judge truncates outputs to,
    five attempts at an enrollment code, the limits of an archive (its size, entries, cases
    and what it expands to), the bounded maps and queues are the code's constants, kept
    as such. Identifiers are taken below [2^63] as PostgreSQL's sequences give them.

    ** Not modelled

    - Starting, awaiting and killing containers, storage clients, telemetry, [main]: I/O
      around third-party interfaces; what they answer is an argument of the runner.
    - Routing, decoding of request bodies except where a handler decides something,
      cookies' attributes, HTML of messages, logs and audit columns.
    - Deleting classes and users with their objects, the bulletin, statistics, settings,
      alerts and retention: services of the same shape as those modelled, whose decisions
      are in SQL.
    - The frontend, the schema's SQL and the deployment, which are not Go; columns and
      constraints the services rely on are part of the tables above. *)

From Stdlib Require Export Ascii String.
From stdpp Require Export base tactics list gmap strings option fin_maps.
From Stdlib Require Export ZArith Lia Sorted.

#[export] Set Warnings "-clear-no-such-hyp".
Declare Scope runcodes_scope.
Delimit Scope runcodes_scope with rc.
Open Scope runcodes_scope.

(** String concatenation computes on a constructor, like list append. *)
#[global] Arguments String.append !s1%_string_scope s2%_string_scope /.

(** ** Go's [(value, error)] results *)

Inductive res (E A : Type) : Type :=
| Ok (a : A)
| Err (e : E).
Arguments Ok {E A} a.
Arguments Err {E A} e.

#[export] Instance res_ret {E} : MRet (res E) := fun A a => Ok a.
#[export] Instance res_bind {E} : MBind (res E) :=
  fun A B k m => match m with Ok a => k a | Err e => Err e end.

#[export] Instance Ok_inj {E A} : Inj eq eq (@Ok E A).
Proof. by intros ?? [= ->]. Qed.

Definition is_ok {E A} (m : res E A) : bool :=
  match m with Ok _ => true | Err _ => false end.

Lemma res_bind_ok {E A B} (m : res E A) (k : A -> res E B) b :
  (m ≫= k) = Ok b <-> exists a, m = Ok a /\ k a = Ok b.
Proof. destruct m as [a|e]; cbn; split; [by eauto| |done|]; by intros (?&[= <-]&?). Qed.

Lemma res_bind_err {E A B} (m : res E A) (k : A -> res E B) e :
  (m ≫= k) = Err e <-> m = Err e \/ exists a, m = Ok a /\ k a = Err e.
Proof.
  destruct m as [a|e']; cbn; split; [by eauto| |intros [= ->]; by left|].
  - by intros [?|(?&[= <-]&?)].
  - by intros [[= ->]|(?&?&?)].
Qed.

(** ** Functional record update

    Go assigns single fields of structs; [x <| field := v |>] is that
    assignment on a pure record. A record opts in with a [Settable] instance,
    its eta-expansion, from which every field's setter is derived. *)

Class Settable (R : Type) := eta : R -> R.
Class Setter {R T : Type} (getter : R -> T) := rset : (T -> T) -> R -> R.

Arguments rset {R T} getter {_} upd x : rename.

Ltac derive_setter :=
  match goal with
  | |- @Setter ?R ?T ?g =>
      let s := constr:(_ : Settable R) in
      let upd := fresh "upd" in
      let x := fresh "x" in
      intros upd x;
      let e := eval red in (s x) in
      let p := eval pattern (g x) in e in
      match p with
      | ?F _ => let b := eval cbv beta in (F (upd (g x))) in exact b
      end
  end.

#[export] Hint Extern 1 (Setter _) => derive_setter : typeclass_instances.

Notation "x <| f := v |>" := (rset f (fun _ => v) x)
  (at level 1, left associativity, f at level 1, v at level 200,
   format "x  <| f  :=  v |>") : runcodes_scope.

(** ** Lists *)

Section Lists.
  Context {A : Type}.
  Implicit Types (l : list A) (P : A -> Prop) (R : A -> A -> Prop).

Lemma Forall_sublist P l l' : l `sublist_of` l' -> Forall P l' -> Forall P l.
Proof.
  induction 1 as [|x l l' _ IH|x l l' _ IH]; intros H; [done| |]; inversion H; subst; auto.
Qed.

Lemma sorted_snoc R l x :
  StronglySorted R l -> Forall (fun y => R y x) l -> StronglySorted R (l ++ [x]).
Proof.
  induction 1 as [|y l Hs IH Hy]; intros Hx; [by repeat constructor|].
  cbn. inversion Hx; subst. constructor; [by apply IH|].
  apply Forall_app. split; [done|]. by constructor.
Qed.

Lemma sorted_sublist R l l' : l `sublist_of` l' -> StronglySorted R l' -> StronglySorted R l.
Proof.
  induction 1 as [|x l l' Hl IH|x l l' Hl IH]; intros Hs; [done| |];
    inversion Hs as [|? ? Hs' Hx]; subst; [|auto].
  constructor; [auto|]. by eapply Forall_sublist.
Qed.

Lemma sorted_app_r R l1 l2 : StronglySorted R (l1 ++ l2) -> StronglySorted R l2.
Proof. induction l1 as [|x l1 IH]; cbn; [done|]. intros H. inversion H; auto. Qed.

Lemma filter_all P `{forall x, Decision (P x)} l : Forall P l -> filter P l = l.
Proof. induction 1 as [|x l Hx _ IH]; [done|]. by rewrite filter_cons_True, IH. Qed.
End Lists.

(** ** The least element seen by a loop *)

Section Least.
Context {A : Type} (R : A -> A -> Prop) `{!RelDecision R}.

(** One iteration: [best] is replaced by a strictly smaller element. *)
Definition keep_least (best : option A) (x : A) : option A :=
  match best with None => Some x | Some b => Some (if decide (R x b) then x else b) end.

Hypothesis R_trans : forall x y z, R x y -> R y z -> R x z.
Hypothesis R_total : forall x y, R x y \/ x = y \/ R y x.

Lemma keep_least_spec l :
  match fold_left keep_least l None with
  | None => l = []
  | Some p => p ∈ l /\ forall q, q ∈ l -> q = p \/ R p q
  end.
Proof.
  induction l as [|x l IH] using rev_ind; [done|]. rewrite fold_left_app. cbn [fold_left].
  destruct (fold_left keep_least l None) as [b|]; cbn.
  - destruct IH as [Hb IH]. destruct (decide (R x b)) as [H|H].
    + split; [set_solver|]. intros q [Hq|Hq]%elem_of_app; [right|left; set_solver].
      destruct (IH q Hq) as [->|Hbq]; [done|by eapply R_trans].
    + split; [set_solver|]. intros q [Hq|Hq]%elem_of_app; [by apply IH|].
      apply list_elem_of_singleton in Hq as ->. destruct (R_total b x) as [?|[?|?]]; auto. done.
  - subst l. split; [set_solver|]. intros q Hq. left. set_solver.
Qed.
End Least.
