(* ===== verification/Effects.v ===== *)
(** * Effectful code

    Go functions that act on the world and return an error, as state passing with
    an error result: [eff S E A]. [defer] is [finally]; translating an error is
    [map_error]. Reasoning is by weakest preconditions: [wp m Q E s] holds when [m]
    from [s] ends with a value in [Q] or with an error in [E]. *)

From S2P Require Import Prelude.

Definition eff (S E A : Type) : Type := S -> S * res E A.

#[export] Instance eff_ret {S E} : MRet (eff S E) := fun A a s => (s, Ok a).
#[export] Instance eff_bind {S E} : MBind (eff S E) := fun A B k m s =>
  match m s with (s, Ok a) => k a s | (s, Err e) => (s, Err e) end.

Section Operations.
Context {S E : Type}.

Definition modify (f : S -> S) : eff S E unit := fun s => (f s, Ok tt).
Definition fail {A} (e : E) : eff S E A := fun s => (s, Err e).
Definition gets {A} (f : S -> A) : eff S E A := fun s => (s, Ok (f s)).

(** A result of the environment: an error value, or nothing. *)
Definition try_ (err : option E) : eff S E unit :=
  match err with Some e => fail e | None => mret tt end.
Definition lift {A} (r : res E A) : eff S E A := fun s => (s, r).

(** [defer]: [cleanup] runs whether or not [m] fails; its own result is lost. *)
Definition finally {A} (m : eff S E A) (cleanup : eff S E unit) : eff S E A := fun s =>
  let '(s, r) := m s in (fst (cleanup s), r).

(** [defer] with the results in view: what runs depends on them. *)
Definition finally_with {A} (m : eff S E A) (cleanup : res E A -> eff S E unit) : eff S E A := fun s =>
  let '(s, r) := m s in (fst (cleanup r s), r).

Definition map_error {A} (f : E -> E) (m : eff S E A) : eff S E A := fun s =>
  match m s with (s, Err e) => (s, Err (f e)) | r => r end.

Fixpoint each {A} (f : A -> eff S E unit) (l : list A) : eff S E unit :=
  match l with [] => mret tt | x :: r => _ ← f x; each f r end.

(** ** Weakest preconditions *)

Definition wp {A} (m : eff S E A) (Q : A -> S -> Prop) (R : E -> S -> Prop) (s : S) : Prop :=
  match m s with (s', Ok a) => Q a s' | (s', Err e) => R e s' end.

Lemma wp_ret {A} (a : A) Q R s : Q a s -> wp (mret a) Q R s.
Proof. done. Qed.

Lemma wp_bind {A B} (m : eff S E A) (k : A -> eff S E B) Q R s :
  wp m (fun a => wp (k a) Q R) R s -> wp (m ≫= k) Q R s.
Proof. unfold wp, mbind, eff_bind. by destruct (m s) as [s' [a|e]]. Qed.

Lemma wp_mono {A} (m : eff S E A) (Q Q' : A -> S -> Prop) (R R' : E -> S -> Prop) s :
  wp m Q' R' s -> (forall a s, Q' a s -> Q a s) -> (forall e s, R' e s -> R e s) -> wp m Q R s.
Proof. unfold wp. destruct (m s) as [s' [a|e]]; auto. Qed.

Lemma wp_conj {A} (m : eff S E A) (Q Q' : A -> S -> Prop) (R R' : E -> S -> Prop) s :
  wp m Q R s -> wp m Q' R' s -> wp m (fun a s => Q a s /\ Q' a s) (fun e s => R e s /\ R' e s) s.
Proof. unfold wp. by destruct (m s) as [s' [a|e]]. Qed.

Lemma wp_modify f Q R s : Q tt (f s) -> wp (modify f) Q R s.
Proof. done. Qed.

Lemma wp_gets {A} (f : S -> A) Q R s : Q (f s) s -> wp (gets f) Q R s.
Proof. done. Qed.

Lemma wp_fail {A} e (Q : A -> S -> Prop) R s : R e s -> wp (fail e) Q R s.
Proof. done. Qed.

Lemma wp_try err (Q : unit -> S -> Prop) (R : E -> S -> Prop) s :
  Q tt s -> (forall e, R e s) -> wp (try_ err) Q R s.
Proof. intros HQ HR. destruct err; [apply HR|apply HQ]. Qed.

Lemma wp_lift {A} (r : res E A) (Q : A -> S -> Prop) (R : E -> S -> Prop) s :
  match r with Ok a => Q a s | Err e => R e s end -> wp (lift r) Q R s.
Proof. done. Qed.

Lemma wp_map_error {A} f (m : eff S E A) Q (R : E -> S -> Prop) s :
  wp m Q (fun e => R (f e)) s -> wp (map_error f m) Q R s.
Proof. unfold wp, map_error. by destruct (m s) as [s' [a|e]]. Qed.

Lemma wp_finally {A} (m : eff S E A) c Q R s :
  wp m (fun a => wp c (fun _ => Q a) (fun _ => Q a)) (fun e => wp c (fun _ => R e) (fun _ => R e)) s ->
  wp (finally m c) Q R s.
Proof.
  unfold wp, finally. destruct (m s) as [s' [a|e]]; destruct (c s') as [s'' [?|?]]; done.
Qed.

Lemma wp_finally_with {A} (m : eff S E A) c Q R s :
  wp m (fun a => wp (c (Ok a)) (fun _ => Q a) (fun _ => Q a))
       (fun e => wp (c (Err e)) (fun _ => R e) (fun _ => R e)) s ->
  wp (finally_with m c) Q R s.
Proof.
  unfold wp, finally_with. destruct (m s) as [s' [a|e]]; destruct (c _ s') as [s'' [?|?]]; done.
Qed.

Lemma wp_true {A} (m : eff S E A) s : wp m (fun _ _ => True) (fun _ _ => True) s.
Proof. unfold wp. by destruct (m s) as [s' [a|e]]. Qed.

(** What a computation returned satisfies its postcondition. *)
Lemma wp_ok {A} (m : eff S E A) Q R s s' a : wp m Q R s -> m s = (s', Ok a) -> Q a s'.
Proof. unfold wp. intros H Em. by rewrite Em in H. Qed.

Lemma wp_err {A} (m : eff S E A) Q R s s' e : wp m Q R s -> m s = (s', Err e) -> R e s'.
Proof. unfold wp. intros H Em. by rewrite Em in H. Qed.

(** ** Invariants of a computation *)

(** [m] keeps [I], whether it returns or fails. *)
Definition keeps {A} (I : S -> Prop) (m : eff S E A) : Prop :=
  forall s, I s -> wp m (fun _ => I) (fun _ => I) s.

Lemma keeps_ret {A} I (a : A) : keeps I (mret a).
Proof. by intros s H. Qed.

Lemma keeps_fail {A} I e : keeps (A := A) I (fail e).
Proof. by intros s H. Qed.

Lemma keeps_lift {A} I (r : res E A) : keeps I (lift r).
Proof. intros s H. apply wp_lift. by destruct r. Qed.

Lemma keeps_gets {A} I (f : S -> A) : keeps I (gets f).
Proof. by intros s H. Qed.

Lemma keeps_modify I f : (forall s, I s -> I (f s)) -> keeps I (modify f).
Proof. intros H s Hs. by apply H. Qed.

Lemma keeps_bind {A B} I (m : eff S E A) (k : A -> eff S E B) :
  keeps I m -> (forall a, keeps I (k a)) -> keeps I (m ≫= k).
Proof.
  intros Hm Hk s Hs. apply wp_bind. apply (wp_mono _ _ (fun _ => I) _ (fun _ => I)); [by apply Hm| |done].
  intros a s' Hs'. by apply Hk.
Qed.

Lemma keeps_finally {A} I (m : eff S E A) c : keeps I m -> keeps I c -> keeps I (finally m c).
Proof.
  intros Hm Hc s Hs. apply wp_finally.
  apply (wp_mono _ _ (fun _ => I) _ (fun _ => I)); [by apply Hm| |]; intros ? s'; apply Hc.
Qed.

Lemma keeps_each {A} I (f : A -> eff S E unit) l : (forall x, x ∈ l -> keeps I (f x)) -> keeps I (each f l).
Proof.
  induction l as [|x l IH]; intros Hf; cbn [each]; [apply keeps_ret|].
  apply keeps_bind; [apply Hf; left|]. intros _. apply IH. intros y Hy. apply Hf. by right.
Qed.

Lemma keeps_if {A} I (b : bool) (m1 m2 : eff S E A) : keeps I m1 -> keeps I m2 -> keeps I (if b then m1 else m2).
Proof. by destruct b. Qed.
End Operations.

(** Step through a computation up to the next operation with a specification;
    clients extend it with their own operations. *)
Ltac wp_core :=
  lazymatch goal with
  | |- wp (mbind _ _) _ _ _ => apply wp_bind
  | |- wp (mret _) _ _ _ => apply wp_ret
  | |- wp (gets _) _ _ _ => apply wp_gets
  | |- wp (modify _) _ _ _ => apply wp_modify
  | |- wp (fail _) _ _ _ => apply wp_fail
  | |- wp (map_error _ _) _ _ _ => apply wp_map_error
  | |- wp (finally _ _) _ _ _ => apply wp_finally
  | |- wp (finally_with _ _) _ _ _ => apply wp_finally_with
  | |- wp (let '(_, _) := ?p in _) _ _ _ => destruct p
  end.

Create HintDb keeps.
#[export] Hint Resolve keeps_ret keeps_fail keeps_lift keeps_gets keeps_bind keeps_finally keeps_each
  keeps_if : keeps.
