(* ===== verification/GoStrings.v ===== *)
(** * Go strings

    The part of Go's [strings], [unicode/utf8], [strconv] and [path] packages
    that the modelled code calls. A Go string is an immutable sequence of
    bytes, and so is a Rocq [string]; runes are obtained by decoding UTF-8 with
    the acceptance table of [unicode/utf8], an invalid byte decoding to
    [RuneError] with width one, as [range] over a Go string does.

    The only table left open is the simple lower-case mapping of the runes
    outside ASCII ([unicode.ToLower]): it is the [uni_lower] field of the class
    [UnicodeTables], so every theorem holds for any version of the table. *)

From S2P Require Import Prelude.

Class UnicodeTables := { uni_lower : Z -> Z }.

(** A concrete table: no rune outside ASCII has a lower-case form. *)
Definition ascii_tables : UnicodeTables := {| uni_lower := fun r => r |}.

(** ** Bytes and UTF-8 decoding *)

Definition b2z (a : ascii) : Z := Z.of_N (N_of_ascii a).
Definition z2b (z : Z) : ascii := ascii_of_N (Z.to_N z).

Definition in_range (lo hi z : Z) : bool := (lo <=? z)%Z && (z <=? hi)%Z.

(** One step of decoding: the rune, the bytes it was read from and whether
    those bytes were well formed. *)
Record rune := mk_rune { rune_val : Z; rune_bytes : string; rune_ok : bool }.

Definition RuneError : Z := 65533.
Definition str1 (a : ascii) : string := String a EmptyString.
Definition bad_rune (a : ascii) : rune := mk_rune RuneError (str1 a) false.

Definition cont_byte (a : ascii) : bool := in_range 128 191 (b2z a).
Definition low6 (a : ascii) : Z := Z.land (b2z a) 63.

(** Lead bytes with the range their second byte must fall in. *)
Definition lead2 (b0 b1 : ascii) : bool := in_range 194 223 (b2z b0) && cont_byte b1.
Definition lead3 (b0 b1 : ascii) : bool :=
  let z := b2z b0 in
  ((z =? 224)%Z && in_range 160 191 (b2z b1)) ||
  ((z =? 237)%Z && in_range 128 159 (b2z b1)) ||
  ((in_range 225 236 z || in_range 238 239 z) && cont_byte b1).
Definition lead4 (b0 b1 : ascii) : bool :=
  let z := b2z b0 in
  ((z =? 240)%Z && in_range 144 191 (b2z b1)) ||
  ((z =? 244)%Z && in_range 128 143 (b2z b1)) ||
  (in_range 241 243 z && cont_byte b1).

Definition val2 (b0 b1 : ascii) : Z :=
  Z.lor (Z.shiftl (Z.land (b2z b0) 31) 6) (low6 b1).
Definition val3 (b0 b1 b2 : ascii) : Z :=
  Z.lor (Z.shiftl (Z.land (b2z b0) 15) 12) (Z.lor (Z.shiftl (low6 b1) 6) (low6 b2)).
Definition val4 (b0 b1 b2 b3 : ascii) : Z :=
  Z.lor (Z.shiftl (Z.land (b2z b0) 7) 18)
    (Z.lor (Z.shiftl (low6 b1) 12) (Z.lor (Z.shiftl (low6 b2) 6) (low6 b3))).

Fixpoint runes (s : string) : list rune :=
  match s with
  | EmptyString => []
  | String b0 r0 =>
      if (b2z b0 <? 128)%Z then mk_rune (b2z b0) (str1 b0) true :: runes r0
      else match r0 with
      | EmptyString => [bad_rune b0]
      | String b1 r1 =>
          if lead2 b0 b1
          then mk_rune (val2 b0 b1) (String b0 (str1 b1)) true :: runes r1
          else match r1 with
          | EmptyString => bad_rune b0 :: runes r0
          | String b2 r2 =>
              if lead3 b0 b1 && cont_byte b2
              then mk_rune (val3 b0 b1 b2) (String b0 (String b1 (str1 b2))) true
                     :: runes r2
              else match r2 with
              | EmptyString => bad_rune b0 :: runes r0
              | String b3 r3 =>
                  if lead4 b0 b1 && cont_byte b2 && cont_byte b3
                  then mk_rune (val4 b0 b1 b2 b3)
                         (String b0 (String b1 (String b2 (str1 b3)))) true :: runes r3
                  else bad_rune b0 :: runes r0
              end
          end
      end
  end.

(** The bytes a list of runes was decoded from. *)
Fixpoint cat (ts : list rune) : string :=
  match ts with [] => "" | t :: r => rune_bytes t +:+ cat r end.

(** [utf8.Valid] / [utf8.ValidString]. *)
Definition utf8_valid (s : string) : bool := forallb rune_ok (runes s).

(** [utf8.RuneCountInString]. *)
Definition rune_count (s : string) : nat := length (runes s).

(** [utf8.AppendRune] for the runes a lower-case mapping produces. *)
Definition encode_rune (r : Z) : string :=
  if (r <? 128)%Z then str1 (z2b r)
  else if (r <? 2048)%Z then
    String (z2b (192 + Z.shiftr r 6)) (str1 (z2b (128 + Z.land r 63)))
  else if (r <? 65536)%Z then
    String (z2b (224 + Z.shiftr r 12))
      (String (z2b (128 + Z.land (Z.shiftr r 6) 63)) (str1 (z2b (128 + Z.land r 63))))
  else
    String (z2b (240 + Z.shiftr r 18))
      (String (z2b (128 + Z.land (Z.shiftr r 12) 63))
        (String (z2b (128 + Z.land (Z.shiftr r 6) 63)) (str1 (z2b (128 + Z.land r 63))))).

(** The replacement character U+FFFD, encoded. *)
Definition replacement : string := encode_rune RuneError.

(** ** [unicode.IsSpace] and the trimming functions *)

Definition is_space (r : Z) : bool :=
  in_range 9 13 r || (r =? 32)%Z || (r =? 133)%Z || (r =? 160)%Z ||
  (r =? 5760)%Z || in_range 8192 8202 r || (r =? 8232)%Z || (r =? 8233)%Z ||
  (r =? 8239)%Z || (r =? 8287)%Z || (r =? 12288)%Z.

Fixpoint drop_while {A} (p : A -> bool) (l : list A) : list A :=
  match l with
  | [] => []
  | x :: r => if p x then drop_while p r else l
  end.
Definition drop_while_end {A} (p : A -> bool) (l : list A) : list A :=
  reverse (drop_while p (reverse l)).

Definition rune_space (t : rune) : bool := is_space (rune_val t).

(** [strings.TrimRightFunc(s, unicode.IsSpace)]. *)
Definition trim_right_space (s : string) : string :=
  cat (drop_while_end rune_space (runes s)).

(** [strings.TrimSpace]. *)
Definition trim_space (s : string) : string :=
  cat (drop_while_end rune_space (drop_while rune_space (runes s))).

(** [strings.Fields]: the maximal runs of non-space runes. *)
Fixpoint fields_go (ts : list rune) (cur : string) : list string :=
  match ts with
  | [] => if String.eqb cur "" then [] else [cur]
  | t :: r =>
      if rune_space t
      then (if String.eqb cur "" then [] else [cur]) ++ fields_go r ""
      else fields_go r (cur +:+ rune_bytes t)
  end.
Definition fields (s : string) : list string := fields_go (runes s) "".

(** [strings.ToValidUTF8(s, "\uFFFD")]: every run of invalid bytes becomes one
    replacement character. *)
Fixpoint to_valid_go (ts : list rune) (in_bad : bool) : string :=
  match ts with
  | [] => ""
  | t :: r =>
      if rune_ok t then rune_bytes t +:+ to_valid_go r false
      else (if in_bad then "" else replacement) +:+ to_valid_go r true
  end.
Definition to_valid_utf8 (s : string) : string := to_valid_go (runes s) false.

(** ** [strings.ToLower] *)

Section ToLower.
  Context {UT : UnicodeTables}.

Definition lower_rune (r : Z) : Z :=
  if (r <? 128)%Z then (if in_range 65 90 r then r + 32 else r)%Z else uni_lower r.

Definition to_lower (s : string) : string :=
  foldr (fun t acc => encode_rune (lower_rune (rune_val t)) +:+ acc) "" (runes s).
End ToLower.

(** [strings.ToUpper] on the ASCII letters, identity on the other bytes. *)
Definition upper_byte (a : ascii) : ascii :=
  if in_range 97 122 (b2z a) then z2b (b2z a - 32) else a.

(** ** Searching and splitting *)

Definition has_prefix (p s : string) : bool := String.prefix p s.

Fixpoint drop_bytes (n : nat) (s : string) : string :=
  match n, s with
  | S n, String _ r => drop_bytes n r
  | _, _ => s
  end.
Fixpoint take_bytes (n : nat) (s : string) : string :=
  match n, s with
  | S n, String a r => String a (take_bytes n r)
  | _, _ => ""
  end.

Definition has_suffix (suf s : string) : bool :=
  (String.length suf <=? String.length s)%nat &&
  String.eqb (drop_bytes (String.length s - String.length suf) s) suf.

Definition trim_prefix (p s : string) : string :=
  if has_prefix p s then drop_bytes (String.length p) s else s.
Definition trim_suffix (suf s : string) : string :=
  if has_suffix suf s then take_bytes (String.length s - String.length suf) s else s.

Fixpoint contains (sub s : string) : bool :=
  has_prefix sub s || match s with EmptyString => false | String _ r => contains sub r end.

(** [strings.ContainsAny] for a set of ASCII characters. *)
Fixpoint contains_any (chars s : string) : bool :=
  match s with
  | EmptyString => false
  | String a r => contains (str1 a) chars || contains_any chars r
  end.

Definition contains_byte (c : ascii) (s : string) : bool := contains (str1 c) s.

(** [strings.Split] with a one-byte separator; [Split("", sep)] is [[""]]. *)
Fixpoint split_byte (c : ascii) (s : string) : list string :=
  match s with
  | EmptyString => [""]
  | String a r =>
      if Ascii.eqb a c then "" :: split_byte c r
      else match split_byte c r with
           | [] => [str1 a]
           | w :: ws => String a w :: ws
           end
  end.

(** [strings.Cut] with a one-byte separator. *)
Fixpoint cut_byte (c : ascii) (s : string) : option (string * string) :=
  match s with
  | EmptyString => None
  | String a r =>
      if Ascii.eqb a c then Some ("", r)
      else match cut_byte c r with
           | Some (x, y) => Some (String a x, y)
           | None => None
           end
  end.

(** [strings.ReplaceAll] of a one-byte pattern. *)
Fixpoint replace_byte (c : ascii) (by_ : string) (s : string) : string :=
  match s with
  | EmptyString => ""
  | String a r =>
      if Ascii.eqb a c then by_ +:+ replace_byte c by_ r
      else String a (replace_byte c by_ r)
  end.

Fixpoint count_byte (c : ascii) (s : string) : nat :=
  match s with
  | EmptyString => 0
  | String a r => (if Ascii.eqb a c then 1 else 0) + count_byte c r
  end.

Definition LF : ascii := "010"%char.
Definition CR : ascii := "013"%char.
Definition NUL : ascii := "000"%char.
Definition nl : string := str1 LF.

(** ** [path.Ext] and [path.Base] *)

(** [ext_go s] scans forward and keeps the suffix from the last dot seen since
    the last slash, which is what the backward loop of [path.Ext] returns. *)
Fixpoint ext_go (s acc : string) : string :=
  match s with
  | EmptyString => acc
  | String a r =>
      if Ascii.eqb a "/" then ext_go r ""
      else if Ascii.eqb a "." then ext_go r s
      else ext_go r acc
  end.
Definition path_ext (s : string) : string := ext_go s "".

(** The part after the last slash, or the whole string. *)
Fixpoint last_component (s cur : string) : string :=
  match s with
  | EmptyString => cur
  | String a r => if Ascii.eqb a "/" then last_component r r else last_component r cur
  end.

Fixpoint trim_right_bytes (c : ascii) (s : string) : string :=
  match s with
  | EmptyString => ""
  | String a r =>
      let r' := trim_right_bytes c r in
      if Ascii.eqb a c && String.eqb r' "" then "" else String a r'
  end.
Fixpoint trim_left_bytes (c : ascii) (s : string) : string :=
  match s with
  | EmptyString => ""
  | String a r => if Ascii.eqb a c then trim_left_bytes c r else s
  end.

(** [path.Base] (and [filepath.Base] on Linux). *)
Definition path_base (s : string) : string :=
  if String.eqb s "" then "."
  else let t := trim_right_bytes "/" s in
       let b := last_component t t in
       if String.eqb b "" then "/" else b.

(** ** Decimal integers ([strconv.FormatInt], [strconv.ParseInt]) *)

Definition min_int64 : Z := (- 2 ^ 63)%Z.
Definition max_int64 : Z := (2 ^ 63 - 1)%Z.
Definition int64 (z : Z) : Prop := (min_int64 <= z <= max_int64)%Z.

(** Two's complement: the int64 an operation leaves. *)
Definition wrap64 (z : Z) : Z := ((z + 2 ^ 63) mod 2 ^ 64 - 2 ^ 63)%Z.

Lemma wrap64_id z : int64 z -> wrap64 z = z.
Proof. unfold int64, min_int64, max_int64, wrap64. intros H. rewrite Z.mod_small by lia. lia. Qed.

Definition digit_char (d : Z) : ascii := z2b (48 + d).

Fixpoint fmt_digits (fuel : nat) (n : Z) (acc : string) : string :=
  match fuel with
  | O => acc
  | S f =>
      let acc' := String (digit_char (n mod 10)) acc in
      if (n <? 10)%Z then acc' else fmt_digits f (n / 10) acc'
  end.
Definition fmt_nat (n : Z) : string := fmt_digits (S (Z.to_nat (Z.log2 n))) n "".
Definition fmt_int (z : Z) : string :=
  if (z <? 0)%Z then String "-" (fmt_nat (- z)) else fmt_nat z.

Definition is_digit (a : ascii) : bool := in_range 48 57 (b2z a).

Fixpoint parse_digits (s : string) (acc : Z) : option Z :=
  match s with
  | EmptyString => Some acc
  | String a r =>
      if is_digit a then parse_digits r (acc * 10 + (b2z a - 48))%Z else None
  end.
Definition parse_uint (s : string) : option Z :=
  match s with EmptyString => None | _ => parse_digits s 0 end.

Definition parse_int (s : string) : option Z :=
  let v := match s with
           | String "+" r => parse_uint r
           | String "-" r => Z.opp <$> parse_uint r
           | _ => parse_uint s
           end in
  match v with
  | Some z => if in_range min_int64 max_int64 z then Some z else None
  | None => None
  end.

(** * Lemmas *)

Create HintDb gostr.
Create Rewrite HintDb gostr.

Lemma app_nil_r_s s : s +:+ "" = s.
Proof. induction s as [|a s IH]; cbn; [done|by rewrite IH]. Qed.
Lemma app_assoc_s s1 s2 s3 : (s1 +:+ s2) +:+ s3 = s1 +:+ (s2 +:+ s3).
Proof. induction s1 as [|a s IH]; cbn; [done|by rewrite IH]. Qed.
Lemma length_app_s s1 s2 : String.length (s1 +:+ s2) = String.length s1 + String.length s2.
Proof. induction s1 as [|a s IH]; cbn; [done|by rewrite IH]. Qed.
Lemma app_cons_s a s1 s2 : String a s1 +:+ s2 = String a (s1 +:+ s2).
Proof. done. Qed.
#[export] Hint Rewrite app_nil_r_s app_assoc_s length_app_s app_cons_s : gostr.

Lemma cat_app ts us : cat (ts ++ us) = cat ts +:+ cat us.
Proof. induction ts as [|t ts IH]; cbn; [done|by rewrite IH, app_assoc_s]. Qed.

(** ** Decoding loses nothing *)

(** Strong induction on the length of a string. *)
Lemma string_ind_len (P : string -> Prop) :
  (forall s, (forall s', (String.length s' < String.length s)%nat -> P s') -> P s) -> forall s, P s.
Proof.
  intros IH s. remember (String.length s) as n eqn:E.
  revert s E. induction (lt_wf n) as [n _ Hn]. intros s ->.
  apply IH. intros s' Hs. by eapply Hn.
Qed.

(** One decoding step: the head token, the rest of the input, and the fact that
    a well-formed token decodes to itself whatever follows it. *)
Definition self_decoding (t : rune) : Prop :=
  forall s, runes (rune_bytes t +:+ s) = t :: runes s.

Ltac decode_as t s' :=
  exists t, s'; split_and!;
  [done|done|cbn; lia|intros Hok; try discriminate Hok; intros s; cbn|intros Hok; done].

Lemma runes_step a r :
  exists t s', runes (String a r) = t :: runes s' /\
    String a r = rune_bytes t +:+ s' /\
    (String.length s' < String.length (String a r))%nat /\
    (rune_ok t = true -> self_decoding t) /\
    (rune_ok t = false -> t = bad_rune a).
Proof.
  cbn [runes].
  destruct (b2z a <? 128)%Z eqn:E0.
  { decode_as (mk_rune (b2z a) (str1 a) true) r. by rewrite E0. }
  destruct r as [|b1 r1].
  { decode_as (bad_rune a) "". }
  destruct (lead2 a b1) eqn:E1.
  { decode_as (mk_rune (val2 a b1) (String a (str1 b1)) true) r1. by rewrite E0, E1. }
  destruct r1 as [|b2 r2].
  { decode_as (bad_rune a) (String b1 ""). }
  destruct (lead3 a b1 && cont_byte b2) eqn:E2.
  { decode_as (mk_rune (val3 a b1 b2) (String a (String b1 (str1 b2))) true) r2.
    by rewrite E0, E1, E2. }
  destruct r2 as [|b3 r3].
  { decode_as (bad_rune a) (String b1 (String b2 "")). }
  destruct (lead4 a b1 && cont_byte b2 && cont_byte b3) eqn:E3.
  { decode_as (mk_rune (val4 a b1 b2 b3) (String a (String b1 (String b2 (str1 b3)))) true) r3.
    by rewrite E0, E1, E2, E3. }
  decode_as (bad_rune a) (String b1 (String b2 (String b3 r3))).
Qed.

(** The tokens of a string: each is self-decoding or a single bad byte. *)
Definition wf_rune (t : rune) : Prop :=
  (rune_ok t = true -> self_decoding t) /\
  (rune_ok t = false -> exists a, t = bad_rune a).

Lemma runes_wf s : Forall wf_rune (runes s).
Proof.
  induction s as [s IH] using string_ind_len. destruct s as [|a r]; [by constructor|].
  destruct (runes_step a r) as (t & s' & -> & _ & Hlen & Hok & Hbad).
  constructor; [split; eauto|by apply IH].
Qed.

(** Decoding keeps every byte: the tokens concatenate back to the input. *)
Lemma cat_runes s : cat (runes s) = s.
Proof.
  induction s as [s IH] using string_ind_len. destruct s as [|a r]; [done|].
  destruct (runes_step a r) as (t & s' & -> & Heq & Hlen & _).
  cbn. by rewrite IH, <- Heq.
Qed.

Lemma runes_cat ts s :
  Forall (fun t => wf_rune t /\ rune_ok t = true) ts -> runes (cat ts +:+ s) = ts ++ runes s.
Proof.
  induction 1 as [|t ts [[Hwf _] Hok] _ IH]; [done|].
  cbn. by rewrite app_assoc_s, (Hwf Hok), IH.
Qed.

Lemma utf8_valid_runes s :
  utf8_valid s = true -> Forall (fun t => wf_rune t /\ rune_ok t = true) (runes s).
Proof.
  unfold utf8_valid. rewrite forallb_forall. intros Hv. apply Forall_forall. intros t Ht.
  split; [|by apply Hv, list_elem_of_In].
  pose proof (runes_wf s) as Hw. rewrite Forall_forall in Hw. by apply Hw.
Qed.

(** A valid prefix is decoded on its own. *)
Lemma runes_app_valid s1 s2 : utf8_valid s1 = true -> runes (s1 +:+ s2) = runes s1 ++ runes s2.
Proof.
  intros Hv. rewrite <- (cat_runes s1) at 1. by apply runes_cat, utf8_valid_runes.
Qed.

Lemma utf8_valid_app s1 s2 :
  utf8_valid s1 = true -> utf8_valid (s1 +:+ s2) = utf8_valid s2.
Proof.
  intros Hv. unfold utf8_valid in *. by rewrite runes_app_valid, forallb_app, Hv.
Qed.

Lemma utf8_valid_cat ts :
  Forall (fun t => wf_rune t /\ rune_ok t = true) ts -> utf8_valid (cat ts) = true.
Proof.
  intros Ht. unfold utf8_valid. rewrite <- (app_nil_r_s (cat ts)), runes_cat by done.
  cbn. rewrite app_nil_r. apply forallb_forall. intros t Hin.
  rewrite Forall_forall in Ht. by apply Ht, list_elem_of_In.
Qed.

(** [ToValidUTF8] always yields a valid string, whatever bytes it is given. *)
Lemma to_valid_utf8_valid s : utf8_valid (to_valid_utf8 s) = true.
Proof.
  unfold to_valid_utf8. generalize false. pose proof (runes_wf s) as Hw.
  induction Hw as [|t ts [Hok _] _ IH]; intros b; [done|].
  cbn [to_valid_go]. destruct (rune_ok t) eqn:E.
  - rewrite utf8_valid_app; [apply IH|]. unfold utf8_valid.
    rewrite <- (app_nil_r_s (rune_bytes t)), (Hok eq_refl). cbn. by rewrite E.
  - destruct b; [apply IH|].
    change (utf8_valid (replacement +:+ to_valid_go ts true) = true).
    by rewrite utf8_valid_app.
Qed.

(** It is the identity on valid strings. *)
Lemma to_valid_utf8_id s : utf8_valid s = true -> to_valid_utf8 s = s.
Proof.
  intros Hv%utf8_valid_runes. unfold to_valid_utf8. rewrite <- (cat_runes s) at 2.
  induction Hv as [|t ts [_ Hok] _ IH]; [done|]. cbn. by rewrite Hok, IH.
Qed.

(** An ASCII byte is never part of a longer encoding. *)
Lemma ascii_not_cont a : (b2z a <? 128)%Z = true -> cont_byte a = false.
Proof. unfold cont_byte, in_range. intros ?. apply andb_false_iff. lia. Qed.

Lemma lead_ascii a b :
  (b2z b <? 128)%Z = true -> lead2 a b = false /\ lead3 a b = false /\ lead4 a b = false.
Proof.
  intros Hb. pose proof (ascii_not_cont b Hb) as Hc.
  unfold lead2, lead3, lead4, in_range in *. rewrite Hc.
  split_and!; repeat rewrite ?andb_false_r, ?orb_false_r; [done| |];
    apply orb_false_iff; split; rewrite !andb_false_iff; lia.
Qed.

Lemma runes_app_ascii s a r :
  (b2z a <? 128)%Z = true -> runes (s +:+ String a r) = runes s ++ runes (String a r).
Proof.
  intros Ha. pose proof (ascii_not_cont a Ha) as Hc.
  induction s as [s IH] using string_ind_len.
  destruct s as [|b0 s0]; [done|].
  assert (Hrec : forall s', (String.length s' < S (String.length s0))%nat ->
    runes (s' +:+ String a r) = runes s' ++ runes (String a r)) by (intros; by apply IH).
  clear IH. cbn [String.append]. remember (runes (String a r)) as tail eqn:Et.
  cbn [runes]. destruct (b2z b0 <? 128)%Z eqn:E0; [cbn; rewrite Hrec by lia; done|].
  destruct s0 as [|b1 s1]; cbn [String.append].
  { destruct (lead_ascii b0 a Ha) as (-> & -> & ->). cbn [andb]. rewrite Et.
    destruct r as [|c r]; [done|]. by destruct r. }
  destruct (lead2 b0 b1); [cbn; rewrite Hrec by (cbn; lia); done|].
  destruct s1 as [|b2 s2]; cbn [String.append].
  { rewrite Hc, !andb_false_r. cbn [andb]. pose proof (Hrec (String b1 "") ltac:(cbn; lia)) as H1.
    cbn [String.append] in H1. rewrite H1. by destruct r. }
  destruct (lead3 b0 b1 && cont_byte b2); [cbn; rewrite Hrec by (cbn; lia); done|].
  destruct s2 as [|b3 s3]; cbn [String.append].
  { rewrite Hc, !andb_false_r. pose proof (Hrec (String b1 (String b2 "")) ltac:(cbn; lia)) as H1.
    cbn [String.append] in H1. by rewrite H1. }
  destruct (lead4 b0 b1 && cont_byte b2 && cont_byte b3); [cbn; rewrite Hrec by (cbn; lia); done|].
  pose proof (Hrec (String b1 (String b2 (String b3 s3))) ltac:(cbn; lia)) as H1.
  cbn [String.append] in H1. by rewrite H1.
Qed.

Lemma utf8_valid_app_ascii s a r :
  (b2z a <? 128)%Z = true ->
  utf8_valid (s +:+ String a r) = utf8_valid s && utf8_valid (String a r).
Proof. intros Ha. unfold utf8_valid. by rewrite runes_app_ascii, forallb_app. Qed.

(** ** Trimming *)

Lemma drop_while_app_r {A} (p : A -> bool) l x : p x = false -> drop_while p (l ++ [x]) <> [].
Proof. intros Hx. induction l as [|y l IH]; cbn; [by rewrite Hx|]. by destruct (p y). Qed.

Lemma drop_while_idem {A} (p : A -> bool) l : drop_while p (drop_while p l) = drop_while p l.
Proof. induction l as [|x l IH]; cbn; [done|]. destruct (p x) eqn:E; [done|]. cbn. by rewrite E. Qed.

Lemma drop_while_end_idem {A} (p : A -> bool) l :
  drop_while_end p (drop_while_end p l) = drop_while_end p l.
Proof. unfold drop_while_end. by rewrite reverse_involutive, drop_while_idem. Qed.

Lemma drop_while_end_snoc {A} (p : A -> bool) l x :
  drop_while_end p (l ++ [x]) = if p x then drop_while_end p l else l ++ [x].
Proof.
  unfold drop_while_end. rewrite reverse_snoc. cbn [drop_while]. destruct (p x); [done|].
  by rewrite <- reverse_snoc, reverse_involutive.
Qed.

Lemma drop_while_Forall {A} (P : A -> Prop) (p : A -> bool) l :
  Forall P l -> Forall P (drop_while p l).
Proof. induction 1 as [|x l Hx Hl IH]; cbn; [done|]. destruct (p x); [done|by constructor]. Qed.

Lemma drop_while_end_Forall {A} (P : A -> Prop) (p : A -> bool) l :
  Forall P l -> Forall P (drop_while_end p l).
Proof. intros H. by apply Forall_reverse, drop_while_Forall, Forall_reverse. Qed.
#[export] Hint Resolve drop_while_Forall drop_while_end_Forall : gostr.

(** ** Splitting *)

Definition no_byte (c : ascii) (s : string) : Prop := count_byte c s = 0.

Lemma no_byte_cons c a s : no_byte c (String a s) <-> a <> c /\ no_byte c s.
Proof.
  unfold no_byte. cbn. destruct (Ascii.eqb_spec a c); split; [lia|by intros [??]|by split|by intros [_ ?]].
Qed.

Lemma count_byte_app c s1 s2 : count_byte c (s1 +:+ s2) = count_byte c s1 + count_byte c s2.
Proof. induction s1 as [|a s IH]; cbn; [done|]. rewrite IH. lia. Qed.
#[export] Hint Rewrite count_byte_app : gostr.

Lemma no_byte_app c s1 s2 : no_byte c (s1 +:+ s2) <-> no_byte c s1 /\ no_byte c s2.
Proof. unfold no_byte. rewrite count_byte_app. lia. Qed.

Lemma split_byte_ne c s : split_byte c s <> [].
Proof. destruct s as [|a s]; cbn; [done|]. case_match; [done|]. by case_match. Qed.

Lemma split_byte_app c s r :
  no_byte c s -> split_byte c (s +:+ String c r) = s :: split_byte c r.
Proof.
  induction s as [|a s IH]; intros H; cbn.
  - by rewrite Ascii.eqb_refl.
  - apply no_byte_cons in H as [Ha Hs]. rewrite (proj2 (Ascii.eqb_neq _ _) Ha), IH by done. done.
Qed.

Lemma split_byte_none c s : no_byte c s -> split_byte c s = [s].
Proof.
  induction s as [|a s IH]; intros H; cbn; [done|].
  apply no_byte_cons in H as [Ha Hs]. by rewrite (proj2 (Ascii.eqb_neq _ _) Ha), IH.
Qed.

Lemma length_split_byte c s : length (split_byte c s) = S (count_byte c s).
Proof.
  induction s as [|a s IH]; cbn; [done|]. destruct (Ascii.eqb a c); cbn; [lia|].
  destruct (split_byte c s) eqn:E; [by apply split_byte_ne in E|]. cbn in *. lia.
Qed.

Lemma split_byte_pieces c s : Forall (no_byte c) (split_byte c s).
Proof.
  induction s as [|a s IH]; cbn; [by repeat constructor|].
  destruct (Ascii.eqb_spec a c) as [->|Hne]; [by constructor|].
  destruct (split_byte c s) as [|w ws]; [by repeat constructor; apply no_byte_cons|].
  inversion_clear IH. constructor; [by apply no_byte_cons|done].
Qed.

Lemma cut_byte_app c s r : no_byte c s -> cut_byte c (s +:+ String c r) = Some (s, r).
Proof.
  induction s as [|a s IH]; intros H; cbn; [by rewrite Ascii.eqb_refl|].
  apply no_byte_cons in H as [Ha Hs]. by rewrite (proj2 (Ascii.eqb_neq _ _) Ha), IH.
Qed.

(** ** Prefixes *)

Lemma has_prefix_app p s : has_prefix p (p +:+ s) = true.
Proof. induction p as [|a p IH]; cbn; [by destruct s|]. by destruct (ascii_dec a a). Qed.

Lemma drop_bytes_app p s : drop_bytes (String.length p) (p +:+ s) = s.
Proof. induction p as [|a p IH]; cbn; [by destruct s|done]. Qed.

Lemma trim_prefix_app p s : trim_prefix p (p +:+ s) = s.
Proof. unfold trim_prefix. by rewrite has_prefix_app, drop_bytes_app. Qed.

Lemma has_prefix_spec p s : has_prefix p s = true <-> exists r, s = p +:+ r.
Proof.
  split; [|intros [r ->]; apply has_prefix_app].
  revert s. induction p as [|a p IH]; intros s; [by exists s|].
  destruct s as [|b s]; cbn; [done|]. destruct (ascii_dec a b) as [->|]; [|done].
  intros [r ->]%IH. by exists r.
Qed.

Lemma length_drop_bytes n s : String.length (drop_bytes n s) = String.length s - n.
Proof. revert s. induction n as [|n IH]; intros [|a s]; cbn; auto with lia. Qed.

Lemma take_drop_bytes n s : take_bytes n s +:+ drop_bytes n s = s.
Proof. revert s. induction n as [|n IH]; intros [|a s]; cbn; [done..|by rewrite IH]. Qed.

Lemma take_bytes_app s r : take_bytes (String.length s) (s +:+ r) = s.
Proof. induction s as [|a s IH]; cbn; [by destruct r|by rewrite IH]. Qed.

Lemma has_suffix_spec suf s : has_suffix suf s = true <-> exists r, s = r +:+ suf.
Proof.
  unfold has_suffix. rewrite andb_true_iff, Nat.leb_le, String.eqb_eq. split.
  - intros [Hl Hd]. exists (take_bytes (String.length s - String.length suf) s).
    by rewrite <- Hd at 2; rewrite take_drop_bytes.
  - intros [r ->]. rewrite length_app_s. split; [lia|].
    by replace (_ - _) with (String.length r) by lia; rewrite drop_bytes_app.
Qed.

Lemma trim_suffix_app s suf : trim_suffix suf (s +:+ suf) = s.
Proof.
  unfold trim_suffix. rewrite (proj2 (has_suffix_spec suf _)) by eauto.
  by rewrite length_app_s, Nat.add_sub, take_bytes_app.
Qed.

(** ** Decimal round trip *)

Lemma digit_char_val d : (0 <= d < 10)%Z -> b2z (digit_char d) = (48 + d)%Z.
Proof.
  intros Hd. unfold digit_char, b2z, z2b.
  rewrite N_ascii_embedding by lia. lia.
Qed.

Lemma digit_char_digit d : (0 <= d < 10)%Z -> is_digit (digit_char d) = true.
Proof. intros Hd. unfold is_digit, in_range. rewrite digit_char_val by done. lia. Qed.

Lemma parse_fmt_digits fuel n acc k :
  (0 <= n)%Z -> (n < 10 ^ Z.of_nat fuel)%Z -> (0 < fuel)%nat -> (0 <= k)%Z ->
  exists len, parse_digits (fmt_digits fuel n acc) k
    = parse_digits acc (k * 10 ^ len + n)%Z /\ (0 < len)%Z.
Proof.
  revert n acc. induction fuel as [|f IH]; intros n acc Hn Hlt Hf Hk; [lia|].
  cbn [fmt_digits].
  assert (Hd : (0 <= n mod 10 < 10)%Z) by (apply Z.mod_pos_bound; lia).
  destruct (n <? 10)%Z eqn:E.
  - exists 1%Z. cbn [parse_digits]. rewrite digit_char_digit, digit_char_val by done.
    rewrite Z.mod_small by lia. split; [f_equal; lia|lia].
  - assert (Hf' : (0 < f)%nat).
    { destruct f; [|lia]. cbn in Hlt. lia. }
    destruct (IH (n / 10)%Z (String (digit_char (n mod 10)) acc)) as (len & Hp & Hl).
    + by apply Z.div_pos.
    + apply Z.div_lt_upper_bound; [lia|].
      replace (10 * 10 ^ Z.of_nat f)%Z with (10 ^ Z.of_nat (S f))%Z; [done|].
      rewrite Nat2Z.inj_succ, Z.pow_succ_r by lia. done.
    + done.
    + done.
    + exists (len + 1)%Z. split; [|lia]. rewrite Hp. cbn [parse_digits].
      rewrite digit_char_digit, digit_char_val by done. f_equal.
      rewrite Z.pow_add_r by lia. pose proof (Z.div_mod n 10). nia.
Qed.

Lemma fmt_nat_bound n : (0 <= n)%Z -> (n < 10 ^ Z.of_nat (S (Z.to_nat (Z.log2 n))))%Z.
Proof.
  intros Hn. destruct (Z.eq_dec n 0) as [->|Hne]; [done|].
  rewrite Nat2Z.inj_succ, Z2Nat.id by apply Z.log2_nonneg.
  eapply Z.lt_le_trans; [apply Z.log2_spec; lia|].
  apply Z.pow_le_mono_l. lia.
Qed.

Lemma fmt_digits_digits fuel n acc :
  (0 <= n)%Z -> forall a s, fmt_digits fuel n acc = String a s -> (0 < fuel)%nat ->
  is_digit a = true.
Proof.
  revert n acc. induction fuel as [|f IH]; intros n acc Hn a s; [lia|]. cbn [fmt_digits].
  assert (Hd : (0 <= n mod 10 < 10)%Z) by (apply Z.mod_pos_bound; lia).
  destruct (n <? 10)%Z; intros Heq _; [injection Heq as <- _; by apply digit_char_digit|].
  destruct f as [|f]; [injection Heq as <- _; by apply digit_char_digit|].
  eapply IH; [|done|lia]. by apply Z.div_pos.
Qed.

Lemma parse_uint_digits a s : parse_uint (String a s) = parse_digits (String a s) 0.
Proof. done. Qed.

Lemma fmt_nat_cons n : (0 <= n)%Z -> exists a s, fmt_nat n = String a s /\ is_digit a = true.
Proof.
  intros Hn. destruct (fmt_nat n) as [|a s] eqn:E.
  - exfalso. unfold fmt_nat in E.
    destruct (parse_fmt_digits _ n "x" 0 Hn (fmt_nat_bound n Hn) ltac:(lia) ltac:(lia))
      as (len & Hp & _).
    assert (Hx : forall f m acc, acc <> "" -> fmt_digits f m acc <> "").
    { induction f as [|f IHf]; intros m acc Hacc; cbn; [done|].
      destruct (m <? 10)%Z; [done|by apply IHf]. }
    cbn [fmt_digits] in E. destruct (n <? 10)%Z; [done|]. by apply Hx in E.
  - exists a, s. split; [done|]. eapply (fmt_digits_digits _ n ""); [done|exact E|lia].
Qed.

Lemma parse_uint_fmt_nat n : (0 <= n)%Z -> parse_uint (fmt_nat n) = Some n.
Proof.
  intros Hn. destruct (fmt_nat_cons n Hn) as (a & s & E & _).
  rewrite E, parse_uint_digits, <- E. unfold fmt_nat.
  destruct (parse_fmt_digits _ n "" 0 Hn (fmt_nat_bound n Hn) ltac:(lia) ltac:(lia))
    as (len & -> & _). done.
Qed.

Lemma is_digit_not_sign a : is_digit a = true -> a <> "+"%char /\ a <> "-"%char.
Proof. intros Ha. by split; intros ->. Qed.

(** [ParseInt] inverts [FormatInt] on every 64-bit integer. *)
Lemma parse_int_digit a s :
  is_digit a = true ->
  parse_int (String a s) =
    match parse_uint (String a s) with
    | Some z => if in_range min_int64 max_int64 z then Some z else None
    | None => None
    end.
Proof.
  intros [Hp Hm]%is_digit_not_sign. unfold parse_int.
  destruct a as [[] [] [] [] [] [] [] []]; try done; exfalso; by (apply Hp || apply Hm).
Qed.

Lemma parse_int_fmt_int z : int64 z -> parse_int (fmt_int z) = Some z.
Proof.
  intros Hz. assert (Hr : in_range min_int64 max_int64 z = true).
  { unfold in_range. unfold int64 in Hz. lia. }
  unfold fmt_int. destruct (z <? 0)%Z eqn:E.
  - unfold parse_int. rewrite parse_uint_fmt_nat by lia. cbn [fmap option_fmap option_map].
    by rewrite Z.opp_involutive, Hr.
  - destruct (fmt_nat_cons z) as (a & s & Es & Ha); [lia|].
    rewrite Es, parse_int_digit, <- Es, parse_uint_fmt_nat by (done || lia). by rewrite Hr.
Qed.

(** The characters of a printed integer. *)
Definition int_char (a : ascii) : bool := is_digit a || Ascii.eqb a "-".

Fixpoint all_bytes (p : ascii -> bool) (s : string) : bool :=
  match s with EmptyString => true | String a r => p a && all_bytes p r end.

Lemma all_bytes_app p s1 s2 : all_bytes p (s1 +:+ s2) = all_bytes p s1 && all_bytes p s2.
Proof. induction s1 as [|a s IH]; cbn; [done|]. by rewrite IH, andb_assoc. Qed.

Lemma fmt_digits_all fuel n acc :
  (0 <= n)%Z -> all_bytes is_digit acc = true -> all_bytes is_digit (fmt_digits fuel n acc) = true.
Proof.
  revert n acc. induction fuel as [|f IH]; intros n acc Hn Hacc; [done|]. cbn [fmt_digits].
  assert (Hd : (0 <= n mod 10 < 10)%Z) by (apply Z.mod_pos_bound; lia).
  assert (H' : all_bytes is_digit (String (digit_char (n mod 10)) acc) = true).
  { cbn. by rewrite digit_char_digit. }
  destruct (n <? 10)%Z; [done|]. apply IH; [by apply Z.div_pos|done].
Qed.

Lemma all_bytes_impl (p q : ascii -> bool) s :
  (forall a, p a = true -> q a = true) -> all_bytes p s = true -> all_bytes q s = true.
Proof.
  intros Hpq. induction s as [|a s IH]; cbn; [done|].
  rewrite !andb_true_iff. intros [Ha Hs]. auto.
Qed.

Lemma fmt_int_chars z : all_bytes int_char (fmt_int z) = true.
Proof.
  assert (Hn : forall n, (0 <= n)%Z -> all_bytes int_char (fmt_nat n) = true).
  { intros n Hn. apply (all_bytes_impl is_digit); [|by apply fmt_digits_all].
    intros a Ha. unfold int_char. by rewrite Ha. }
  unfold fmt_int. destruct (z <? 0)%Z eqn:E; [|apply Hn; lia].
  cbn [all_bytes]. rewrite Hn by lia. done.
Qed.

Lemma all_bytes_no_byte p c s : p c = false -> all_bytes p s = true -> no_byte c s.
Proof.
  intros Hc. induction s as [|a s IH]; cbn; [done|].
  rewrite andb_true_iff. intros [Ha Hs]. apply no_byte_cons. split; [|by apply IH].
  intros ->. congruence.
Qed.

Lemma fmt_int_no_byte c z : int_char c = false -> no_byte c (fmt_int z).
Proof. intros Hc. eapply all_bytes_no_byte; [done|apply fmt_int_chars]. Qed.

Lemma fmt_int_ne z : fmt_int z <> "".
Proof.
  unfold fmt_int. destruct (z <? 0)%Z eqn:E; [done|].
  destruct (fmt_nat_cons z) as (a & s & -> & _); [lia|done].
Qed.

Lemma fmt_int_inj z1 z2 : int64 z1 -> int64 z2 -> fmt_int z1 = fmt_int z2 -> z1 = z2.
Proof.
  intros H1 H2 E. apply (f_equal parse_int) in E.
  rewrite !parse_int_fmt_int in E by done. congruence.
Qed.

(** ** The last component of a slash-separated name *)

Lemma last_component_none s cur : no_byte "/" s -> last_component s cur = cur.
Proof.
  revert cur. induction s as [|a s IH]; intros cur H; cbn; [done|].
  apply no_byte_cons in H as [Ha Hs]. by rewrite (proj2 (Ascii.eqb_neq _ _) Ha), IH.
Qed.

Lemma last_component_app s r cur :
  no_byte "/" r -> last_component (s +:+ String "/" r) cur = r.
Proof.
  revert cur. induction s as [|a s IH]; intros cur H; cbn.
  - by apply last_component_none.
  - destruct (Ascii.eqb a "/"); by apply IH.
Qed.

(** ** Strings that trimming leaves alone *)

(** Printable ASCII without the space. *)
Definition plain_byte (a : ascii) : bool := in_range 33 126 (b2z a).
Definition plain (s : string) : Prop := all_bytes plain_byte s = true.

Lemma plain_byte_space a : plain_byte a = true -> (b2z a <? 128)%Z = true /\ is_space (b2z a) = false.
Proof. destruct a as [[][][][][][][][]]; vm_compute; intuition discriminate. Qed.

Lemma runes_plain s : plain s -> Forall (fun t => rune_space t = false) (runes s).
Proof.
  unfold plain. induction s as [|a s IH]; [by constructor|]. cbn [all_bytes].
  intros [Ha Hs]%andb_true_iff. destruct (plain_byte_space a Ha) as [Hl Hsp].
  cbn [runes]. rewrite Hl. by constructor; [|apply IH].
Qed.

Lemma drop_while_none {A} (p : A -> bool) l :
  Forall (fun x => p x = false) l -> drop_while p l = l /\ drop_while_end p l = l.
Proof.
  assert (H : forall l, Forall (fun x => p x = false) l -> drop_while p l = l).
  { intros k []; cbn; [done|]. by rewrite H. }
  intros Hl. split; [by apply H|]. unfold drop_while_end.
  rewrite H, reverse_involutive; [done|]. by apply Forall_reverse.
Qed.

Lemma trim_space_plain s : plain s -> trim_space s = s.
Proof.
  intros H%runes_plain. unfold trim_space. destruct (drop_while_none _ _ H) as [-> _].
  destruct (drop_while_none _ _ H) as [_ ->]. apply cat_runes.
Qed.

Lemma trim_space_blank s : trim_space (String " " s) = trim_space s.
Proof. reflexivity. Qed.

Lemma plain_no_byte c s : plain_byte c = false -> plain s -> no_byte c s.
Proof. intros Hc. by apply all_bytes_no_byte. Qed.

Lemma fmt_int_plain z : plain (fmt_int z).
Proof.
  apply (all_bytes_impl int_char); [|apply fmt_int_chars].
  intros [[][][][][][][][]]; vm_compute; done.
Qed.

Lemma fmt_digits_length fuel n acc :
  (String.length (fmt_digits fuel n acc) <= fuel + String.length acc)%nat.
Proof.
  revert n acc. induction fuel as [|f IH]; intros n acc; cbn [fmt_digits]; [lia|].
  destruct (n <? 10)%Z; [cbn; lia|]. etrans; [apply IH|]. cbn. lia.
Qed.

Lemma fmt_int_length z : int64 z -> (String.length (fmt_int z) <= 65)%nat.
Proof.
  unfold int64, min_int64, max_int64. intros Hz.
  assert (H : forall n, (0 <= n <= 2 ^ 63)%Z -> (String.length (fmt_nat n) <= 64)%nat).
  { intros n Hn. unfold fmt_nat. pose proof (fmt_digits_length (S (Z.to_nat (Z.log2 n))) n "") as Hl.
    cbn [String.length] in Hl. assert (Z.log2 n <= 63)%Z; [|lia].
    destruct (decide (n = 0)%Z) as [->|]; [done|].
    transitivity (Z.log2 (2 ^ 63)); [apply Z.log2_le_mono; lia|done]. }
  unfold fmt_int. destruct (z <? 0)%Z eqn:E; cbn [String.length].
  - specialize (H (- z)%Z). lia.
  - specialize (H z). lia.
Qed.

Lemma trim_suffix_byte c s : no_byte c s -> trim_suffix (str1 c) s = s.
Proof.
  intros H. unfold trim_suffix. destruct (has_suffix (str1 c) s) eqn:E; [|done].
  apply has_suffix_spec in E as [r ->]. apply no_byte_app in H as [_ H].
  by apply no_byte_cons in H as [? _].
Qed.

Lemma take_bytes_all n s : (String.length s <= n)%nat -> take_bytes n s = s.
Proof.
  revert n. induction s as [|a s IH]; intros [|n] Hn; cbn in *; try done; [lia|].
  f_equal. apply IH. lia.
Qed.

(** ** The byte order of strings *)

Definition str_lt (a b : string) : Prop := String.ltb a b = true.

Lemma str_lt_compare a b : str_lt a b <-> String.compare a b = Lt.
Proof. unfold str_lt, String.ltb. by destruct (String.compare a b). Qed.

Lemma compare_refl s : String.compare s s = Eq.
Proof.
  induction s as [|a s IH]; [done|]. cbn. unfold Ascii.compare. by rewrite N.compare_refl.
Qed.

Lemma str_lt_irrefl a : ~ str_lt a a.
Proof. rewrite str_lt_compare, compare_refl. done. Qed.

Lemma str_lt_total a b : str_lt a b \/ a = b \/ str_lt b a.
Proof.
  rewrite !str_lt_compare. destruct (String.compare a b) eqn:E; [|by left|].
  - right; left. by apply String.compare_eq_iff.
  - right; right. rewrite String.compare_antisym, E. done.
Qed.

Lemma str_lt_trans a b c : str_lt a b -> str_lt b c -> str_lt a c.
Proof.
  rewrite !str_lt_compare. revert b c. induction a as [|x a IH]; intros [|y b] [|z c]; cbn; try done.
  unfold Ascii.compare.
  destruct (N.compare_spec (N_of_ascii x) (N_of_ascii y)) as [E1|E1|E1];
  destruct (N.compare_spec (N_of_ascii y) (N_of_ascii z)) as [E2|E2|E2]; try done; intros H1 H2.
  - rewrite E1, E2, N.compare_refl. by eapply IH.
  - rewrite E1. by rewrite (proj2 (N.compare_lt_iff _ _) E2).
  - rewrite <- E2. by rewrite (proj2 (N.compare_lt_iff _ _) E1).
  - by rewrite (proj2 (N.compare_lt_iff _ _) (N.lt_trans _ _ _ E1 E2)).
Qed.

Lemma contains_any_false chars c s :
  contains (str1 c) chars = true -> contains_any chars s = false -> no_byte c s.
Proof.
  intros Hc. induction s as [|a s IH]; [done|]. cbn. intros [Ha Hs]%orb_false_iff.
  apply no_byte_cons. split; [|by apply IH]. intros ->. congruence.
Qed.

(** ** Parts of a decoding *)

(** An invalid byte stays invalid when what follows is cut short. *)
Lemma runes_bad_prefix a p q :
  runes (String a (p +:+ q)) = bad_rune a :: runes (p +:+ q) -> runes (String a p) = bad_rune a :: runes p.
Proof.
  cbn [runes]. destruct (b2z a <? 128)%Z; [done|].
  destruct p as [|b1 p]; cbn [String.append]; [done|]. destruct (lead2 a b1); [done|].
  destruct p as [|b2 p]; cbn [String.append]; [done|]. destruct (lead3 a b1 && cont_byte b2); [done|].
  destruct p as [|b3 p]; cbn [String.append]; [done|]. by destruct (lead4 a b1 && cont_byte b2 && cont_byte b3).
Qed.

Lemma runes_prefix l1 l2 s : runes s = l1 ++ l2 -> runes (cat l1) = l1.
Proof.
  revert s. induction l1 as [|t l1 IH]; intros s Hs; [done|].
  destruct s as [|a r]; [done|]. destruct (runes_step a r) as (t' & s' & E & Hb & _ & Hok & Hbad).
  rewrite E in Hs. injection Hs as <- Hs. pose proof (IH _ Hs) as Hl. cbn [cat].
  destruct (rune_ok t') eqn:Et; [by rewrite Hok, Hl|].
  specialize (Hbad eq_refl). subst t'. cbn in Hb. injection Hb as <-. cbn [bad_rune rune_bytes str1 String.append].
  assert (r = cat l1 +:+ cat l2) as Hr by (by rewrite <- cat_app, <- Hs, cat_runes).
  rewrite Hr in E. by rewrite (runes_bad_prefix _ _ _ E), Hl.
Qed.

Lemma runes_suffix l1 l2 s : runes s = l1 ++ l2 -> runes (cat l2) = l2.
Proof.
  revert s. induction l1 as [|t l1 IH]; intros s Hs; [cbn in Hs; by rewrite <- Hs, cat_runes|].
  destruct s as [|a r]; [done|]. destruct (runes_step a r) as (t' & s' & E & _).
  rewrite E in Hs. injection Hs as _ Hs. by eapply IH.
Qed.

Lemma drop_while_split {A} (p : A -> bool) l : exists k, l = k ++ drop_while p l.
Proof.
  induction l as [|x l [k IH]]; cbn; [by exists []|]. destruct (p x); [|by exists []].
  exists (x :: k). cbn. by rewrite <- IH.
Qed.

Lemma drop_while_end_split {A} (p : A -> bool) l : exists k, l = drop_while_end p l ++ k.
Proof.
  destruct (drop_while_split p (reverse l)) as [k Hk]. exists (reverse k). unfold drop_while_end.
  rewrite <- reverse_app, <- Hk. by rewrite reverse_involutive.
Qed.

(** Trimming both ends once is enough. *)
Lemma drop_while_snoc_keep {A} (p : A -> bool) l k : drop_while p (l ++ k) = l ++ k -> l <> [] -> drop_while p l = l.
Proof.
  destruct l as [|x l]; [done|]. intros H _. cbn in H |- *. destruct (p x); [|done].
  destruct (drop_while_split p (l ++ k)) as [j Hj]. rewrite H in Hj. apply (f_equal length) in Hj. cbn in Hj.
  rewrite !length_app in Hj. cbn in Hj. rewrite length_app in Hj. lia.
Qed.

Lemma trim_space_idem s : trim_space (trim_space s) = trim_space s.
Proof.
  unfold trim_space at 1. set (d := drop_while rune_space (runes s)). set (e := drop_while_end rune_space d).
  assert (trim_space s = cat e) as -> by done.
  destruct (drop_while_split rune_space (runes s)) as [k Hk]. fold d in Hk.
  destruct (drop_while_end_split rune_space d) as [j Hj]. fold e in Hj.
  assert (runes (cat e) = e) as ->.
  { apply (runes_prefix e j (cat d)). by rewrite (runes_suffix k d s). }
  assert (drop_while rune_space e = e) as Hd.
  { destruct (decide (e = [])) as [->|He]; [done|]. apply (drop_while_snoc_keep _ e j); [|done].
    rewrite <- Hj. apply drop_while_idem. }
  rewrite Hd. unfold e. by rewrite drop_while_end_idem.
Qed.

Lemma cat_no_byte c l : Forall (fun t => no_byte c (rune_bytes t)) l -> no_byte c (cat l).
Proof. induction 1 as [|t l Ht _ IH]; [done|]. cbn. by apply no_byte_app. Qed.
