(* ===== verification/GoPath.v ===== *)
(** * Paths

    [path.Clean], [filepath.Join] and [filepath.Dir] of Go on a Unix system, by
    components, and what the engine's checks on a cleaned path mean: a path below a
    directory resolves, component by component, below it. *)

From S2P Require Import Prelude GoStrings.

Definition rooted (s : string) : bool := has_prefix "/" s.

(** One component of [path.Clean], on the stack of those kept, last first. *)
Definition path_push (abs : bool) (stack : list string) (e : string) : list string :=
  if String.eqb e "" || String.eqb e "." then stack
  else if String.eqb e ".." then
    match stack with
    | [] => if abs then [] else [".."]
    | top :: rest => if String.eqb top ".." then ".." :: stack else rest
    end
  else e :: stack.

(** The components a path resolves to, lexically. *)
Definition comps (s : string) : list string :=
  rev (fold_left (path_push (rooted s)) (split_byte "/" s) []).

Definition join_comps (l : list string) : string := String.concat "/" l.

Definition path_clean (s : string) : string :=
  if String.eqb s "" then "."
  else if rooted s then "/" +:+ join_comps (comps s)
  else match comps s with [] => "." | l => join_comps l end.

(** [filepath.Join] of two elements. *)
Definition filepath_join (a b : string) : string :=
  if String.eqb a "" then if String.eqb b "" then "" else path_clean b
  else path_clean (a +:+ "/" +:+ b).

(** [filepath.Dir]: what precedes the last separator, cleaned. *)
Definition filepath_dir (s : string) : string :=
  path_clean (take_bytes (String.length s - String.length (last_component s s)) s).

(** [strings.Count(name, "/")]. *)
Definition depth (name : string) : nat := count_byte "/" name.

Example clean_examples :
  map path_clean ["a//b/./c/.."; "/../x"; "../../a/../b"; ""; "/"; "a/.."; "./x"] =
  ["a/b"; "/x"; "../../b"; "."; "/"; "."; "x"].
Proof. reflexivity. Qed.
Example dir_examples : map filepath_dir ["/a/b/c"; "/a"; "x"; "/a/b/"] = ["/a/b"; "/"; "."; "/a/b"].
Proof. reflexivity. Qed.

(** ** Components *)

(** A name of a directory entry other than [.] and [..]. *)
Definition safe (e : string) : Prop := e <> "" /\ e <> "." /\ e <> ".." /\ no_byte "/" e.

Lemma path_push_safe abs stack e : safe e -> path_push abs stack e = e :: stack.
Proof.
  intros (H1 & H2 & H3 & _). unfold path_push.
  by rewrite (proj2 (String.eqb_neq _ _) H1), (proj2 (String.eqb_neq _ _) H2), (proj2 (String.eqb_neq _ _) H3).
Qed.

Lemma push_all_safe abs l stack :
  Forall safe l -> fold_left (path_push abs) l stack = rev l ++ stack.
Proof.
  intros H. revert stack. induction H as [|e l He _ IH]; intros stack; cbn; [done|].
  by rewrite path_push_safe, IH, <- app_assoc.
Qed.

Lemma push_abs stack e :
  Forall safe stack -> no_byte "/" e -> Forall safe (path_push true stack e).
Proof.
  intros Hs He. unfold path_push.
  destruct (String.eqb_spec e ""); [done|]. destruct (String.eqb_spec e "."); [done|].
  cbn. destruct (String.eqb_spec e ".."); [|by constructor].
  destruct Hs as [|top rest (_ & _ & Ht & _) Hr]; [constructor|].
  by rewrite (proj2 (String.eqb_neq _ _) Ht).
Qed.

Lemma fold_push_abs l stack :
  Forall (no_byte "/") l -> Forall safe stack -> Forall safe (fold_left (path_push true) l stack).
Proof.
  intros Hl. revert stack. induction Hl as [|e l He _ IH]; intros stack Hs; cbn; [done|].
  by apply IH, push_abs.
Qed.

Lemma comps_safe s : rooted s = true -> Forall safe (comps s).
Proof.
  intros H. unfold comps. rewrite H. apply Forall_rev, fold_push_abs; [apply split_byte_pieces|constructor].
Qed.

Lemma split_byte_app_gen c s r : split_byte c (s +:+ String c r) = split_byte c s ++ split_byte c r.
Proof.
  induction s as [|a s IH]; cbn; [by rewrite Ascii.eqb_refl|].
  destruct (Ascii.eqb a c); cbn; rewrite IH; [done|].
  destruct (split_byte c s) eqn:E; [by apply split_byte_ne in E|done].
Qed.

Lemma split_join l : l <> [] -> Forall (no_byte "/") l -> split_byte "/" (join_comps l) = l.
Proof.
  intros Hne H. induction H as [|e l He Hl IH]; [done|].
  destruct l as [|e' l]; [by apply split_byte_none|].
  change (join_comps (e :: e' :: l)) with (e +:+ String "/" (join_comps (e' :: l))).
  rewrite split_byte_app by done. by rewrite IH.
Qed.

Lemma safe_no_slash l : Forall safe l -> Forall (no_byte "/") l.
Proof. intros H. eapply Forall_impl; [exact H|]. by intros e (_ & _ & _ & ?). Qed.

Lemma comps_abs l : Forall safe l -> comps ("/" +:+ join_comps l) = l.
Proof.
  intros H. unfold comps.
  assert (rooted ("/" +:+ join_comps l) = true) as -> by apply has_prefix_app.
  change ("/" +:+ join_comps l) with ("" +:+ String "/" (join_comps l)).
  rewrite split_byte_app_gen, fold_left_app. cbn [split_byte fold_left path_push String.eqb orb].
  destruct l as [|e l]; [done|].
  rewrite split_join by (try done; by apply safe_no_slash).
  by rewrite push_all_safe, app_nil_r, rev_involutive.
Qed.

Lemma clean_abs s : rooted s = true -> path_clean s = "/" +:+ join_comps (comps s).
Proof.
  intros H. unfold path_clean. rewrite H. destruct (String.eqb_spec s "") as [->|]; [done|done].
Qed.

Lemma comps_clean s : rooted s = true -> comps (path_clean s) = comps s.
Proof. intros H. rewrite clean_abs by done. by apply comps_abs, comps_safe. Qed.

Lemma rooted_clean s : rooted s = true -> rooted (path_clean s) = true.
Proof. intros H. rewrite clean_abs by done. apply has_prefix_app. Qed.

Lemma rooted_app s r : rooted s = true -> rooted (s +:+ r) = true.
Proof. unfold rooted. intros [x ->]%has_prefix_spec. rewrite app_assoc_s. apply has_prefix_app. Qed.

Lemma rooted_cons_false a s : a <> "/"%char -> rooted (String a s) = false.
Proof.
  intros H. destruct (rooted _) eqn:E; [|done]. apply has_prefix_spec in E as [r [= -> _]]. done.
Qed.

(** A relative path resolves to some leading [..] and then entries. *)
Lemma fold_push_rel l stack k :
  Forall (no_byte "/") l -> Forall safe stack ->
  exists k' stack', fold_left (path_push false) l (stack ++ repeat ".." k) = stack' ++ repeat ".." k' /\
                    Forall safe stack'.
Proof.
  intros Hl. revert stack k. induction Hl as [|e l He _ IH]; intros stack k Hs; cbn; [by eauto|].
  unfold path_push at 2. destruct (String.eqb_spec e ""); [by apply IH|].
  destruct (String.eqb_spec e "."); [by apply IH|].
  cbn. destruct (String.eqb_spec e "..") as [->|].
  - destruct Hs as [|top rest (H1 & H2 & Ht & H3) Hr]; cbn.
    + destruct k as [|k]; cbn; [by apply (IH [] 1)|by apply (IH [] (S (S k)))].
    + rewrite (proj2 (String.eqb_neq _ _) Ht). by apply IH.
  - apply (IH (e :: stack)). by constructor.
Qed.

Lemma comps_rel s : rooted s = false -> exists k l, comps s = repeat ".." k ++ l /\ Forall safe l.
Proof.
  intros H. unfold comps. rewrite H.
  destruct (fold_push_rel (split_byte "/" s) [] 0) as (k & l & E & Hl); [apply split_byte_pieces|done|].
  cbn in E. rewrite E. exists k, (rev l). split; [|by apply Forall_rev].
  rewrite rev_app_distr. f_equal. clear. induction k as [|k IH]; cbn; [done|].
  rewrite IH. clear. induction k; cbn; congruence.
Qed.

(** ** Paths below a directory *)

(** [p] resolves to [dest] or to something below it. *)
Definition below (dest p : string) : Prop := comps dest `prefix_of` comps p.
#[export] Instance below_dec : RelDecision below.
Proof. intros a b. unfold below. apply _. Defined.

(** An absolute, cleaned directory other than the root. *)
Definition clean_dir (dest : string) : Prop :=
  rooted dest = true /\ path_clean dest = dest /\ comps dest <> [].

Lemma below_checked dest name :
  clean_dir dest ->
  let t := filepath_join dest name in
  t = dest \/ has_prefix (dest +:+ "/") t = true -> rooted t = true /\ path_clean t = t /\ below dest t.
Proof.
  intros (Hr & Hc & Hne) t Ht.
  assert (Et : t = path_clean (dest +:+ "/" +:+ name)).
  { unfold t, filepath_join. destruct (String.eqb_spec dest "") as [->|]; done. }
  assert (Hrs : rooted (dest +:+ "/" +:+ name) = true) by by apply rooted_app.
  set (ct := comps (dest +:+ "/" +:+ name)) in *.
  assert (Hsafe : Forall safe ct) by by apply comps_safe.
  assert (Ht2 : t = "/" +:+ join_comps ct) by by rewrite Et, clean_abs.
  assert (Hct : comps t = ct) by by rewrite Ht2, comps_abs.
  assert (Hrt : rooted t = true) by (rewrite Ht2; apply has_prefix_app).
  split_and!; [done|by rewrite clean_abs, Hct, Ht2|].
  unfold below. rewrite Hct. destruct Ht as [Ht|[rest Ht]%has_prefix_spec].
  { exists []. by rewrite <- Hct, Ht, app_nil_r. }
  rewrite app_assoc_s in Ht. change ("/" +:+ rest) with (String "/" rest) in Ht.
  apply (f_equal (split_byte "/")) in Ht. rewrite Ht2, split_byte_app_gen in Ht.
  rewrite <- Hc, clean_abs in Ht by done.
  assert (Hd : split_byte "/" ("/" +:+ join_comps (comps dest)) = "" :: comps dest).
  { change ("/" +:+ ?x) with ("" +:+ String "/" x). rewrite split_byte_app by done.
    rewrite split_join; [done|done|]. by apply safe_no_slash, comps_safe. }
  rewrite Hd in Ht. change ("/" +:+ join_comps ct) with ("" +:+ String "/" (join_comps ct)) in Ht.
  rewrite split_byte_app in Ht by done. destruct ct as [|e ct'].
  - exfalso. cbn in Ht. injection Ht as Ht. pose proof (comps_safe _ Hr) as Hs.
    destruct (comps dest) as [|e l]; [done|]. injection Ht as <- _. by inversion Hs as [|?? [? _]].
  - rewrite split_join in Ht; [|done|by apply safe_no_slash]. injection Ht as Ht.
    rewrite Ht. by eexists.
Qed.

Lemma join_comps_snoc l x : l <> [] -> join_comps (l ++ [x]) = join_comps l +:+ String "/" x.
Proof.
  intros Hne. induction l as [|e l IH]; [done|]. destruct l as [|e' l]; [done|].
  change (join_comps ((e :: e' :: l) ++ [x])) with (e +:+ String "/" (join_comps ((e' :: l) ++ [x]))).
  rewrite IH by done. change (join_comps (e :: e' :: l)) with (e +:+ String "/" (join_comps (e' :: l))).
  by rewrite app_assoc_s.
Qed.

Lemma comps_slash s : s <> "" -> comps (s +:+ "/") = comps s.
Proof.
  intros Hne. unfold comps. change ("/") with (String "/" "") at 2.
  rewrite split_byte_app_gen, fold_left_app. cbn.
  replace (rooted (s +:+ "/")) with (rooted s); [done|].
  destruct s as [|a s]; [done|]. unfold rooted, has_prefix. cbn [String.append String.prefix]. destruct (ascii_dec "/" a); [by destruct s|done].
Qed.

(** The parent of a cleaned absolute path. *)
Lemma comps_dir l x :
  Forall safe l -> safe x ->
  rooted (filepath_dir ("/" +:+ join_comps (l ++ [x]))) = true /\
  comps (filepath_dir ("/" +:+ join_comps (l ++ [x]))) = l.
Proof.
  intros Hl (Hx1 & _ & _ & Hx).
  assert (E : exists P, "/" +:+ join_comps (l ++ [x]) = P +:+ String "/" x /\
                        rooted (P +:+ "/") = true /\ comps (P +:+ "/") = l).
  { destruct l as [|e l]; [by exists ""|]. exists ("/" +:+ join_comps (e :: l)).
    rewrite join_comps_snoc by done. split; [by rewrite app_assoc_s|].
    split; [rewrite app_assoc_s; apply has_prefix_app|].
    rewrite comps_slash by done. by apply comps_abs. }
  destruct E as (P & -> & Hr & Hc). unfold filepath_dir.
  rewrite last_component_app by done. rewrite length_app_s. cbn [String.length].
  replace (String.length P + S (String.length x) - String.length x) with (String.length (P +:+ "/"))
    by (rewrite length_app_s; cbn; lia).
  replace (P +:+ String "/" x) with ((P +:+ "/") +:+ x) by by rewrite app_assoc_s.
  rewrite take_bytes_app. split; [by apply rooted_clean|by rewrite comps_clean].
Qed.

(** A cleaned relative path that does not start by leaving its directory. *)
Lemma rel_safe p :
  rooted p = false -> path_clean p = p -> p <> "." -> p <> ".." -> has_prefix "../" p = false ->
  Forall safe (comps p) /\ p = join_comps (comps p).
Proof.
  intros Hr Hc H1 H2 H3. destruct (comps_rel p Hr) as (k & l & E & Hl).
  assert (Hp : p = join_comps (comps p) /\ comps p <> []).
  { unfold path_clean in Hc. rewrite Hr in Hc. destruct (String.eqb_spec p "") as [->|]; [done|].
    by destruct (comps p). }
  destruct Hp as [Hp Hne]. split; [|done].
  destruct k as [|k]; [by rewrite E|]. exfalso. rewrite E in Hp. cbn in Hp.
  destruct (repeat ".." k ++ l) as [|e r]; [done|].
  change (join_comps (".." :: e :: r)) with ("../" +:+ join_comps (e :: r)) in Hp.
  assert (has_prefix "../" p = true) by (rewrite Hp; apply (has_prefix_app "../")). congruence.
Qed.

Lemma comps_join_rel dest p :
  rooted dest = true -> Forall safe (comps p) -> comps p <> [] -> p = join_comps (comps p) ->
  comps (filepath_join dest p) = comps dest ++ comps p.
Proof.
  intros Hr Hs Hne Hp. unfold filepath_join. destruct (String.eqb_spec dest "") as [->|]; [done|].
  rewrite comps_clean by by apply rooted_app.
  unfold comps at 1. rewrite rooted_app by done. change ("/" +:+ p) with (String "/" p).
  rewrite split_byte_app_gen, fold_left_app. rewrite Hp at 1.
  rewrite split_join by (try done; by apply safe_no_slash).
  rewrite push_all_safe by done. rewrite rev_app_distr, rev_involutive. f_equal.
  unfold comps. by rewrite Hr.
Qed.

(** ** Joining *)

Lemma join_rooted a b :
  rooted a = true -> rooted (filepath_join a b) = true /\ path_clean (filepath_join a b) = filepath_join a b.
Proof.
  intros Hr. unfold filepath_join. destruct (String.eqb_spec a "") as [->|]; [done|].
  assert (H : rooted (a +:+ "/" +:+ b) = true) by by apply rooted_app.
  split; [by apply rooted_clean|]. rewrite (clean_abs (path_clean _)) by by apply rooted_clean.
  by rewrite comps_clean, <- clean_abs.
Qed.

Lemma comps_join a b :
  rooted a = true ->
  comps (filepath_join a b) = rev (fold_left (path_push true) (split_byte "/" b) (rev (comps a))).
Proof.
  intros Hr. unfold filepath_join. destruct (String.eqb_spec a "") as [->|]; [done|].
  rewrite comps_clean by by apply rooted_app.
  unfold comps. rewrite rooted_app, Hr by done. change ("/" +:+ b) with (String "/" b).
  by rewrite split_byte_app_gen, fold_left_app, rev_involutive.
Qed.

Lemma comps_join_safe a b : rooted a = true -> safe b -> comps (filepath_join a b) = comps a ++ [b].
Proof.
  intros Hr Hb. rewrite comps_join, split_byte_none by (done || apply Hb). cbn [fold_left].
  rewrite path_push_safe by done. cbn [rev]. by rewrite rev_involutive.
Qed.

Lemma safe_cons a s : a <> "."%char -> no_byte "/" (String a s) -> safe (String a s).
Proof. intros Ha Hs. split_and!; [done| | |done]; by intros [= -> ?]. Qed.

Lemma below_refl p : below p p.
Proof. exists []. by rewrite app_nil_r. Qed.

Lemma below_trans a b c : below a b -> below b c -> below a c.
Proof. unfold below. intros H1 H2. by etrans. Qed.

Lemma below_join a b : rooted a = true -> safe b -> below a (filepath_join a b).
Proof. intros Hr Hb. unfold below. rewrite comps_join_safe by done. by eexists. Qed.

Lemma no_byte_last s cur :
  (no_byte "/" s -> no_byte "/" cur) -> no_byte "/" (last_component s cur).
Proof.
  revert cur. induction s as [|a s IH]; intros cur H; cbn [last_component]; [by apply H|].
  destruct (Ascii.eqb_spec a "/") as [->|Ha]; [by apply IH|].
  apply IH. intros Hs. apply H. by apply no_byte_cons.
Qed.

Lemma path_base_cases s : path_base s = "/" \/ no_byte "/" (path_base s).
Proof.
  unfold path_base. destruct (String.eqb s ""); [by right|]. set (t := trim_right_bytes "/" s).
  destruct (String.eqb _ ""); [by left|right]. by apply no_byte_last.
Qed.

(** A file put into a subdirectory under its base name stays in the directory, even
    if that name is [..]. *)
Lemma below_join_base a d name :
  rooted a = true -> safe d -> below a (filepath_join (filepath_join a d) (path_base name)).
Proof.
  intros Hr Hd. destruct (join_rooted a d Hr) as [Hrd _].
  unfold below. rewrite comps_join, comps_join_safe by done.
  destruct (path_base_cases name) as [->|Hb].
  - cbn. rewrite rev_involutive. by eexists.
  - rewrite split_byte_none by done. cbn [fold_left]. rewrite rev_app_distr. cbn [rev app].
    unfold path_push. destruct Hd as (_ & _ & Hdd & _).
    destruct (_ || _); [cbn; rewrite rev_involutive; by eexists|].
    destruct (String.eqb _ "..").
    + rewrite (proj2 (String.eqb_neq _ _) Hdd). rewrite rev_involutive. by exists []; rewrite app_nil_r.
    + cbn. rewrite rev_involutive, <- app_assoc. by eexists.
Qed.

Lemma safe_int_suffix z suf : no_byte "/" suf -> safe (fmt_int z +:+ suf).
Proof.
  intros Hs. pose proof (fmt_int_chars z) as Hc. pose proof (fmt_int_no_byte "/" z eq_refl) as Hn.
  destruct (fmt_int z) as [|a r] eqn:E; [by apply fmt_int_ne in E|].
  cbn in Hc. apply andb_true_iff in Hc as [Ha _].
  change (String a r +:+ suf) with (String a (r +:+ suf)). apply safe_cons; [by intros ->|].
  change (String a (r +:+ suf)) with (String a r +:+ suf). by apply no_byte_app.
Qed.

Lemma safe_prefix_int a p z : a <> "."%char -> no_byte "/" (String a p) -> safe (String a p +:+ fmt_int z).
Proof.
  intros Ha Hp. change (String a p +:+ fmt_int z) with (String a (p +:+ fmt_int z)).
  apply safe_cons; [done|]. change (String a (p +:+ fmt_int z)) with (String a p +:+ fmt_int z).
  apply no_byte_app. split; [done|]. by apply fmt_int_no_byte.
Qed.

(** A relative path of entries is already clean. *)
Lemma rooted_join l : Forall safe l -> rooted (join_comps l) = false.
Proof.
  intros H. destruct H as [|e l (He & _ & _ & Hs) _]; [done|].
  destruct e as [|a e]; [done|]. apply no_byte_cons in Hs as [Ha _].
  destruct l; cbn; by apply rooted_cons_false.
Qed.

Lemma join_comps_ne l : l <> [] -> Forall safe l -> join_comps l <> "".
Proof. intros Hne H. destruct H as [|e l (He & _) _]; [done|]. destruct e; [done|]. by destruct l. Qed.

Lemma clean_rel l : l <> [] -> Forall safe l -> path_clean (join_comps l) = join_comps l.
Proof.
  intros Hne H. unfold path_clean. rewrite (proj2 (String.eqb_neq _ _) (join_comps_ne _ Hne H)), rooted_join by done.
  assert (comps (join_comps l) = l) as ->.
  { unfold comps. rewrite rooted_join, split_join, push_all_safe, app_nil_r by (try done; by apply safe_no_slash).
    apply rev_involutive. }
  by destruct l.
Qed.
