(* ===== verification/Float64.v ===== *)
(** * IEEE 754 binary64 numbers

    Go's [float64] as the judge and the gradebook use it: a finite value is the
    rational it denotes, and every arithmetic operation is the exact rational
    operation followed by [round64], rounding to nearest with ties to even at 53
    bits of precision (quantum [2^-1074] in the subnormal range) and overflowing
    to an infinity at [2^1024]. The sign of a zero is not represented; none of
    the modelled code observes it.

    [strconv.ParseFloat] is the field [parse_float] of the class [FloatText]: its
    grammar (decimal, hexadecimal, digit separators, infinities) does not matter
    to the judge, which only looks at whether parsing succeeded and at the sign
    of the value. Theorems hold for every such function. *)

From S2P Require Import Prelude GoStrings.
From Stdlib Require Import QArith Qround Qpower Lqa Qabs.

Open Scope Q_scope.

Definition two_p (e : Z) : Q := Qpower 2 e.

(** [floor (log2 q)] for a positive rational. *)
Definition q_exp (q : Q) : Z :=
  let k := (Z.log2 (Qnum q) - Z.log2 (Zpos (Qden q)))%Z in
  if Qle_bool (two_p k) q then k else (k - 1)%Z.

(** Round to the nearest integer, ties to even. *)
Definition round_even (q : Q) : Z :=
  let f := Qfloor q in
  let r := q - inject_Z f in
  if Qle_bool (1 # 2) r
  then if Qle_bool r (1 # 2) then (if Z.even f then f else f + 1)%Z else (f + 1)%Z
  else f.

Definition quantum_exp (q : Q) : Z := Z.max (-1074) (q_exp q - 52).

(** Round to a multiple of [2^e]. *)
Definition round_at (e : Z) (q : Q) : Q := inject_Z (round_even (q / two_p e)) * two_p e.

Definition round_pos (q : Q) : Q := round_at (quantum_exp q) q.

Definition round64 (q : Q) : Q :=
  match q ?= 0 with
  | Eq => 0
  | Lt => - round_pos (- q)
  | Gt => round_pos q
  end.

Inductive float64 : Type :=
| Fin (q : Q)
| Inf (negative : bool)
| NaN.

(** The float64 nearest to an exact result. *)
Definition to_float (q : Q) : float64 :=
  let r := round64 q in
  if Qle_bool (two_p 1024) (Qabs r) then Inf (negb (Qle_bool 0 r)) else Fin (Qred r).

(** [float64(n)]. *)
Definition float_of_Z (z : Z) : float64 := to_float (inject_Z z).

Definition q_sign (q : Q) : bool := negb (Qle_bool 0 q).

Definition fmul (x y : float64) : float64 :=
  match x, y with
  | Fin a, Fin b => to_float (a * b)
  | NaN, _ | _, NaN => NaN
  | Inf n, Fin a | Fin a, Inf n => if Qeq_bool a 0 then NaN else Inf (xorb n (q_sign a))
  | Inf n, Inf m => Inf (xorb n m)
  end.

Definition fdiv (x y : float64) : float64 :=
  match x, y with
  | Fin a, Fin b =>
      if Qeq_bool b 0 then (if Qeq_bool a 0 then NaN else Inf (q_sign a)) else to_float (a / b)
  | NaN, _ | _, NaN => NaN
  | Inf n, Fin b => Inf (xorb n (q_sign b))
  | Fin _, Inf _ => Fin 0
  | Inf _, Inf _ => NaN
  end.

Definition fadd (x y : float64) : float64 :=
  match x, y with
  | Fin a, Fin b => to_float (a + b)
  | NaN, _ | _, NaN => NaN
  | Inf n, Inf m => if Bool.eqb n m then Inf n else NaN
  | Inf n, Fin _ | Fin _, Inf n => Inf n
  end.

(** [x >= y]; every comparison with a NaN is false. *)
Definition fge (x y : float64) : bool :=
  match x, y with
  | Fin a, Fin b => Qle_bool b a
  | Inf n, Fin _ => negb n
  | Fin _, Inf n => n
  | Inf n, Inf m => negb n || m
  | NaN, _ | _, NaN => false
  end.
Definition fle (x y : float64) : bool := fge y x.

(** [x > y] and [x < y]. *)
Definition fgt (x y : float64) : bool :=
  match x, y with
  | NaN, _ | _, NaN => false
  | _, _ => negb (fge y x)
  end.
Definition flt (x y : float64) : bool := fgt y x.

Definition is_nan (x : float64) : bool := match x with NaN => true | _ => false end.

(** [math.Round]: to the nearest integer, halves away from zero. *)
Definition fround (x : float64) : float64 :=
  match x with
  | Fin q =>
      Fin (inject_Z (if Qle_bool 0 q then Qfloor (q + (1 # 2))
                     else (- Qfloor (- q + (1 # 2)))%Z))
  | _ => x
  end.

Class FloatText := { parse_float : string -> option float64 }.

(** A concrete parser for unsigned decimals such as [12] and [0.25]. *)
Definition simple_parse_float (s : string) : option float64 :=
  match cut_byte "." s with
  | None => n ← parse_uint s; Some (to_float (inject_Z n))
  | Some (ip, fp) =>
      n ← parse_uint ip; m ← parse_uint fp;
      Some (to_float (inject_Z n + inject_Z m / inject_Z (10 ^ Z.of_nat (String.length fp))))
  end.
Definition simple_floats : FloatText := {| parse_float := simple_parse_float |}.

Example round64_tenth :
  float_of_Z (2 ^ 53 + 1) = Fin (inject_Z (2 ^ 53)) /\
  fdiv (Fin 1) (Fin 10) = Fin (3602879701896397 # 36028797018963968).
Proof. split; vm_compute; reflexivity. Qed.

(** * Lemmas *)

(** ** Powers of two *)

Lemma two_p_pos e : 0 < two_p e.
Proof.
  unfold two_p. assert (H : 0 <= 2 ^ e) by (apply Qpower_0_le; discriminate).
  apply Qle_lteq in H as [?|H]; [done|].
  exfalso. assert (Hn : ~ 2 ^ e == 0) by (apply Qpower_not_0; discriminate).
  apply Hn. by symmetry.
Qed.

Lemma two_p_add a b : two_p (a + b) == two_p a * two_p b.
Proof. apply Qpower_plus. discriminate. Qed.

Lemma two_p_le a b : (a <= b)%Z -> two_p a <= two_p b.
Proof. intros H. apply Qpower_le_compat_l; [done|discriminate]. Qed.

Lemma two_p_lt_inv a b : two_p a < two_p b -> (a < b)%Z.
Proof.
  intros H. destruct (Z.lt_ge_cases a b) as [?|Hge]; [done|].
  apply two_p_le in Hge. exfalso. lra.
Qed.

Lemma two_p_Z e : (0 <= e)%Z -> two_p e == inject_Z (2 ^ e).
Proof. intros He. unfold two_p. by rewrite Zpower_Qpower. Qed.

Lemma two_p_succ e : two_p (e + 1) == 2 * two_p e.
Proof. rewrite two_p_add. change (two_p 1) with 2. lra. Qed.

(** ** The binade of a positive rational *)

Lemma q_exp_bounds q :
  0 < q ->
  let k := (Z.log2 (Qnum q) - Z.log2 (Zpos (Qden q)))%Z in
  two_p (k - 1) < q /\ q < two_p (k + 1).
Proof.
  intros Hq k. subst k. destruct q as [n d]. cbn [Qnum Qden].
  assert (Hn : (0 < n)%Z) by (revert Hq; unfold Qlt; cbn; lia).
  pose proof (Z.log2_spec n Hn) as [Hn1 Hn2].
  pose proof (Z.log2_spec (Zpos d) ltac:(lia)) as [Hd1 Hd2].
  pose proof (Z.log2_nonneg n). pose proof (Z.log2_nonneg (Zpos d)).
  set (a := Z.log2 n) in *. set (b := Z.log2 (Zpos d)) in *.
  assert (Hq' : (n # d) == inject_Z n / inject_Z (Zpos d)).
  { unfold Qdiv, Qinv, inject_Z, Qeq, Qmult. cbn. lia. }
  assert (Hd0 : 0 < inject_Z (Zpos d)) by done.
  assert (Hpow : forall e, (0 <= e)%Z -> two_p e == inject_Z (2 ^ e)) by apply two_p_Z.
  assert (E1 : two_p (a - b - 1) * two_p (Z.succ b) == two_p a).
  { rewrite <- two_p_add. by replace (a - b - 1 + Z.succ b)%Z with a by lia. }
  assert (E2 : two_p (a - b + 1) * two_p b == two_p (Z.succ a)).
  { rewrite <- two_p_add. by replace (a - b + 1 + b)%Z with (Z.succ a) by lia. }
  pose proof (two_p_pos (a - b - 1)). pose proof (two_p_pos (a - b + 1)).
  assert (Hn1' : two_p a <= inject_Z n) by (rewrite Hpow by lia; by rewrite <- Zle_Qle).
  assert (Hn2' : inject_Z n < two_p (Z.succ a)) by (rewrite Hpow by lia; by rewrite <- Zlt_Qlt).
  assert (Hd1' : two_p b <= inject_Z (Zpos d)) by (rewrite Hpow by lia; by rewrite <- Zle_Qle).
  assert (Hd2' : inject_Z (Zpos d) < two_p (Z.succ b))
    by (rewrite Hpow by lia; by rewrite <- Zlt_Qlt).
  rewrite Hq'. split.
  - apply Qlt_shift_div_l; [done|]. eapply Qlt_le_trans; [|exact Hn1'].
    rewrite <- E1. by apply Qmult_lt_l.
  - apply Qlt_shift_div_r; [done|]. eapply Qlt_le_trans; [exact Hn2'|].
    rewrite <- E2. by apply Qmult_le_l.
Qed.

Lemma q_exp_spec q : 0 < q -> two_p (q_exp q) <= q /\ q < two_p (q_exp q + 1).
Proof.
  intros Hq. destruct (q_exp_bounds q Hq) as [Hl Hu]. unfold q_exp.
  destruct (Qle_bool _ q) eqn:E.
  - apply Qle_bool_iff in E. done.
  - split; [lra|]. rewrite Z.sub_add.
    destruct (Qlt_le_dec q (two_p (Z.log2 (Qnum q) - Z.log2 (Zpos (Qden q))))) as [?|H]; [done|].
    apply Qle_bool_iff in H. congruence.
Qed.

Lemma q_exp_mono x y : 0 < x -> x <= y -> (q_exp x <= q_exp y)%Z.
Proof.
  intros Hx Hxy. destruct (q_exp_spec x Hx) as [Hx1 _].
  destruct (q_exp_spec y ltac:(lra)) as [_ Hy2].
  enough (q_exp x < q_exp y + 1)%Z by lia. apply two_p_lt_inv. lra.
Qed.

(** ** Rounding *)

Lemma round_even_mono x y : x <= y -> (round_even x <= round_even y)%Z.
Proof.
  intros Hxy. unfold round_even.
  pose proof (Qfloor_resp_le x y Hxy) as Hf.
  destruct (Z.eq_dec (Qfloor x) (Qfloor y)) as [E|Hne].
  - rewrite E. set (f := Qfloor y).
    destruct (Qle_bool (1 # 2) (x - inject_Z f)) eqn:Ex1,
             (Qle_bool (x - inject_Z f) (1 # 2)) eqn:Ex2,
             (Qle_bool (1 # 2) (y - inject_Z f)) eqn:Ey1,
             (Qle_bool (y - inject_Z f) (1 # 2)) eqn:Ey2; destruct (Z.even f); try lia;
      repeat match goal with
      | H : Qle_bool _ _ = true |- _ => apply Qle_bool_iff in H
      | H : Qle_bool ?a ?b = false |- _ =>
          assert (~ a <= b) by (intros ?%Qle_bool_iff; congruence); clear H
      end; exfalso; lra.
  - repeat case_match; lia.
Qed.

Lemma round_even_Z z : round_even (inject_Z z) = z.
Proof.
  unfold round_even. rewrite Qfloor_Z.
  destruct (Qle_bool (1 # 2) _) eqn:E; [|done].
  apply Qle_bool_iff in E. exfalso. lra.
Qed.

Lemma round_even_int x z : x == inject_Z z -> round_even x = z.
Proof.
  intros E. apply Z.le_antisymm; rewrite <- (round_even_Z z) at 1; apply round_even_mono; lra.
Qed.

Lemma round_at_mono e x y : x <= y -> round_at e x <= round_at e y.
Proof.
  intros Hxy. unfold round_at. pose proof (two_p_pos e).
  apply Qmult_le_compat_r; [|lra]. rewrite <- Zle_Qle. apply round_even_mono.
  apply Qle_shift_div_l; [done|]. unfold Qdiv.
  rewrite <- Qmult_assoc, (Qmult_comm (/ _)), Qmult_inv_r; lra.
Qed.

Lemma round_at_multiple e k : round_at e (inject_Z k * two_p e) == inject_Z k * two_p e.
Proof.
  unfold round_at. pose proof (two_p_pos e).
  rewrite (round_even_int _ k); [done|]. apply Qdiv_mult_l. lra.
Qed.

Lemma round_at_two_p e k : (e <= k)%Z -> round_at e (two_p k) == two_p k.
Proof.
  intros He. assert (E : two_p k == inject_Z (2 ^ (k - e)) * two_p e).
  { rewrite <- two_p_Z, <- two_p_add by lia. by replace (k - e + e)%Z with k by lia. }
  apply Qle_antisym.
  - rewrite E at 2. rewrite <- round_at_multiple. apply round_at_mono. rewrite E. lra.
  - rewrite E at 1. rewrite <- round_at_multiple. apply round_at_mono. rewrite E. lra.
Qed.

(** Rounding is monotone across binades as well: a power of two that separates
    two numbers of different quanta is representable in both. *)
Lemma round_pos_mono x y : 0 < x -> x <= y -> round_pos x <= round_pos y.
Proof.
  intros Hx Hxy. unfold round_pos.
  pose proof (q_exp_mono x y Hx Hxy) as He.
  destruct (Z.eq_dec (quantum_exp x) (quantum_exp y)) as [->|Hne]; [by apply round_at_mono|].
  unfold quantum_exp in *.
  assert (Hq : (q_exp x + 1 <= q_exp y)%Z) by lia.
  destruct (q_exp_spec x Hx) as [_ Hx2]. destruct (q_exp_spec y ltac:(lra)) as [Hy1 _].
  pose proof (two_p_le _ _ Hq) as H2.
  apply Qle_trans with (two_p (q_exp y)).
  - rewrite <- (round_at_two_p (Z.max (-1074) (q_exp x - 52)) (q_exp y)) by lia.
    apply round_at_mono. lra.
  - rewrite <- (round_at_two_p (Z.max (-1074) (q_exp y - 52)) (q_exp y)) at 1 by lia.
    by apply round_at_mono.
Qed.

Lemma round_pos_nonneg x : 0 < x -> 0 <= round_pos x.
Proof.
  intros Hx. unfold round_pos. set (e := quantum_exp x).
  rewrite <- (Qmult_0_l (two_p e)). change 0 with (inject_Z 0) at 1.
  rewrite <- round_at_multiple. apply round_at_mono. change (inject_Z 0) with 0. lra.
Qed.

Lemma round64_pos x : 0 < x -> round64 x = round_pos x.
Proof. intros Hx. unfold round64. apply Qgt_alt in Hx. by rewrite Hx. Qed.

Lemma round64_zero x : x == 0 -> round64 x = 0.
Proof. intros Hx. unfold round64. apply Qeq_alt in Hx. by rewrite Hx. Qed.

Lemma round64_mono x y : 0 <= x -> x <= y -> round64 x <= round64 y.
Proof.
  intros Hx Hxy. apply Qle_lteq in Hx as [Hx|Hx].
  - rewrite !round64_pos by lra. by apply round_pos_mono.
  - rewrite (round64_zero x) by lra. destruct (Qlt_le_dec 0 y) as [Hy|Hy].
    + rewrite round64_pos by done. by apply round_pos_nonneg.
    + rewrite round64_zero by lra. lra.
Qed.

(** Integers below [2^53] are exact. *)
Lemma round64_int z : (0 <= z < 2 ^ 53)%Z -> round64 (inject_Z z) == inject_Z z.
Proof.
  intros [H0 Hz]. destruct (Z.eq_dec z 0) as [->|Hne]; [done|].
  assert (Hp : 0 < inject_Z z) by (change 0 with (inject_Z 0); rewrite <- Zlt_Qlt; lia).
  rewrite round64_pos by done. unfold round_pos, quantum_exp.
  destruct (q_exp_spec _ Hp) as [Hl _]. set (e := Z.max (-1074) (q_exp (inject_Z z) - 52)).
  assert (He : (e <= 0)%Z).
  { assert (q_exp (inject_Z z) < 53)%Z; [|lia]. apply two_p_lt_inv.
    eapply Qle_lt_trans; [exact Hl|]. rewrite two_p_Z by lia. by rewrite <- Zlt_Qlt. }
  assert (E : inject_Z z == inject_Z (z * 2 ^ (- e)) * two_p e).
  { rewrite inject_Z_mult, <- two_p_Z, <- Qmult_assoc, <- two_p_add by lia.
    replace (- e + e)%Z with 0%Z by lia. change (two_p 0) with 1. lra. }
  apply Qle_antisym.
  - rewrite E at 2. rewrite <- round_at_multiple. apply round_at_mono. rewrite <- E. lra.
  - rewrite E at 1. rewrite <- round_at_multiple. apply round_at_mono. rewrite <- E. lra.
Qed.

(** ** Results that stay between zero and an exact bound *)

#[export] Instance inject_Z_le_proper : Proper (Z.le ==> Qle) inject_Z.
Proof. intros a b H. by rewrite <- Zle_Qle. Qed.

Lemma to_float_fin q :
  0 <= round64 q -> round64 q < two_p 1024 -> exists r, to_float q = Fin r /\ r == round64 q.
Proof.
  intros H0 H1. unfold to_float.
  assert (Ha : Qabs (round64 q) == round64 q) by (by apply Qabs_pos).
  destruct (Qle_bool _ _) eqn:E.
  - apply Qle_bool_iff in E. exfalso. rewrite Ha in E. lra.
  - eexists. split; [done|]. apply Qred_correct.
Qed.

Lemma to_float_bounds q m :
  (0 <= m < 2 ^ 53)%Z -> 0 <= q -> q <= inject_Z m ->
  exists r, to_float q = Fin r /\ 0 <= r /\ r <= inject_Z m.
Proof.
  intros Hm H0 H1.
  assert (Hlo : 0 <= round64 q).
  { rewrite <- (round64_zero 0) by done. by apply round64_mono; [|]. }
  assert (Hhi : round64 q <= inject_Z m).
  { rewrite <- round64_int by done. by apply round64_mono. }
  destruct (to_float_fin q Hlo) as (r & E & Hr).
  - eapply Qle_lt_trans; [exact Hhi|]. apply Qlt_le_trans with (inject_Z (2 ^ 53)).
    + rewrite <- Zlt_Qlt. lia.
    + rewrite <- two_p_Z by lia. by apply two_p_le.
  - exists r. split; [done|]. by rewrite Hr.
Qed.

Lemma to_float_int q z :
  (0 <= z < 2 ^ 53)%Z -> q == inject_Z z -> exists r, to_float q = Fin r /\ r == inject_Z z.
Proof.
  intros Hz Hq. assert (Hz0 : 0 <= inject_Z z).
  { change 0 with (inject_Z 0). rewrite <- Zle_Qle. lia. }
  assert (E : round64 q == inject_Z z).
  { rewrite <- round64_int by done. apply Qle_antisym; apply round64_mono; lra. }
  destruct (to_float_fin q) as (r & Er & Hr).
  - by rewrite E.
  - rewrite E. apply Qlt_le_trans with (inject_Z (2 ^ 53)).
    + rewrite <- Zlt_Qlt. lia.
    + rewrite <- two_p_Z by lia. by apply two_p_le.
  - exists r. split; [done|]. by rewrite Hr.
Qed.

Lemma float_of_Z_exact z :
  (0 <= z < 2 ^ 53)%Z -> exists r, float_of_Z z = Fin r /\ r == inject_Z z.
Proof. intros Hz. by apply to_float_int. Qed.

(** A float between two rationals, the form bounds are stated in. *)
Definition fbetween (lo hi : Q) (x : float64) : Prop :=
  exists q, x = Fin q /\ lo <= q /\ q <= hi.
