(* ===== verification/JudgeModel.v ===== *)
(** * The judge's domain types

    [src/judge/internal/model]: commits, test cases, verdicts, run statuses and
    the phase-timing recorder. Identifiers and byte counts are [int64] values
    carried as [Z]; durations and instants are nanoseconds in [Z]. An empty Go
    string that means "absent" ([CaseReason], [Extension], ...) is kept as the
    constructor or the empty string the code uses. *)

From S2P Require Import Prelude GoStrings Float64.

(** ** Commits *)

Record Commit := mk_commit {
  c_ID : Z;
  c_UserID : Z;
  c_ExerciseID : Z;
  c_RealExerciseID : Z;
  c_S3Key : string;
  c_QueueWait : Z;
  c_HasQueueWait : bool
}.
#[export] Instance Commit_eta : Settable Commit := fun c =>
  mk_commit (c_ID c) (c_UserID c) (c_ExerciseID c) (c_RealExerciseID c) (c_S3Key c)
    (c_QueueWait c) (c_HasQueueWait c).

(** [baseName]: the key after its last slash. The Go loop scans from the end;
    [last_component] returns the same suffix scanning from the start. *)
Definition baseName (key : string) : string := last_component key key.

Definition Filename (c : Commit) : string := baseName (c_S3Key c).

(** ** Test cases *)

Record TestCase := mk_case {
  tc_ID : Z;
  tc_ExerciseID : Z;
  tc_Number : Z;
  tc_InputType : string;
  tc_Input : string;
  tc_ExpectedOutputType : string;
  tc_ExpectedOutput : string;
  tc_ShowInput : bool;
  tc_ShowExpectedOutput : bool;
  tc_ShowUserOutput : bool;
  tc_CPUTimeLimit : Z;
  tc_MemUsageLimit : Z;
  tc_StackLimit : Z;
  tc_FileSizeLimit : Z;
  tc_Files : list string
}.
#[export] Instance TestCase_eta : Settable TestCase := fun t =>
  mk_case (tc_ID t) (tc_ExerciseID t) (tc_Number t) (tc_InputType t) (tc_Input t)
    (tc_ExpectedOutputType t) (tc_ExpectedOutput t) (tc_ShowInput t)
    (tc_ShowExpectedOutput t) (tc_ShowUserOutput t) (tc_CPUTimeLimit t)
    (tc_MemUsageLimit t) (tc_StackLimit t) (tc_FileSizeLimit t) (tc_Files t).

(** ** Verdicts *)

(** [StatusUnset] is the zero value [""] a [CaseResult] starts with. *)
Inductive CaseStatus := StatusUnset | CaseCorrect | CaseBadFormat | CaseKilledBySignal.

(** [ReasonNone] is the empty reason. *)
Inductive CaseReason :=
| ReasonNone
| CaseReasonTimeout
| CaseReasonCPULimit
| CaseReasonMemoryLimit
| CaseReasonStackLimit
| CaseReasonFileSizeLimit
| CaseReasonSignal
| CaseReasonMonitor
| CaseReasonOutput
| CaseReasonServer.

#[export] Instance CaseStatus_eq_dec : EqDecision CaseStatus.
Proof. solve_decision. Defined.
#[export] Instance CaseReason_eq_dec : EqDecision CaseReason.
Proof. solve_decision. Defined.

Definition case_status_string (s : CaseStatus) : string :=
  match s with
  | StatusUnset => ""
  | CaseCorrect => "correct"
  | CaseBadFormat => "bad_formatted_output"
  | CaseKilledBySignal => "killed_with_signal"
  end.

Definition case_reason_string (r : CaseReason) : string :=
  match r with
  | ReasonNone => ""
  | CaseReasonTimeout => "timeout"
  | CaseReasonCPULimit => "cpu_limit"
  | CaseReasonMemoryLimit => "memory_limit"
  | CaseReasonStackLimit => "stack_limit"
  | CaseReasonFileSizeLimit => "file_size_limit"
  | CaseReasonSignal => "signal"
  | CaseReasonMonitor => "monitor_error"
  | CaseReasonOutput => "output_error"
  | CaseReasonServer => "server_error"
  end.

Record CaseResult := mk_result {
  cr_TestCaseID : Z;
  cr_CPUTime : float64;
  cr_WallTime : float64;
  cr_MemUsage : Z;
  cr_Status : CaseStatus;
  cr_Reason : CaseReason;
  cr_StatusMsg : string;
  cr_UserOutput : string;
  cr_OutputType : string;
  cr_ErrorMessage : string
}.
#[export] Instance CaseResult_eta : Settable CaseResult := fun r =>
  mk_result (cr_TestCaseID r) (cr_CPUTime r) (cr_WallTime r) (cr_MemUsage r) (cr_Status r)
    (cr_Reason r) (cr_StatusMsg r) (cr_UserOutput r) (cr_OutputType r) (cr_ErrorMessage r).

(** ** Terminal run statuses *)

Inductive RunStatus :=
| RunUnset
| RunCompleted
| RunUncompleted
| RunCompilationError
| RunServerError
| RunTimeout.

#[export] Instance RunStatus_eq_dec : EqDecision RunStatus.
Proof. solve_decision. Defined.

Definition run_status_string (s : RunStatus) : string :=
  match s with
  | RunUnset => ""
  | RunCompleted => "completed"
  | RunUncompleted => "uncompleted"
  | RunCompilationError => "compilation_error"
  | RunServerError => "server_error"
  | RunTimeout => "timeout"
  end.

Definition AlertSeverityWarning : string := "warning".
Definition AlertSeverityCritical : string := "critical".
Definition AlertStartupTimeout : string := "startup_timeout".

(** ** Phase timings *)

Definition PhaseQueue := "queue".
Definition PhaseWorkspacePrepare := "workspace_prepare".
Definition PhaseSourceDownload := "source_download".
Definition PhaseSourceResolve := "source_resolve".
Definition PhaseCompilationFiles := "compilation_files".
Definition PhaseTestCases := "test_cases".
Definition PhaseTestCaseFiles := "test_case_files".
Definition PhaseContainerConfig := "container_config".
Definition PhaseImageEnsure := "image_ensure".
Definition PhaseContainerCreate := "container_create".
Definition PhaseContainerStart := "container_start".
Definition PhaseStartup := "startup".
Definition PhaseCompile := "compile".
Definition PhaseRun := "run".
Definition PhaseGrade := "grade".
Definition PhaseArtifact := "artifact".

(** The values stored in a [map[string]any]. *)
Inductive any := AStr (s : string) | ABool (b : bool) | AInt (z : Z) | AFloat (f : float64).

Record PhaseTiming := mk_timing {
  pt_Phase : string;
  pt_Duration : Z;
  pt_CPU : Z;
  pt_HasCPU : bool;
  pt_MemPeak : Z;
  pt_HasMemPeak : bool;
  pt_StartedAt : option Z;
  pt_FinishedAt : option Z;
  pt_Detail : list (string * any);
  pt_Source : string
}.
#[export] Instance PhaseTiming_eta : Settable PhaseTiming := fun t =>
  mk_timing (pt_Phase t) (pt_Duration t) (pt_CPU t) (pt_HasCPU t) (pt_MemPeak t)
    (pt_HasMemPeak t) (pt_StartedAt t) (pt_FinishedAt t) (pt_Detail t) (pt_Source t).

Definition zero_timing : PhaseTiming :=
  mk_timing "" 0 0 false 0 false None None [] "".

(** A [*RunTimings]: [None] is the nil pointer every method tolerates. *)
Definition RunTimings : Type := option (list PhaseTiming).

Definition NewRunTimings : RunTimings := Some [].

(** [append]: drop a timing without a phase, clamp a negative duration. *)
Definition append_timing (t : RunTimings) (timing : PhaseTiming) : RunTimings :=
  match t with
  | None => None
  | Some phases =>
      if String.eqb (pt_Phase timing) "" then Some phases
      else
        let timing :=
          if (pt_Duration timing <? 0)%Z then timing <| pt_Duration := 0%Z |> else timing in
        Some (phases ++ [timing])
  end.

Definition Record_ (t : RunTimings) (phase : string) (duration : Z) : RunTimings :=
  append_timing t (zero_timing <| pt_Phase := phase |> <| pt_Duration := duration |>
                     <| pt_Source := "judge" |>).

Definition RecordMonitor (t : RunTimings) (phase : string) (duration cpu : Z)
    (hasCPU : bool) (mem : Z) (hasMem : bool) : RunTimings :=
  let timing := zero_timing <| pt_Phase := phase |> <| pt_Duration := duration |>
                  <| pt_Source := "monitor" |> in
  let timing := if hasCPU then timing <| pt_CPU := cpu |> <| pt_HasCPU := true |> else timing in
  let timing := if hasMem && (0 <=? mem)%Z
                then timing <| pt_MemPeak := mem |> <| pt_HasMemPeak := true |> else timing in
  append_timing t timing.

Definition RecordCPU (t : RunTimings) (phase : string) (duration cpu : Z) : RunTimings :=
  RecordMonitor t phase duration cpu true (-1) false.

Definition RecordDetail (t : RunTimings) (phase : string) (duration : Z)
    (detail : list (string * any)) : RunTimings :=
  append_timing t (zero_timing <| pt_Phase := phase |> <| pt_Duration := duration |>
                     <| pt_Detail := detail |> <| pt_Source := "judge" |>).

(** [Measure] and the call of the function it returns: [started] is the clock
    read by [Measure]; [since] and [finished] are the two reads of the closure. *)
Definition Measure (t : RunTimings) (phase : string) (started since finished : Z) : RunTimings :=
  append_timing t (zero_timing <| pt_Phase := phase |> <| pt_Duration := (since - started)%Z |>
                     <| pt_StartedAt := Some started |> <| pt_FinishedAt := Some finished |>
                     <| pt_Source := "judge" |>).

(** [MeasureFunc]: the result of the block is returned unchanged. *)
Definition MeasureFunc {E} (t : RunTimings) (phase : string) (started since finished : Z)
    (fn : res E unit) : RunTimings * res E unit :=
  match t with
  | None => (None, fn)
  | Some _ => (Measure t phase started since finished, fn)
  end.

Definition Phases (t : RunTimings) : list PhaseTiming :=
  match t with None => [] | Some phases => phases end.

(** ** The recorder's invariant *)

(** Every recorded phase is named and has a non-negative duration. *)
Definition well_timed (p : PhaseTiming) : Prop := pt_Phase p <> "" /\ (0 <= pt_Duration p)%Z.
Definition timings_ok (t : RunTimings) : Prop := Forall well_timed (Phases t).

Lemma append_timing_ok t p : timings_ok t -> timings_ok (append_timing t p).
Proof.
  unfold timings_ok. destruct t as [ps|]; [|done]. cbn. intros H.
  destruct (String.eqb_spec (pt_Phase p) ""); [done|].
  cbn. apply Forall_app. split; [done|]. constructor; [|done].
  destruct (pt_Duration p <? 0)%Z eqn:E; split; cbn; (done || lia).
Qed.

Lemma new_timings_ok : timings_ok NewRunTimings.
Proof. constructor. Qed.

Create HintDb timings.
#[export] Hint Resolve append_timing_ok new_timings_ok : timings.

Lemma Record_ok t ph d : timings_ok t -> timings_ok (Record_ t ph d).
Proof. apply append_timing_ok. Qed.
Lemma RecordMonitor_ok t ph d c hc m hm : timings_ok t -> timings_ok (RecordMonitor t ph d c hc m hm).
Proof. apply append_timing_ok. Qed.
Lemma RecordDetail_ok t ph d det : timings_ok t -> timings_ok (RecordDetail t ph d det).
Proof. apply append_timing_ok. Qed.
Lemma Measure_ok t ph a b c : timings_ok t -> timings_ok (Measure t ph a b c).
Proof. apply append_timing_ok. Qed.
Lemma MeasureFunc_ok {E} t ph a b c (fn : res E unit) :
  timings_ok t -> timings_ok (fst (MeasureFunc t ph a b c fn)).
Proof. destruct t; [|done]. apply Measure_ok. Qed.
#[export] Hint Resolve Record_ok RecordMonitor_ok RecordDetail_ok Measure_ok MeasureFunc_ok : timings.
