(* ===== verification/JudgeConfig.v ===== *)
(** * The judge's configuration

    [src/judge/internal/config/config.go]: the settings the modelled code reads,
    and [validate], the checks [Load] ends with. Durations are nanoseconds.
    Reading the environment and the connection strings of PostgreSQL and S3 are
    not modelled. *)

From S2P Require Import Prelude.
Local Open Scope Z_scope.

Record Config := mk_config {
  cfg_AuthToken : string;
  cfg_AllowInsecureAPI : bool;
  cfg_Concurrency : Z;
  cfg_PollInterval : Z;
  cfg_EventRetention : Z;
  cfg_ImageFormat : string;
  cfg_ExecDir : string;
  cfg_ExecDirRemote : string;
  cfg_CompilationTimeout : Z;
  cfg_CompilationWait : Z;
  cfg_BaseExecTimeout : Z;
  cfg_DefaultCaseTimeout : Z;
  cfg_StartupWait : Z;
  cfg_MaxRunDuration : Z;
  cfg_MonitorMaxFileSize : Z;
  cfg_MonitorMaxMemSize : Z;
  cfg_MaxOutputFileSize : Z;
  cfg_ContainerMemoryBytes : Z;
  cfg_ContainerPidsLimit : Z;
  cfg_ContainerCPUQuota : Z;
  cfg_ContainerTmpfsBytes : Z;
  cfg_MaxCompareFileBytes : Z;
  cfg_MaxWorkspaceBytes : Z;
  cfg_MaxWorkspaceEntries : Z;
  cfg_MaxArtifactBytes : Z;
  cfg_MaxCommitArtifactBytes : Z;
  cfg_MaxExtractFileBytes : Z;
  cfg_MaxExtractBytes : Z;
  cfg_MaxExtractEntries : Z;
  cfg_KeepWorkspaces : bool;
  cfg_MaxOpenConns : Z;
  cfg_MaxIdleConns : Z
}.
#[export] Instance Config_eta : Settable Config := fun c =>
  mk_config (cfg_AuthToken c) (cfg_AllowInsecureAPI c) (cfg_Concurrency c) (cfg_PollInterval c)
    (cfg_EventRetention c) (cfg_ImageFormat c) (cfg_ExecDir c) (cfg_ExecDirRemote c)
    (cfg_CompilationTimeout c) (cfg_CompilationWait c) (cfg_BaseExecTimeout c)
    (cfg_DefaultCaseTimeout c) (cfg_StartupWait c) (cfg_MaxRunDuration c)
    (cfg_MonitorMaxFileSize c) (cfg_MonitorMaxMemSize c) (cfg_MaxOutputFileSize c)
    (cfg_ContainerMemoryBytes c) (cfg_ContainerPidsLimit c) (cfg_ContainerCPUQuota c)
    (cfg_ContainerTmpfsBytes c) (cfg_MaxCompareFileBytes c) (cfg_MaxWorkspaceBytes c)
    (cfg_MaxWorkspaceEntries c) (cfg_MaxArtifactBytes c) (cfg_MaxCommitArtifactBytes c)
    (cfg_MaxExtractFileBytes c) (cfg_MaxExtractBytes c) (cfg_MaxExtractEntries c)
    (cfg_KeepWorkspaces c) (cfg_MaxOpenConns c) (cfg_MaxIdleConns c).

Definition second : Z := 1000000000.
Definition minute : Z := 60 * second.

Inductive config_error :=
| BadConcurrency | BadPollInterval | BadExtractSizes | BadExtractFileBytes | BadExtractEntries
| BadContainerLimits | BadTmpfs | BadMonitorLimits | BadCompilationTimeout | BadCompilationWait
| BadStartupWait | StartupExceedsCompilation | CompilationWaitTooShort | BadCompareBytes
| BadWorkspaceLimits | BadArtifactBytes | BadCommitArtifactBytes | BadMaxRunDuration.

(** [validate]: the first failing check is reported; on success the connection
    pool sizes left at zero are derived from the concurrency. *)
Definition validate (c : Config) : res config_error Config :=
  if cfg_Concurrency c <? 1 then Err BadConcurrency
  else if cfg_PollInterval c <=? 0 then Err BadPollInterval
  else if (cfg_MaxExtractFileBytes c <=? 0) || (cfg_MaxExtractBytes c <=? 0) then Err BadExtractSizes
  else if cfg_MaxExtractBytes c <? cfg_MaxExtractFileBytes c then Err BadExtractFileBytes
  else if cfg_MaxExtractEntries c <=? 0 then Err BadExtractEntries
  else if (cfg_ContainerMemoryBytes c <? 0) || (cfg_ContainerPidsLimit c <? 0)
          || (cfg_ContainerCPUQuota c <? 0) then Err BadContainerLimits
  else if cfg_ContainerTmpfsBytes c <=? 0 then Err BadTmpfs
  else if (cfg_MonitorMaxFileSize c <? 0) || (cfg_MonitorMaxMemSize c <? 0) then Err BadMonitorLimits
  else if cfg_CompilationTimeout c <=? 0 then Err BadCompilationTimeout
  else if cfg_CompilationWait c <=? 0 then Err BadCompilationWait
  else if cfg_StartupWait c <=? 0 then Err BadStartupWait
  else if cfg_CompilationWait c <? cfg_StartupWait c then Err StartupExceedsCompilation
  else if cfg_CompilationWait c <=? cfg_CompilationTimeout c then Err CompilationWaitTooShort
  else if cfg_MaxCompareFileBytes c <=? 0 then Err BadCompareBytes
  else if (cfg_MaxWorkspaceBytes c <? 0) || (cfg_MaxWorkspaceEntries c <? 0) then Err BadWorkspaceLimits
  else if cfg_MaxArtifactBytes c <=? 0 then Err BadArtifactBytes
  else if cfg_MaxCommitArtifactBytes c <=? 0 then Err BadCommitArtifactBytes
  else if cfg_MaxRunDuration c <=? 0 then Err BadMaxRunDuration
  else
    let c := if cfg_MaxIdleConns c =? 0 then c <| cfg_MaxIdleConns := cfg_Concurrency c |> else c in
    let c := if cfg_MaxOpenConns c =? 0 then c <| cfg_MaxOpenConns := cfg_Concurrency c + 2 |> else c in
    Ok c.

(** The defaults [Load] starts from. *)
Definition default_config : Config :=
  mk_config "" false 4 second (10 * minute)
    "ghcr.io/runcodes-icmc/runcodes-runner-%s:latest" "/tmp/runcodes-judge" "/tmp/runcodes-judge"
    (60 * second) (2 * minute) (5 * second) (3 * second) (30 * second) (30 * minute)
    (Z.shiftl 256 20) (Z.shiftl 512 20) (1024 * 1024)
    (1536 * 1024 * 1024) 256 100000 (256 * 1024 * 1024) (16 * 1024 * 1024)
    (1024 * 1024 * 1024) 50000 (64 * 1024 * 1024) (256 * 1024 * 1024)
    (64 * 1024 * 1024) (256 * 1024 * 1024) 1000 false 0 0.

Example default_config_valid : is_ok (validate default_config) = true.
Proof. reflexivity. Qed.
