(* ===== verification/Cmp.v ===== *)
(** * Output comparison

    [src/judge/internal/cmp/cmp.go]: the strict, lenient and numeric comparisons
    of two outputs. [TextEqualBytes] is the one that decides a verdict. The
    file-based entry points read through a file-system snapshot [fs] that maps a
    path to its contents, [None] when it cannot be read. *)

From S2P Require Import Prelude GoStrings Float64.
From Stdlib Require Import QArith.
Local Open Scope nat_scope.

Section Cmp.
Context {UT : UnicodeTables} {FT : FloatText}.

(** [splitLines]: split on newlines, dropping a final empty line. *)
Definition splitLines (content : string) : list string :=
  if String.eqb content "" then []
  else
    let lines := split_byte LF content in
    match last lines with
    | Some "" => removelast lines
    | _ => lines
    end.

(** [textLines]: the lines of valid UTF-8 content. *)
Definition textLines (raw : string) : option (list string) :=
  if utf8_valid raw then Some (splitLines raw) else None.

Definition readText (fs : string -> option string) (fname : string) : option (list string) :=
  match fs fname with
  | None => None
  | Some raw => textLines raw
  end.

Definition trimRightSpace (s : string) : string := trim_right_space s.

(** [linesEqual]: equal counts, then line by line after trimming. *)
Fixpoint lines_loop (a b : list string) : bool :=
  match a, b with
  | la :: a', lb :: b' =>
      if String.eqb (trimRightSpace la) (trimRightSpace lb) then lines_loop a' b' else false
  | _, _ => true
  end.
Definition linesEqual (a b : list string) : bool :=
  if negb (length a =? length b)%nat then false else lines_loop a b.

Definition TextEqual (fs : string -> option string) (fnameA fnameB : string) : bool :=
  match readText fs fnameA with
  | None => false
  | Some a => match readText fs fnameB with
              | None => false
              | Some b => linesEqual a b
              end
  end.

Definition TextEqualBytes (a b : string) : bool :=
  match textLines a with
  | None => false
  | Some linesA => match textLines b with
                   | None => false
                   | Some linesB => linesEqual linesA linesB
                   end
  end.

(** ** The lenient comparison *)

Definition blank (line : string) : bool := String.eqb (trim_space line) "".

(** The inner loops that advance an index over blank lines. *)
Fixpoint skip_blank (l : list string) : list string :=
  match l with
  | line :: r => if blank line then skip_blank r else l
  | [] => []
  end.

Fixpoint tokens_eq (ta tb : list string) : bool :=
  match ta, tb with
  | x :: ta', y :: tb' => if String.eqb x y then tokens_eq ta' tb' else false
  | _, _ => true
  end.

(** Two lines match when they are equal or have the same lower-case tokens. *)
Definition line_match (lineA lineB : string) : bool :=
  if String.eqb lineA lineB then true
  else
    let tokensA := fields (to_lower lineA) in
    let tokensB := fields (to_lower lineB) in
    if negb (length tokensA =? length tokensB)%nat then false else tokens_eq tokensA tokensB.

(** The main loop over the unread suffixes [a[i:]] and [b[j:]]; [None] when the
    fuel runs out. *)
Fixpoint lenient_loop (fuel : nat) (a b : list string) : option bool :=
  match fuel with
  | O => None
  | S f =>
      match a, b with
      | [], _ | _, [] =>
          Some (match skip_blank a, skip_blank b with [], [] => true | _, _ => false end)
      | _, _ =>
          match skip_blank a with
          | [] => Some false
          | lineA :: a' =>
              match skip_blank b with
              | [] => Some false
              | lineB :: b' => if line_match lineA lineB then lenient_loop f a' b' else Some false
              end
          end
      end
  end.

Definition linesLenient (a b : list string) : bool :=
  match lenient_loop (S (length a)) a b with Some r => r | None => false end.

Definition TextLenient (fs : string -> option string) (fnameA fnameB : string) : bool :=
  match readText fs fnameA with
  | None => false
  | Some a => match readText fs fnameB with
              | None => false
              | Some b => linesLenient a b
              end
  end.

Definition TextLenientBytes (a b : string) : bool :=
  match textLines a with
  | None => false
  | Some linesA => match textLines b with
                   | None => false
                   | Some linesB => linesLenient linesA linesB
                   end
  end.

(** ** The numeric comparison *)

Definition fneg (x : float64) : float64 :=
  match x with Fin q => Fin (- q)%Q | Inf n => Inf (negb n) | NaN => NaN end.

Definition parseFloat (s : string) : float64 * bool :=
  match parse_float s with
  | None => (Fin 0%Q, false)
  | Some f => (f, true)
  end.

(** [false] for a pair of tokens that differ beyond the tolerance. *)
Definition number_token (absError : float64) (ta tb : string) : bool :=
  let '(fa, okA) := parseFloat ta in
  let '(fb, okB) := parseFloat tb in
  if okA && okB then
    let diff := fadd fa (fneg fb) in
    let diff := if flt diff (Fin 0%Q) then fneg diff else diff in
    negb (fgt diff absError)
  else String.eqb ta tb.

Fixpoint number_tokens (absError : float64) (ta tb : list string) : bool :=
  match ta, tb with
  | x :: ta', y :: tb' => if number_token absError x y then number_tokens absError ta' tb' else false
  | _, _ => true
  end.

Fixpoint number_lines (absError : float64) (a b : list string) : bool :=
  match a, b with
  | la :: a', lb :: b' =>
      let tokensA := fields la in
      let tokensB := fields lb in
      if negb (length tokensA =? length tokensB)%nat then false
      else if number_tokens absError tokensA tokensB then number_lines absError a' b' else false
  | _, _ => true
  end.

Definition NumberEqual (fs : string -> option string) (fnameA fnameB : string)
    (absError : float64) : bool :=
  if flt absError (Fin 0%Q) then false
  else match readText fs fnameA with
       | None => false
       | Some a => match readText fs fnameB with
                   | None => false
                   | Some b => if negb (length a =? length b)%nat then false
                               else number_lines absError a b
                   end
       end.

(** * Lemmas *)

(** ** The strict comparison *)

(** What strict equality compares: the right-trimmed lines. *)
Definition normal_lines (raw : string) : list string := map trimRightSpace (splitLines raw).

Lemma linesEqual_spec a b : linesEqual a b = true <-> map trimRightSpace a = map trimRightSpace b.
Proof.
  unfold linesEqual. revert b. induction a as [|la a IH]; intros [|lb b]; cbn; try done.
  specialize (IH b). destruct (length a =? length b)%nat eqn:El; cbn in *.
  - destruct (String.eqb_spec (trimRightSpace la) (trimRightSpace lb)) as [->|Hne].
    + rewrite IH. split; [by intros ->|by intros [= ->]].
    + split; [done|by intros [= ? _]].
  - split; [done|]. intros [= _ E]. apply IH in E. done.
Qed.

Lemma TextEqualBytes_spec a b :
  TextEqualBytes a b = true <->
  utf8_valid a = true /\ utf8_valid b = true /\ normal_lines a = normal_lines b.
Proof.
  unfold TextEqualBytes, textLines, normal_lines.
  destruct (utf8_valid a), (utf8_valid b); try naive_solver.
  rewrite linesEqual_spec. naive_solver.
Qed.

(** A missing final newline makes no difference: the last line is the same. *)
Lemma split_byte_snoc c s : split_byte c (s +:+ str1 c) = split_byte c s ++ [""].
Proof.
  induction s as [|a s IH]; cbn; [by rewrite Ascii.eqb_refl|].
  destruct (Ascii.eqb a c); [by rewrite IH|].
  rewrite IH. by destruct (split_byte c s) eqn:E; [apply split_byte_ne in E|].
Qed.

Lemma splitLines_final_newline s :
  s <> "" -> last (split_byte LF s) <> Some "" -> splitLines (s +:+ nl) = splitLines s.
Proof.
  intros Hne Hl. unfold splitLines.
  destruct (String.eqb_spec (s +:+ nl) "") as [E|_]; [by destruct s|].
  destruct (String.eqb_spec s "") as [|_]; [done|].
  unfold nl. rewrite split_byte_snoc, last_snoc, removelast_last.
  destruct (last (split_byte LF s)) as [[|]|] eqn:E; [done|done|done].
Qed.

(** ** The lenient comparison *)

Definition nonblank (l : list string) : list string := filter (fun x => blank x = false) l.

(** The last line is not blank (or there is none). *)
Definition ends_nonblank (l : list string) : bool :=
  match last l with None => true | Some x => negb (blank x) end.

Lemma skip_blank_nil l : skip_blank l = [] -> nonblank l = [] /\ (ends_nonblank l = true -> l = []).
Proof.
  unfold nonblank, ends_nonblank. induction l as [|x l IH]; [done|].
  cbn [skip_blank]. destruct (blank x) eqn:E; [|done]. intros Hs.
  destruct (IH Hs) as [Hn He]. rewrite filter_cons_False by congruence. split; [done|].
  destruct l as [|y l]; [cbn; by rewrite E|].
  change (last (x :: y :: l)) with (last (y :: l)). intros Hl. by specialize (He Hl).
Qed.

Lemma skip_blank_cons l x r :
  skip_blank l = x :: r ->
  nonblank l = x :: nonblank r /\ blank x = false /\
  ends_nonblank l = ends_nonblank r /\ (length r < length l)%nat.
Proof.
  unfold nonblank, ends_nonblank. induction l as [|y l IH]; [done|].
  cbn [skip_blank]. destruct (blank y) eqn:E.
  - intros Hs. destruct (IH Hs) as (Hn & Hx & He & Hl).
    rewrite filter_cons_False by congruence. split_and!; [done|done| |cbn; lia].
    destruct l as [|z l]; done.
  - intros [= -> ->]. rewrite filter_cons_True by done.
    split_and!; [done|done| |cbn; lia].
    destruct r as [|z r]; [cbn; by rewrite E|done].
Qed.

Lemma skip_blank_nonblank l : skip_blank l = [] <-> nonblank l = [].
Proof.
  split; [by intros [? _]%skip_blank_nil|]. intros Hn. destruct (skip_blank l) as [|x r] eqn:E; [done|].
  apply skip_blank_cons in E as (E & _). congruence.
Qed.

(** Each iteration consumes a line of [a], so [S (length a)] rounds are enough. *)
Lemma lenient_loop_terminates fuel a b : (length a < fuel)%nat -> is_Some (lenient_loop fuel a b).
Proof.
  revert a b. induction fuel as [|f IH]; intros a b Hf; [lia|]. cbn.
  destruct a as [|x a]; [by eexists|]. destruct b as [|y b]; [by eexists|].
  destruct (skip_blank (x :: a)) as [|la a'] eqn:Ea; [by eexists|].
  destruct (skip_blank (y :: b)) as [|lb b'] eqn:Eb; [by eexists|].
  destruct (line_match la lb); [|by eexists].
  apply IH. apply skip_blank_cons in Ea as (_ & _ & _ & Hl). cbn in *. lia.
Qed.

Lemma lenient_loop_spec fuel a b :
  (length a < fuel)%nat ->
  lenient_loop fuel a b = Some true <->
  Forall2 (fun x y => line_match x y = true) (nonblank a) (nonblank b) /\
  (ends_nonblank a = true \/ ends_nonblank b = true).
Proof.
  revert a b. induction fuel as [|f IH]; intros a b Hf; [lia|]. cbn [lenient_loop].
  assert (Hexit : (Some (match skip_blank a, skip_blank b with [], [] => true | _, _ => false end)
      = Some true) <-> nonblank a = [] /\ nonblank b = []).
  { rewrite <- !skip_blank_nonblank. destruct (skip_blank a), (skip_blank b); naive_solver. }
  destruct a as [|x a].
  { rewrite Hexit. split; [intros [-> ->]; by split; [constructor|left]|].
    intros [HF _]. inversion HF. by split. }
  destruct b as [|y b].
  { rewrite Hexit. split; [intros [-> ->]; by split; [constructor|right]|].
    intros [HF _]. inversion HF. by split. }
  clear Hexit. destruct (skip_blank (x :: a)) as [|la a'] eqn:Ea.
  { apply skip_blank_nil in Ea as [-> Ha]. split; [done|]. intros [HF He].
    apply Forall2_nil_inv_l in HF. apply skip_blank_nonblank in HF.
    apply skip_blank_nil in HF as [_ Hb].
    destruct He as [He|He]; [by specialize (Ha He)|by specialize (Hb He)]. }
  apply skip_blank_cons in Ea as (-> & _ & -> & Hl).
  destruct (skip_blank (y :: b)) as [|lb b'] eqn:Eb.
  { apply skip_blank_nil in Eb as [-> _]. split; [done|]. intros [HF _]. inversion HF. }
  apply skip_blank_cons in Eb as (-> & _ & -> & _).
  destruct (line_match la lb) eqn:Em.
  - rewrite IH by (cbn in *; lia). rewrite Forall2_cons. tauto.
  - split; [done|]. intros [HF _]. inversion HF. congruence.
Qed.

Lemma linesLenient_iff a b :
  linesLenient a b = true <->
  Forall2 (fun x y => line_match x y = true) (nonblank a) (nonblank b) /\
  (ends_nonblank a = true \/ ends_nonblank b = true).
Proof.
  unfold linesLenient. rewrite <- (lenient_loop_spec (S (length a))) by lia.
  destruct (lenient_loop_terminates (S (length a)) a b) as [r ->]; [lia|].
  split; [by intros ->|by intros [= ->]].
Qed.

Lemma line_match_refl l : line_match l l = true.
Proof. unfold line_match. by rewrite String.eqb_refl. Qed.

End Cmp.

(** * Properties *)

Section CmpProperties.
Context {UT : UnicodeTables} {FT : FloatText}.

(** The strict comparison accepts two outputs exactly when both are valid
    UTF-8 and have the same lines up to trailing white space on each line. It is
    symmetric and transitive, reflexive on valid outputs, and a missing final
    newline makes no difference. *)
Theorem strict_comparison (a b c : string) :
  (TextEqualBytes a b = true <->
     utf8_valid a = true /\ utf8_valid b = true /\ normal_lines a = normal_lines b) /\
  TextEqualBytes a b = TextEqualBytes b a /\
  (TextEqualBytes a b = true -> TextEqualBytes b c = true -> TextEqualBytes a c = true) /\
  (utf8_valid a = true -> TextEqualBytes a a = true) /\
  (utf8_valid a = true -> a <> "" -> last (split_byte LF a) <> Some "" ->
     TextEqualBytes a (a +:+ nl) = true).
Proof.
  split_and!.
  - apply TextEqualBytes_spec.
  - apply eq_bool_prop_intro. rewrite !Is_true_true, !TextEqualBytes_spec. naive_solver.
  - rewrite !TextEqualBytes_spec. naive_solver congruence.
  - rewrite TextEqualBytes_spec. naive_solver.
  - intros Hv Hne Hl. apply TextEqualBytes_spec. split_and!; [done| |].
    + unfold nl, str1. by rewrite utf8_valid_app_ascii, Hv.
    + unfold normal_lines. by rewrite splitLines_final_newline.
Qed.

(** The lenient comparison terminates and accepts two outputs exactly when
    both are valid UTF-8, their non-blank lines match pairwise (equal, or equal
    case-insensitive tokens), and at least one of them does not end in a blank
    line. *)
Theorem lenient_comparison (a b : string) :
  TextLenientBytes a b = true <->
  utf8_valid a = true /\ utf8_valid b = true /\
  Forall2 (fun x y => line_match x y = true)
    (nonblank (splitLines a)) (nonblank (splitLines b)) /\
  (ends_nonblank (splitLines a) = true \/ ends_nonblank (splitLines b) = true).
Proof.
  unfold TextLenientBytes, textLines.
  destruct (utf8_valid a), (utf8_valid b); [rewrite linesLenient_iff|..]; naive_solver.
Qed.

(** The lenient comparison rejects an output against itself when it ends in
    a blank line, although the strict comparison accepts it: a blank line left on
    both sides makes the main loop return before the trailing blank lines are
    skipped. *)
Theorem lenient_rejects_identical_trailing_blank :
  exists out, TextEqualBytes out out = true /\ TextLenientBytes out out = false.
Proof. exists (("x" +:+ nl) +:+ nl). split; reflexivity. Qed.

End CmpProperties.
