(* ===== verification/Grading.v ===== *)
(** * Grading

    [src/judge/internal/engine/grading.go]: parsing the monitor's report,
    attributing a failure to its cause, comparing an output and scoring a run.

    A workspace path is read through a [file_state], the answer the file system
    gives when that path is opened. [gradeCase] opens the output file twice, and
    receives one state per read, because the container may still be running when
    a case is graded as its milestone arrives. *)

From S2P Require Import Prelude GoStrings Float64 JudgeModel JudgeConfig Cmp.
From Stdlib Require Import QArith Lqa.
Local Open Scope Z_scope.

(** ** Reading files the submission wrote *)

Inductive file_state :=
| FMissing
| FIrregular
| FUnreadable
| FRegular (content : string).

Inductive read_error := EOpen | ENotRegular | ERead | ETooLarge.

Definition openRegular (st : file_state) : res read_error file_state :=
  match st with
  | FMissing => Err EOpen
  | FIrregular => Err ENotRegular
  | _ => Ok st
  end.

(** [io.ReadAll] of at most [n] bytes. *)
Definition read_all (st : file_state) (n : option Z) : res read_error string :=
  match st with
  | FRegular content =>
      Ok (match n with Some n => take_bytes (Z.to_nat n) content | None => content end)
  | _ => Err ERead
  end.

Definition readRegularBounded (st : file_state) (max : Z) : res read_error string :=
  f ← openRegular st;
  raw ← read_all f (Some (max + 1));
  if max <? Z.of_nat (String.length raw) then Err ETooLarge else Ok raw.

Definition readLimited (st : file_state) (max : Z) : string :=
  match openRegular st with
  | Err _ => ""
  | Ok f =>
      match read_all f (if 0 <? max then Some max else None) with
      | Err _ => ""
      | Ok raw => to_valid_utf8 raw
      end
  end.

(** ** The monitor's report *)

Record monitorInfo := mk_monitor {
  mi_Signal : string;
  mi_Time : float64;
  mi_CPU : float64;
  mi_HasCPU : bool;
  mi_Mem : Z;
  mi_HasMem : bool;
  mi_ExitStatus : Z;
  mi_HasExit : bool;
  mi_HasSignal : bool;
  mi_HasTime : bool
}.
#[export] Instance monitorInfo_eta : Settable monitorInfo := fun m =>
  mk_monitor (mi_Signal m) (mi_Time m) (mi_CPU m) (mi_HasCPU m) (mi_Mem m) (mi_HasMem m)
    (mi_ExitStatus m) (mi_HasExit m) (mi_HasSignal m) (mi_HasTime m).

Definition zero_monitor : monitorInfo :=
  mk_monitor "" (Fin 0) (Fin 0) false 0 false 0 false false false.

Definition Valid (m : monitorInfo) : bool := mi_HasSignal m && mi_HasTime m.

Definition maxMonitorBytes : Z := Z.shiftl 1 20.

Section Grading.
Context {UT : UnicodeTables} {FT : FloatText}.

(** One [key = value] pair of the report. *)
Definition monitor_key (info : monitorInfo) (key value : string) : monitorInfo :=
  if String.eqb key "signal" then
    info <| mi_Signal := value |> <| mi_HasSignal := true |>
  else if String.eqb key "exit_status" then
    match parse_int value with
    | Some n => info <| mi_ExitStatus := n |> <| mi_HasExit := true |>
    | None => info
    end
  else if String.eqb key "time" then
    match parse_float value with
    | Some v => if fge v (Fin 0%Q) then info <| mi_Time := v |> <| mi_HasTime := true |> else info
    | None => info
    end
  else if String.eqb key "cpu_time" then
    match parse_float value with
    | Some v => if fge v (Fin 0%Q) then info <| mi_CPU := v |> <| mi_HasCPU := true |> else info
    | None => info
    end
  else if existsb (String.eqb key) ["mem_peak_bytes"; "mem"; "memory"; "mem_usage"; "memused"] then
    match parse_int value with
    | Some n => info <| mi_Mem := n |> <| mi_HasMem := true |>
    | None => info
    end
  else info.

Definition monitor_line (info : monitorInfo) (line : string) : monitorInfo :=
  let line := trim_space line in
  if String.eqb line "" || has_prefix "[" line || has_prefix "#" line || has_prefix ";" line
  then info
  else match cut_byte "=" line with
       | None => info
       | Some (key, value) =>
           monitor_key info (to_lower (trim_space key)) (trim_space value)
       end.

Definition readMonitor (st : file_state) : monitorInfo :=
  match readRegularBounded st maxMonitorBytes with
  | Err _ => zero_monitor
  | Ok raw => fold_left monitor_line (split_byte LF raw) zero_monitor
  end.

(** ** Attributing a failure *)

Definition exitFailureMessage (info : monitorInfo) : string * bool :=
  if negb (mi_HasExit info) || (mi_ExitStatus info =? 0) then ("", false)
  else if mi_ExitStatus info <? 0 then ("", false)
  else if mi_ExitStatus info =? 124 then ("timeout", true)
  else if (128 <? mi_ExitStatus info) && (mi_ExitStatus info <? 256) then
    ("killed by signal " +:+ fmt_int (mi_ExitStatus info - 128), true)
  else ("exit status " +:+ fmt_int (mi_ExitStatus info), true).

Definition exitReason (info : monitorInfo) : CaseReason :=
  if (mi_ExitStatus info =? 124) || (mi_ExitStatus info =? 137)
  then CaseReasonTimeout else ReasonNone.

(** The untyped constants [0.9] and [0.75], as float64. *)
Definition const_0_9 : float64 := to_float (9 # 10).
Definition const_0_75 : float64 := to_float (3 # 4).

Definition exceededTimeout (info : monitorInfo) (tc : TestCase) : bool :=
  (0 <? tc_CPUTimeLimit tc) &&
  fge (mi_Time info) (fmul (float_of_Z (tc_CPUTimeLimit tc)) const_0_9).

(** [info.HasMem && float64(info.Mem) >= float64(tc.MemUsageLimit)*0.75]. *)
Definition near_mem_limit (info : monitorInfo) (tc : TestCase) : bool :=
  mi_HasMem info &&
  fge (float_of_Z (mi_Mem info)) (fmul (float_of_Z (tc_MemUsageLimit tc)) const_0_75).

Definition signalReason (info : monitorInfo) (tc : TestCase) : CaseReason :=
  let s := mi_Signal info in
  if String.eqb s "SIGXCPU" then CaseReasonCPULimit
  else if String.eqb s "SIGXFSZ" then CaseReasonFileSizeLimit
  else if String.eqb s "SIGKILL" then
    if exceededTimeout info tc then CaseReasonTimeout else CaseReasonSignal
  else if String.eqb s "SIGSEGV" || String.eqb s "SIGBUS" then
    if 0 <? tc_StackLimit tc then CaseReasonStackLimit
    else if (0 <? tc_MemUsageLimit tc) && near_mem_limit info tc then CaseReasonMemoryLimit
    else CaseReasonSignal
  else CaseReasonSignal.

Definition allocationFailureMarkers : list string :=
  ["MemoryError"; "OutOfMemoryError"; "std::bad_alloc"; "bad_alloc"; "out of memory";
   "Cannot allocate memory"; "cannot allocate memory"; "failed to map segment";
   "not enough memory"; "ENOMEM"].
Definition allocationFailure (errContent : string) : bool :=
  existsb (fun marker => contains marker errContent) allocationFailureMarkers.

Definition stackOverflowMarkers : list string :=
  ["stack overflow"; "StackOverflowError"; "stack smashing detected"; "stack-level limit exceeded"].
Definition stackOverflowFailure (errContent : string) : bool :=
  existsb (fun marker => contains marker errContent) stackOverflowMarkers.

Definition fileSizeFailureMarkers : list string :=
  ["File too large"; "Errno 27"; "EFBIG"; "file size limit exceeded"; "FileSizeLimitExceeded"].
Definition fileSizeFailure (errContent : string) : bool :=
  existsb (fun marker => contains marker errContent) fileSizeFailureMarkers.

Definition usageLimitReason (info : monitorInfo) (tc : TestCase) : CaseReason :=
  if (0 <? tc_MemUsageLimit tc) && near_mem_limit info tc then CaseReasonMemoryLimit
  else ReasonNone.

Definition humanBytes (value : Z) : string :=
  let mib := 1024 * 1024 in
  if (mib <=? value) && (Z.rem value mib =? 0) then fmt_int (Z.quot value mib) +:+ " MiB"
  else if (1024 <=? value) && (Z.rem value 1024 =? 0) then fmt_int (Z.quot value 1024) +:+ " KiB"
  else fmt_int value +:+ " bytes".

Definition limitStatusMessage (reason : CaseReason) (info : monitorInfo) (tc : TestCase)
    (fallback : string) : string :=
  match reason with
  | CaseReasonTimeout =>
      if 0 <? tc_CPUTimeLimit tc
      then "the time limit of " +:+ fmt_int (tc_CPUTimeLimit tc) +:+ "s was exceeded"
      else "the time limit was exceeded"
  | CaseReasonMemoryLimit =>
      if 0 <? tc_MemUsageLimit tc then
        if near_mem_limit info tc
        then "the memory limit of " +:+ humanBytes (tc_MemUsageLimit tc)
               +:+ " was reached (peak " +:+ humanBytes (mi_Mem info) +:+ ")"
        else "the program could not allocate memory (the limit is "
               +:+ humanBytes (tc_MemUsageLimit tc) +:+ ")"
      else "the memory limit was reached"
  | CaseReasonStackLimit => "the stack limit was exceeded"
  | CaseReasonFileSizeLimit =>
      if 0 <? tc_FileSizeLimit tc
      then "the file size limit of " +:+ humanBytes (tc_FileSizeLimit tc) +:+ " was exceeded"
      else "the file size limit was exceeded"
  | CaseReasonCPULimit => "the CPU time limit was exceeded"
  | _ => fallback
  end.

Definition compilationFailed (info : monitorInfo) : bool :=
  negb (Valid info) || negb (mi_HasExit info) || negb (mi_ExitStatus info =? 0).

(** ** Comparing and grading *)

Definition compareOutput (userOutput expected expectedType : string) : CaseStatus :=
  if String.eqb expectedType "file" then
    if String.eqb userOutput expected then CaseCorrect else CaseBadFormat
  else if TextEqualBytes userOutput expected then CaseCorrect
  else if TextLenientBytes userOutput expected then CaseBadFormat
  else CaseBadFormat.

(** The states of a case's files at each of [gradeCase]'s reads. *)
Record case_files := mk_files {
  cf_monitor : file_state;
  cf_error : file_state;
  cf_output : file_state;
  cf_output_again : file_state
}.

Inductive grade_error := EDownload (caseID : Z) | EExpectedRead (caseID : Z) | EExpectedTooLarge (caseID : Z).

(** The reason a failed exit is reported with. *)
Definition exit_case_reason (info : monitorInfo) (tc : TestCase) (errContent : string) : CaseReason :=
  let reason := exitReason info in
  if decide (reason = ReasonNone) then
    let reason :=
      if (0 <? tc_MemUsageLimit tc) &&
         (bool_decide (usageLimitReason info tc = CaseReasonMemoryLimit) || allocationFailure errContent)
      then CaseReasonMemoryLimit else reason in
    let reason :=
      if bool_decide (reason = ReasonNone) && stackOverflowFailure errContent
      then CaseReasonStackLimit else reason in
    if bool_decide (reason = ReasonNone) && (0 <? tc_FileSizeLimit tc) && fileSizeFailure errContent
    then CaseReasonFileSizeLimit else reason
  else reason.

(** The expected output: downloaded for a file case ([fetch] is the object
    store, [None] when the download fails), inline for a text case. *)
Definition expected_output (cfg : Config) (fetch : Z -> option file_state) (tc : TestCase)
    : res grade_error string :=
  if String.eqb (tc_ExpectedOutputType tc) "file" then
    match fetch (tc_ID tc) with
    | None => Err (EDownload (tc_ID tc))
    | Some st =>
        match readRegularBounded st (cfg_MaxCompareFileBytes cfg) with
        | Err _ => Err (EExpectedRead (tc_ID tc))
        | Ok expected => Ok expected
        end
    end
  else
    let expected := tc_ExpectedOutput tc in
    if (0 <? cfg_MaxCompareFileBytes cfg) &&
       (cfg_MaxCompareFileBytes cfg <? Z.of_nat (String.length expected))
    then Err (EExpectedTooLarge (tc_ID tc)) else Ok expected.

Definition gradeCase (cfg : Config) (fetch : Z -> option file_state) (tc : TestCase)
    (files : case_files) : res grade_error CaseResult :=
  let info := readMonitor (cf_monitor files) in
  let result := mk_result (tc_ID tc) (mi_Time info)
                  (if mi_HasTime info then mi_Time info else Fin 0%Q) (-1)
                  StatusUnset ReasonNone "" "" "text" "" in
  let result := if mi_HasCPU info then result <| cr_CPUTime := mi_CPU info |> else result in
  let result := if mi_HasMem info then result <| cr_MemUsage := mi_Mem info |> else result in
  let errContent := readLimited (cf_error files) (cfg_MaxOutputFileSize cfg) in
  let userOutput := readRegularBounded (cf_output files) (cfg_MaxCompareFileBytes cfg) in
  let '(exitMsg, exitFailed) := exitFailureMessage info in
  result ←
    (if negb (Valid info) then
       Ok (result <| cr_Status := CaseKilledBySignal |> <| cr_Reason := CaseReasonMonitor |>
             <| cr_StatusMsg := "the monitor did not produce a report" |>
             <| cr_ErrorMessage := errContent |>)
     else match userOutput with
     | Err _ =>
         Ok (result <| cr_Status := CaseKilledBySignal |> <| cr_Reason := CaseReasonOutput |>
               <| cr_ErrorMessage := "the output of this test case could not be read" |>)
     | Ok userOutput =>
         if exitFailed then
           let reason := exit_case_reason info tc errContent in
           Ok (result <| cr_Status := CaseKilledBySignal |> <| cr_Reason := reason |>
                 <| cr_StatusMsg := limitStatusMessage reason info tc exitMsg |>
                 <| cr_ErrorMessage := errContent |>)
         else if negb (String.eqb (mi_Signal info) "") then
           let reason := signalReason info tc in
           let fallback :=
             if bool_decide (reason = CaseReasonSignal) &&
                (String.eqb (mi_Signal info) "SIGSEGV" || String.eqb (mi_Signal info) "SIGBUS")
             then "the program crashed with " +:+ mi_Signal info
                    +:+ " (a stack overflow is the usual cause)"
             else mi_Signal info in
           Ok (result <| cr_Status := CaseKilledBySignal |> <| cr_Reason := reason |>
                 <| cr_StatusMsg := limitStatusMessage reason info tc fallback |>
                 <| cr_ErrorMessage := errContent |>)
         else if mi_HasExit info && (mi_ExitStatus info <? 0) then
           Ok (result <| cr_Status := CaseKilledBySignal |> <| cr_Reason := CaseReasonSignal |>
                 <| cr_StatusMsg := "the command did not exit normally" |>
                 <| cr_ErrorMessage := errContent |>)
         else
           expected ← expected_output cfg fetch tc;
           let status := compareOutput userOutput expected (tc_ExpectedOutputType tc) in
           let result := result <| cr_Status := status |> in
           Ok (if negb (bool_decide (status = CaseCorrect)) && negb (String.eqb errContent "")
               then result <| cr_ErrorMessage := errContent |> else result)
     end);
  Ok (result <| cr_UserOutput := readLimited (cf_output_again files) (cfg_MaxOutputFileSize cfg) |>).

(** The case stream of a run: the results already graded and published. *)
Definition caseStream : Type := gmap Z CaseResult.

Fixpoint gradeAll (cfg : Config) (fetch : Z -> option file_state) (files : Z -> case_files)
    (stream : option caseStream) (cases : list TestCase) : res grade_error (list CaseResult) :=
  match cases with
  | [] => Ok []
  | tc :: rest =>
      match stream ≫= (fun s => s !! tc_ID tc) with
      | Some result =>
          results ← gradeAll cfg fetch files stream rest; Ok (result :: results)
      | None =>
          result ← gradeCase cfg fetch tc (files (tc_ID tc));
          results ← gradeAll cfg fetch files stream rest; Ok (result :: results)
      end
  end.

Fixpoint findTestCase (cases : list TestCase) (id : Z) : option TestCase :=
  match cases with
  | [] => None
  | tc :: rest => if tc_ID tc =? id then Some tc else findTestCase rest id
  end.

Definition correct_cases (results : list CaseResult) : Z :=
  Z.of_nat (length (filter (fun r => cr_Status r = CaseCorrect) results)).

Definition scoreRun (cases : list TestCase) (results : list CaseResult) : Z * float64 * RunStatus :=
  let correct := correct_cases results in
  let n := Z.of_nat (length cases) in
  if n =? 0 then (0, Fin 0%Q, RunUncompleted)
  else
    let score := fdiv (fmul (Fin 100%Q) (float_of_Z correct)) (float_of_Z n) in
    if correct =? n then (correct, score, RunCompleted) else (correct, score, RunUncompleted).

End Grading.

(** * Lemmas *)

Section GradingLemmas.
Context {UT : UnicodeTables} {FT : FloatText}.

(** ** Comparison *)

(** What counts as the expected answer. *)
Definition outputs_match (expectedType userOutput expected : string) : Prop :=
  if String.eqb expectedType "file" then userOutput = expected
  else utf8_valid userOutput = true /\ utf8_valid expected = true /\
       normal_lines userOutput = normal_lines expected.

Lemma compareOutput_cases u e t :
  (compareOutput u e t = CaseCorrect /\ outputs_match t u e) \/
  (compareOutput u e t = CaseBadFormat /\ ~ outputs_match t u e).
Proof.
  unfold compareOutput, outputs_match. destruct (String.eqb t "file").
  - destruct (String.eqb_spec u e); [by left|by right].
  - destruct (TextEqualBytes u e) eqn:E.
    + left. by apply TextEqualBytes_spec in E.
    + right. split; [by case_match|]. intros H%TextEqualBytes_spec. congruence.
Qed.

Lemma compareOutput_correct u e t : compareOutput u e t = CaseCorrect <-> outputs_match t u e.
Proof. destruct (compareOutput_cases u e t) as [[-> ?]|[-> ?]]; naive_solver. Qed.

(** ** Exit statuses *)

Lemma exitFailureMessage_false info m :
  exitFailureMessage info = (m, false) ->
  mi_HasExit info = false \/ mi_ExitStatus info <= 0.
Proof.
  unfold exitFailureMessage. destruct (mi_HasExit info); [|by left]. cbn.
  destruct (mi_ExitStatus info =? 0) eqn:E0; [intros _; right; lia|].
  destruct (mi_ExitStatus info <? 0) eqn:E1; [intros _; right; lia|].
  by repeat case_match.
Qed.

Lemma exitFailureMessage_true info m :
  exitFailureMessage info = (m, true) -> mi_HasExit info = true /\ 0 < mi_ExitStatus info.
Proof.
  unfold exitFailureMessage. destruct (mi_HasExit info); [|done]. cbn.
  destruct (mi_ExitStatus info =? 0) eqn:E0; [done|].
  destruct (mi_ExitStatus info <? 0) eqn:E1; [done|]. intros _. lia.
Qed.

(** The command ended normally, or the monitor reported no exit status. *)
Definition exited_cleanly (info : monitorInfo) : Prop :=
  mi_Signal info = "" /\ (mi_HasExit info = true -> mi_ExitStatus info = 0).

(** Blaming a limit through a failed exit requires the memory or file-size limit
    to be set. *)
Lemma exit_case_reason_limits info tc err :
  (exit_case_reason info tc err = CaseReasonMemoryLimit -> 0 < tc_MemUsageLimit tc) /\
  (exit_case_reason info tc err = CaseReasonFileSizeLimit -> 0 < tc_FileSizeLimit tc).
Proof.
  unfold exit_case_reason, exitReason.
  destruct (_ || _); cbn [orb]; case_decide as Hd; try done.
  destruct (0 <? tc_MemUsageLimit tc) eqn:Em, (0 <? tc_FileSizeLimit tc) eqn:Ef; cbn [andb];
    rewrite ?andb_false_r; cbn [andb]; split; intros Hr; try lia; repeat case_match; done.
Qed.

Lemma signalReason_memory info tc :
  signalReason info tc = CaseReasonMemoryLimit -> 0 < tc_MemUsageLimit tc.
Proof.
  unfold signalReason. intros H. repeat case_match; try done.
  match goal with E : (_ && _) = true |- _ => apply andb_true_iff in E as [? _]; lia end.
Qed.

Lemma signalReason_some info tc : signalReason info tc <> ReasonNone.
Proof. unfold signalReason. by repeat case_match. Qed.

(** ** The shape of a graded result *)

(** A case is correct only through the comparison branch; every interruption
    carries no more than its own diagnostics. *)
Inductive graded (cfg : Config) (fetch : Z -> option file_state) (tc : TestCase)
    (files : case_files) : CaseResult -> Prop :=
| graded_interrupted r :
    cr_Status r = CaseKilledBySignal ->
    (Valid (readMonitor (cf_monitor files)) = false \/
     is_ok (readRegularBounded (cf_output files) (cfg_MaxCompareFileBytes cfg)) = false \/
     ~ exited_cleanly (readMonitor (cf_monitor files))) ->
    (cr_Reason r = CaseReasonMemoryLimit -> 0 < tc_MemUsageLimit tc) ->
    utf8_valid (cr_ErrorMessage r) = true ->
    graded cfg fetch tc files r
| graded_compared r out exp :
    Valid (readMonitor (cf_monitor files)) = true ->
    readRegularBounded (cf_output files) (cfg_MaxCompareFileBytes cfg) = Ok out ->
    exited_cleanly (readMonitor (cf_monitor files)) ->
    expected_output cfg fetch tc = Ok exp ->
    cr_Status r = compareOutput out exp (tc_ExpectedOutputType tc) ->
    cr_Reason r = ReasonNone ->
    utf8_valid (cr_ErrorMessage r) = true ->
    (cr_Status r = CaseCorrect -> cr_ErrorMessage r = "") ->
    graded cfg fetch tc files r.

Lemma readLimited_valid st max : utf8_valid (readLimited st max) = true.
Proof.
  unfold readLimited. destruct (openRegular st); [|done].
  destruct (read_all _ _); [apply to_valid_utf8_valid|done].
Qed.

Ltac rcbn := cbn [rset cr_TestCaseID cr_Status cr_Reason cr_ErrorMessage cr_UserOutput].

Lemma gradeCase_common cfg fetch tc files r :
  gradeCase cfg fetch tc files = Ok r ->
  cr_TestCaseID r = tc_ID tc /\ utf8_valid (cr_UserOutput r) = true /\
  graded cfg fetch tc files r.
Proof.
  unfold gradeCase. set (info := readMonitor (cf_monitor files)).
  set (err := readLimited (cf_error files) (cfg_MaxOutputFileSize cfg)).
  pose proof (readLimited_valid (cf_error files) (cfg_MaxOutputFileSize cfg) : utf8_valid err = true) as Herr.
  set (base := mk_result _ _ _ _ _ _ _ _ _ _).
  set (r1 := if mi_HasCPU info then _ else _). set (r2 := if mi_HasMem info then _ else _).
  assert (Hb : cr_TestCaseID r2 = tc_ID tc /\ cr_Reason r2 = ReasonNone /\ cr_ErrorMessage r2 = "").
  { subst r2 r1. by destruct (mi_HasCPU info), (mi_HasMem info). }
  clearbody r2. destruct Hb as (Hid & Hre & Hem).
  destruct (exitFailureMessage info) as [msg failed] eqn:Ex.
  intros (r' & Hr' & [= <-])%res_bind_ok.
  rcbn. rewrite readLimited_valid.
  assert (Hg : forall q, graded cfg fetch tc files q -> graded cfg fetch tc files
            (q <| cr_UserOutput := readLimited (cf_output_again files) (cfg_MaxOutputFileSize cfg) |>)).
  { intros q []; [eapply graded_interrupted|eapply graded_compared]; eauto. }
  enough (cr_TestCaseID r' = tc_ID tc /\ graded cfg fetch tc files r') as [? ?].
  { split_and!; [done|done|by apply Hg]. }
  clear Hg. fold info in Hr' |- *.
  destruct (Valid info) eqn:Ev; cbn [negb] in Hr'; [|].
  2: { injection Hr' as <-. split; [done|]. apply graded_interrupted; rcbn; [done|by left|done|done]. }
  destruct (readRegularBounded (cf_output files) (cfg_MaxCompareFileBytes cfg)) as [out|e] eqn:Eo.
  2: { injection Hr' as <-. split; [done|].
       apply graded_interrupted; rcbn; [done|right; left; by rewrite Eo|done|done]. }
  destruct failed.
  { injection Hr' as <-. split; [done|]. apply exitFailureMessage_true in Ex as [Hx Hs].
    apply graded_interrupted; rcbn; [done| |apply exit_case_reason_limits|done].
    right; right. intros [_ Hc]. specialize (Hc Hx). fold info in Hc. lia. }
  destruct (String.eqb_spec (mi_Signal info) "") as [Hsig|Hsig]; cbn [negb] in Hr'.
  2: { injection Hr' as <-. split; [done|]. apply graded_interrupted; rcbn;
         [done|right; right; by intros [? _]|apply signalReason_memory|done]. }
  destruct (mi_HasExit info && (mi_ExitStatus info <? 0)) eqn:Eneg.
  { injection Hr' as <-. split; [done|]. apply andb_true_iff in Eneg as [Hx Hn].
    apply graded_interrupted; rcbn; [done| |done|done].
    right; right. intros [_ Hc]. specialize (Hc Hx). fold info in Hc. lia. }
  apply res_bind_ok in Hr' as (exp & Hexp & [= <-]).
  split; [by case_match|].
  apply exitFailureMessage_false in Ex. apply andb_false_iff in Eneg.
  eapply graded_compared with (out := out) (exp := exp); try done.
  - split; [done|]. intros Hx. fold info in Hx |- *. destruct Ex, Eneg; (congruence || lia).
  - by case_match.
  - by case_match.
  - case_match; rcbn; by rewrite ?Hem.
  - case_match eqn:Ec; rcbn; [|done]. intros Hs. rewrite Hs in Ec. done.
Qed.

(** ** Scoring *)

Lemma correct_cases_le results : 0 <= correct_cases results <= Z.of_nat (length results).
Proof. unfold correct_cases. pose proof (length_filter (fun r => cr_Status r = CaseCorrect) results). lia. Qed.

Lemma correct_cases_all results :
  correct_cases results = Z.of_nat (length results) <->
  Forall (fun r => cr_Status r = CaseCorrect) results.
Proof.
  unfold correct_cases. rewrite Nat2Z.inj_iff.
  induction results as [|r rs IH]; [by split|].
  rewrite Forall_cons. destruct (decide (cr_Status r = CaseCorrect)) as [Hc|Hc].
  - rewrite filter_cons_True by done. cbn. rewrite <- IH. split; [intros; split; [done|lia]|lia].
  - rewrite filter_cons_False by done. cbn.
    pose proof (length_filter (fun r => cr_Status r = CaseCorrect) rs). split; [lia|by intros [? _]].
Qed.

Lemma score_bounds c n :
  0 <= c <= n -> 0 < n < 2 ^ 40 ->
  fbetween 0 100 (fdiv (fmul (Fin 100%Q) (float_of_Z c)) (float_of_Z n)) /\
  (c = n -> exists q, fdiv (fmul (Fin 100%Q) (float_of_Z c)) (float_of_Z n) = Fin q /\ (q == 100)%Q).
Proof.
  intros Hc Hn.
  destruct (float_of_Z_exact c) as (qc & -> & Hqc); [lia|].
  destruct (float_of_Z_exact n) as (qn & -> & Hqn); [lia|].
  cbn [fmul]. destruct (to_float_int (100 * qc) (100 * c)) as (qm & -> & Hqm); [lia| |].
  { rewrite Hqc, inject_Z_mult. done. }
  cbn [fdiv]. assert (Hn0 : (0 < qn)%Q).
  { rewrite Hqn. change 0%Q with (inject_Z 0). rewrite <- Zlt_Qlt. lia. }
  destruct (Qeq_bool qn 0) eqn:E; [apply Qeq_bool_iff in E; rewrite E in Hn0; done|].
  assert (Hle : (qm <= 100 * qn)%Q).
  { rewrite Hqm, Hqn, inject_Z_mult. change (inject_Z 100) with 100%Q.
    apply Qmult_le_l; [done|]. rewrite <- Zle_Qle. lia. }
  assert (Hge : (0 <= qm)%Q).
  { rewrite Hqm. change 0%Q with (inject_Z 0). rewrite <- Zle_Qle. lia. }
  split.
  - destruct (to_float_bounds (qm / qn) 100) as (q & -> & Hq0 & Hq1); [lia| | |].
    + by apply Qle_shift_div_l; [|rewrite Qmult_0_l].
    + by apply Qle_shift_div_r.
    + exists q. done.
  - intros ->. apply (to_float_int (qm / qn) 100); [lia|].
    rewrite Hqm, Hqn, inject_Z_mult. change (inject_Z 100) with 100%Q. field.
    intros H0. rewrite Hqn, H0 in Hn0. done.
Qed.

(** ** Streamed results *)

(** Every streamed result is filed under its own case. *)
Definition stream_keyed (s : caseStream) : Prop :=
  forall id r, s !! id = Some r -> cr_TestCaseID r = id.

Lemma stream_keyed_empty : stream_keyed ∅.
Proof. intros id r H. by apply (lookup_empty_Some (M := gmap Z)) in H. Qed.

Lemma stream_keyed_insert s r : stream_keyed s -> stream_keyed (<[cr_TestCaseID r := r]> s).
Proof.
  intros Hs id r' H. unfold caseStream in *. rewrite lookup_insert in H.
  case_decide; [congruence|by apply Hs].
Qed.
End GradingLemmas.

(** * Properties *)

Section GradingProperties.
Context {UT : UnicodeTables} {FT : FloatText}.

(** C1: A graded case is correct exactly when the monitor's report is usable, the
    output was readable within the bound, no signal and no failing exit status
    was reported, and the output equals the expected one (byte for byte for a
    file case, by normalised lines for a text case). *)
Theorem correct_verdict_iff cfg fetch tc files r
    (Hgraded : gradeCase cfg fetch tc files = Ok r) :
  cr_Status r = CaseCorrect <->
  Valid (readMonitor (cf_monitor files)) = true /\
  exited_cleanly (readMonitor (cf_monitor files)) /\
  exists out exp,
    readRegularBounded (cf_output files) (cfg_MaxCompareFileBytes cfg) = Ok out /\
    expected_output cfg fetch tc = Ok exp /\
    outputs_match (tc_ExpectedOutputType tc) out exp.
Proof.
  destruct (gradeCase_common _ _ _ _ _ Hgraded) as (_ & _ & Hg). destruct Hg as
    [r Hs Hwhy _ _|r out exp Hv Ho Hx He Hs _ _ _].
  - rewrite Hs. split; [done|]. intros (Hv & Hx & out & exp & Ho & _).
    rewrite Hv, Ho in Hwhy. by destruct Hwhy as [?|[?|?]].
  - rewrite Hs, compareOutput_correct. split; [by eauto 10|].
    intros (_ & _ & out' & exp' & Ho' & He' & Hm). congruence.
Qed.

(** Every graded case belongs to its test case and has a verdict; an
    interruption reason appears only on a killed case, a memory limit is blamed
    only when the case sets one, a correct case shows no error, and both texts
    stored in the database are valid UTF-8 whatever bytes the submission wrote. *)
Theorem graded_case_well_formed cfg fetch tc files r
    (Hgraded : gradeCase cfg fetch tc files = Ok r) :
  cr_TestCaseID r = tc_ID tc /\
  cr_Status r <> StatusUnset /\
  (cr_Reason r <> ReasonNone -> cr_Status r = CaseKilledBySignal) /\
  (cr_Reason r = CaseReasonMemoryLimit -> 0 < tc_MemUsageLimit tc) /\
  (cr_Status r = CaseCorrect -> cr_ErrorMessage r = "") /\
  utf8_valid (cr_UserOutput r) = true /\ utf8_valid (cr_ErrorMessage r) = true.
Proof.
  destruct (gradeCase_common _ _ _ _ _ Hgraded) as (Hid & Hu & Hg).
  split; [done|]. destruct Hg as [r Hs _ Hm He|r out exp _ _ _ _ Hs Hr He Hc].
  - rewrite Hs. split_and!; (done || congruence).
  - split_and!; [|congruence|congruence|done|done|done].
    rewrite Hs. by destruct (compareOutput_cases out exp (tc_ExpectedOutputType tc)) as [[-> _]|[-> _]].
Qed.

(** One result per case, in order, streamed results first. *)
Lemma gradeAll_results cfg fetch files stream cases results
    (Hkeyed : stream_keyed stream)
    (Hgraded : gradeAll cfg fetch files (Some stream) cases = Ok results) :
  map cr_TestCaseID results = map tc_ID cases /\
  Forall2 (fun tc r => forall r', stream !! tc_ID tc = Some r' -> r = r') cases results.
Proof.
  revert results Hgraded. induction cases as [|tc cases IH]; cbn [gradeAll]; intros results Hg.
  - injection Hg as <-. by split; [|constructor].
  - cbn [mbind option_bind] in Hg. destruct (stream !! tc_ID tc) as [r|] eqn:El.
    + apply res_bind_ok in Hg as (rs & Hrs & [= <-]). destruct (IH _ Hrs) as [Hm Hf].
      cbn. rewrite Hm, (Hkeyed _ _ El). split; [done|]. constructor; [|done]. congruence.
    + apply res_bind_ok in Hg as (r & Hr & Hg). apply res_bind_ok in Hg as (rs & Hrs & [= <-]).
      destruct (IH _ Hrs) as [Hm Hf]. apply gradeCase_common in Hr as (Hid & _).
      cbn. rewrite Hm, Hid. split; [done|]. constructor; [|done]. congruence.
Qed.

(** Grading a run yields one result per test case, in the cases' order, and a
    case streamed while the suite was running keeps its streamed result. *)
Theorem gradeAll_one_result_per_case cfg fetch files stream cases results
    (Hkeyed : stream_keyed stream)
    (Hgraded : gradeAll cfg fetch files (Some stream) cases = Ok results) :
  map cr_TestCaseID results = map tc_ID cases /\
  Forall2 (fun tc r => forall r', stream !! tc_ID tc = Some r' -> r = r') cases results.
Proof. exact (gradeAll_results cfg fetch files stream cases results Hkeyed Hgraded). Qed.

(** With one result per case, the score is a percentage between 0 and 100,
    the run is completed exactly when there is a case and every case is correct,
    and a completed run scores exactly 100. *)
Theorem scoreRun_bounds cases results
    (Hlen : length results = length cases) (Hn : Z.of_nat (length cases) < 2 ^ 40) :
  let '(correct, score, status) := scoreRun cases results in
  0 <= correct <= Z.of_nat (length cases) /\
  fbetween 0 100 score /\
  (status = RunCompleted <->
     cases <> [] /\ Forall (fun r => cr_Status r = CaseCorrect) results) /\
  (status = RunCompleted -> exists q, score = Fin q /\ (q == 100)%Q) /\
  (status = RunCompleted \/ status = RunUncompleted).
Proof.
  unfold scoreRun. pose proof (correct_cases_le results) as Hc. rewrite Hlen in Hc.
  pose proof (correct_cases_all results) as Ha. rewrite Hlen in Ha.
  destruct (Z.of_nat (length cases) =? 0) eqn:E0.
  - assert (cases = []) as -> by (by destruct cases).
    split_and!; [done|done|by exists 0%Q|by split; [|intros [? _]]|done|by right].
  - destruct (score_bounds _ _ Hc) as [Hb H100]; [lia|].
    assert (cases <> []) by (intros ->; done).
    destruct (correct_cases results =? Z.of_nat (length cases)) eqn:E.
    + apply Z.eqb_eq in E. split_and!; [lia|lia|done| |by auto|by left]. rewrite <- Ha. by split.
    + apply Z.eqb_neq in E. split_and!; [lia|lia|done| |done|by right].
      split; [done|]. intros [_ HF%Ha]. done.
Qed.

(** The size shown in a limit message identifies the limit: two byte counts
    printed the same way are equal. *)
Theorem humanBytes_injective v1 v2 (H1 : 0 <= v1 <= max_int64) (H2 : 0 <= v2 <= max_int64)
    (Hsame : humanBytes v1 = humanBytes v2) : v1 = v2.
Proof.
  assert (Hform : forall v, 0 <= v <= max_int64 -> exists n k u,
    humanBytes v = fmt_int n +:+ String " " u /\ int64 n /\ v = n * k /\
    ((k = 1024 * 1024 /\ u = "MiB") \/ (k = 1024 /\ u = "KiB") \/ (k = 1 /\ u = "bytes"))).
  { intros v Hv. unfold humanBytes, int64, min_int64 in *.
    rewrite !Z.rem_mod_nonneg, !Z.quot_div_nonneg by lia.
    destruct (_ && (v mod (1024 * 1024) =? 0)) eqn:Em.
    { exists (v / (1024 * 1024)), (1024 * 1024), "MiB". split; [done|].
      apply andb_true_iff in Em as [_ Em]. pose proof (Z.div_mod v (1024 * 1024)).
      split_and!; [lia..|by left]. }
    destruct (_ && (v mod 1024 =? 0)) eqn:Ek.
    { exists (v / 1024), 1024, "KiB". split; [done|].
      apply andb_true_iff in Ek as [_ Ek]. pose proof (Z.div_mod v 1024).
      split_and!; [lia..|by right; left]. }
    exists v, 1, "bytes". split; [done|]. split_and!; [lia..|by right; right]. }
  destruct (Hform v1 H1) as (n1 & k1 & u1 & E1 & Hn1 & -> & Hu1).
  destruct (Hform v2 H2) as (n2 & k2 & u2 & E2 & Hn2 & -> & Hu2).
  rewrite E1, E2 in Hsame. apply (f_equal (cut_byte " ")) in Hsame.
  rewrite !cut_byte_app in Hsame by (by apply fmt_int_no_byte).
  injection Hsame as Hf Hu. apply fmt_int_inj in Hf as ->; [|done|done].
  destruct Hu1 as [[-> ->]|[[-> ->]|[-> ->]]], Hu2 as [[-> ->]|[[-> ->]|[-> ->]]]; done.
Qed.

End GradingProperties.

(** ** Witnesses *)

Definition sample_case : TestCase :=
  mk_case 7 3 1 "text" "" "text" "42" true true true 2 (64 * 1024 * 1024) 0 0 [].
Definition sample_report : file_state :=
  FRegular ("[info]" +:+ nl +:+ "signal=" +:+ nl +:+ "exit_status=0" +:+ nl +:+ "time=0.25" +:+ nl).
Definition sample_files : case_files :=
  mk_files sample_report (FRegular "note") (FRegular ("42" +:+ nl)) (FRegular ("42" +:+ nl)).
Definition no_fetch : Z -> option file_state := fun _ => None.
Definition sample_result : CaseResult :=
  mk_result 7 (Fin (1 # 4)) (Fin (1 # 4)) (-1) CaseCorrect ReasonNone "" ("42" +:+ nl) "text" "".

Lemma correct_verdict_iff_witness :
  gradeCase (UT := ascii_tables) (FT := simple_floats) default_config no_fetch sample_case sample_files
    = Ok sample_result /\
  Valid (readMonitor (UT := ascii_tables) (FT := simple_floats) (cf_monitor sample_files)) = true.
Proof.
  assert (H : gradeCase (UT := ascii_tables) (FT := simple_floats) default_config no_fetch
    sample_case sample_files = Ok sample_result) by (vm_compute; reflexivity).
  split; [exact H|].
  exact (proj1 (proj1 (correct_verdict_iff (UT := ascii_tables) (FT := simple_floats)
    default_config no_fetch sample_case sample_files sample_result H) eq_refl)).
Defined.

Lemma graded_case_well_formed_witness :
  utf8_valid (cr_UserOutput sample_result) = true.
Proof.
  assert (H : gradeCase (UT := ascii_tables) (FT := simple_floats) default_config no_fetch
    sample_case sample_files = Ok sample_result) by (vm_compute; reflexivity).
  exact (proj1 (proj2 (proj2 (proj2 (proj2 (proj2 (graded_case_well_formed (UT := ascii_tables)
    (FT := simple_floats) default_config no_fetch sample_case sample_files sample_result H))))))).
Defined.

Definition sample_stream : caseStream := <[7 := sample_result]> ∅.

Lemma gradeAll_one_result_per_case_witness :
  map cr_TestCaseID [sample_result; sample_result <| cr_TestCaseID := 8 |>] = [7; 8].
Proof.
  refine (proj1 (gradeAll_one_result_per_case (UT := ascii_tables) (FT := simple_floats)
    default_config no_fetch (fun _ => sample_files) sample_stream
    [sample_case; sample_case <| tc_ID := 8 |>] _ _ _)).
  - apply (stream_keyed_insert ∅ sample_result), stream_keyed_empty.
  - vm_compute. reflexivity.
Defined.

Lemma scoreRun_bounds_witness : snd (scoreRun [sample_case] [sample_result]) = RunCompleted.
Proof.
  destruct (scoreRun_bounds [sample_case] [sample_result] eq_refl ltac:(cbn; lia))
    as (_ & _ & Hs & _).
  apply (proj2 Hs). split; [done|]. by repeat constructor.
Defined.

Lemma humanBytes_injective_witness :
  humanBytes (64 * 1024 * 1024) = "64 MiB" /\ 64 * 1024 * 1024 = 67108864.
Proof.
  split; [vm_compute; reflexivity|].
  apply humanBytes_injective; [unfold max_int64; lia..|vm_compute; reflexivity].
Defined.
