(* ===== verification/Json.v ===== *)
(** * JSON as [encoding/json] writes it

    [json.Marshal] on the values the judge publishes: structs (fields in
    declaration order, [omitempty] applied by the caller), maps (keys sorted),
    strings with Go's escaping (HTML-sensitive characters included), integers and
    binary64 numbers. Marshalling fails, as in Go, on NaN and the infinities.

    The shortest decimal of a finite [float64] and the RFC 3339 text of a
    [time.Time] are the fields of the class [JsonText]; [json_text_ok] is the part
    of their documented formats the frames rely on. *)

From S2P Require Import Prelude GoStrings Float64.
From Stdlib Require Import QArith.
Local Open Scope Z_scope.

Class JsonText := { fmt_float : Q -> string; fmt_time : Z -> string }.

Inductive json :=
| JNull
| JBool (b : bool)
| JInt (z : Z)
| JNum (f : float64)
| JStr (s : string)
| JTime (t : Z)
| JArr (l : list json)
| JObj (l : list (string * json)).

Definition quote : ascii := "034"%char.
Definition backslash : ascii := "092"%char.
Definition hex_digit (d : Z) : ascii := if d <? 10 then z2b (48 + d) else z2b (87 + d).
Definition u00 (z : Z) : string :=
  "\u00" +:+ String (hex_digit (Z.shiftr z 4)) (str1 (hex_digit (Z.land z 15))).

(** The escape of one ASCII byte. *)
Definition escape_byte (a : ascii) : string :=
  let z := b2z a in
  if Ascii.eqb a quote || Ascii.eqb a backslash then String backslash (str1 a)
  else if z =? 8 then "\b" else if z =? 12 then "\f" else if z =? 10 then "\n"
  else if z =? 13 then "\r" else if z =? 9 then "\t"
  else if (z <? 32) || Ascii.eqb a "<" || Ascii.eqb a ">" || Ascii.eqb a "&" then u00 z
  else str1 a.

Definition escape_rune (t : rune) : string :=
  if negb (rune_ok t) then "\ufffd"
  else match rune_bytes t with
  | String a EmptyString => escape_byte a
  | _ => if rune_val t =? 8232 then "\u2028"
         else if rune_val t =? 8233 then "\u2029" else rune_bytes t
  end.

Definition escape (s : string) : string := foldr (fun t acc => escape_rune t +:+ acc) "" (runes s).
Definition json_string (s : string) : string := String quote (escape s +:+ str1 quote).

Section Encode.
  Context {JT : JsonText}.

Definition encode_list (enc : json -> option string) : list json -> option string :=
  fix go l := match l with
  | [] => Some ""
  | [x] => enc x
  | x :: r => match enc x, go r with Some a, Some b => Some (a +:+ "," +:+ b) | _, _ => None end
  end.

Definition encode_fields (enc : json -> option string) : list (string * json) -> option string :=
  fix go l := match l with
  | [] => Some ""
  | [(k, x)] => match enc x with Some a => Some (json_string k +:+ ":" +:+ a) | None => None end
  | (k, x) :: r =>
      match enc x, go r with
      | Some a, Some b => Some (json_string k +:+ ":" +:+ a +:+ "," +:+ b)
      | _, _ => None
      end
  end.

(** [json.Marshal]; [None] is its error. *)
Fixpoint Marshal (v : json) : option string :=
  match v with
  | JNull => Some "null"
  | JBool b => Some (if b then "true" else "false")
  | JInt z => Some (fmt_int z)
  | JNum (Fin q) => Some (fmt_float q)
  | JNum _ => None
  | JStr s => Some (json_string s)
  | JTime t => Some (json_string (fmt_time t))
  | JArr l => option_map (fun s => "[" +:+ s +:+ "]") (encode_list Marshal l)
  | JObj l => option_map (fun s => "{" +:+ s +:+ "}") (encode_fields Marshal l)
  end.
End Encode.

(** ** A marshalled value is one line *)

(** Printable: neither a control character nor a line break. *)
Definition printable (a : ascii) : bool := 32 <=? b2z a.

(** The texts [strconv.FormatFloat] and [time.Time.MarshalJSON] produce hold no
    control character. *)
Class JsonTextOk (JT : JsonText) := { fmt_float_printable q : all_bytes printable (fmt_float q) = true }.

Lemma all_bytes_cons p a s : all_bytes p (String a s) = p a && all_bytes p s.
Proof. done. Qed.

(** A token is an ASCII byte, a longer sequence of non-ASCII bytes, or bad. *)
Definition rune_shape (t : rune) : Prop :=
  rune_ok t = false \/ (exists a, rune_bytes t = str1 a /\ rune_ok t = true) \/
  ((2 <= String.length (rune_bytes t))%nat /\ all_bytes (fun a => 128 <=? b2z a) (rune_bytes t) = true).

Lemma lead_high b0 b1 :
  lead2 b0 b1 = true \/ lead3 b0 b1 = true \/ lead4 b0 b1 = true -> 128 <= b2z b0 /\ 128 <= b2z b1.
Proof.
  unfold lead2, lead3, lead4, cont_byte, in_range.
  rewrite ?orb_true_iff, ?andb_true_iff, ?orb_true_iff, ?andb_true_iff. lia.
Qed.

Lemma cont_high a : cont_byte a = true -> 128 <= b2z a.
Proof. unfold cont_byte, in_range. rewrite andb_true_iff. lia. Qed.

Lemma runes_shape s : Forall rune_shape (runes s).
Proof.
  induction s as [s IH] using string_ind_len. destruct s as [|a r]; [by constructor|].
  destruct (runes_step a r) as (t & s' & E & Heq & Hlen & _). rewrite E.
  constructor; [|by apply IH]. clear IH Hlen Heq.
  assert (Ht : head (runes (String a r)) = Some t) by (by rewrite E). clear E. revert Ht. cbn [runes].
  destruct (b2z a <? 128); [intros [= <-]; right; left; by exists a|].
  destruct r as [|b1 r1]; [intros [= <-]; by left|].
  destruct (lead2 a b1) eqn:E1.
  { intros [= <-]. right; right. split; [cbn; lia|]. cbn.
    pose proof (lead_high a b1 (or_introl E1)). rewrite !andb_true_iff, !Z.leb_le. lia. }
  destruct r1 as [|b2 r2]; [intros [= <-]; by left|].
  destruct (lead3 a b1 && cont_byte b2) eqn:E2.
  { intros [= <-]. right; right. split; [cbn; lia|]. cbn. apply andb_true_iff in E2 as [E2a E2b%cont_high].
    pose proof (lead_high a b1 (or_intror (or_introl E2a))). rewrite !andb_true_iff, !Z.leb_le. lia. }
  destruct r2 as [|b3 r3]; [intros [= <-]; by left|].
  destruct (lead4 a b1 && cont_byte b2 && cont_byte b3) eqn:E3; [|intros [= <-]; by left].
  intros [= <-]. right; right. split; [cbn; lia|]. cbn.
  apply andb_true_iff in E3 as [[E3a E4%cont_high]%andb_true_iff E5%cont_high].
  pose proof (lead_high a b1 (or_intror (or_intror E3a))). rewrite !andb_true_iff, !Z.leb_le. lia.
Qed.

Lemma escape_byte_printable a : all_bytes printable (escape_byte a) = true.
Proof. destruct a as [[][][][][][][][]]; reflexivity. Qed.

Lemma escape_printable s : all_bytes printable (escape s) = true.
Proof.
  unfold escape. induction (runes_shape s) as [|t ts Ht _ IH]; [done|]. cbn [foldr].
  rewrite all_bytes_app, IH, andb_true_r. unfold escape_rune.
  destruct Ht as [->|[(a & -> & ->)|[Hl Hb]]]; [done|apply escape_byte_printable|].
  destruct (negb (rune_ok t)); [done|].
  destruct (rune_bytes t) as [|a [|b r]] eqn:E; [cbn in Hl; lia|cbn in Hl; lia|].
  destruct (rune_val t =? 8232); [done|]. destruct (rune_val t =? 8233); [done|].
  eapply all_bytes_impl; [|exact Hb]. unfold printable. intros x. rewrite !Z.leb_le. lia.
Qed.

Lemma json_string_printable s : all_bytes printable (json_string s) = true.
Proof.
  unfold json_string. by rewrite all_bytes_cons, all_bytes_app, escape_printable.
Qed.

#[local] Opaque json_string.

Section Printable.
  Context {JT : JsonText} {JTok : JsonTextOk JT}.

Lemma encode_list_printable l s :
  Forall (fun x => forall t, Marshal x = Some t -> all_bytes printable t = true) l ->
  encode_list Marshal l = Some s -> all_bytes printable s = true.
Proof.
  intros H. revert s. induction H as [|x r Hx _ IH]; intros s; [by intros [= <-]|].
  destruct r as [|y r']; [apply Hx|].
  change (encode_list Marshal (x :: y :: r')) with
    (match Marshal x, encode_list Marshal (y :: r') with
     | Some a, Some b => Some (a +:+ "," +:+ b) | _, _ => None end).
  destruct (Marshal x) as [a|] eqn:Ea; [|done].
  destruct (encode_list Marshal (y :: r')) as [b|] eqn:Eb; [|done]. intros [= <-].
  by rewrite ?all_bytes_app, ?all_bytes_cons, (Hx a eq_refl), (IH b eq_refl).
Qed.

Lemma encode_fields_printable l s :
  Forall (fun kx => forall t, Marshal (snd kx) = Some t -> all_bytes printable t = true) l ->
  encode_fields Marshal l = Some s -> all_bytes printable s = true.
Proof.
  intros H. revert s. induction H as [|[k x] r Hx _ IH]; intros s; [by intros [= <-]|]. cbn in Hx.
  destruct r as [|y r'].
  - cbn. destruct (Marshal x) as [a|] eqn:Ea; [|done]. intros [= <-].
    by rewrite all_bytes_app, json_string_printable, all_bytes_cons, (Hx a eq_refl).
  - change (encode_fields Marshal ((k, x) :: y :: r')) with
      (match Marshal x, encode_fields Marshal (y :: r') with
       | Some a, Some b => Some (json_string k +:+ ":" +:+ a +:+ "," +:+ b) | _, _ => None end).
    destruct (Marshal x) as [a|] eqn:Ea; [|done].
    destruct (encode_fields Marshal (y :: r')) as [b|] eqn:Eb; [|done]. intros [= <-].
    by rewrite ?all_bytes_cons, ?all_bytes_app, json_string_printable, ?all_bytes_cons, ?all_bytes_app,
      (Hx a eq_refl), ?all_bytes_cons, (IH b eq_refl).
Qed.

(** Induction over a value and its components. *)
Lemma json_nested_ind (P : json -> Prop) :
  (forall v, match v with
             | JArr l => Forall P l
             | JObj l => Forall (fun kx => P (snd kx)) l
             | _ => True
             end -> P v) -> forall v, P v.
Proof.
  intros H. fix go 1. intros [| | | | | |l|l]; apply H; try exact I.
  - induction l as [|x l IH]; constructor; [apply go|apply IH].
  - induction l as [|[k x] l IH]; constructor; [apply go|apply IH].
Qed.

Lemma Marshal_printable v s : Marshal v = Some s -> all_bytes printable s = true.
Proof.
  revert s. induction v as [v IH] using json_nested_ind. intros s.
  destruct v as [|b|z|[q| |]|x|t|l|l]; cbn [Marshal]; try done.
  - by intros [= <-].
  - intros [= <-]. by destruct b.
  - intros [= <-]. apply (all_bytes_impl int_char); [|apply fmt_int_chars].
    intros [[][][][][][][][]]; done.
  - intros [= <-]. apply fmt_float_printable.
  - intros [= <-]. apply json_string_printable.
  - intros [= <-]. apply json_string_printable.
  - destruct (encode_list Marshal l) as [b|] eqn:E; [|done]. intros [= <-].
    apply encode_list_printable in E; [|done]. by rewrite ?all_bytes_cons, ?all_bytes_app, E.
  - destruct (encode_fields Marshal l) as [b|] eqn:E; [|done]. intros [= <-].
    apply encode_fields_printable in E; [|done]. by rewrite ?all_bytes_cons, ?all_bytes_app, E.
Qed.

Lemma Marshal_one_line v s : Marshal v = Some s -> no_byte LF s /\ no_byte CR s.
Proof. intros H%Marshal_printable. split; by apply (all_bytes_no_byte printable). Qed.

End Printable.

(** A concrete text format, for evaluating the model on integers. *)
Definition plain_text : JsonText :=
  {| fmt_float q := fmt_int (Qnum q) +:+ (if (Qden q =? 1)%positive then "" else "/" +:+ fmt_int (Zpos (Qden q)));
     fmt_time t := fmt_int t |}.
#[export] Instance plain_text_ok : JsonTextOk plain_text.
Proof.
  assert (H : forall z, all_bytes printable (fmt_int z) = true).
  { intros z. apply (all_bytes_impl int_char); [|apply fmt_int_chars].
    intros [[][][][][][][][]]; done. }
  split. intros q. cbn. rewrite all_bytes_app, H. case_match; [done|].
  apply (H (Zpos (Qden q))).
Qed.

Example escape_demo : escape ("a<b" +:+ nl +:+ str1 quote) = "a\u003cb\n\" +:+ str1 quote.
Proof. reflexivity. Qed.
