(* ===== verification/JudgeEvents.v ===== *)
(** * The judge's event hub

    [src/judge/internal/events/hub.go]: the replayable per-commit event logs the
    backend consumes. A [topic] is one log with its subscriber channels; a [Hub]
    holds topics by pointer, because subscriptions and eviction timers keep
    referring to a topic that the map may since have replaced.

    Every method body runs under the topic's mutex, so an execution is a sequence
    of [op]s on a topic; a reader takes a frame off its channel without the mutex,
    which is the op [OReceive]. A blocking terminal send is given by an oracle:
    for each full channel, whether its reader makes room within the two seconds. *)

From S2P Require Import Prelude GoStrings Float64 JudgeModel Json.
Local Open Scope Z_scope.

Definition NameStatus := "status".
Definition NameCompilation := "compilation".
Definition NameCaseResult := "case_result".
Definition NameTimings := "timings".
Definition NameArtifact := "artifact".
Definition NameFinished := "finished".
Definition NameError := "error".
Definition NameAlert := "alert".

Definition maxFrames : nat := 1024.
Definition maxTopicBytes : Z := Z.shiftl 16 20.
Definition subBuffer : nat := 64.

Record Frame := mk_frame { fr_Seq : Z; fr_Name : string; fr_Data : string }.

(** ** Payloads *)

Record basePayload := mk_base { bp_Type : string; bp_CommitID : Z; bp_Seq : Z }.

Record PhaseTimingPayload := mk_phase {
  pp_Phase : string; pp_DurationMS : Z; pp_CPUMS : option Z; pp_MemPeakBytes : option Z;
  pp_StartedAt : option Z; pp_FinishedAt : option Z; pp_Source : string;
  pp_Detail : list (string * any)
}.

Inductive payload_body :=
| StatusPayload (status : string) (at_ : Z)
| CompilationPayload (compiled : bool) (message error : string) (at_ : Z)
| CaseResultPayload (testCaseID : Z) (cpuTime wallTime : float64) (memUsage : Z)
    (status reason statusMessage userOutput userOutputType errorMessage : string)
| TimingsPayload (phases : list PhaseTimingPayload)
| ArtifactPayload (kind url : string) (testCaseID : Z) (state reason : string) (limitBytes : Z)
| FinishedPayload (status : string) (numCorrectCases : Z) (score : float64)
    (compilationMessage compilationError : string) (startedAt finishedAt : Z)
| ErrorPayload (message : string)
| AlertPayload (severity code message : string) (details : list (string * any)).

(** Every payload struct embeds [basePayload], which makes it a [seqSetter]. *)
Record payload := mk_payload { pl_base : basePayload; pl_body : payload_body }.

Definition setSeq (p : payload) (s : Z) : payload :=
  mk_payload (mk_base (bp_Type (pl_base p)) (bp_CommitID (pl_base p)) s) (pl_body p).

(** The JSON object of a payload: [omitempty] fields are left out when zero. *)
Definition any_json (v : any) : json :=
  match v with AStr s => JStr s | ABool b => JBool b | AInt z => JInt z | AFloat f => JNum f end.

(** Maps are written with their keys sorted. *)
Fixpoint insert_key (kv : string * json) (l : list (string * json)) : list (string * json) :=
  match l with
  | [] => [kv]
  | kv' :: r => if String.leb (fst kv) (fst kv') then kv :: l else kv' :: insert_key kv r
  end.
Definition map_json (m : list (string * any)) : json :=
  JObj (foldr insert_key [] (map (fun '(k, v) => (k, any_json v)) m)).

Definition omit_str (k s : string) : list (string * json) :=
  if String.eqb s "" then [] else [(k, JStr s)].
Definition omit_int (k : string) (z : Z) : list (string * json) :=
  if z =? 0 then [] else [(k, JInt z)].
Definition omit_opt {A} (k : string) (f : A -> json) (o : option A) : list (string * json) :=
  match o with None => [] | Some x => [(k, f x)] end.
Definition omit_map (k : string) (m : list (string * any)) : list (string * json) :=
  match m with [] => [] | _ => [(k, map_json m)] end.

Definition phase_json (p : PhaseTimingPayload) : json :=
  JObj ([("phase", JStr (pp_Phase p)); ("duration_ms", JInt (pp_DurationMS p))]
        ++ omit_opt "cpu_ms" JInt (pp_CPUMS p)
        ++ omit_opt "mem_peak_bytes" JInt (pp_MemPeakBytes p)
        ++ omit_opt "started_at" JTime (pp_StartedAt p)
        ++ omit_opt "finished_at" JTime (pp_FinishedAt p)
        ++ omit_str "source" (pp_Source p) ++ omit_map "detail" (pp_Detail p)).

Definition body_fields (b : payload_body) : list (string * json) :=
  match b with
  | StatusPayload st at_ => [("status", JStr st); ("at", JTime at_)]
  | CompilationPayload c m e at_ =>
      [("compiled", JBool c); ("message", JStr m); ("error", JStr e); ("at", JTime at_)]
  | CaseResultPayload id cpu wall mem st re sm uo uot em =>
      [("test_case_id", JInt id); ("cpu_time", JNum cpu); ("wall_time", JNum wall);
       ("mem_usage", JInt mem); ("status", JStr st)] ++ omit_str "reason" re ++
      [("status_message", JStr sm); ("user_output", JStr uo); ("user_output_type", JStr uot);
       ("error_message", JStr em)]
  | TimingsPayload ps => [("phases", JArr (map phase_json ps))]
  | ArtifactPayload k u id st re lim =>
      [("kind", JStr k); ("url", JStr u)] ++ omit_int "test_case_id" id ++ omit_str "state" st
      ++ omit_str "reason" re ++ omit_int "limit_bytes" lim
  | FinishedPayload st n sc m e s f =>
      [("status", JStr st); ("num_correct_cases", JInt n); ("score", JNum sc);
       ("compilation_message", JStr m); ("compilation_error", JStr e);
       ("started_at", JTime s); ("finished_at", JTime f)]
  | ErrorPayload m => [("message", JStr m)]
  | AlertPayload sev code m d =>
      [("severity", JStr sev); ("code", JStr code); ("message", JStr m)] ++ omit_map "details" d
  end.

Definition payload_json (p : payload) : json :=
  JObj ([("type", JStr (bp_Type (pl_base p))); ("commit_id", JInt (bp_CommitID (pl_base p)));
         ("seq", JInt (bp_Seq (pl_base p)))] ++ body_fields (pl_body p)).

(** ** Topics *)

(** A buffered Go channel together with the frames its reader has received. *)
Record chan := mk_chan { ch_buf : list Frame; ch_closed : bool; ch_recv : list Frame }.
#[export] Instance chan_eta : Settable chan := fun c => mk_chan (ch_buf c) (ch_closed c) (ch_recv c).

Record topic := mk_topic {
  t_next : Z;
  t_frames : list Frame;
  t_bytes : Z;
  t_subs : gset nat;
  t_done : bool;
  t_evict : bool;
  t_chans : gmap nat chan
}.
#[export] Instance topic_eta : Settable topic := fun t =>
  mk_topic (t_next t) (t_frames t) (t_bytes t) (t_subs t) (t_done t) (t_evict t) (t_chans t).

Definition new_topic : topic := mk_topic 0 [] 0 ∅ false false ∅.

Definition frame_len (f : Frame) : Z := Z.of_nat (String.length (fr_Data f)).
Fixpoint total_len (l : list Frame) : Z :=
  match l with [] => 0 | f :: r => frame_len f + total_len r end.

(** The eviction loop: at least one frame stays. *)
Fixpoint evict_loop (frames : list Frame) (bytes : Z) : list Frame * Z :=
  match frames with
  | f :: ((_ :: _) as rest) =>
      if (maxFrames <? length frames)%nat || (maxTopicBytes <? bytes)
      then evict_loop rest (bytes - frame_len f)
      else (frames, bytes)
  | _ => (frames, bytes)
  end.

Definition appendFrame (t : topic) (frame : Frame) : topic :=
  let '(frames, bytes) := evict_loop (t_frames t ++ [frame]) (t_bytes t + frame_len frame) in
  t <| t_frames := frames |> <| t_bytes := bytes |>.

(** A send that drops the frame when the channel is full. *)
Definition try_send (frame : Frame) (c : chan) : chan :=
  if (length (ch_buf c) <? subBuffer)%nat then c <| ch_buf := ch_buf c ++ [frame] |> else c.

Definition receive (c : chan) : chan :=
  match ch_buf c with [] => c | f :: r => c <| ch_buf := r |> <| ch_recv := ch_recv c ++ [f] |> end.

(** The terminal send: a full channel is waited for; [room] tells whether its
    reader takes a frame before the timeout. *)
Definition terminal_send (room : bool) (frame : Frame) (c : chan) : chan :=
  if (length (ch_buf c) <? subBuffer)%nat then try_send frame c
  else if room then try_send frame (receive c) else c.

Definition send (terminal room : bool) (frame : Frame) (c : chan) : chan :=
  if terminal then terminal_send room frame c else try_send frame c.

Definition close_chan (c : chan) : chan := c <| ch_closed := true |>.

(** Apply [f] to the channels registered in [subs]. *)
Definition for_subs (subs : gset nat) (f : nat -> chan -> chan) (m : gmap nat chan) : gmap nat chan :=
  map_imap (fun i c => Some (if decide (i ∈ subs) then f i c else c)) m.

Section Hub.
  Context {JT : JsonText}.

(** [publish] on a topic, with the frame it appended and whether it armed an
    eviction timer. *)
Definition publish_topic (room : nat -> bool) (t : topic) (name : string) (p : payload)
  : topic * option Frame * bool :=
  if t_done t then (t, None, false)
  else
    let next := t_next t + 1 in
    let t := t <| t_next := next |> in
    match Marshal (payload_json (setSeq p next)) with
    | None => (t, None, false)
    | Some data =>
        let frame := mk_frame next name data in
        let t := appendFrame t frame in
        let terminal := String.eqb name NameFinished || String.eqb name NameError in
        let t := t <| t_chans := for_subs (t_subs t) (fun i => send terminal (room i) frame) (t_chans t) |> in
        let arm := String.eqb name NameError && negb (t_evict t) in
        let t := if arm then t <| t_evict := true |> else t in
        if String.eqb name NameFinished then
          (t <| t_done := true |>
             <| t_chans := for_subs (t_subs t) (fun _ => close_chan) (t_chans t) |>
             <| t_subs := ∅ |> <| t_evict := true |>, Some frame, true)
        else (t, Some frame, arm)
    end.

Definition backlog_of (t : topic) (from : Z) : list Frame :=
  filter (fun f => from < fr_Seq f) (t_frames t).

(** A fresh channel of the topic. *)
Definition fresh_chan (t : topic) : nat := fresh (dom (t_chans t)).

(** [Subscribe] on a topic: the backlog, the channel and whether it is closed. *)
Definition subscribe_topic (t : topic) (from : Z) : topic * (list Frame * nat * bool) :=
  let ch := fresh_chan t in
  if t_done t then (t <| t_chans := <[ch := mk_chan [] true []]> (t_chans t) |>, (backlog_of t from, ch, true))
  else (t <| t_chans := <[ch := mk_chan [] false []]> (t_chans t) |> <| t_subs := {[ch]} ∪ t_subs t |>,
        (backlog_of t from, ch, false)).

Definition cancel_topic (t : topic) (ch : nat) : topic :=
  if decide (ch ∈ t_subs t)
  then t <| t_subs := t_subs t ∖ {[ch]} |> <| t_chans := alter close_chan ch (t_chans t) |>
  else t.

(** ** The hub *)

Record Hub := mk_hub {
  h_topics : gmap Z nat;
  h_heap : gmap nat topic;
  h_timers : list (Z * nat)
}.
#[export] Instance Hub_eta : Settable Hub := fun h => mk_hub (h_topics h) (h_heap h) (h_timers h).

Definition New : Hub := mk_hub ∅ ∅ [].

(** [topic]: the pointer registered for a commit, allocating one if needed. *)
Definition topic_ptr (h : Hub) (id : Z) : Hub * nat :=
  match h_topics h !! id with
  | Some r => (h, r)
  | None =>
      let r := fresh (dom (h_heap h)) in
      (h <| h_topics := <[id := r]> (h_topics h) |> <| h_heap := <[r := new_topic]> (h_heap h) |>, r)
  end.

Definition publish_ptr (room : nat -> bool) (h : Hub) (id : Z) (r : nat) (name : string) (p : payload) : Hub :=
  match h_heap h !! r with
  | None => h
  | Some t =>
      let '(t', _, arm) := publish_topic room t name p in
      h <| h_heap := <[r := t']> (h_heap h) |>
        <| h_timers := if arm then h_timers h ++ [(id, r)] else h_timers h |>
  end.

Definition publish (room : nat -> bool) (h : Hub) (id : Z) (name : string) (p : payload) : Hub :=
  let '(h, r) := topic_ptr h id in publish_ptr room h id r name p.

Record Subscription := mk_sub { s_Backlog : list Frame; s_topic : nat; s_ch : nat; s_Done : bool }.

Definition Subscribe (h : Hub) (id from : Z) : Hub * option Subscription :=
  let '(h, r) := topic_ptr h id in
  match h_heap h !! r with
  | None => (h, None)
  | Some t =>
      let '(t', (bl, ch, dn)) := subscribe_topic t from in
      (h <| h_heap := <[r := t']> (h_heap h) |>, Some (mk_sub bl r ch dn))
  end.

(** [Cancel]: a subscription to a finished topic has no cancel function. *)
Definition Cancel (h : Hub) (s : Subscription) : Hub :=
  if s_Done s then h
  else h <| h_heap := alter (fun t => cancel_topic t (s_ch s)) (s_topic s) (h_heap h) |>.

Definition evictTopic (h : Hub) (id : Z) (r : nat) : Hub :=
  if decide (h_topics h !! id = Some r) then h <| h_topics := delete id (h_topics h) |> else h.

(** ** Typed publishers *)

Section Publishers.
  Context (room : nat -> bool).

Definition Status (h : Hub) (id : Z) (status : string) (at_ : Z) : Hub :=
  publish room h id NameStatus (mk_payload (mk_base NameStatus id 0) (StatusPayload status at_)).

Definition Compilation (h : Hub) (id : Z) (compiled : bool) (message errMsg : string) (at_ : Z) : Hub :=
  publish room h id NameCompilation
    (mk_payload (mk_base NameCompilation id 0) (CompilationPayload compiled message errMsg at_)).

Definition CaseResult_ (h : Hub) (id : Z) (r : CaseResult) : Hub :=
  publish room h id NameCaseResult (mk_payload (mk_base NameCaseResult id 0)
    (CaseResultPayload (cr_TestCaseID r) (cr_CPUTime r) (cr_WallTime r) (cr_MemUsage r)
       (case_status_string (cr_Status r)) (case_reason_string (cr_Reason r)) (cr_StatusMsg r)
       (cr_UserOutput r) (cr_OutputType r) (cr_ErrorMessage r))).

(** [time.Duration.Milliseconds] truncates towards zero. *)
Definition milliseconds (d : Z) : Z := Z.quot d 1000000.

Definition phase_payload (p : PhaseTiming) : PhaseTimingPayload :=
  mk_phase (pt_Phase p) (milliseconds (pt_Duration p))
    (if pt_HasCPU p then Some (milliseconds (pt_CPU p)) else None)
    (if pt_HasMemPeak p then Some (pt_MemPeak p) else None)
    (pt_StartedAt p) (pt_FinishedAt p) (pt_Source p) (pt_Detail p).

Definition Timings (h : Hub) (id : Z) (phases : list PhaseTiming) : Hub :=
  match phases with
  | [] => h
  | _ => publish room h id NameTimings
           (mk_payload (mk_base NameTimings id 0) (TimingsPayload (map phase_payload phases)))
  end.

Definition Artifact (h : Hub) (id : Z) (kind url : string) : Hub :=
  publish room h id NameArtifact
    (mk_payload (mk_base NameArtifact id 0) (ArtifactPayload kind url 0 "" "" 0)).

Definition ArtifactCase (h : Hub) (id testCaseID : Z) (state kind url : string) : Hub :=
  publish room h id NameArtifact
    (mk_payload (mk_base NameArtifact id 0) (ArtifactPayload kind url testCaseID state "" 0)).

Definition ArtifactFailed := "failed".

Definition ArtifactCaseFailed (h : Hub) (id testCaseID : Z) (reason : string) (limitBytes : Z)
    (kind url : string) : Hub :=
  publish room h id NameArtifact
    (mk_payload (mk_base NameArtifact id 0)
       (ArtifactPayload kind url testCaseID ArtifactFailed reason limitBytes)).

Definition Finished (h : Hub) (id : Z) (status : string) (numCorrect : Z) (score : float64)
    (message errMsg : string) (startedAt finishedAt : Z) : Hub :=
  publish room h id NameFinished (mk_payload (mk_base NameFinished id 0)
    (FinishedPayload status numCorrect score message errMsg startedAt finishedAt)).

Definition Error (h : Hub) (id : Z) (message : string) : Hub :=
  publish room h id NameError (mk_payload (mk_base NameError id 0) (ErrorPayload message)).

Definition Alert (h : Hub) (id : Z) (severity code message : string) (details : list (string * any)) : Hub :=
  publish room h id NameAlert (mk_payload (mk_base NameAlert id 0) (AlertPayload severity code message details)).
End Publishers.

(** ** Executions of one topic *)

Inductive op :=
| OPublish (room : nat -> bool) (name : string) (p : payload)
| OSubscribe (from : Z)
| OCancel (ch : nat)
| OReceive (ch : nat).

(** One operation, with the frame it published. *)
Definition step (o : op) (t : topic) : topic * option Frame :=
  match o with
  | OPublish room name p => fst (publish_topic room t name p)
  | OSubscribe from => (fst (subscribe_topic t from), None)
  | OCancel ch => (cancel_topic t ch, None)
  | OReceive ch => (t <| t_chans := alter receive ch (t_chans t) |>, None)
  end.

(** A sequence of operations, with the log of everything it published. *)
Fixpoint exec (ops : list op) (t : topic) : topic * list Frame :=
  match ops with
  | [] => (t, [])
  | o :: r =>
      let '(t, f) := step o t in
      let '(t, log) := exec r t in
      (t, match f with Some f => f :: log | None => log end)
  end.
End Hub.

(** * Lemmas *)

(** ** The replay buffer's bounds *)

Definition fits (l : list Frame) : Prop :=
  (length l <= 1)%nat \/ ((length l <= maxFrames)%nat /\ total_len l <= maxTopicBytes).

Lemma total_len_nonneg l : 0 <= total_len l.
Proof. induction l as [|f l IH]; cbn; [done|]. unfold frame_len. lia. Qed.

Lemma total_len_app l1 l2 : total_len (l1 ++ l2) = total_len l1 + total_len l2.
Proof. induction l1 as [|f l1 IH]; cbn; [done|]. rewrite IH. lia. Qed.

Lemma fits_sub l l' : (length l <= length l')%nat -> total_len l <= total_len l' -> fits l' -> fits l.
Proof. unfold fits. lia. Qed.

Lemma evict_loop_cons f g r bytes :
  evict_loop (f :: g :: r) bytes =
    if (maxFrames <? length (f :: g :: r))%nat || (maxTopicBytes <? bytes)
    then evict_loop (g :: r) (bytes - frame_len f) else (f :: g :: r, bytes).
Proof. done. Qed.

(** The loop keeps the longest suffix that fits. *)
Lemma evict_loop_spec frames fs b :
  evict_loop frames (total_len frames) = (fs, b) -> frames <> [] ->
  exists l, frames = l ++ fs /\ b = total_len fs /\ fs <> [] /\ fits fs /\
    forall l' f, l = l' ++ [f] -> ~ fits (f :: fs).
Proof.
  induction frames as [|f r IH]; [done|]. intros He _.
  destruct r as [|g r'].
  { injection He as <- <-. exists []. split_and!; [done..|left; cbn; lia|by intros [] ?]. }
  rewrite evict_loop_cons in He.
  destruct ((maxFrames <? length (f :: g :: r'))%nat || (maxTopicBytes <? total_len (f :: g :: r'))) eqn:E.
  - replace (total_len (f :: g :: r') - frame_len f) with (total_len (g :: r')) in He by (cbn; lia).
    destruct (IH He ltac:(done)) as (l & Hl & Hb & Hne & Hf & Hmax).
    exists (f :: l). rewrite Hl. split_and!; [done..|].
    intros l' x Hx. destruct l' as [|y l'].
    + injection Hx as -> ->. cbn in Hl. rewrite <- Hl.
      unfold fits. apply orb_true_iff in E. rewrite Nat.ltb_lt, Z.ltb_lt in E. cbn [length] in *. lia.
    + injection Hx as -> ->. by eapply Hmax.
  - injection He as <- <-. apply orb_false_iff in E as [E1%Nat.ltb_ge E2%Z.ltb_ge].
    exists []. split_and!; [done..|right; done|by intros [] ?].
Qed.

(** ** The topic's invariant *)

Section Invariant.
  Context {JT : JsonText}.

(** A frame holds the payload it was published with, numbered like the frame. *)
Definition marshalled (f : Frame) : Prop :=
  exists p, Marshal (payload_json (setSeq p (fr_Seq f))) = Some (fr_Data f).

Definition is_finished (f : Frame) : Prop := fr_Name f = NameFinished.

Definition seqs (l : list Frame) : list Z := map fr_Seq l.

(** [log] is everything the topic has published so far. *)
Record topic_inv (t : topic) (log : list Frame) : Prop := {
  ti_bytes : t_bytes t = total_len (t_frames t);
  ti_suffix : exists l, log = l ++ t_frames t /\ forall l' f, l = l' ++ [f] -> ~ fits (f :: t_frames t);
  ti_fits : fits (t_frames t);
  ti_last : log <> [] -> t_frames t <> [];
  ti_seqs : Forall (fun s => 1 <= s <= t_next t) (seqs log) /\ StronglySorted Z.lt (seqs log);
  ti_next : 0 <= t_next t;
  ti_data : Forall marshalled log;
  ti_done : if t_done t
            then t_subs t = ∅ /\ exists l f, log = l ++ [f] /\ is_finished f /\ Forall (fun g => ~ is_finished g) l
            else Forall (fun g => ~ is_finished g) log
}.

Lemma new_topic_inv : topic_inv new_topic [].
Proof.
  constructor; cbn; try done; [exists []|left; cbn; lia|by repeat constructor|constructor..].
  split; [done|]. by intros [] ?.
Qed.

(** The invariant does not depend on the channels or the timer. *)
Lemma topic_inv_ext t t' log :
  t_next t' = t_next t -> t_frames t' = t_frames t -> t_bytes t' = t_bytes t ->
  t_done t' = t_done t -> (t_done t = true -> t_subs t' = ∅) ->
  topic_inv t log -> topic_inv t' log.
Proof.
  intros E1 E2 E3 E4 Hs []. constructor; rewrite ?E1, ?E2, ?E3, ?E4; try done.
  destruct (t_done t); [|done]. split; [auto|apply ti_done0].
Qed.

(** Appending a frame with the next number. *)
Lemma appendFrame_inv t log name data p t' :
  topic_inv t log -> t_done t = false ->
  Marshal (payload_json (setSeq p (t_next t + 1))) = Some data ->
  let f := mk_frame (t_next t + 1) name data in
  let t1 := appendFrame (t <| t_next := t_next t + 1 |>) f in
  t_next t' = t_next t1 -> t_frames t' = t_frames t1 -> t_bytes t' = t_bytes t1 ->
  t_done t' = String.eqb name NameFinished -> (t_done t' = true -> t_subs t' = ∅) ->
  topic_inv t' (log ++ [f]).
Proof.
  intros [Hb (l & Hl & Hmax) Hf Hlast [Hr Hs] Hn Hd Hdone] Hnd Hm f t1.
  unfold t1, appendFrame. clear t1. cbn.
  replace (t_bytes t + frame_len f) with (total_len (t_frames t ++ [f]))
    by (rewrite total_len_app, Hb; cbn; lia).
  destruct (evict_loop _ _) as [fs b] eqn:E. cbn. intros E1 E2 E3 E4 Hsubs.
  apply evict_loop_spec in E as (k & Hk & -> & Hne & Hfit & Hkmax); [|by destruct (t_frames t)].
  rewrite Hnd in Hdone. constructor; rewrite ?E1, ?E2, ?E3; try done.
  - exists (l ++ k). rewrite <- !app_assoc, <- Hk, Hl, <- app_assoc. split; [done|].
    intros l' g Hg. destruct k as [|x k _] using rev_ind.
    + cbn in Hk. subst fs. rewrite app_nil_r in Hg. intros Hbad. eapply Hmax; [exact Hg|].
      eapply fits_sub; [| |exact Hbad]; cbn; rewrite ?length_app, ?total_len_app; cbn; [lia|].
      unfold frame_len. lia.
    + rewrite app_assoc in Hg. apply app_inj_tail in Hg as [_ ->]. by eapply Hkmax.
  - unfold seqs. rewrite map_app. split.
    + apply Forall_app. split; [|repeat constructor; cbn; lia].
      eapply Forall_impl; [exact Hr|]. cbn. lia.
    + apply sorted_snoc; [done|]. eapply Forall_impl; [exact Hr|]. cbn. lia.
  - lia.
  - apply Forall_app. split; [done|]. constructor; [|constructor]. by exists p.
  - rewrite E4 in *. destruct (String.eqb_spec name NameFinished) as [->|Hne'].
    + split; [auto|]. by exists log, f.
    + apply Forall_app. split; [done|]. by repeat constructor.
Qed.

(** What a published frame changes besides the channels. *)
Lemma publish_topic_fields room t name p :
  let '(t', f, arm) := publish_topic room t name p in
  (t_done t = true -> t' = t /\ f = None /\ arm = false) /\
  (t_done t = false -> forall log, topic_inv t log -> topic_inv t' (log ++ option_list f)).
Proof.
  unfold publish_topic. destruct (t_done t) eqn:Hd; [done|].
  destruct (Marshal _) as [data|] eqn:Hm; [|]; cbn [setSeq] in Hm.
  - destruct (String.eqb name NameFinished) eqn:Hn; (split; [done|]); intros _ log Hi;
      eapply (appendFrame_inv t log name data p); try done;
      destruct (String.eqb name NameError && _); try done; cbn;
      unfold appendFrame; destruct (evict_loop _ _); cbn; congruence.
  - split; [done|]. intros _ log []. cbn. rewrite app_nil_r. constructor; try done; cbn; [|lia].
    split; [|apply ti_seqs0]. eapply Forall_impl; [apply ti_seqs0|]. cbn. lia.
Qed.

Lemma step_inv o t t' f log :
  topic_inv t log -> step o t = (t', f) -> topic_inv t' (log ++ option_list f).
Proof.
  intros Hi. destruct o as [room name p|from|ch|ch]; cbn [step].
  - pose proof (publish_topic_fields room t name p) as H.
    destruct (publish_topic room t name p) as [[t1 f1] arm]. cbn [fst]. intros [= <- <-].
    destruct (t_done t) eqn:Hd; [|by apply H].
    destruct H as [(-> & -> & _) _]; [done|]. cbn. by rewrite app_nil_r.
  - intros [= <- <-]. cbn. rewrite app_nil_r. unfold subscribe_topic.
    destruct (t_done t) eqn:Hd; (eapply topic_inv_ext; [..|exact Hi]); try done; cbn; [|congruence].
    intros _. pose proof (ti_done _ _ Hi) as H. rewrite Hd in H. apply H.
  - intros [= <- <-]. cbn. rewrite app_nil_r. unfold cancel_topic. case_decide; [|done].
    eapply topic_inv_ext; [..|exact Hi]; try done. cbn. intros Hd.
    destruct Hi as [? ? ? ? ? ? ? Hi]. rewrite Hd in Hi. destruct Hi as [-> _]. set_solver.
  - intros [= <- <-]. cbn. rewrite app_nil_r. eapply topic_inv_ext; [..|exact Hi]; try done. cbn.
    intros Hd. destruct Hi as [? ? ? ? ? ? ? Hi]. rewrite Hd in Hi. apply Hi.
Qed.

Lemma exec_inv ops t t' log log' :
  topic_inv t log -> exec ops t = (t', log') -> topic_inv t' (log ++ log').
Proof.
  revert t log log'. induction ops as [|o ops IH]; intros t log log' Hi; cbn.
  { intros [= <- <-]. by rewrite app_nil_r. }
  destruct (step o t) as [t1 f] eqn:Es. destruct (exec ops t1) as [t2 l] eqn:Ee.
  intros [= <- <-]. pose proof (step_inv _ _ _ _ _ Hi Es) as H1.
  specialize (IH _ _ _ H1 Ee). rewrite <- app_assoc in IH. by destruct f.
Qed.

Lemma exec_app ops1 ops2 t :
  exec (ops1 ++ ops2) t =
    let '(t1, l1) := exec ops1 t in let '(t2, l2) := exec ops2 t1 in (t2, l1 ++ l2).
Proof.
  revert t. induction ops1 as [|o ops1 IH]; intros t; cbn; [by destruct (exec ops2 t)|].
  destruct (step o t) as [t1 f]. rewrite IH. destruct (exec ops1 t1) as [t2 l].
  destruct (exec ops2 t2) as [t3 l']. by destruct f.
Qed.
End Invariant.

(** ** What one subscriber sees *)

Lemma for_subs_lookup subs f (m : gmap nat chan) i :
  for_subs subs f m !! i = (fun c => if decide (i ∈ subs) then f i c else c) <$> m !! i.
Proof. unfold for_subs. rewrite map_lookup_imap. by destruct (m !! i). Qed.

(** The frames a channel has delivered or still holds. *)
Definition view (c : chan) : list Frame := ch_recv c ++ ch_buf c.

Lemma try_send_view f c :
  ch_closed (try_send f c) = ch_closed c /\
  (view (try_send f c) = view c \/ view (try_send f c) = view c ++ [f]) /\
  ((length (ch_buf c) < subBuffer)%nat -> view (try_send f c) = view c ++ [f]).
Proof.
  unfold try_send, view. destruct (length (ch_buf c) <? subBuffer)%nat eqn:E; cbn.
  - rewrite app_assoc. auto.
  - apply Nat.ltb_ge in E. split_and!; [done|by left|lia].
Qed.

Lemma receive_view c : ch_closed (receive c) = ch_closed c /\ view (receive c) = view c.
Proof.
  unfold receive, view. destruct (ch_buf c) as [|f r] eqn:E; cbn; rewrite ?E; [done|].
  by rewrite <- app_assoc.
Qed.

Lemma send_view tm room f c :
  ch_closed (send tm room f c) = ch_closed c /\
  (view (send tm room f c) = view c \/ view (send tm room f c) = view c ++ [f]) /\
  ((length (ch_buf c) < subBuffer)%nat -> view (send tm room f c) = view c ++ [f]).
Proof.
  unfold send, terminal_send. destruct tm; [|apply try_send_view].
  destruct (length (ch_buf c) <? subBuffer)%nat eqn:E; [apply try_send_view|].
  apply Nat.ltb_ge in E. destruct room; [|split_and!; [done|by left|lia]].
  destruct (receive_view c) as [E1 E2]. destruct (try_send_view f (receive c)) as (H1 & H2 & _).
  rewrite E1, E2 in *. split_and!; [done|done|lia].
Qed.

(** A channel registered before [log] was published. *)
Record chan_ok (t : topic) (ch : nat) (log : list Frame) (c : chan) : Prop := {
  co_chan : t_chans t !! ch = Some c;
  co_sub : t_done t = false -> ch ∈ t_subs t;
  co_closed : ch_closed c = t_done t;
  co_view : view c `sublist_of` log;
  co_all : (length log <= subBuffer)%nat -> view c = log
}.

Section Delivery.
  Context {JT : JsonText}.

(** The channels of a topic after [publish] on a live one. *)
Lemma publish_topic_live room t name p :
  t_done t = false ->
  let '(t', f, _) := publish_topic room t name p in
  match f with
  | None => t_done t' = false /\ t_subs t' = t_subs t /\ t_chans t' = t_chans t
  | Some f =>
      t_done t' = String.eqb name NameFinished /\
      (t_done t' = false -> t_subs t' = t_subs t) /\
      exists tm, forall ch c, t_chans t !! ch = Some c -> ch ∈ t_subs t ->
        t_chans t' !! ch = Some (let c' := send tm (room ch) f c in
                                 if t_done t' then close_chan c' else c')
  end.
Proof.
  intros Hd. unfold publish_topic. rewrite Hd. destruct (Marshal _) as [data|]; [|done].
  unfold appendFrame. destruct (evict_loop _ _) as [fs b].
  set (tm := String.eqb name NameFinished || String.eqb name NameError).
  destruct (String.eqb name NameFinished) eqn:Hn; destruct (String.eqb name NameError && _); cbn;
    (split; [done|]; split; [done|]; exists tm; intros ch c Hc Hs);
    rewrite !for_subs_lookup, Hc; cbn; rewrite ?Hd, ?decide_True by done; done.
Qed.

Lemma step_chan o t t' f ch log c :
  chan_ok t ch log c -> step o t = (t', f) -> o <> OCancel ch ->
  exists c', chan_ok t' ch (log ++ option_list f) c'.
Proof.
  intros Hc. pose proof Hc as [Hlk Hsub Hcl Hv Hall].
  destruct o as [room name p|from|ch'|ch']; cbn [step].
  - intros Hp _. destruct (t_done t) eqn:Hd.
    { unfold publish_topic in Hp. rewrite Hd in Hp. injection Hp as <- <-.
      exists c. cbn. rewrite app_nil_r. constructor; by rewrite ?Hd. }
    pose proof (publish_topic_live room t name p Hd) as H.
    destruct (publish_topic room t name p) as [[t1 [f1|]] arm]; injection Hp as <- <-; cbn [option_list].
    + destruct H as (Hd' & Hs & tm & Hch). specialize (Hch ch c Hlk (Hsub eq_refl)). cbn in Hch.
      destruct (send_view tm (room ch) f1 c) as (S1 & S2 & S3).
      eexists. constructor; [exact Hch|..].
      * intros E. rewrite Hs by done. auto.
      * destruct (t_done t1); cbn; congruence.
      * replace (view _) with (view (send tm (room ch) f1 c)) by (by destruct (t_done t1)).
        destruct S2 as [->| ->]; [by apply sublist_inserts_r|]. by apply sublist_app.
      * rewrite length_app. cbn. intros Hl. specialize (Hall ltac:(lia)).
        replace (view _) with (view (send tm (room ch) f1 c)) by (by destruct (t_done t1)).
        rewrite S3, Hall; [done|]. apply (f_equal length) in Hall. unfold view in Hall.
        rewrite length_app in Hall. lia.
    + destruct H as (Hd' & Hs & Hch). exists c. rewrite app_nil_r.
      constructor; rewrite ?Hd', ?Hs, ?Hch; auto.
  - intros [= <- <-] _. exists c. cbn. rewrite app_nil_r. unfold subscribe_topic.
    assert (fresh_chan t <> ch).
    { intros E. apply (is_fresh (dom (t_chans t))). unfold fresh_chan in E. rewrite E.
      apply elem_of_dom. eauto. }
    destruct (t_done t) eqn:Hd; constructor; cbn; rewrite ?lookup_insert_ne by done;
      rewrite ?Hd; try done. set_solver.
  - intros [= <- <-] Hne. exists c. cbn. rewrite app_nil_r. unfold cancel_topic.
    assert (ch' <> ch) by congruence.
    case_decide; [|done]. constructor; cbn; rewrite ?lookup_alter_ne by done; try done. set_solver.
  - intros [= <- <-] _. cbn. rewrite app_nil_r. destruct (decide (ch' = ch)) as [->|].
    + exists (receive c). destruct (receive_view c) as [E1 E2].
      constructor; cbn; rewrite ?lookup_alter_eq, ?Hlk, ?E1, ?E2; done.
    + exists c. constructor; cbn; rewrite ?lookup_alter_ne by done; done.
Qed.

Lemma exec_chan ops t t' ch log log' c :
  chan_ok t ch log c -> exec ops t = (t', log') -> Forall (fun o => o <> OCancel ch) ops ->
  exists c', chan_ok t' ch (log ++ log') c'.
Proof.
  intros Hc He Hn. revert t log log' c Hc He.
  induction Hn as [|o ops Ho _ IH]; intros t log log' c Hc; cbn.
  { intros [= <- <-]. exists c. by rewrite app_nil_r. }
  destruct (step o t) as [t1 f] eqn:Es. destruct (exec ops t1) as [t2 l] eqn:Ee.
  intros [= <- <-]. destruct (step_chan _ _ _ _ _ _ _ Hc Es Ho) as [c1 H1].
  destruct (IH _ _ _ _ H1 Ee) as [c2 H2]. exists c2. rewrite <- app_assoc in H2. by destruct f.
Qed.

Lemma subscribe_chan t from t' bl ch dn :
  subscribe_topic t from = (t', (bl, ch, dn)) ->
  bl = backlog_of t from /\ dn = t_done t /\ chan_ok t' ch [] (mk_chan [] (t_done t) []).
Proof.
  unfold subscribe_topic. destruct (t_done t) eqn:Hd; intros [= <- <- <- <-];
    (split; [done|]; split; [done|]); constructor; cbn; rewrite ?lookup_insert_eq, ?Hd; try done.
  set_solver.
Qed.
End Delivery.

(** ** The hub's pointers *)

Definition terminated (t : topic) : Prop := t_done t = true \/ t_evict t = true.

(** Registered pointers are allocated, and a timer is armed only for a topic that
    has reported an error or finished. *)
Record hub_inv (h : Hub) : Prop := {
  hi_alloc id r : h_topics h !! id = Some r -> is_Some (h_heap h !! r);
  hi_timers id r : (id, r) ∈ h_timers h -> exists t, h_heap h !! r = Some t /\ terminated t
}.

Inductive hub_op :=
| HPublish (room : nat -> bool) (id : Z) (name : string) (p : payload)
| HPublishAt (room : nat -> bool) (id : Z) (r : nat) (name : string) (p : payload)
| HSubscribe (id from : Z)
| HCancel (s : Subscription)
| HFire (n : nat).

Section HubSteps.
  Context {JT : JsonText}.

(** [HPublishAt] is a publisher that looked the topic up before the map changed;
    [HFire] is a timer of [time.AfterFunc] firing. *)
Definition hub_step (o : hub_op) (h : Hub) : Hub :=
  match o with
  | HPublish room id name p => publish room h id name p
  | HPublishAt room id r name p => publish_ptr room h id r name p
  | HSubscribe id from => fst (Subscribe h id from)
  | HCancel s => Cancel h s
  | HFire n => match h_timers h !! n with
               | None => h
               | Some (id, r) => evictTopic (h <| h_timers := delete n (h_timers h) |>) id r
               end
  end.

Definition hub_exec (ops : list hub_op) : Hub := fold_left (fun h o => hub_step o h) ops New.

Lemma publish_terminated room t name p t' f arm :
  publish_topic room t name p = (t', f, arm) ->
  (terminated t -> terminated t') /\ (arm = true -> terminated t').
Proof.
  unfold publish_topic, terminated. destruct (t_done t) eqn:Hd; [intros [= <- <- <-]; naive_solver|].
  destruct (Marshal _) as [data|]; [|intros [= <- <- <-]; cbn; rewrite Hd; naive_solver].
  unfold appendFrame. destruct (evict_loop _ _) as [fs b]. cbn.
  destruct (String.eqb name NameFinished); cbn.
  - destruct (String.eqb name NameError && _); intros [= <- <- <-]; cbn; naive_solver.
  - destruct (String.eqb name NameError && _) eqn:E; intros [= <- <- <-]; cbn; naive_solver.
Qed.

Lemma hub_inv_heap h r t t' :
  hub_inv h -> h_heap h !! r = Some t -> (terminated t -> terminated t') ->
  hub_inv (h <| h_heap := <[r := t']> (h_heap h) |>).
Proof.
  intros [Ha Ht] Hr Hm. constructor; cbn.
  - intros id r' H%Ha. destruct (decide (r = r')) as [->|]; [by rewrite lookup_insert_eq|].
    by rewrite lookup_insert_ne.
  - intros id r' (t0 & H & ?)%Ht. destruct (decide (r = r')) as [->|].
    + rewrite lookup_insert_eq. exists t'. split; [done|]. apply Hm. congruence.
    + rewrite lookup_insert_ne by done. eauto.
Qed.

Lemma topic_ptr_inv h id h' r :
  hub_inv h -> topic_ptr h id = (h', r) ->
  hub_inv h' /\ (forall id' r', h_topics h !! id' = Some r' -> h_topics h' !! id' = Some r').
Proof.
  intros [Ha Ht]. unfold topic_ptr. destruct (h_topics h !! id) as [r0|] eqn:E; intros [= <- <-].
  { done. }
  pose proof (is_fresh (dom (h_heap h))) as Hf. apply not_elem_of_dom in Hf.
  split; [constructor; cbn|cbn].
  - intros id' r'. destruct (decide (id = id')) as [->|].
    + rewrite lookup_insert_eq. intros [= <-]. by rewrite lookup_insert_eq.
    + rewrite lookup_insert_ne by done. intros [t H]%Ha.
      rewrite lookup_insert_ne; [eauto|]. intros <-. congruence.
  - intros id' r' (t & H & ?)%Ht. exists t. split; [|done].
    rewrite lookup_insert_ne; [done|]. intros <-. congruence.
  - intros id' r' H. rewrite lookup_insert_ne; [done|]. intros <-. congruence.
Qed.

Lemma publish_ptr_inv room h id r name p : hub_inv h -> hub_inv (publish_ptr room h id r name p).
Proof.
  intros Hi. unfold publish_ptr. destruct (h_heap h !! r) as [t|] eqn:Hr; [|done].
  destruct (publish_topic room t name p) as [[t' f] arm] eqn:Ep.
  destruct (publish_terminated _ _ _ _ _ _ _ Ep) as [Hm Harm].
  destruct (hub_inv_heap h r t t' Hi Hr Hm) as [Ha Ht]. destruct arm; constructor; cbn in *; auto.
  intros id' r' [H|H%list_elem_of_singleton]%elem_of_app; [by eapply Ht|].
  injection H as -> ->. exists t'. rewrite lookup_insert_eq. auto.
Qed.

Lemma hub_step_inv o h : hub_inv h -> hub_inv (hub_step o h).
Proof.
  intros Hi. destruct o as [room id name p|room id r name p|id from|s|n]; cbn [hub_step].
  - unfold publish. destruct (topic_ptr h id) as [h' r] eqn:E.
    by apply publish_ptr_inv, (topic_ptr_inv _ _ _ _ Hi E).
  - by apply publish_ptr_inv.
  - unfold Subscribe. destruct (topic_ptr h id) as [h' r] eqn:E.
    apply (topic_ptr_inv _ _ _ _ Hi) in E as [Hi' _].
    destruct (h_heap h' !! r) as [t|] eqn:Hr; [|done].
    destruct (subscribe_topic t from) as [t' [[bl ch] dn]] eqn:Es. cbn [fst].
    apply (hub_inv_heap _ _ _ _ Hi' Hr). revert Es. unfold subscribe_topic, terminated.
    destruct (t_done t) eqn:Hd; intros [= <- _ _ _]; cbn; by rewrite ?Hd.
  - unfold Cancel. destruct (s_Done s); [done|]. destruct (h_heap h !! s_topic s) as [t|] eqn:Hr.
    + rewrite (alter_alt_Some _ _ _ _ Hr). eapply hub_inv_heap; [done..|].
      unfold cancel_topic, terminated. by case_decide.
    + rewrite alter_id' by done. by destruct h.
  - destruct (h_timers h !! n) as [[id r]|] eqn:En; [|done]. destruct Hi as [Ha Ht].
    assert (hub_inv (h <| h_timers := delete n (h_timers h) |>)) as [Ha' Ht'].
    { constructor; [done|]. cbn. intros id' r' H. apply (Ht id' r').
      apply list_elem_of_lookup in H as [i H]. apply list_elem_of_lookup.
      rewrite list_lookup_delete in H. by eexists. }
    unfold evictTopic. case_decide; [|done]. constructor; cbn in *; [|done].
    intros id' r' H'. apply lookup_delete_Some in H' as [_ H']. eauto.
Qed.

Lemma hub_exec_inv ops : hub_inv (hub_exec ops).
Proof.
  unfold hub_exec. assert (H : hub_inv New).
  { constructor; cbn; [intros id r; by rewrite lookup_empty|intros id r H; by inversion H]. }
  revert H. generalize New. induction ops as [|o ops IH]; intros h H; [done|].
  cbn. by apply IH, hub_step_inv.
Qed.

Lemma publish_ptr_topics room h id r name p :
  h_topics (publish_ptr room h id r name p) = h_topics h.
Proof.
  unfold publish_ptr. destruct (h_heap h !! r) as [t|]; [|done].
  by destruct (publish_topic room t name p) as [[? ?] ?].
Qed.

(** Nothing happens to the log of a finished topic. *)
Lemma frozen_when_done ops t t' log :
  t_done t = true -> exec ops t = (t', log) -> log = [] /\ t_frames t' = t_frames t.
Proof.
  revert t log. induction ops as [|o ops IH]; intros t log Hd; cbn; [by intros [= <- <-]|].
  destruct (step o t) as [t1 f] eqn:Es. destruct (exec ops t1) as [t2 l] eqn:Ee. intros [= <- <-].
  assert (f = None /\ t_frames t1 = t_frames t /\ t_done t1 = true) as (-> & <- & Hd1).
  { destruct o as [room name p|from|ch|ch]; cbn in Es.
    - unfold publish_topic in Es. rewrite Hd in Es. by injection Es as <- <-.
    - unfold subscribe_topic in Es. rewrite Hd in Es. by injection Es as <- <-.
    - unfold cancel_topic in Es. case_decide; by injection Es as <- <-.
    - by injection Es as <- <-. }
  by apply (IH t1).
Qed.

End HubSteps.

(** * Properties *)

Section Properties.
  Context {JT : JsonText}.

(** Whatever is published, received, subscribed and cancelled in whatever
    order, the replay buffer of a topic is the longest suffix of everything
    published that fits in 1024 frames and 16 MiB (a single frame always fits),
    so it stays bounded and never drops a frame that could have been kept, and
    the byte counter equals the bytes retained. *)
Theorem replay_buffer_longest_fitting_suffix (ops : list op) :
  let '(t, log) := exec ops new_topic in
  t_bytes t = total_len (t_frames t) /\
  ((length (t_frames t) <= 1)%nat \/
   ((length (t_frames t) <= maxFrames)%nat /\ t_bytes t <= maxTopicBytes)) /\
  (log <> [] -> t_frames t <> []) /\
  exists l, log = l ++ t_frames t /\
    forall l' f, l = l' ++ [f] ->
      (maxFrames < length (f :: t_frames t))%nat \/ maxTopicBytes < total_len (f :: t_frames t).
Proof.
  destruct (exec ops new_topic) as [t log] eqn:E.
  destruct (exec_inv _ _ _ [] _ new_topic_inv E) as [Hb (l & Hl & Hm) Hf Hn _ _ _ _].
  cbn in Hl, Hn. split_and!; [done|rewrite Hb; exact Hf|done|].
  exists l. split; [done|]. intros l' f Hx. specialize (Hm l' f Hx). unfold fits in Hm. lia.
Qed.

(** The events of a commit are numbered upwards, every frame carries its own
    number in its payload, [finished] can only be the last frame, and once it is
    published nothing any publisher does changes the log or the replay buffer.
    An [error] event alone ends nothing. *)
Theorem finished_is_last (ops ops' : list op) :
  let '(t, log) := exec ops new_topic in
  let '(t', log') := exec ops' t in
  StronglySorted Z.lt (map fr_Seq log) /\
  Forall (fun f => exists p, Marshal (payload_json (setSeq p (fr_Seq f))) = Some (fr_Data f)) log /\
  (t_done t = true <-> exists l f, log = l ++ [f] /\ fr_Name f = NameFinished) /\
  (t_done t = true -> log' = [] /\ t_frames t' = t_frames t) /\
  Forall (fun f => fr_Name f <> NameFinished) (removelast log).
Proof.
  destruct (exec ops new_topic) as [t log] eqn:E. destruct (exec ops' t) as [t' log'] eqn:E'.
  pose proof (exec_inv _ _ _ [] _ new_topic_inv E) as Hi.
  pose proof (exec_inv _ _ _ _ _ Hi E') as [_ (k & Hk & _) _ Hne _ _ _ Hd'].
  destruct Hi as [_ (l0 & Hl0 & _) _ _ [_ Hs] _ Hm Hd]. cbn in *.
  split_and!; [done|done| | |].
  - destruct (t_done t); [split; [|done]; intros _; destruct Hd as (_ & l & f & ? & ? & _); by exists l, f|].
    split; [done|]. intros (l & f & -> & Hf). apply Forall_app in Hd as [_ Hd].
    inversion Hd; subst. done.
  - intros Hdone. rewrite Hdone in Hd. destruct Hd as (_ & l & f & -> & Hf & _).
    eapply frozen_when_done; [exact Hdone|exact E'].
  - destruct (t_done t).
    + destruct Hd as (_ & l & f & -> & _ & ?). by rewrite removelast_last.
    + destruct log as [|x log _] using rev_ind; [done|]. rewrite removelast_last.
      by apply Forall_app in Hd as [? _].
Qed.

(** A subscriber that asks for the events after [from] gets, in the backlog
    and then on its channel, events in strictly increasing order, without
    duplicates and all of them published by the run; if no more than 64 events
    follow its subscription and the replay buffer held the whole history, it gets
    every event after [from], and its channel is closed exactly when the run has
    finished. *)
Theorem subscriber_delivery ops1 ops2 from t1 log1 t2 bl ch dn t3 log2
    (H1 : exec ops1 new_topic = (t1, log1))
    (Hs : subscribe_topic t1 from = (t2, (bl, ch, dn)))
    (H2 : exec ops2 t2 = (t3, log2))
    (Hnc : Forall (fun o => o <> OCancel ch) ops2) :
  exists c, t_chans t3 !! ch = Some c /\
    let got := bl ++ ch_recv c ++ ch_buf c in
    got `sublist_of` filter (fun f => from < fr_Seq f) log1 ++ log2 /\
    StronglySorted Z.lt (map fr_Seq got) /\
    ((length log2 <= 64)%nat -> t_frames t1 = log1 ->
       got = filter (fun f => from < fr_Seq f) log1 ++ log2) /\
    ch_closed c = t_done t3.
Proof.
  pose proof (exec_inv _ _ _ [] _ new_topic_inv H1) as Hi.
  assert (Hst : step (OSubscribe from) t1 = (t2, None)) by (cbn; by rewrite Hs).
  pose proof (step_inv _ _ _ _ _ Hi Hst) as Hi2.
  pose proof (exec_inv _ _ _ _ _ Hi2 H2) as [_ _ _ _ [_ Hsort] _ _ _]. cbn in Hsort.
  rewrite app_nil_r in Hsort.
  destruct (subscribe_chan _ _ _ _ _ _ Hs) as (-> & _ & Hc).
  destruct (exec_chan _ _ _ _ _ _ _ Hc H2 Hnc) as [c [Hlk _ Hcl Hv Hall]]. cbn in Hv, Hall.
  exists c. split; [done|]. cbn zeta. unfold backlog_of. fold (view c).
  destruct Hi as [_ (l & Hl & _) _ _ _ _ _ _]. cbn in Hl.
  assert (Hsub : filter (fun f => from < fr_Seq f) (t_frames t1) ++ view c
      `sublist_of` filter (fun f => from < fr_Seq f) log1 ++ log2).
  { apply sublist_app; [|done]. rewrite Hl, filter_app. by apply sublist_inserts_l. }
  split_and!; [done| | |done].
  - eapply sorted_sublist; [|exact Hsort]. apply (fmap_sublist fr_Seq). etrans; [exact Hsub|].
    apply sublist_app; [|done]. apply sublist_filter.
  - intros Hlen ->. by rewrite Hall.
Qed.

(** The hub never forgets the log of a commit that is still running: an entry
    disappears only when a timer fires for the very topic it points to, and that
    topic has then reported an error or finished. A timer left over from an
    earlier run of the same commit does not touch the log that replaced it. *)
Theorem eviction_spares_running_topics (ops : list hub_op) (o : hub_op) :
  let h := hub_exec ops in
  let h' := hub_step o h in
  forall id r, h_topics h !! id = Some r ->
    h_topics h' !! id = Some r \/
    exists n t, o = HFire n /\ h_timers h !! n = Some (id, r) /\
      h_heap h !! r = Some t /\ (t_done t = true \/ t_evict t = true).
Proof.
  intros h h' id r Hr. assert (Hi : hub_inv h) by apply hub_exec_inv.
  subst h'. destruct o as [room id' name p|room id' r' name p|id' from|s|n]; cbn [hub_step].
  - left. unfold publish. destruct (topic_ptr h id') as [h1 r1] eqn:E.
    destruct (topic_ptr_inv _ _ _ _ Hi E) as [_ Ht]. apply Ht in Hr.
    by rewrite publish_ptr_topics.
  - left. by rewrite publish_ptr_topics.
  - left. unfold Subscribe. destruct (topic_ptr h id') as [h1 r1] eqn:E.
    destruct (topic_ptr_inv _ _ _ _ Hi E) as [_ Ht]. apply Ht in Hr.
    destruct (h_heap h1 !! r1) as [t|]; [|done]. by destruct (subscribe_topic t from) as [? [[? ?] ?]].
  - left. unfold Cancel. by destruct (s_Done s).
  - destruct (h_timers h !! n) as [[id' r']|] eqn:En; [|by left].
    unfold evictTopic. cbn. case_decide as Hd; [|by left]. cbn.
    destruct (decide (id = id')) as [<-|]; [right|left; by rewrite lookup_delete_ne].
    rewrite Hr in Hd. injection Hd as <-.
    destruct (hi_timers _ Hi id r) as (t & Ht & Hterm); [by eapply list_elem_of_lookup_2|].
    by exists n, t.
Qed.
End Properties.

(** * Executions *)

Definition demo_status (at_ : Z) : op :=
  OPublish (fun _ => false) NameStatus (mk_payload (mk_base NameStatus 5 0) (StatusPayload "running" at_)).
Definition demo_finished : op :=
  OPublish (fun _ => false) NameFinished
    (mk_payload (mk_base NameFinished 5 0) (FinishedPayload "completed" 1 (float_of_Z 100) "" "" 0 9)).

Lemma subscriber_delivery_witness :
  let '(t1, log1) := exec (JT := plain_text) [demo_status 1; demo_status 2] new_topic in
  let '(t2, (bl, ch, _)) := subscribe_topic t1 1 in
  let '(t3, log2) := exec (JT := plain_text) [demo_status 3; OReceive ch; demo_finished] t2 in
  exists c, t_chans t3 !! ch = Some c /\ ch_closed c = true /\
    map fr_Seq (bl ++ ch_recv c ++ ch_buf c) = [2; 3; 4].
Proof.
  destruct (exec (JT := plain_text) [demo_status 1; demo_status 2] new_topic) as [t1 log1] eqn:E1.
  vm_compute in E1. injection E1 as <- <-.
  destruct (subscribe_topic _ _) as [t2 [[bl ch] dn]] eqn:Es. pose proof Es as Hs.
  vm_compute in Es. injection Es as <- <- <- <-.
  destruct (exec _ _) as [t3 log2] eqn:E2. pose proof E2 as H2. vm_compute in E2. injection E2 as <- <-.
  destruct (subscriber_delivery (JT := plain_text) [demo_status 1; demo_status 2]
    _ _ _ _ _ _ _ _ _ _ eq_refl Hs H2) as (c & Hc & _ & _ & Hall & Hcl).
  { repeat constructor; discriminate. }
  exists c. split; [exact Hc|]. split; [exact Hcl|].
  rewrite Hall; [reflexivity|cbn; lia|reflexivity].
Defined.

(** A subscriber that falls behind is left with a hole: the frame dropped
    while its channel was full is not sent again on that subscription, later
    frames are, and the channel is closed without any sign of the loss. Here the
    reader wakes up after 65 events; it then receives 1 to 64 and 66. *)
Theorem lagging_subscriber_loses_a_frame :
  let '(t2, (_, ch, _)) := subscribe_topic new_topic 0 in
  let '(t3, log) := exec (JT := plain_text)
    (map (fun n => demo_status (Z.of_nat n)) (seq 1 65) ++ [OReceive ch; demo_finished]) t2 in
  map fr_Seq log = map Z.of_nat (seq 1 66) /\
  exists c, t_chans t3 !! ch = Some c /\ ch_closed c = true /\
    map fr_Seq (ch_recv c ++ ch_buf c) = map Z.of_nat (seq 1 64) ++ [66].
Proof. vm_compute. split; [reflexivity|]. by eexists. Qed.

(** A finished topic is evicted by its timer; a topic that took its place is not. *)
Definition demo_hub_ops : list hub_op :=
  let finish := HPublish (fun _ => false) 5 NameFinished
    (mk_payload (mk_base NameFinished 5 0) (FinishedPayload "completed" 1 (float_of_Z 100) "" "" 0 9)) in
  let err := HPublish (fun _ => false) 5 NameError (mk_payload (mk_base NameError 5 0) (ErrorPayload "x")) in
  [err; finish; HFire 0; HSubscribe 5 0].

Lemma eviction_spares_running_topics_witness :
  h_topics (hub_step (JT := plain_text) (HFire 0) (hub_exec (JT := plain_text) demo_hub_ops)) !! 5 = Some 1%nat.
Proof.
  destruct (eviction_spares_running_topics (JT := plain_text) demo_hub_ops (HFire 0) 5 1%nat eq_refl)
    as [H|(n & t & Ho & Ht & _)]; [exact H|].
  injection Ho as <-. vm_compute in Ht. discriminate Ht.
Defined.
