(* ===== verification/JudgeApi.v ===== *)
(** * The judge's HTTP surface

    [src/judge/internal/api/api.go]: the bearer-token gate, the run wake-up and
    the event stream. Requests and responses are reduced to what the handlers
    read and write: the Authorization header, the path and query parameters, the
    status code and the body. *)

From S2P Require Import Prelude GoStrings JudgeConfig Json JudgeEvents.
Local Open Scope Z_scope.

Inductive response := Serve | Reply (code : Z) (error : string).

Definition StatusOK := 200.
Definition StatusAccepted := 202.
Definition StatusBadRequest := 400.
Definition StatusUnauthorized := 401.
Definition StatusInternalServerError := 500.
Definition StatusServiceUnavailable := 503.

(** [auth]: [Serve] calls the next handler. [header] is the Authorization header,
    empty when absent. *)
Definition auth (cfg : Config) (header : string) : response :=
  if String.eqb (cfg_AuthToken cfg) "" then
    if cfg_AllowInsecureAPI cfg then Serve
    else Reply StatusServiceUnavailable
           "judge is not configured: set JUDGE_AUTH_TOKEN (or JUDGE_ALLOW_INSECURE=true for a local instance)"
  else
    let token := if (7 <? String.length header)%nat && String.eqb (take_bytes 7 header) "Bearer "
                 then drop_bytes 7 header else "" in
    if negb (String.eqb token (cfg_AuthToken cfg)) then Reply StatusUnauthorized "unauthorized"
    else Serve.

Definition commitID (param : string) : res string Z :=
  match parse_int param with
  | Some id => if id <=? 0 then Err "invalid commit id" else Ok id
  | None => Err "invalid commit id"
  end.

(** [handleReady]: the two probes, in order. *)
Definition handleReady (db runtime : bool) : Z * string :=
  if negb db then (StatusServiceUnavailable, "database unavailable")
  else if negb runtime then (StatusServiceUnavailable, "podman unavailable")
  else (StatusOK, "ok").

(** [handleWake]: the reply and whether the pool was woken. *)
Definition handleWake (param : string) : response * bool :=
  match commitID param with
  | Err e => (Reply StatusBadRequest e, false)
  | Ok _ => (Reply StatusAccepted "accepted", true)
  end.

(** The [from] query parameter: absent or malformed means the beginning. *)
Definition parse_from (v : string) : Z :=
  if String.eqb v "" then 0 else default 0 (parse_int v).

Definition writeFrame (f : Frame) : string :=
  "id: " +:+ fmt_int (fr_Seq f) +:+ nl +:+ "event: " +:+ fr_Name f +:+ nl
  +:+ "data: " +:+ fr_Data f +:+ nl +:+ nl.

Definition ping : string := ": ping" +:+ nl +:+ nl.

(** One turn of the streaming loop: the branch [select] takes. *)
Inductive turn := TDone | TTick | TFrame.

(** The loop: what is written, and the channel it leaves. A receive from an empty
    open channel blocks, so such a turn does nothing. *)
Fixpoint stream_loop (turns : list turn) (c : chan) : string * chan :=
  match turns with
  | [] => ("", c)
  | TDone :: _ => ("", c)
  | TTick :: r => let '(out, c) := stream_loop r c in (ping +:+ out, c)
  | TFrame :: r =>
      match ch_buf c with
      | f :: _ => let '(out, c') := stream_loop r (receive c) in (writeFrame f +:+ out, c')
      | [] => if ch_closed c then ("", c) else stream_loop r c
      end
  end.

(** The body of an event stream: the backlog, then the live frames. *)
Fixpoint write_backlog (l : list Frame) : string :=
  match l with [] => "" | f :: r => writeFrame f +:+ write_backlog r end.

Definition handleEvents (param : string) (flusher : bool) (backlog : list Frame) (sub_done : bool)
    (turns : list turn) (c : chan) : res (Z * string) (string * chan) :=
  match commitID param with
  | Err e => Err (StatusBadRequest, e)
  | Ok _ =>
      if negb flusher then Err (StatusInternalServerError, "streaming unsupported")
      else
        let head := write_backlog backlog in
        if sub_done then Ok (head, c)
        else let '(out, c) := stream_loop turns c in Ok (head +:+ out, c)
  end.

(** * Lemmas *)

(** Frames and heartbeats interleaved. *)
Inductive item := IFrame (f : Frame) | IPing.
Definition write_item (i : item) : string := match i with IFrame f => writeFrame f | IPing => ping end.
Fixpoint write_items (l : list item) : string :=
  match l with [] => "" | i :: r => write_item i +:+ write_items r end.
Definition item_frames (l : list item) : list Frame :=
  omap (fun i => match i with IFrame f => Some f | IPing => None end) l.

Lemma write_items_app l1 l2 : write_items (l1 ++ l2) = write_items l1 +:+ write_items l2.
Proof. induction l1 as [|i l1 IH]; cbn; [done|]. by rewrite IH, app_assoc_s. Qed.

Lemma write_backlog_items l : write_backlog l = write_items (map IFrame l).
Proof. induction l as [|f l IH]; cbn; [done|]. by rewrite IH. Qed.

(** The loop writes the frames it took off the channel, in order, and nothing
    else but heartbeats. *)
Lemma stream_loop_items turns c :
  exists items, fst (stream_loop turns c) = write_items items /\
    ch_recv (snd (stream_loop turns c)) = ch_recv c ++ item_frames items /\
    view (snd (stream_loop turns c)) = view c.
Proof.
  revert c. induction turns as [|t r IH]; intros c.
  { exists []. cbn. by rewrite app_nil_r. }
  destruct t; cbn [stream_loop].
  - exists []. cbn. by rewrite app_nil_r.
  - destruct (IH c) as (items & E1 & E2 & E3). destruct (stream_loop r c) as [out c']. cbn in *.
    exists (IPing :: items). by rewrite E1.
  - destruct (ch_buf c) as [|f b] eqn:Eb.
    + destruct (ch_closed c); [exists []; cbn; by rewrite app_nil_r|apply IH].
    + destruct (IH (receive c)) as (items & E1 & E2 & E3).
      destruct (stream_loop r (receive c)) as [out c']. cbn [fst snd] in *.
      exists (IFrame f :: items). rewrite E1, E2, E3. split; [done|].
      destruct (receive_view c) as [_ ->]. split; [|done].
      unfold receive. rewrite Eb. cbn. by rewrite <- app_assoc.
Qed.

(** * Properties *)

(** The judge's API fails closed: a request is served exactly when it bears
    the configured token, or when no token is configured and the operator opted
    into an insecure instance; an absent, empty or truncated header never
    authenticates. *)
Theorem auth_fails_closed cfg header :
  auth cfg header = Serve <->
  (cfg_AuthToken cfg <> "" /\ header = "Bearer " +:+ cfg_AuthToken cfg) \/
  (cfg_AuthToken cfg = "" /\ cfg_AllowInsecureAPI cfg = true).
Proof.
  unfold auth. destruct (String.eqb_spec (cfg_AuthToken cfg) "") as [Ht|Ht].
  { destruct (cfg_AllowInsecureAPI cfg); naive_solver. }
  split.
  - intros H. left. split; [done|].
    destruct (_ && _) eqn:E in H.
    + apply andb_true_iff in E as [_ E%String.eqb_eq].
      destruct (String.eqb_spec (drop_bytes 7 header) (cfg_AuthToken cfg)) as [Hd|]; [|done].
      by rewrite <- (take_drop_bytes 7 header), E, Hd.
    + destruct (String.eqb_spec "" (cfg_AuthToken cfg)); [congruence|done].
  - intros [[_ ->]|[? _]]; [|done].
    change 7%nat with (String.length "Bearer ").
    rewrite take_bytes_app, drop_bytes_app, length_app_s.
    destruct (cfg_AuthToken cfg) as [|a s]; [done|]. cbn [String.length].
    by rewrite String.eqb_refl.
Qed.
