(* ===== verification/Sse.v ===== *)
(** * The backend's reader of the event stream

    [src/backend/judge/sse.go]: [ParseSSE] over a [bufio.Scanner] with lines of at
    most 4 MiB, and [FormatSSEFrame]. The scanner is the one of the standard
    library: lines end at a line feed, one trailing carriage return is dropped, an
    unterminated last line counts, and a line that does not fit the buffer stops
    the scan with an error. [read_err] tells how the stream ended: a clean end of
    file or a failed read. *)

From S2P Require Import Prelude GoStrings.
Local Open Scope Z_scope.

Definition maxSSELineBytes : Z := Z.shiftl 4 20.

Record SSEFrame := mk_sse { sse_Event : string; sse_ID : string; sse_Data : string }.

Inductive sse_error {E : Type} := ETooLong | ERead | EHandler (e : E).
Arguments sse_error : clear implicits.

(** [bufio.ScanLines] drops one trailing carriage return. *)
Definition drop_cr (s : string) : string := trim_suffix (str1 CR) s.

(** The raw pieces of a stream: every piece but the last is terminated; the last
    is a line only when it is not empty. *)
Definition scan_pieces (stream : string) : list string :=
  let ps := split_byte LF stream in
  match rev ps with "" :: r => rev r | _ => ps end.

Definition too_long (piece : string) : bool := maxSSELineBytes <=? Z.of_nat (String.length piece).

Section Parse.
  Context {S E : Type} (handle : S -> SSEFrame -> S * option E).

Definition flush (s : S) (event id data : string) : S * option E :=
  if String.eqb data "" && String.eqb event "" && String.eqb id "" then (s, None)
  else handle s (mk_sse event id data).

(** The scan loop over the pieces; [end_] is the error the scanner ends with. *)
Fixpoint parse_pieces (pieces : list string) (end_ : option (sse_error E)) (s : S)
    (event id data : string) : S * option (sse_error E) :=
  match pieces with
  | [] =>
      match end_ with
      | Some e => (s, Some e)
      | None => let '(s, err) := flush s event id data in (s, EHandler <$> err)
      end
  | piece :: r =>
      if too_long piece then (s, Some ETooLong)
      else
        let line := drop_cr piece in
        if String.eqb line "" then
          let '(s, err) := flush s event id data in
          match err with
          | Some e => (s, Some (EHandler e))
          | None => parse_pieces r end_ s "" "" ""
          end
        else if has_prefix ":" line then parse_pieces r end_ s event id data
        else if has_prefix "event:" line then
          parse_pieces r end_ s (trim_space (trim_prefix "event:" line)) id data
        else if has_prefix "id:" line then
          parse_pieces r end_ s event (trim_space (trim_prefix "id:" line)) data
        else if has_prefix "data:" line then
          let value := trim_prefix " " (trim_prefix "data:" line) in
          parse_pieces r end_ s event id
            ((if String.eqb data "" then "" else data +:+ nl) +:+ value)
        else parse_pieces r end_ s event id data
  end.

Definition ParseSSE (stream : string) (read_err : bool) (s : S) : S * option (sse_error E) :=
  parse_pieces (scan_pieces stream) (if read_err then Some ERead else None) s "" "" "".
End Parse.

Definition FormatSSEFrame (event : string) (id : Z) (data : string) : string :=
  (if String.eqb event "" then "" else "event: " +:+ event +:+ nl)
  +:+ (if 0 <? id then "id: " +:+ fmt_int id +:+ nl else "")
  +:+ "data: " +:+ data +:+ nl +:+ nl.

(** Collect every frame. *)
Definition collect (l : list SSEFrame) (f : SSEFrame) : list SSEFrame * option unit := (l ++ [f], None).

(** * Lemmas *)

Lemma scan_pieces_line line rest :
  no_byte LF line -> scan_pieces (line +:+ String LF rest) = line :: scan_pieces rest.
Proof.
  intros H. unfold scan_pieces. rewrite split_byte_app by done. cbn [rev].
  pose proof (split_byte_ne LF rest) as Hne. destruct (split_byte LF rest) as [|p ps]; [done|].
  destruct (rev (p :: ps)) as [|q qs] eqn:E.
  { apply (f_equal length) in E. by rewrite length_rev in E. }
  cbn [app]. destruct q; [|done]. by rewrite rev_app_distr.
Qed.

(** What a publisher must respect for its frames to be read back. *)
Definition readable (name : string) (seq : Z) (data : string) : Prop :=
  plain name /\ int64 seq /\ no_byte LF data /\ no_byte CR data /\ data <> "" /\
  Z.of_nat (String.length name) < 1024 /\ Z.of_nat (String.length data) + 6 < maxSSELineBytes.

Definition frame_text (name : string) (seq : Z) (data : string) : string :=
  "id: " +:+ fmt_int seq +:+ nl +:+ "event: " +:+ name +:+ nl +:+ "data: " +:+ data +:+ nl +:+ nl.

Section Reading.
  Context {S E : Type} (handle : S -> SSEFrame -> S * option E).

(** The text of a frame, line by line. *)
Lemma frame_text_lines name seq data rest :
  frame_text name seq data +:+ rest =
    ("id: " +:+ fmt_int seq) +:+ String LF (("event: " +:+ name) +:+
      String LF (("data: " +:+ data) +:+ String LF ("" +:+ String LF rest))).
Proof. unfold frame_text. by rewrite !app_assoc_s. Qed.

(** One line of the stream: it is scanned whole. *)
Definition scannable (line : string) : Prop :=
  no_byte LF line /\ no_byte CR line /\ Z.of_nat (String.length line) < maxSSELineBytes.

Lemma scan_line line rest :
  scannable line ->
  scan_pieces (line +:+ String LF rest) = line :: scan_pieces rest /\
  too_long line = false /\ drop_cr line = line.
Proof.
  intros (H1 & H2 & H3). rewrite scan_pieces_line by done. split; [done|]. split.
  - unfold too_long. apply Z.leb_gt. lia.
  - by apply trim_suffix_byte.
Qed.

Lemma scannable_app p s :
  scannable p -> no_byte LF s -> no_byte CR s ->
  Z.of_nat (String.length p) + Z.of_nat (String.length s) < maxSSELineBytes -> scannable (p +:+ s).
Proof.
  intros (H1 & H2 & _) H3 H4 H5. split_and!; try by apply no_byte_app.
  rewrite length_app_s. lia.
Qed.

Lemma scannable_plain p s :
  scannable p -> plain s -> Z.of_nat (String.length p) + Z.of_nat (String.length s) < maxSSELineBytes ->
  scannable (p +:+ s).
Proof. intros Hp Hs. by apply scannable_app; [done|apply plain_no_byte..]. Qed.

(** The three fields and the blank line that ends a frame. *)
Lemma parse_id v r e s ev id data :
  scannable ("id: " +:+ v) -> plain v ->
  parse_pieces handle (("id: " +:+ v) :: r) e s ev id data = parse_pieces handle r e s ev v data.
Proof.
  intros (_ & Hc & Hl) Hp. cbn [parse_pieces]. unfold too_long, drop_cr.
  rewrite (proj2 (Z.leb_gt _ _)), trim_suffix_byte by done.
  transitivity (parse_pieces handle r e s ev (trim_space (String " " v)) data); [reflexivity|].
  by rewrite trim_space_blank, trim_space_plain.
Qed.

Lemma parse_event v r e s ev id data :
  scannable ("event: " +:+ v) -> plain v ->
  parse_pieces handle (("event: " +:+ v) :: r) e s ev id data = parse_pieces handle r e s v id data.
Proof.
  intros (_ & Hc & Hl) Hp. cbn [parse_pieces]. unfold too_long, drop_cr.
  rewrite (proj2 (Z.leb_gt _ _)), trim_suffix_byte by done.
  transitivity (parse_pieces handle r e s (trim_space (String " " v)) id data); [reflexivity|].
  by rewrite trim_space_blank, trim_space_plain.
Qed.

Lemma parse_data v r e s ev id :
  scannable ("data: " +:+ v) ->
  parse_pieces handle (("data: " +:+ v) :: r) e s ev id "" = parse_pieces handle r e s ev id v.
Proof.
  intros (_ & Hc & Hl). cbn [parse_pieces]. unfold too_long, drop_cr.
  rewrite (proj2 (Z.leb_gt _ _)), trim_suffix_byte by done.
  change (trim_prefix "data:" ("data: " +:+ v)) with (" " +:+ v).
  rewrite trim_prefix_app. reflexivity.
Qed.

Lemma parse_blank r e s ev id data :
  data <> "" ->
  parse_pieces handle ("" :: r) e s ev id data =
    let '(s, err) := handle s (mk_sse ev id data) in
    match err with
    | Some x => (s, Some (EHandler x))
    | None => parse_pieces handle r e s "" "" ""
    end.
Proof.
  intros H. cbn [parse_pieces]. change (too_long "") with false. cbn. unfold flush.
  by rewrite (proj2 (String.eqb_neq data "")).
Qed.

(** A heartbeat is ignored. *)
Lemma parse_ping rest e s :
  parse_pieces handle (scan_pieces (": ping" +:+ nl +:+ nl +:+ rest)) e s "" "" "" =
  parse_pieces handle (scan_pieces rest) e s "" "" "".
Proof.
  change (": ping" +:+ nl +:+ nl +:+ rest) with (": ping" +:+ String LF ("" +:+ String LF rest)).
  rewrite !scan_pieces_line by done. reflexivity.
Qed.

(** A frame is handed to the handler whole, with the rest of the stream after it. *)
Lemma parse_frame name seq data rest e s :
  readable name seq data ->
  parse_pieces handle (scan_pieces (frame_text name seq data +:+ rest)) e s "" "" "" =
    let '(s, err) := handle s (mk_sse name (fmt_int seq) data) in
    match err with
    | Some x => (s, Some (EHandler x))
    | None => parse_pieces handle (scan_pieces rest) e s "" "" ""
    end.
Proof.
  intros (Hn & Hs & Hlf & Hcr & Hne & Hl1 & Hl2).
  pose proof (fmt_int_length seq Hs) as Hl3. pose proof (fmt_int_plain seq) as Hp.
  assert (Hbig : 1100 < maxSSELineBytes) by done.
  assert (H1 : scannable ("id: " +:+ fmt_int seq)) by (apply scannable_plain; cbn; done || lia).
  assert (H2 : scannable ("event: " +:+ name)) by (apply scannable_plain; cbn; done || lia).
  assert (H3 : scannable ("data: " +:+ data)) by (apply scannable_app; cbn; done || lia).
  rewrite frame_text_lines, !scan_pieces_line by (apply H1 || apply H2 || apply H3 || done).
  by rewrite parse_id, parse_event, parse_data, parse_blank.
Qed.

(** A line of 4 MiB or more ends the stream with an error before its frame, and
    everything after it, is handled. *)
Lemma parse_oversized name seq data rest e s :
  plain name -> int64 seq -> no_byte LF data -> Z.of_nat (String.length name) < 1024 ->
  maxSSELineBytes <= Z.of_nat (String.length data) + 6 ->
  parse_pieces handle (scan_pieces (frame_text name seq data +:+ rest)) e s "" "" "" = (s, Some ETooLong).
Proof.
  intros Hn Hs Hlf Hl1 Hl2.
  pose proof (fmt_int_length seq Hs) as Hl3. pose proof (fmt_int_plain seq) as Hp.
  assert (Hbig : 1100 < maxSSELineBytes) by done.
  assert (H1 : scannable ("id: " +:+ fmt_int seq)) by (apply scannable_plain; cbn; done || lia).
  assert (H2 : scannable ("event: " +:+ name)) by (apply scannable_plain; cbn; done || lia).
  rewrite frame_text_lines, scan_pieces_line, scan_pieces_line by (apply H1 || apply H2).
  rewrite parse_id, parse_event by done.
  rewrite scan_pieces_line by by (apply no_byte_app; split).
  cbn [parse_pieces]. unfold too_long. rewrite (proj2 (Z.leb_le _ _)); [done|].
  rewrite length_app_s. cbn. lia.
Qed.
End Reading.
