(* ===== verification/Stream.v ===== *)
(** * The event stream from the judge to the backend

    The judge writes frames ([writeFrame], [handleEvents]); the backend reads them
    back ([ParseSSE]). This file composes the two sides. *)

From S2P Require Import Prelude GoStrings Float64 JudgeModel JudgeConfig Json JudgeEvents JudgeApi Sse.
Local Open Scope Z_scope.

(** How the backend sees a frame. *)
Definition frame_sse (f : Frame) : SSEFrame := mk_sse (fr_Name f) (fmt_int (fr_Seq f)) (fr_Data f).

Definition frame_readable (f : Frame) : Prop := readable (fr_Name f) (fr_Seq f) (fr_Data f).

Section Reading.
  Context {S E : Type} (handle : S -> SSEFrame -> S * option E).

(** Feeding frames to the handler until it fails. *)
Fixpoint handle_all (s : S) (l : list Frame) : S * option E :=
  match l with
  | [] => (s, None)
  | f :: r => let '(s, err) := handle s (frame_sse f) in
              match err with Some e => (s, Some e) | None => handle_all s r end
  end.

(** Reading what the judge wrote is handling the frames one by one. *)
Lemma parse_items items e s :
  Forall frame_readable (item_frames items) ->
  parse_pieces handle (scan_pieces (write_items items)) e s "" "" "" =
    let '(s, err) := handle_all s (item_frames items) in
    match err with Some x => (s, Some (EHandler x)) | None => (s, e) end.
Proof.
  revert s. induction items as [|i items IH]; intros s Hr; cbn [write_items item_frames omap list_omap].
  { cbn. by destruct e. }
  destruct i as [f|]; cbn [write_item].
  - inversion Hr as [|? ? Hf Hr']; subst.
    change (writeFrame f) with (frame_text (fr_Name f) (fr_Seq f) (fr_Data f)).
    rewrite parse_frame by done. cbn [handle_all]. unfold frame_sse.
    destruct (handle s _) as [s' [x|]]; [done|]. by apply IH.
  - unfold ping. rewrite !app_assoc_s, parse_ping. by apply IH.
Qed.
End Reading.

Lemma collect_all acc l : handle_all collect acc l = (acc ++ map frame_sse l, None).
Proof.
  revert acc. induction l as [|f l IH]; intros acc; cbn; [by rewrite app_nil_r|].
  by rewrite IH, <- app_assoc.
Qed.

(** The frames of a topic are readable when they are not too large. *)
Definition sendable (f : Frame) : Prop :=
  plain (fr_Name f) /\ Z.of_nat (String.length (fr_Name f)) < 1024 /\ fr_Seq f <= max_int64 /\
  Z.of_nat (String.length (fr_Data f)) + 6 < maxSSELineBytes.

Section Judge.
  Context {JT : JsonText} {JTok : JsonTextOk JT}.

Lemma payload_not_empty p data : Marshal (payload_json p) = Some data -> data <> "".
Proof.
  unfold payload_json. cbn [Marshal]. destruct (encode_fields _ _); [|done]. by intros [= <-].
Qed.

Lemma log_readable ops t log :
  exec ops new_topic = (t, log) -> Forall sendable log -> Forall frame_readable log.
Proof.
  intros E Hs. destruct (exec_inv _ _ _ [] _ new_topic_inv E) as [_ _ _ _ [Hseq _] _ Hm _].
  cbn in *. rewrite Forall_forall in *. intros f Hf.
  destruct (Hs f Hf) as (Hn & Hl & Hmax & Hd). destruct (Hm f Hf) as [p Hp].
  destruct (Marshal_one_line _ _ Hp) as [Hlf Hcr].
  assert (1 <= fr_Seq f <= t_next t) 
    by exact (proj1 (Forall_forall _ _) Hseq _ (list_elem_of_fmap_2 fr_Seq _ _ Hf)).
  unfold frame_readable, readable, int64, min_int64.
  split_and!; try done; [lia|by eapply payload_not_empty].
Qed.

(** C6: What the judge streams is what the backend reads: whatever a run
    published, from wherever the client resumed, and however heartbeats and
    frames interleave, parsing the bytes of the response yields exactly the
    backlog followed by the frames taken off the channel, in order, with their
    names, sequence numbers and data unchanged, and no parse error, provided
    every data line stays below the reader's 4 MiB limit. *)
Theorem event_stream_round_trip ops t log param backlog turns c body c'
    (Hexec : exec ops new_topic = (t, log))
    (Hsize : Forall sendable log)
    (Hbacklog : Forall (fun f => f ∈ log) backlog)
    (Hbuf : Forall (fun f => f ∈ log) (ch_buf c)) (Hrecv : ch_recv c = [])
    (Hrun : handleEvents param true backlog false turns c = Ok (body, c')) :
  ParseSSE collect body false [] = (map frame_sse (backlog ++ ch_recv c'), None).
Proof.
  unfold handleEvents in Hrun. destruct (commitID param); [|done]. cbn in Hrun.
  destruct (stream_loop_items turns c) as (items & E1 & E2 & E3).
  destruct (stream_loop turns c) as [out c1]. injection Hrun as <- <-. cbn [fst snd] in *.
  rewrite E1, write_backlog_items, <- write_items_app. unfold ParseSSE.
  assert (Hit : item_frames (map IFrame backlog ++ items) = backlog ++ ch_recv c1).
  { unfold item_frames. rewrite omap_app, E2, Hrecv. f_equal.
    clear. induction backlog as [|f l IH]; cbn; [done|]. by f_equal. }
  rewrite parse_items, Hit, collect_all; [done|]. rewrite Hit.
  pose proof (log_readable _ _ _ Hexec Hsize) as Hread. rewrite Forall_forall in Hread.
  eapply Forall_impl; [|exact Hread]. apply Forall_app. split; [done|].
  apply (Forall_sublist _ _ (view c)).
  - rewrite <- E3. by apply sublist_inserts_r.
  - unfold view. by rewrite Hrecv.
Qed.
End Judge.

(** ** Frames the reader cannot take *)

Fixpoint repeat_byte (n : nat) (a : ascii) : string :=
  match n with O => "" | Datatypes.S n => String a (repeat_byte n a) end.

Lemma escape_repeat n : String.length (escape (repeat_byte n "<")) = (6 * n)%nat.
Proof.
  induction n as [|n IH]; [done|]. cbn [repeat_byte].
  change (escape (String "<" (repeat_byte n "<"))) with ("\u003c" +:+ escape (repeat_byte n "<")).
  rewrite length_app_s, IH. cbn [String.length]. lia.
Qed.

Section Size.
  Context {JT : JsonText}.

Lemma encode_fields_length l k x a b :
  (k, x) ∈ l -> Marshal x = Some a -> encode_fields Marshal l = Some b ->
  (String.length a <= String.length b)%nat.
Proof.
  intros Hin Ha. revert b. induction l as [|[k' y] l IH]; intros b; [by inversion Hin|].
  destruct l as [|z l'].
  - apply list_elem_of_singleton in Hin. injection Hin as <- <-. cbn [encode_fields].
    rewrite Ha. intros H. apply (inj Some) in H as <-. rewrite !length_app_s. lia.
  - change (encode_fields Marshal ((k', y) :: z :: l')) with
      (match Marshal y, encode_fields Marshal (z :: l') with
       | Some a, Some b => Some (json_string k' +:+ ":" +:+ a +:+ "," +:+ b) | _, _ => None end).
    apply elem_of_cons in Hin as [[= <- <-]|Hin].
    + rewrite Ha. destruct (encode_fields Marshal (z :: l')); [|done]. intros H.
      apply (inj Some) in H as <-. rewrite !length_app_s. lia.
    + destruct (Marshal y); [|done]. destruct (encode_fields Marshal (z :: l')) as [b'|] eqn:E; [|done].
      intros H. apply (inj Some) in H as <-. specialize (IH Hin b' eq_refl). rewrite !length_app_s. lia.
Qed.

Lemma Marshal_case_result id seq_ q1 q2 mem st re sm uo uot em :
  exists b, encode_fields Marshal
    ([("type", JStr NameCaseResult); ("commit_id", JInt id); ("seq", JInt seq_)] ++
     body_fields (CaseResultPayload id (Fin q1) (Fin q2) mem st re sm uo uot em)) = Some b.
Proof. cbn. unfold omit_str. destruct (String.eqb re ""); by eexists. Qed.

Context {JTok : JsonTextOk JT}.

(** A test case that prints the character [<] often enough makes a
    [case_result] the backend can never read: JSON writes the character in six
    bytes, so 700,000 of them, below the 1 MiB of output the judge keeps by
    default, already exceed the reader's 4 MiB line limit. The stream then fails
    before that event or anything after it is handled, whatever the handler, and
    a reconnection replays the same frame. *)
Theorem large_output_breaks_stream {S E} (handle : S -> SSEFrame -> S * option E) (s : S)
    (id seq_ : Z) (q1 q2 : QArith_base.Q) (mem : Z) st re sm uot em (n : nat)
    (Hseq : int64 seq_) (Hn : maxSSELineBytes <= 6 * Z.of_nat n) :
  exists data,
    Marshal (payload_json (setSeq (mk_payload (mk_base NameCaseResult id 0)
       (CaseResultPayload id (Fin q1) (Fin q2) mem st re sm (repeat_byte n "<") uot em)) seq_)) = Some data /\
    forall rest,
      ParseSSE handle (writeFrame (mk_frame seq_ NameCaseResult data) +:+ rest) false s = (s, Some ETooLong).
Proof.
  destruct (Marshal_case_result id seq_ q1 q2 mem st re sm (repeat_byte n "<") uot em) as [b Eb].
  exists ("{" +:+ b +:+ "}").
  assert (Hdata : Marshal (payload_json (setSeq (mk_payload (mk_base NameCaseResult id 0)
       (CaseResultPayload id (Fin q1) (Fin q2) mem st re sm (repeat_byte n "<") uot em)) seq_))
    = Some ("{" +:+ b +:+ "}")).
  { unfold payload_json, setSeq. cbn [pl_base pl_body bp_Type bp_CommitID bp_Seq Marshal].
    by rewrite Eb. }
  split; [done|]. intros rest. unfold ParseSSE.
  change (writeFrame (mk_frame seq_ NameCaseResult ?d)) with (frame_text NameCaseResult seq_ d).
  apply parse_oversized; [done|done|by apply (Marshal_one_line _ _ Hdata)|cbn; lia|].
  eapply (encode_fields_length _ "user_output" (JStr (repeat_byte n "<"))) in Eb; [|set_solver|done].
  unfold json_string in Eb. cbn [String.length] in Eb. rewrite length_app_s, escape_repeat in Eb.
  rewrite !length_app_s. cbn [String.length]. lia.
Qed.
End Size.

(** * Executions *)

Lemma large_output_breaks_stream_witness :
  700000 <= cfg_MaxOutputFileSize default_config /\
  exists data, forall rest,
    ParseSSE collect (writeFrame (mk_frame 4 NameCaseResult data) +:+ rest) false [] = ([], Some ETooLong).
Proof.
  split; [done|].
  destruct (large_output_breaks_stream (JT := plain_text) collect [] 7 4 (QArith_base.inject_Z 1)
    (QArith_base.inject_Z 1) 1024 "correct" "" "" "text" "" (Z.to_nat 700000)) as (data & _ & H).
  - unfold int64, min_int64, max_int64. lia.
  - rewrite Z2Nat.id by lia. discriminate.
  - exists data. exact H.
Defined.

Lemma event_stream_round_trip_witness :
  let f := mk_frame 1 NameStatus
    ("{" +:+ json_string "type" +:+ ":" +:+ json_string "status" +:+ "," +:+ json_string "commit_id" +:+ ":5,"
     +:+ json_string "seq" +:+ ":1," +:+ json_string "status" +:+ ":" +:+ json_string "running" +:+ ","
     +:+ json_string "at" +:+ ":" +:+ json_string "1" +:+ "}") in
  ParseSSE collect (ping +:+ writeFrame f) false [] = ([frame_sse f], None).
Proof.
  intros f.
  assert (He : exec (JT := plain_text) [demo_status 1] new_topic =
    (fst (exec (JT := plain_text) [demo_status 1] new_topic), [f])) by reflexivity.
  refine (event_stream_round_trip (JT := plain_text) _ _ _ "5" [] [TTick; TFrame; TFrame]
    (mk_chan [f] true []) _ (mk_chan [] true [f]) He _ _ _ eq_refl _).
  - repeat constructor; vm_compute; congruence.
  - constructor.
  - repeat constructor.
  - reflexivity.
Defined.
