(* ===== verification/CommitDb.v ===== *)
(** * What the backend stores about a run

    [src/backend/judge/events.go] and [src/backend/judge/reconcile.go]: one
    function per SQL statement, on the tables the statements touch. A statement
    either changes the tables as its SQL says or leaves them alone and returns an
    error; [fault] is a failure of the database itself (lost connection, ...), the
    other errors are the ones PostgreSQL documents for the column types: an enum
    label that does not exist, a text holding a NUL byte, a violated CHECK or
    foreign key. Casts to [numeric] and [jsonb] are parameters. *)

From S2P Require Import Prelude GoStrings.
From Stdlib Require Import QArith.
Local Open Scope Z_scope.

(** PostgreSQL's casts of the decimal and JSON texts the events carry:
    [pg_numeric scale s] is the value stored in a [numeric] column. *)
Class Postgres := { pg_numeric : nat -> string -> option Q; pg_jsonb : string -> bool }.

Record EventPhase := mk_event_phase {
  ep_Phase : string; ep_DurationMS : Z; ep_CPUMS : option Z; ep_MemPeakBytes : option Z;
  ep_StartedAt : option Z; ep_FinishedAt : option Z; ep_Source : string; ep_Detail : string
}.

Record Event := mk_event {
  ev_Type : string;
  ev_CommitID : Z;
  ev_Seq : Z;
  ev_Status : string;
  ev_Compiled : option bool;
  ev_Message : string;
  ev_Error : string;
  ev_TestCaseID : Z;
  ev_CPUTime : string;
  ev_WallTime : string;
  ev_MemUsage : option Z;
  ev_Reason : string;
  ev_StatusMessage : string;
  ev_UserOutput : string;
  ev_UserOutputType : string;
  ev_ErrorMessage : string;
  ev_Phases : list EventPhase;
  ev_ArtifactState : string;
  ev_LimitBytes : option Z;
  ev_Code : string;
  ev_Severity : string;
  ev_Details : string;
  ev_NumCorrectCases : option Z;
  ev_Score : string;
  ev_CompilationMessage : string;
  ev_CompilationError : string
}.
#[export] Instance Event_eta : Settable Event := fun e =>
  mk_event (ev_Type e) (ev_CommitID e) (ev_Seq e) (ev_Status e) (ev_Compiled e) (ev_Message e)
    (ev_Error e) (ev_TestCaseID e) (ev_CPUTime e) (ev_WallTime e) (ev_MemUsage e) (ev_Reason e)
    (ev_StatusMessage e) (ev_UserOutput e) (ev_UserOutputType e) (ev_ErrorMessage e) (ev_Phases e)
    (ev_ArtifactState e) (ev_LimitBytes e) (ev_Code e) (ev_Severity e) (ev_Details e)
    (ev_NumCorrectCases e) (ev_Score e) (ev_CompilationMessage e) (ev_CompilationError e).

(** An event with the zero value in every optional field. *)
Definition zero_event (type : string) (commit seq : Z) : Event :=
  mk_event type commit seq "" None "" "" 0 "" "" None "" "" "" "" "" [] "" None "" "" "" None "" "" "".

(** ** Tables *)

Record CommitRow := mk_row {
  co_status : string;
  co_num_correct : Z;
  co_score : Q;
  co_compiled : option bool;
  co_comp_message : option string;
  co_comp_error : option string;
  co_comp_started : option Z;
  co_comp_finished : option Z
}.
#[export] Instance CommitRow_eta : Settable CommitRow := fun r =>
  mk_row (co_status r) (co_num_correct r) (co_score r) (co_compiled r) (co_comp_message r)
    (co_comp_error r) (co_comp_started r) (co_comp_finished r).

Record ResultRow := mk_result_row {
  rr_cpu : Q; rr_wall : option Q; rr_mem : Z; rr_output : string; rr_output_type : string;
  rr_status : string; rr_reason : option string; rr_status_message : string; rr_error : string
}.

Record ArtifactRow := mk_artifact_row {
  ar_state : string; ar_reason : option string; ar_limit : option Z; ar_updated_at : Z
}.

Record TimingRow := mk_timing_row {
  tr_duration : Z; tr_cpu : option Z; tr_mem : option Z; tr_started : option Z;
  tr_finished : option Z; tr_source : string; tr_detail : option string
}.

Record AlertRow := mk_alert_row {
  al_severity : string; al_code : string; al_source : string; al_commit : option Z;
  al_message : string; al_details : option string
}.

Record Db := mk_db {
  db_commits : gmap Z CommitRow;
  db_cases : gset Z;
  db_results : gmap (Z * Z) ResultRow;
  db_artifacts : gmap (Z * Z) ArtifactRow;
  db_timings : gmap (Z * string) TimingRow;
  db_alerts : list AlertRow
}.
#[export] Instance Db_eta : Settable Db := fun d =>
  mk_db (db_commits d) (db_cases d) (db_results d) (db_artifacts d) (db_timings d) (db_alerts d).

Inductive persist_error :=
| EDatabase | EEnum | EText | ENumeric | EJson | ECheck | EForeignKey | EMalformed.

(** ** Column types *)

Definition commit_status_t : list string :=
  ["pending"; "queued"; "compiling"; "compilation_error"; "running"; "completed"; "uncompleted";
   "server_error"; "plagiarism"; "timeout"].
Definition commit_exercise_test_case_status_t : list string :=
  ["killed_with_signal"; "correct"; "bad_formatted_output"].
Definition case_interruption_reason_t : list string :=
  ["timeout"; "cpu_limit"; "memory_limit"; "stack_limit"; "file_size_limit"; "signal";
   "monitor_error"; "output_error"; "server_error"].
Definition input_output_type_t : list string := ["text"; "file"].
Definition commit_phase_t : list string :=
  ["queue"; "workspace_prepare"; "source_download"; "source_resolve"; "compilation_files";
   "test_cases"; "test_case_files"; "container_config"; "image_ensure"; "container_create";
   "container_start"; "startup"; "compile"; "run"; "grade"; "artifact"].

Definition in_enum (e : list string) (s : string) : bool := existsb (String.eqb s) e.

(** A [text] value: valid UTF-8 without the byte zero. *)
Definition pg_text (s : string) : bool := utf8_valid s && (count_byte NUL s =? 0)%nat.

Definition int4 (z : Z) : bool := in_range (- 2 ^ 31) (2 ^ 31 - 1) z.

Definition opt_ok {A} (p : A -> bool) (o : option A) : bool := match o with None => true | Some x => p x end.

(** The statements fail with the first error that applies. *)
Definition require (b : bool) (e : persist_error) : res persist_error unit := if b then Ok tt else Err e.

(** ** The guard of terminal commits *)

Definition terminalStatuses : list string :=
  ["completed"; "uncompleted"; "compilation_error"; "server_error"; "timeout"; "plagiarism"].

Definition IsTerminalStatus (status : string) : bool := in_enum terminalStatuses status.

Definition nonTerminalGuard (r : CommitRow) : bool := negb (in_enum terminalStatuses (co_status r)).

(** [UPDATE commits SET ... WHERE id = $1 AND nonTerminalGuard]. *)
Definition update_commit (d : Db) (id : Z) (f : CommitRow -> CommitRow) : Db :=
  d <| db_commits := alter (fun r => if nonTerminalGuard r then f r else r) id (db_commits d) |>.

(** [COALESCE(compilation_finished, now())]. *)
Definition coalesce {A} (o : option A) (x : A) : option A := match o with Some _ => o | None => Some x end.

(** [COALESCE(NULLIF($4, ''), column)]. *)
Definition keep_unless (s : string) (o : option string) : option string :=
  if String.eqb s "" then o else Some s.

Section Persist.
  Context {PG : Postgres} (fault : bool) (now : Z).

Definition persistStatus (d : Db) (ev : Event) : res persist_error Db :=
  if String.eqb (ev_Status ev) "" then Err EMalformed
  else
    _ ← require (negb fault) EDatabase;
    _ ← require (in_enum commit_status_t (ev_Status ev)) EEnum;
    Ok (update_commit d (ev_CommitID ev) (fun r => r <| co_status := ev_Status ev |>)).

Definition persistCompilation (d : Db) (ev : Event) : res persist_error Db :=
  let compiled := default false (ev_Compiled ev) in
  _ ← require (negb fault) EDatabase;
  _ ← require (pg_text (ev_Message ev) && pg_text (ev_Error ev)) EText;
  Ok (update_commit d (ev_CommitID ev) (fun r =>
        r <| co_compiled := Some compiled |> <| co_comp_message := Some (ev_Message ev) |>
          <| co_comp_error := Some (ev_Error ev) |> <| co_comp_finished := Some now |>)).

Definition persistArtifact (d : Db) (ev : Event) : res persist_error Db :=
  if ev_TestCaseID ev =? 0 then Ok d
  else if negb (in_enum ["pending"; "ready"; "failed"] (ev_ArtifactState ev)) then Ok d
  else
    let reason := if String.eqb (ev_Reason ev) "" then None else Some (ev_Reason ev) in
    _ ← require (negb fault) EDatabase;
    _ ← require (opt_ok pg_text reason) EText;
    _ ← require (opt_ok (fun l => 0 <? l) (ev_LimitBytes ev)) ECheck;
    _ ← require (bool_decide (is_Some (db_commits d !! ev_CommitID ev)) &&
                 bool_decide (ev_TestCaseID ev ∈ db_cases d)) EForeignKey;
    Ok (d <| db_artifacts := <[(ev_CommitID ev, ev_TestCaseID ev) :=
               mk_artifact_row (ev_ArtifactState ev) reason (ev_LimitBytes ev) now]> (db_artifacts d) |>).

(** The row an event upserts. *)
Definition result_row (ev : Event) : res persist_error ResultRow :=
  let cpuTime := if String.eqb (ev_CPUTime ev) "" then "0" else ev_CPUTime ev in
  let memUsage := default 0 (ev_MemUsage ev) in
  let outputType := if String.eqb (ev_UserOutputType ev) "" then "text" else ev_UserOutputType ev in
  let reason := if String.eqb (ev_Reason ev) "" then None else Some (ev_Reason ev) in
  _ ← require (pg_text (ev_UserOutput ev) && pg_text (ev_StatusMessage ev)
               && pg_text (ev_ErrorMessage ev)) EText;
  _ ← require (in_enum input_output_type_t outputType
               && in_enum commit_exercise_test_case_status_t (ev_Status ev)
               && opt_ok (in_enum case_interruption_reason_t) reason) EEnum;
  match pg_numeric 4 cpuTime,
        (if String.eqb (ev_WallTime ev) "" then Some None else Some <$> pg_numeric 4 (ev_WallTime ev)) with
  | Some cpu, Some wall =>
      Ok (mk_result_row cpu wall memUsage (ev_UserOutput ev) outputType (ev_Status ev) reason
            (ev_StatusMessage ev) (ev_ErrorMessage ev))
  | _, _ => Err ENumeric
  end.

Definition persistCaseResult (d : Db) (ev : Event) : res persist_error Db :=
  if (ev_TestCaseID ev =? 0) || String.eqb (ev_Status ev) "" then Err EMalformed
  else
    _ ← require (negb fault) EDatabase;
    row ← result_row ev;
    match db_commits d !! ev_CommitID ev with
    | Some r =>
        if nonTerminalGuard r then
          _ ← require (bool_decide (ev_TestCaseID ev ∈ db_cases d)) EForeignKey;
          Ok (d <| db_results := <[(ev_CommitID ev, ev_TestCaseID ev) := row]> (db_results d) |>)
        else Ok d
    | None => Ok d
    end.

(** One row of [persistTimings], inside its transaction. *)
Definition timing_row (commit : Z) (d : Db) (p : EventPhase) : res persist_error Db :=
  let source := if String.eqb (ep_Source p) "" then "judge" else ep_Source p in
  let detail := if String.eqb (ep_Detail p) "" then None else Some (ep_Detail p) in
  _ ← require (negb fault) EDatabase;
  _ ← require (in_enum commit_phase_t (ep_Phase p)) EEnum;
  _ ← require (opt_ok pg_jsonb detail) EJson;
  _ ← require ((0 <=? ep_DurationMS p) && int4 (ep_DurationMS p)
               && opt_ok (fun c => (0 <=? c) && int4 c) (ep_CPUMS p)
               && opt_ok (fun m => 0 <=? m) (ep_MemPeakBytes p)
               && in_enum ["judge"; "monitor"; "harness"] source) ECheck;
  _ ← require (bool_decide (is_Some (db_commits d !! commit))) EForeignKey;
  Ok (d <| db_timings := <[(commit, ep_Phase p) :=
         mk_timing_row (ep_DurationMS p) (ep_CPUMS p) (ep_MemPeakBytes p) (ep_StartedAt p)
           (ep_FinishedAt p) source detail]> (db_timings d) |>).

Fixpoint timing_rows (commit : Z) (d : Db) (ps : list EventPhase) : res persist_error Db :=
  match ps with
  | [] => Ok d
  | p :: r => d ← timing_row commit d p; timing_rows commit d r
  end.

Definition phase_malformed (p : EventPhase) : bool :=
  String.eqb (ep_Phase p) "" || (ep_DurationMS p <? 0).

Definition persistTimings (d : Db) (ev : Event) : res persist_error Db :=
  match ev_Phases ev with
  | [] => Ok d
  | ps =>
      if existsb phase_malformed ps then Err EMalformed
      else timing_rows (ev_CommitID ev) d ps
  end.

(** [alertInput] and the insert of [alerts.Create]. *)
Definition alertInput (ev : Event) : res persist_error AlertRow :=
  if String.eqb (ev_Code ev) "" || String.eqb (ev_Message ev) "" then Err EMalformed
  else
    let severity := if String.eqb (ev_Severity ev) "" then "warning" else ev_Severity ev in
    let commitID := if 0 <? ev_CommitID ev then Some (ev_CommitID ev) else None in
    let details := if String.eqb (ev_Details ev) "" then None else Some (ev_Details ev) in
    Ok (mk_alert_row severity (ev_Code ev) "judge" commitID (ev_Message ev) details).

Definition same_alert (code : string) (commit : Z) (a : AlertRow) : bool :=
  bool_decide (al_commit a = Some commit) && String.eqb (al_code a) code.

(** [alerts.Create]: the rows after the insert and whether one was inserted. *)
Definition alerts_insert (d : Db) (a : AlertRow) : res persist_error (Db * bool) :=
  let code := trim_space (al_code a) in
  let message := trim_space (al_message a) in
  if String.eqb code "" || String.eqb message "" then Err EMalformed
  else
    let row := mk_alert_row (al_severity a) code (al_source a) (al_commit a) message (al_details a) in
    _ ← require (negb fault) EDatabase;
    _ ← require (pg_text code && pg_text message) EText;
    _ ← require (opt_ok pg_jsonb (al_details a)) EJson;
    _ ← require (in_enum ["warning"; "critical"] (al_severity a)) ECheck;
    match al_commit a with
    | Some c =>
        _ ← require (bool_decide (is_Some (db_commits d !! c))) EForeignKey;
        if existsb (same_alert code c) (db_alerts d) then Ok (d, false)
        else Ok (d <| db_alerts := db_alerts d ++ [row] |>, true)
    | None => Ok (d <| db_alerts := db_alerts d ++ [row] |>, true)
    end.

Definition persistAlert (d : Db) (ev : Event) : res persist_error Db :=
  a ← alertInput ev;
  r ← alerts_insert d a;
  Ok (fst r).

Definition persistFinished (d : Db) (ev : Event) : res persist_error Db :=
  if String.eqb (ev_Status ev) "" then Err EMalformed
  else
    let numCorrect := default 0 (ev_NumCorrectCases ev) in
    let score := if String.eqb (ev_Score ev) "" then "0" else ev_Score ev in
    _ ← require (negb fault) EDatabase;
    _ ← require (in_enum commit_status_t (ev_Status ev)) EEnum;
    _ ← require (int4 numCorrect) ECheck;
    _ ← require (pg_text (ev_CompilationMessage ev) && pg_text (ev_CompilationError ev)) EText;
    match pg_numeric 2 score with
    | None => Err ENumeric
    | Some q =>
        _ ← require (Qle_bool 0 q && Qle_bool q 100) ECheck;
        Ok (update_commit d (ev_CommitID ev) (fun r =>
              r <| co_status := ev_Status ev |> <| co_num_correct := numCorrect |> <| co_score := q |>
                <| co_comp_message := keep_unless (ev_CompilationMessage ev) (co_comp_message r) |>
                <| co_comp_error := keep_unless (ev_CompilationError ev) (co_comp_error r) |>
                <| co_comp_finished := coalesce (co_comp_finished r) now |>))
    end.

(** [PersistEvent]: dispatch on the event's type; unknown types are ignored. *)
Definition PersistEvent (d : Db) (ev : Event) : res persist_error Db :=
  let ty := ev_Type ev in
  if String.eqb ty "status" then
    if IsTerminalStatus (ev_Status ev) then Ok d else persistStatus d ev
  else if String.eqb ty "compilation" then persistCompilation d ev
  else if String.eqb ty "case_result" then persistCaseResult d ev
  else if String.eqb ty "timings" then persistTimings d ev
  else if String.eqb ty "alert" then persistAlert d ev
  else if String.eqb ty "finished" then persistFinished d ev
  else if String.eqb ty "artifact" then persistArtifact d ev
  else Ok d.

Definition MarkCommitServerError (d : Db) (id : Z) : res persist_error Db :=
  _ ← require (negb fault) EDatabase;
  Ok (update_commit d id (fun r =>
        r <| co_status := "server_error" |> <| co_comp_finished := coalesce (co_comp_finished r) now |>)).

(** The sweeper: commits claimed before [now - timeout] and never finished; the
    rows it changed are the hubs it closes. *)
Definition is_stale (timeout : Z) (r : CommitRow) : bool :=
  in_enum ["compiling"; "running"] (co_status r) &&
  match co_comp_started r with Some t => t <? now - timeout | None => false end.

Definition reconcileStaleCommits (timeout : Z) (d : Db) : res persist_error (Db * gset Z) :=
  _ ← require (negb fault) EDatabase;
  Ok (d <| db_commits := (fun r => if is_stale timeout r
             then r <| co_status := "server_error" |>
                    <| co_comp_finished := coalesce (co_comp_finished r) now |> else r) <$> db_commits d |>,
      dom (filter (fun '(_, r) => is_stale timeout r = true) (db_commits d))).
End Persist.

(** * Lemmas *)

Lemma require_ok b e u : require b e = Ok u <-> b = true.
Proof. unfold require. destruct b, u; split; congruence. Qed.

(** Splits a successful sequence of checks into the facts it establishes. *)
Ltac persist_inv :=
  repeat match goal with
  | H : (require ?b ?e ≫= _) = Ok _ |- _ =>
      apply res_bind_ok in H as (? & ?%require_ok & H)
  | H : (_ ≫= _) = Ok _ |- _ => apply res_bind_ok in H as (? & ? & H)
  | H : Ok _ = Ok _ |- _ => injection H as <-
  | H : Err _ = Ok _ |- _ => discriminate H
  | H : context [if ?b then _ else _] |- _ =>
      match type of H with _ = Ok _ => destruct b eqn:? end
  | H : context [match ?x with _ => _ end] |- _ =>
      match type of H with _ = Ok _ => destruct x eqn:? end
  end.

(** ** Settled commits *)

(** [d'] agrees with [d] on a commit's row and its results. *)
Definition same_run (id : Z) (d d' : Db) : Prop :=
  db_commits d' !! id = db_commits d !! id /\
  forall tc, db_results d' !! (id, tc) = db_results d !! (id, tc).

#[export] Instance same_run_preorder id : PreOrder (same_run id).
Proof.
  split; [by split|]. intros d1 d2 d3 [H1 H2] [H3 H4]. split; [congruence|].
  intros tc. by rewrite H4.
Qed.

Definition settled (d : Db) (id : Z) : Prop :=
  exists r, db_commits d !! id = Some r /\ IsTerminalStatus (co_status r) = true.

Lemma update_settled d id f id' : settled d id -> same_run id d (update_commit d id' f).
Proof.
  intros (r & Hr & Ht). split; [|done]. cbn. destruct (decide (id = id')) as [<-|].
  - rewrite lookup_alter_eq, Hr. cbn. unfold nonTerminalGuard, IsTerminalStatus in *. by rewrite Ht.
  - by rewrite lookup_alter_ne.
Qed.

Section PersistLemmas.
  Context {PG : Postgres}.

Lemma timing_rows_frame fault id commit d ps d' :
  timing_rows fault commit d ps = Ok d' ->
  same_run id d d' /\ db_commits d' = db_commits d /\ db_cases d' = db_cases d.
Proof.
  revert d. induction ps as [|p ps IH]; intros d H; cbn [timing_rows] in H; [by injection H as <-|].
  unfold timing_row in H. persist_inv; apply IH in H as (Hrun & Hco & Hca); cbn in *;
    (split_and!; [by destruct Hrun|done..]).
Qed.

Lemma persist_settled fault now id d ev d' :
  settled d id -> PersistEvent fault now d ev = Ok d' -> same_run id d d'.
Proof.
  intros Hs H. unfold PersistEvent, persistStatus, persistCompilation, persistCaseResult,
    persistTimings, persistAlert, persistFinished, persistArtifact, alerts_insert in H.
  repeat match type of H with
  | (if String.eqb (ev_Type ev) ?s then _ else _) = _ => destruct (String.eqb (ev_Type ev) s)
  end; persist_inv; try done; try (by apply update_settled); try (by split).
  - (* case_result *)
    split; [done|]. intros tc. cbn. destruct Hs as (r & Hr & Ht).
    rewrite lookup_insert_ne; [done|]. intros [= <- _].
    unfold nonTerminalGuard, IsTerminalStatus in *. simplify_eq. by rewrite Ht in *.
  - by apply (timing_rows_frame _ id) in H as [? _].
Qed.
End PersistLemmas.

(** ** Sequences of writes *)

Inductive db_op :=
| DPersist (fault : bool) (now : Z) (ev : Event)
| DMark (fault : bool) (now : Z) (id : Z)
| DReconcile (fault : bool) (now timeout : Z).

Section Ops.
  Context {PG : Postgres}.

(** A failed statement leaves the tables as they were. *)
Definition or_unchanged {E} (d : Db) (r : res E Db) : Db := match r with Ok d' => d' | Err _ => d end.

Definition db_step (d : Db) (o : db_op) : Db :=
  match o with
  | DPersist fault now ev => or_unchanged d (PersistEvent fault now d ev)
  | DMark fault now id => or_unchanged d (MarkCommitServerError fault now d id)
  | DReconcile fault now timeout =>
      or_unchanged d (r ← reconcileStaleCommits fault now timeout d; Ok (fst r))
  end.
Definition db_exec (ops : list db_op) (d : Db) : Db := fold_left db_step ops d.

Lemma stale_not_terminal now timeout r :
  is_stale now timeout r = true -> IsTerminalStatus (co_status r) = false.
Proof.
  unfold is_stale, IsTerminalStatus, in_enum. rewrite andb_true_iff. intros [H _].
  cbn [existsb] in *. rewrite !orb_true_iff, !String.eqb_eq in H.
  destruct H as [->|[->|H]]; [done..|discriminate H].
Qed.

Lemma db_step_settled d o id : settled d id -> same_run id d (db_step d o).
Proof.
  intros Hs. destruct o as [fault now ev|fault now id'|fault now timeout]; cbn [db_step].
  - destruct (PersistEvent fault now d ev) as [d'|] eqn:E; [|done].
    by eapply persist_settled.
  - destruct fault; [done|]. by apply update_settled.
  - destruct fault; [done|]. split; [|done]. cbn. rewrite lookup_fmap.
    destruct Hs as (r & Hr & Ht). rewrite Hr. cbn. destruct (is_stale now timeout r) eqn:E; [|done].
    apply stale_not_terminal in E. congruence.
Qed.

Lemma same_run_settled id d d' : same_run id d d' -> settled d id -> settled d' id.
Proof. intros [H _] (r & Hr & Ht). exists r. by rewrite H. Qed.

Lemma db_exec_settled ops d id : settled d id -> same_run id d (db_exec ops d).
Proof.
  revert d. induction ops as [|o ops IH]; intros d Hs; [done|]. cbn.
  pose proof (db_step_settled d o id Hs) as H1. etrans; [exact H1|].
  apply IH. by eapply same_run_settled.
Qed.

(** ** Replayed events *)

(** The tables without the timestamps that record when a write happened. *)
Definition erase_times (d : Db) : Db :=
  d <| db_commits := (fun r => r <| co_comp_finished := None |>) <$> db_commits d |>
    <| db_artifacts := (fun a => mk_artifact_row (ar_state a) (ar_reason a) (ar_limit a) 0) <$> db_artifacts d |>.

Lemma update_commit_erase d id f g :
  (forall r, nonTerminalGuard r = true ->
     let r' := f r in
     (if nonTerminalGuard r' then g r' else r') <| co_comp_finished := None |> = r' <| co_comp_finished := None |>) ->
  erase_times (update_commit (update_commit d id f) id g) = erase_times (update_commit d id f).
Proof.
  intros H. unfold erase_times, update_commit, rset. cbn. f_equal.
  apply map_eq. intros i. rewrite !lookup_fmap. destruct (decide (i = id)) as [->|].
  - rewrite !lookup_alter_eq. destruct (db_commits d !! id) as [r|]; cbn; [|done].
    destruct (nonTerminalGuard r) eqn:E; [f_equal; exact (H r E)|by rewrite E].
  - by rewrite !lookup_alter_ne.
Qed.

Lemma timing_rows_union fault commit d ps d' :
  timing_rows fault commit d ps = Ok d' ->
  exists m, d' = d <| db_timings := m ∪ db_timings d |> /\
    forall d2, db_commits d2 = db_commits d ->
      timing_rows fault commit d2 ps = Ok (d2 <| db_timings := m ∪ db_timings d2 |>).
Proof.
  revert d. induction ps as [|p ps IH]; intros d H; cbn [timing_rows] in *.
  { injection H as <-. exists ∅. split; [|intros d2 _]; rewrite (left_id_L ∅ (∪)); by destruct d + destruct d2. }
  apply res_bind_ok in H as (d1 & H1 & H).
  pose proof H1 as H1'. unfold timing_row in H1'.
  set (row := mk_timing_row _ _ _ _ _ _ _) in H1'.
  assert (Hd1 : d1 = d <| db_timings := <[(commit, ep_Phase p) := row]> (db_timings d) |>).
  { clear -H1'. repeat (apply res_bind_ok in H1' as (? & _ & H1')). by injection H1'. }
  apply IH in H as (m & -> & Hm). exists (m ∪ {[(commit, ep_Phase p) := row]}). split.
  - rewrite Hd1. cbn. rewrite insert_union_singleton_l, (assoc_L (∪)). by destruct d.
  - intros d2 Hc. assert (Ht : timing_row fault commit d2 p =
      Ok (d2 <| db_timings := <[(commit, ep_Phase p) := row]> (db_timings d2) |>)).
    { unfold timing_row. rewrite Hc. fold row.
      clear -H1'. repeat (apply res_bind_ok in H1' as ([] & -> & H1'); cbn [mbind res_bind]). done. }
    rewrite Ht. cbn [mbind res_bind]. rewrite Hm by (rewrite Hd1; cbn; done).
    cbn. rewrite insert_union_singleton_l, (assoc_L (∪)). by destruct d2.
Qed.
End Ops.

(** * Properties *)

Section Properties.
  Context {PG : Postgres}.

(** C4: A settled commit never changes again: whatever events arrive late or
    twice, in whatever order, whatever the sweeper and the failure path do, and
    whichever writes fail, its row (status, score, compilation output) and its
    per-case results stay exactly as they were. *)
Theorem settled_commits_are_frozen (ops : list db_op) d id r
    (Hr : db_commits d !! id = Some r) (Ht : IsTerminalStatus (co_status r) = true) :
  db_commits (db_exec ops d) !! id = Some r /\
  forall tc, db_results (db_exec ops d) !! (id, tc) = db_results d !! (id, tc).
Proof.
  destruct (db_exec_settled ops d id) as [H1 H2]; [by exists r|]. by rewrite H1.
Qed.

Lemma alert_replay fault now now2 d ev d1 :
  0 < ev_CommitID ev -> ev_Type ev = "alert" ->
  PersistEvent fault now d ev = Ok d1 -> PersistEvent fault now2 d1 ev = Ok d1.
Proof.
  intros Hc Ht. unfold PersistEvent. rewrite Ht. cbn. unfold persistAlert, alertInput.
  rewrite (proj2 (Z.ltb_lt _ _) Hc).
  destruct (String.eqb (ev_Code ev) "" || _); [done|]. cbn [mbind res_bind].
  unfold alerts_insert. cbn [al_code al_message al_severity al_details al_commit al_source].
  set (code := trim_space (ev_Code ev)). set (msg := trim_space (ev_Message ev)).
  destruct (String.eqb code "" || String.eqb msg ""); [done|]. intros H.
  apply res_bind_ok in H as ([d' b] & H & [= <-]). cbn [fst].
  repeat (apply res_bind_ok in H as ([] & Hq & H); rewrite Hq; clear Hq; cbn [mbind res_bind]).
  apply res_bind_ok in H as ([] & Hq%require_ok & H).
  destruct (existsb (same_alert code (ev_CommitID ev)) (db_alerts d)) eqn:E; injection H as <- <-.
  - by rewrite Hq, E.
  - cbn [db_commits db_alerts rset Settable]. unfold rset. cbn. rewrite Hq. cbn.
    rewrite existsb_app, E. cbn. unfold same_alert at 1. cbn.
    rewrite bool_decide_eq_true_2, String.eqb_refl by done. done.
Qed.

(** A guarded update succeeds again with the same effect up to timestamps. *)
Lemma update_replay d id f g :
  (forall r, nonTerminalGuard r = true ->
     let r' := f r in
     (if nonTerminalGuard r' then g r' else r') <| co_comp_finished := None |> = r' <| co_comp_finished := None |>) ->
  exists d2, Ok (E := persist_error) (update_commit (update_commit d id f) id g) = Ok d2 /\
             erase_times d2 = erase_times (update_commit d id f).
Proof. intros H. eexists. split; [done|]. by apply update_commit_erase. Qed.

Ltac replay_checks H :=
  repeat (apply res_bind_ok in H as ([] & ?Hq & H);
          match goal with Hq : require _ _ = Ok () |- _ => rewrite Hq; clear Hq end;
          cbn [mbind res_bind]).

Lemma case_result_replay d ev d1 :
  persistCaseResult false d ev = Ok d1 -> persistCaseResult false d1 ev = Ok d1.
Proof.
  unfold persistCaseResult. destruct (_ || _); [done|]. intros H. replay_checks H.
  apply res_bind_ok in H as (row & Hrow & H). rewrite Hrow. cbn [mbind res_bind].
  destruct (db_commits d !! ev_CommitID ev) as [r|] eqn:Er; [|injection H as <-; by rewrite Er].
  destruct (nonTerminalGuard r) eqn:Eg; [|injection H as <-; by rewrite Er, Eg].
  apply res_bind_ok in H as ([] & Hq & H). injection H as <-.
  unfold rset. cbn. rewrite Er, Eg, Hq. cbn. by rewrite insert_insert_eq.
Qed.

Lemma timings_replay d ev d1 : persistTimings false d ev = Ok d1 -> persistTimings false d1 ev = Ok d1.
Proof.
  unfold persistTimings. destruct (ev_Phases ev) as [|p ps]; [done|].
  destruct (existsb phase_malformed (p :: ps)); [done|].
  intros H. apply timing_rows_union in H as (m & -> & Hm).
  rewrite Hm by done. unfold rset. cbn. do 2 f_equal.
  by rewrite (assoc_L (∪)), map_union_idemp.
Qed.

Lemma artifact_replay now now2 d ev d1 :
  persistArtifact false now d ev = Ok d1 ->
  exists d2, persistArtifact false now2 d1 ev = Ok d2 /\ erase_times d2 = erase_times d1.
Proof.
  unfold persistArtifact. destruct (ev_TestCaseID ev =? 0); [intros [= <-]; by exists d|].
  destruct (negb (in_enum _ _)); [intros [= <-]; by exists d|]. intros H. replay_checks H.
  apply res_bind_ok in H as ([] & Hq & H). injection H as <-. unfold rset. cbn. rewrite Hq.
  eexists. split; [done|]. unfold erase_times, rset. cbn. by rewrite insert_insert_eq, !fmap_insert.
Qed.

Lemma finished_replay now now2 d ev d1 :
  persistFinished false now d ev = Ok d1 ->
  exists d2, persistFinished false now2 d1 ev = Ok d2 /\ erase_times d2 = erase_times d1.
Proof.
  unfold persistFinished. destruct (String.eqb (ev_Status ev) ""); [done|]. intros H. replay_checks H.
  destruct (pg_numeric 2 _) as [q|]; [|done]. replay_checks H. injection H as <-.
  apply update_replay. intros r _ r'. destruct (nonTerminalGuard r'); [|reflexivity].
  destruct r as [st nc sc cm msg err stt fin]. subst r'. unfold keep_unless.
  destruct (String.eqb (ev_CompilationMessage ev) ""), (String.eqb (ev_CompilationError ev) "");
    reflexivity.
Qed.


(** The sweeper settles exactly the commits that were claimed longer ago than
    the timeout and never finished: each of them becomes a server error, is
    reported so its hub is closed, and is not stale any more; every other commit
    keeps its row. *)
Theorem sweeper_settles_exactly_the_stale now timeout d d' ids
    (H : reconcileStaleCommits false now timeout d = Ok (d', ids)) :
  (forall id r, db_commits d !! id = Some r ->
     (is_stale now timeout r = true -> id ∈ ids /\
        exists r', db_commits d' !! id = Some r' /\ co_status r' = "server_error" /\
                   co_score r' = co_score r /\ is_Some (co_comp_finished r')) /\
     (is_stale now timeout r = false -> id ∉ ids /\ db_commits d' !! id = Some r)) /\
  (forall id r', db_commits d' !! id = Some r' -> is_stale now timeout r' = false) /\
  db_results d' = db_results d.
Proof.
  injection H as <- <-. split_and!; [| |done].
  - intros id r Hr. cbn. rewrite lookup_fmap, Hr. cbn. split; intros Hs; rewrite Hs.
    + split; [apply elem_of_dom; exists r; by apply map_lookup_filter_Some|].
      eexists. split_and!; [reflexivity|reflexivity|reflexivity|]. cbn.
      unfold coalesce. by destruct (co_comp_finished r).
    + split; [|done]. intros [r' [Hr' Hs']%map_lookup_filter_Some]%elem_of_dom. cbn in Hs'. congruence.
  - intros id r'. cbn. rewrite lookup_fmap. destruct (db_commits d !! id) as [r|]; [|done].
    cbn. intros [= <-]. by destruct (is_stale now timeout r) eqn:E.
Qed.

(** A text with a NUL byte cannot be stored. *)
Lemma nul_output_rejected fault now d ev :
  ev_Type ev = "case_result" -> count_byte NUL (ev_UserOutput ev) <> 0%nat ->
  is_ok (PersistEvent fault now d ev) = false.
Proof.
  intros Ht Hn. unfold PersistEvent, persistCaseResult. rewrite Ht. cbn.
  destruct (_ || _); [done|]. destruct fault; [done|]. cbn [require negb mbind res_bind].
  unfold result_row. assert (pg_text (ev_UserOutput ev) = false) as ->; [|done].
  unfold pg_text. destruct (count_byte NUL (ev_UserOutput ev)); [done|]. by rewrite andb_false_r.
Qed.
End Properties.

(** * Executions *)

(** A small set of casts, enough for integers. *)
Definition plain_postgres : Postgres :=
  {| pg_numeric _ s := inject_Z <$> parse_int s; pg_jsonb _ := true |}.

Definition running_row : CommitRow := mk_row "running" 0 0 None None None (Some 10) None.
Definition done_row : CommitRow := running_row <| co_status := "completed" |> <| co_score := 100%Q |>.
Definition demo_db : Db := mk_db {[5 := running_row; 6 := done_row]} {[7]} ∅ ∅ ∅ [].
Definition demo_case : Event :=
  (zero_event "case_result" 5 3) <| ev_TestCaseID := 7 |> <| ev_Status := "correct" |>.

Lemma settled_commits_are_frozen_witness :
  db_commits (db_exec (PG := plain_postgres)
    [DPersist false 20 ((zero_event "finished" 6 9) <| ev_Status := "timeout" |>); DMark false 30 6;
     DReconcile false 99 1] demo_db) !! 6 = Some done_row.
Proof. by apply (settled_commits_are_frozen (PG := plain_postgres) _ demo_db 6 done_row). Defined.


Lemma sweeper_settles_exactly_the_stale_witness :
  exists d' ids, reconcileStaleCommits false 99 1 demo_db = Ok (d', ids) /\ 5 ∈ ids /\
    db_commits d' !! 6 = Some done_row.
Proof.
  eexists _, _. split; [reflexivity|].
  destruct (sweeper_settles_exactly_the_stale 99 1 demo_db _ _ eq_refl) as [H _].
  split; [by apply (H 5 running_row)|by apply (H 6 done_row)].
Defined.
