(* ===== verification/BackendHub.v ===== *)
(** * The backend's event consumer

    [src/backend/judge/hub.go]: one [Hub] per commit owns the connection to the
    judge, stores every event and fans it out to the connected clients. The
    database, the clock and the two places where the code waits are a [world]: it
    supplies the failures of the database ([w_faults], one entry per statement,
    exhausted means healthy), the current time and, for every [select] between a
    timer and the context, whether the context wins ([w_selects]). The judge is a
    function from the attempt and the requested [from] to what the connection
    delivers. [decode] is [json.Unmarshal] into an [Event]. *)

From S2P Require Import Prelude GoStrings Sse CommitDb.
Local Open Scope Z_scope.

Definition subscriberBuffer : nat := 64.
Definition maxStreamAttempts : nat := 3.
Definition terminalPersistAttempts : nat := 3.

(** [hb_ctx] is [ctx.Err() != nil]; [hb_subs] holds the buffered frames of each
    subscriber's channel, [hb_gone] the channels that were closed. *)
Record Hub := mk_hub {
  hb_commit : Z;
  hb_subs : gmap nat (list string);
  hb_gone : gmap nat (list string);
  hb_closed : bool;
  hb_terminal : bool;
  hb_warned : bool;
  hb_lastSeq : Z;
  hb_ctx : bool
}.
#[export] Instance Hub_eta : Settable Hub := fun h =>
  mk_hub (hb_commit h) (hb_subs h) (hb_gone h) (hb_closed h) (hb_terminal h) (hb_warned h)
    (hb_lastSeq h) (hb_ctx h).

Definition new_hub (commit : Z) : Hub := mk_hub commit ∅ ∅ false false false 0 false.

Record world := mk_world { w_db : Db; w_now : Z; w_faults : list bool; w_selects : list bool }.
#[export] Instance world_eta : Settable world := fun w =>
  mk_world (w_db w) (w_now w) (w_faults w) (w_selects w).

Definition pop_fault (w : world) : bool * world :=
  match w_faults w with [] => (false, w) | b :: r => (b, w <| w_faults := r |>) end.
Definition pop_select (w : world) : bool * world :=
  match w_selects w with [] => (false, w) | b :: r => (b, w <| w_selects := r |>) end.

(** [Subscribe] and [Close] on a hub. *)
Definition Subscribe (h : Hub) : option (Hub * nat) :=
  if hb_closed h then None
  else let ch := fresh (dom (hb_subs h) ∪ dom (hb_gone h)) in
       Some (h <| hb_subs := <[ch := []]> (hb_subs h) |>, ch).
Definition Close (h : Hub) (ch : nat) : Hub := h <| hb_subs := delete ch (hb_subs h) |>.

(** [broadcast]: a full channel loses the frame, with one warning per hub. *)
Definition full (buf : list string) : bool := (subscriberBuffer <=? length buf)%nat.
Definition broadcast (h : Hub) (frame : string) : Hub :=
  h <| hb_warned := hb_warned h || existsb (fun '(_, b) => full b) (map_to_list (hb_subs h)) |>
    <| hb_subs := (fun b => if full b then b else b ++ [frame]) <$> hb_subs h |>.

(** [finish]: close the channels once and cancel the context. *)
Definition finish (h : Hub) : Hub :=
  if hb_closed h then h
  else h <| hb_closed := true |> <| hb_gone := hb_subs h ∪ hb_gone h |> <| hb_subs := ∅ |>
         <| hb_ctx := true |>.

Definition setTerminal (h : Hub) : Hub := h <| hb_terminal := true |>.

(** What one connection delivers. *)
Inductive conn := OpenError | Body (text : string) (read_err : bool).

Inductive stream_error := EOpenEvents | EStream (e : sse_error persist_error).

Section Consumer.
  Context {PG : Postgres} (decode : string -> option Event).

(** One [PersistEvent] call against the world. *)
Definition persist (w : world) (ev : Event) : world * option persist_error :=
  let '(fault, w) := pop_fault w in
  match PersistEvent fault (w_now w) (w_db w) ev with
  | Ok d => (w <| w_db := d |>, None)
  | Err e => (w, Some e)
  end.

(** [persistTerminalEvent]: the loop with [n] attempts left. *)
Fixpoint persist_terminal (n : nat) (h : Hub) (w : world) (ev : Event) (last : option persist_error)
  : Hub * world * option persist_error :=
  match n with
  | O => (h, w, last)
  | S n =>
      match persist w ev with
      | (w, None) => (h, w, None)
      | (w, Some e) =>
          let '(cancelled, w) := pop_select w in
          if cancelled || hb_ctx h then (h <| hb_ctx := true |>, w, Some e)
          else persist_terminal n h w ev (Some e)
      end
  end.

Definition persistTerminalEvent (h : Hub) (w : world) (ev : Event) :=
  persist_terminal terminalPersistAttempts h w ev None.

Definition handleEvent (h : Hub) (w : world) (ev : Event) (raw : string)
  : Hub * world * option persist_error :=
  let frame := FormatSSEFrame (ev_Type ev) (ev_Seq ev) raw in
  if negb (String.eqb (ev_Type ev) "finished") then
    match persist w ev with
    | (w, Some e) =>
        if String.eqb (ev_Type ev) "timings" || String.eqb (ev_Type ev) "alert"
        then (broadcast h frame, w, None)
        else (h, w, Some e)
    | (w, None) => (broadcast h frame, w, None)
    end
  else
    match persistTerminalEvent h w ev with
    | (h, w, Some e) => (h, w, Some e)
    | (h, w, None) => (finish (broadcast (setTerminal h) frame), w, None)
    end.

(** The callback of [stream]. *)
Definition handle_frame (s : Hub * world) (frame : SSEFrame) : (Hub * world) * option persist_error :=
  let '(h, w) := s in
  if String.eqb (sse_Data frame) "" then (s, None)
  else match decode (sse_Data frame) with
  | None => (s, None)
  | Some ev =>
      match handleEvent h w ev (sse_Data frame) with
      | (h, w, Some e) => ((h, w), Some e)
      | (h, w, None) =>
          ((if hb_lastSeq h <? ev_Seq ev then h <| hb_lastSeq := ev_Seq ev |> else h, w), None)
      end
  end.

Definition stream (c : conn) (s : Hub * world) : (Hub * world) * option stream_error :=
  match c with
  | OpenError => (s, Some EOpenEvents)
  | Body text read_err =>
      let '(s, err) := ParseSSE handle_frame text read_err s in (s, EStream <$> err)
  end.

(** [failServerError]: a failure to write is only logged. *)
Definition failServerError (s : Hub * world) : Hub * world :=
  let '(h, w) := s in
  let '(fault, w) := pop_fault w in
  (h, w <| w_db := or_unchanged (w_db w) (MarkCommitServerError fault (w_now w) (w_db w) (hb_commit h)) |>).

(** The loop of [run]: [n] attempts left, [attempt] is the current one. *)
Fixpoint run_loop (server : Z -> Z -> conn) (n : nat) (attempt : Z) (s : Hub * world) : Hub * world :=
  match n with
  | O => failServerError s
  | S n =>
      let '(s, err) := stream (server attempt (hb_lastSeq (fst s))) s in
      if hb_terminal (fst s) || hb_ctx (fst s) then s
      else match err with
      | None => failServerError s
      | Some _ =>
          let '(cancelled, w) := pop_select (snd s) in
          if cancelled then ((fst s) <| hb_ctx := true |>, w)
          else run_loop server n (attempt + 1) (fst s, w)
      end
  end.

Definition run (server : Z -> Z -> conn) (s : Hub * world) : Hub * world :=
  let '(h, w) := run_loop server maxStreamAttempts 1 s in (finish h, w).
End Consumer.

(** * Lemmas *)

(** A property every call of the handler preserves holds after parsing. *)
Lemma parse_pieces_inv {S E} (handle : S -> SSEFrame -> S * option E) (P : S -> Prop) :
  (forall s f, P s -> P (fst (handle s f))) ->
  forall pieces e s ev id data, P s -> P (fst (parse_pieces handle pieces e s ev id data)).
Proof.
  intros Hh. assert (Hflush : forall s ev id data, P s -> P (fst (flush handle s ev id data))).
  { intros s ev id data Hs. unfold flush. case_match; [done|]. by apply Hh. }
  induction pieces as [|piece r IH]; intros e s ev id data Hs; cbn [parse_pieces].
  - destruct e; [done|]. specialize (Hflush s ev id data Hs). by destruct (flush _ _ _ _ _).
  - case_match; [done|]. case_match.
    + specialize (Hflush s ev id data Hs). destruct (flush _ _ _ _ _) as [s' [err|]]; [done|]. by apply IH.
    + repeat (case_match; [by apply IH|]). by apply IH.
Qed.

Section Settles.
  Context {PG : Postgres} (decode : string -> option Event) (c : Z).

(** A healthy run of commit [c]: no statement fails, nothing is cancelled from
    outside, the commit exists, and a hub that is terminal, or whose context is
    done, has stored a final status. *)
Record healthy (s : Hub * world) : Prop := {
  he_commit : hb_commit (fst s) = c;
  he_faults : w_faults (snd s) = [];
  he_selects : Forall (fun b => b = false) (w_selects (snd s));
  he_row : is_Some (db_commits (w_db (snd s)) !! c);
  he_ctx : hb_ctx (fst s) = true -> hb_terminal (fst s) = true;
  he_settled : hb_terminal (fst s) = true -> settled (w_db (snd s)) c
}.

(** What the judge sends: events of this commit, and final statuses in [finished]. *)
Definition faithful : Prop := forall data ev, decode data = Some ev ->
  ev_CommitID ev = c /\
  (ev_Type ev = "finished" -> IsTerminalStatus (ev_Status ev) = true).

Lemma persist_row fault now d ev d' :
  PersistEvent fault now d ev = Ok d' -> is_Some (db_commits d !! c) -> is_Some (db_commits d' !! c).
Proof.
  assert (Hu : forall d id f, is_Some (db_commits d !! c) -> is_Some (db_commits (update_commit d id f) !! c)).
  { intros d0 id f [r Hr]. cbn. destruct (decide (id = c)) as [->|].
    - rewrite lookup_alter_eq, Hr. cbn. eauto.
    - rewrite lookup_alter_ne by done. eauto. }
  intros H Hr. unfold PersistEvent, persistStatus, persistCompilation, persistCaseResult,
    persistTimings, persistAlert, persistFinished, persistArtifact, alerts_insert in H.
  repeat match type of H with
  | (if String.eqb (ev_Type ev) ?s then _ else _) = _ => destruct (String.eqb (ev_Type ev) s)
  end; persist_inv; try done; try (by apply Hu).
  apply (timing_rows_frame _ c) in H as (_ & -> & _). done.
Qed.

Lemma persist_finished_settles fault now d ev d' :
  PersistEvent fault now d ev = Ok d' -> ev_Type ev = "finished" -> ev_CommitID ev = c ->
  IsTerminalStatus (ev_Status ev) = true -> is_Some (db_commits d !! c) -> settled d' c.
Proof.
  intros H Ht <- Hs [r Hr]. unfold PersistEvent in H. rewrite Ht in H. cbn in H.
  unfold persistFinished in H. destruct (String.eqb (ev_Status ev) ""); [done|].
  repeat (apply res_bind_ok in H as (? & _ & H)).
  destruct (pg_numeric 2 _); [|done].
  apply res_bind_ok in H as (? & _ & H). apply (inj Ok) in H as <-.
  unfold settled. cbn [update_commit db_commits rset]. unfold update_commit, rset at 1. cbn [db_commits].
  rewrite lookup_alter_eq, Hr. cbn [fmap option_fmap option_map].
  destruct (nonTerminalGuard r) eqn:Eg; eexists; (split; [reflexivity|]); [done|].
  unfold nonTerminalGuard in Eg. by apply negb_false_iff in Eg.
Qed.

Context (Hf : faithful).

(** A healthy database accepts or rejects, and a rejection changes nothing. *)
Lemma persist_healthy h w ev w' err :
  healthy (h, w) -> ev_CommitID ev = c -> persist w ev = (w', err) ->
  healthy (h, w') /\
  (err = None -> ev_Type ev = "finished" -> IsTerminalStatus (ev_Status ev) = true -> settled (w_db w') c).
Proof.
  intros [Hc Hfa Hse Hro Hct Hst] He. cbn [fst snd] in *. unfold persist, pop_fault. rewrite Hfa.
  destruct (PersistEvent false (w_now w) (w_db w) ev) as [d|] eqn:E; intros [= <- <-].
  - split; [constructor; cbn; try done|]; [by eapply persist_row| |].
    + intros Ht. eapply same_run_settled; [|by apply Hst]. by eapply persist_settled; [apply Hst|].
    + intros _ Ht Hs. by eapply persist_finished_settles.
  - split; [by constructor|done].
Qed.

Lemma healthy_hub h h' w :
  healthy (h, w) -> hb_commit h' = hb_commit h ->
  (hb_ctx h' = true -> hb_terminal h' = true) ->
  (hb_terminal h' = true -> settled (w_db w) c) -> healthy (h', w).
Proof. intros [] ? ? ?. constructor; cbn in *; [congruence|done..]. Qed.

Lemma pop_select_healthy h w b w' : healthy (h, w) -> pop_select w = (b, w') -> b = false /\ healthy (h, w').
Proof.
  intros Hh. unfold pop_select. destruct (w_selects w) as [|x r] eqn:E; intros [= <- <-]; [done|].
  pose proof (he_selects _ Hh) as Hs. cbn in Hs. rewrite E in Hs. inversion Hs; subst.
  split; [done|]. destruct Hh. by constructor.
Qed.

Lemma persist_terminal_healthy n h w ev last h' w' err :
  healthy (h, w) -> ev_CommitID ev = c -> ev_Type ev = "finished" ->
  IsTerminalStatus (ev_Status ev) = true -> (n = O -> last <> None) ->
  persist_terminal n h w ev last = (h', w', err) ->
  healthy (h', w') /\ (err = None -> settled (w_db w') c).
Proof.
  intros Hh He Ht Hs. revert w last Hh. induction n as [|n IH]; intros w last Hh Hl; cbn.
  { intros [= <- <- <-]. split; [done|]. by intros ->; destruct Hl. }
  destruct (persist w ev) as [w1 err1] eqn:E.
  destruct (persist_healthy _ _ _ _ _ Hh He E) as [Hh1 Hok].
  destruct err1 as [e|]; [|intros [= <- <- <-]; auto].
  destruct (pop_select w1) as [b w2] eqn:Es.
  destruct (pop_select_healthy _ _ _ _ Hh1 Es) as [-> Hh2]. cbn [orb].
  destruct (hb_ctx h) eqn:Hx; [|by apply IH].
  intros [= <- <- <-]. split; [|done].
  eapply healthy_hub; [exact Hh2|done|intros _; by apply (he_ctx _ Hh2)|apply Hh2].
Qed.

Lemma handleEvent_healthy h w ev raw h' w' err :
  healthy (h, w) -> ev_CommitID ev = c ->
  (ev_Type ev = "finished" -> IsTerminalStatus (ev_Status ev) = true) ->
  handleEvent h w ev raw = (h', w', err) -> healthy (h', w').
Proof.
  intros Hh He Hs. unfold handleEvent. destruct (String.eqb_spec (ev_Type ev) "finished") as [Ht|Ht]; cbn [negb].
  - destruct (persistTerminalEvent h w ev) as [[h1 w1] err1] eqn:E.
    apply persist_terminal_healthy in E as [Hh1 Hok]; [|by auto..].
    destruct err1 as [e|]; intros [= <- <- <-]; [done|].
    unfold finish. destruct (hb_closed _); (eapply healthy_hub; [exact Hh1|done|done|auto]).
  - destruct (persist w ev) as [w1 err1] eqn:E.
    destruct (persist_healthy _ _ _ _ _ Hh He E) as [Hh1 _].
    destruct err1 as [e|]; [destruct (_ || _)|]; intros [= <- <- <-]; try done;
      (eapply healthy_hub; [exact Hh1|done|apply Hh1|apply Hh1]).
Qed.

Lemma handle_frame_healthy s f : healthy s -> healthy (fst (handle_frame decode s f)).
Proof.
  destruct s as [h w]. intros Hh. unfold handle_frame.
  destruct (String.eqb (sse_Data f) ""); [done|].
  destruct (decode (sse_Data f)) as [ev|] eqn:Ed; [|done].
  destruct (Hf _ _ Ed) as [He Hs].
  destruct (handleEvent h w ev (sse_Data f)) as [[h1 w1] [e|]] eqn:E; cbn [fst];
    apply handleEvent_healthy in E; try done.
  destruct (hb_lastSeq h1 <? ev_Seq ev); [|done].
  eapply healthy_hub; [exact E|done|apply E|apply E].
Qed.

Lemma stream_healthy k s s' err : healthy s -> stream decode k s = (s', err) -> healthy s'.
Proof.
  intros Hh. destruct k as [|text e]; cbn; [by intros [= <- <-]|].
  pose proof (parse_pieces_inv (handle_frame decode) healthy handle_frame_healthy
    (scan_pieces text) (if e then Some ERead else None) s "" "" "" Hh) as H.
  unfold ParseSSE. destruct (parse_pieces _ _ _ _ _ _ _) as [s1 err1]. by intros [= <- <-].
Qed.

Lemma failServerError_settles s : healthy s -> settled (w_db (snd (failServerError s))) c.
Proof.
  destruct s as [h w]. intros [Hc Hfa _ [r Hr] _ _]. cbn in *. unfold pop_fault. rewrite Hfa. cbn.
  rewrite Hc. unfold settled. unfold update_commit. cbn. rewrite lookup_alter_eq, Hr. cbn.
  destruct (nonTerminalGuard r) eqn:Eg; eexists; (split; [reflexivity|]); [done|].
  unfold nonTerminalGuard in Eg. by apply negb_false_iff in Eg.
Qed.

Lemma run_loop_settles server n attempt s :
  healthy s -> settled (w_db (snd (run_loop decode server n attempt s))) c.
Proof.
  revert attempt s. induction n as [|n IH]; intros attempt s Hh; cbn [run_loop].
  { by apply failServerError_settles. }
  destruct (stream decode _ s) as [s1 err] eqn:E. apply stream_healthy in E; [|done].
  destruct (hb_terminal (fst s1)) eqn:Et; [by apply E|].
  destruct (hb_ctx (fst s1)) eqn:Ex; [apply (he_ctx _ E) in Ex; congruence|]. cbn [orb].
  destruct err as [e|]; [|by apply failServerError_settles].
  destruct s1 as [h1 w1]. cbn [fst snd]. destruct (pop_select w1) as [b w2] eqn:Es.
  destruct (pop_select_healthy _ _ _ _ E Es) as [-> E2]. by apply IH.
Qed.
End Settles.

(** * Properties *)


Definition no_events : string -> option Event := fun _ => None.

