(* ===== verification/EndToEnd.v ===== *)
(** * From the judge's event log to the stored result

    The judge's replayable log ([JudgeEvents]), the stream it is sent over
    ([Stream]) and the backend's consumer ([BackendHub]) together: which events a
    reconnection replays, and what becomes of a run when an event cannot be
    stored or the stream ends early. *)

From S2P Require Import Prelude GoStrings Float64 JudgeModel JudgeConfig Cmp Grading.
From S2P Require Import Json JudgeEvents JudgeApi Sse Stream CommitDb BackendHub.
Local Open Scope Z_scope.

Section Cursor.
  Context {PG : Postgres} (decode : string -> option Event).

(** The sequence number of an event is the one of its frame. *)
Definition numbered (f : Frame) : Prop :=
  forall ev, decode (fr_Data f) = Some ev -> ev_Seq ev = fr_Seq f.

Lemma persist_terminal_lastSeq n h w ev last h' w' err :
  persist_terminal n h w ev last = (h', w', err) -> hb_lastSeq h' = hb_lastSeq h.
Proof.
  revert w last. induction n as [|n IH]; intros w last; cbn; [by intros [= <- <- <-]|].
  destruct (persist w ev) as [w1 [e|]]; [|by intros [= <- <- <-]].
  destruct (pop_select w1) as [b w2]. destruct (b || hb_ctx h); [by intros [= <- <- <-]|apply IH].
Qed.

Lemma handleEvent_lastSeq h w ev raw h' w' err :
  handleEvent h w ev raw = (h', w', err) -> hb_lastSeq h' = hb_lastSeq h.
Proof.
  unfold handleEvent. destruct (negb _).
  - destruct (persist w ev) as [w1 [e|]]; [destruct (_ || _)|]; by intros [= <- <- <-].
  - destruct (persistTerminalEvent h w ev) as [[h1 w1] [e|]] eqn:E;
      apply persist_terminal_lastSeq in E; intros [= <- <- <-]; [done|].
    unfold finish. by destruct (hb_closed _).
Qed.

(** Handling one frame moves the cursor to it, or stops without moving. *)
Lemma handle_frame_cursor h w f h' w' err :
  numbered f -> fr_Data f <> "" -> hb_lastSeq h < fr_Seq f ->
  handle_frame decode (h, w) (frame_sse f) = ((h', w'), err) ->
  match err with
  | Some _ => hb_lastSeq h' = hb_lastSeq h
  | None => match decode (fr_Data f) with
            | Some _ => hb_lastSeq h' = fr_Seq f
            | None => hb_lastSeq h' = hb_lastSeq h
            end
  end.
Proof.
  intros Hn Hd Hlt. unfold handle_frame. cbn [frame_sse sse_Data].
  rewrite (proj2 (String.eqb_neq _ _)) by done.
  destruct (decode (fr_Data f)) as [ev|] eqn:Ed; [|by intros [= <- <- <-]].
  destruct (handleEvent h w ev (fr_Data f)) as [[h1 w1] [e|]] eqn:E;
    apply handleEvent_lastSeq in E; intros [= <- <- <-]; [done|].
  by rewrite E, (Hn _ Ed), (proj2 (Z.ltb_lt _ _) Hlt).
Qed.

Lemma handle_all_cursor l h w h' w' e :
  Forall numbered l -> Forall (fun f => fr_Data f <> "") l ->
  StronglySorted Z.lt (map fr_Seq l) -> Forall (fun f => hb_lastSeq h < fr_Seq f) l ->
  handle_all (handle_frame decode) (h, w) l = ((h', w'), Some e) ->
  exists pre f post, l = pre ++ f :: post /\ hb_lastSeq h' < fr_Seq f /\
    Forall (fun g => decode (fr_Data g) <> None -> fr_Seq g <= hb_lastSeq h') pre /\
    hb_lastSeq h <= hb_lastSeq h'.
Proof.
  intros Hn Hd Hs Hlt. revert h w Hn Hd Hs Hlt.
  induction l as [|f l IH]; intros h w Hn Hd Hs Hlt; [done|]. cbn [handle_all].
  inversion Hn as [|? ? Hn1 Hn2]; inversion Hd as [|? ? Hd1 Hd2]; inversion Hlt as [|? ? Hl1 Hl2].
  inversion Hs as [|? ? Hs1 Hs2]; subst.
  destruct (handle_frame decode (h, w) (frame_sse f)) as [[h1 w1] err] eqn:E.
  apply handle_frame_cursor in E; [|done..]. destruct err as [x|].
  - intros [= <- <- <-]. exists [], f, l. rewrite E. split_and!; [done|done|constructor|lia].
  - assert (Hle : hb_lastSeq h <= hb_lastSeq h1) by (destruct (decode (fr_Data f)); lia).
    intros H. eapply IH in H as (pre & g & post & -> & H1 & H2 & H3); try done.
    + exists (f :: pre), g, post. split_and!; [done|done| |lia]. constructor; [|done].
      intros Hsome. destruct (decode (fr_Data f)); [lia|done].
    + apply Forall_forall. intros g Hg. rewrite Forall_forall in Hl2.
      specialize (Hl2 g Hg). rewrite Forall_forall in Hs2.
      specialize (Hs2 _ (list_elem_of_fmap_2 fr_Seq _ _ Hg)).
      destruct (decode (fr_Data f)); lia.
Qed.

End Cursor.

(** ** An event the database can never store *)

Section Poison.
  Context {PG : Postgres} (decode : string -> option Event) (c : Z).

Definition live (d : Db) : Prop :=
  exists r, db_commits d !! c = Some r /\ nonTerminalGuard r = true.

Lemma update_live d id f :
  (forall r, nonTerminalGuard r = true -> nonTerminalGuard (f r) = true) ->
  live d -> live (update_commit d id f).
Proof.
  intros Hf (r & Hr & Hg). unfold live. cbn. destruct (decide (id = c)) as [->|].
  - rewrite lookup_alter_eq, Hr. cbn. rewrite Hg. eauto.
  - rewrite lookup_alter_ne by done. eauto.
Qed.

(** Only a [finished] event settles a commit. *)
Lemma persist_live fault now d ev d' :
  PersistEvent fault now d ev = Ok d' -> ev_Type ev <> "finished" -> live d -> live d'.
Proof.
  intros H Hne%String.eqb_neq Hl. unfold PersistEvent in H. rewrite Hne in H.
  destruct (String.eqb (ev_Type ev) "status").
  { destruct (IsTerminalStatus (ev_Status ev)) eqn:Et; [by apply (inj Ok) in H as <-|].
    unfold persistStatus in H. persist_inv. apply update_live; [|done].
    intros r _. exact (f_equal negb Et). }
  unfold persistCompilation, persistCaseResult, persistTimings, persistAlert, persistArtifact,
    alerts_insert in H.
  repeat match type of H with
  | (if String.eqb (ev_Type ev) ?s then _ else _) = _ => destruct (String.eqb (ev_Type ev) s)
  end; persist_inv; try done.
  - by apply update_live.
  - unfold live. by apply (timing_rows_frame _ c) in H as (_ & -> & _).
Qed.

Context (f : Frame) (fev : Event).
Hypothesis Hfd : decode (fr_Data f) = Some fev.
Hypothesis Hft : ev_Type fev = "case_result".
Hypothesis Hnul : count_byte NUL (ev_UserOutput fev) <> 0%nat.
Hypothesis Hf_ne : fr_Data f <> "".

(** The consumer has not got past [f]. *)
Record stuck (s : Hub * world) : Prop := {
  st_commit : hb_commit (fst s) = c;
  st_terminal : hb_terminal (fst s) = false;
  st_ctx : hb_ctx (fst s) = false;
  st_faults : w_faults (snd s) = [];
  st_selects : Forall (fun b => b = false) (w_selects (snd s));
  st_live : live (w_db (snd s));
  st_seq : hb_lastSeq (fst s) < fr_Seq f
}.

(** A frame before [f]: of another kind than [finished]. *)
Definition earlier (g : Frame) : Prop :=
  numbered decode g /\ fr_Seq g < fr_Seq f /\
  forall ev, decode (fr_Data g) = Some ev -> ev_Type ev <> "finished".

Lemma handle_earlier s g : stuck s -> earlier g -> stuck (fst (handle_frame decode s (frame_sse g))).
Proof.
  intros Hs (Hn & Hlt & Hnf). destruct s as [h w]. unfold handle_frame. cbn [frame_sse sse_Data].
  destruct (String.eqb (fr_Data g) ""); [done|].
  destruct (decode (fr_Data g)) as [ev|] eqn:Ed; [|done].
  unfold handleEvent. rewrite (proj2 (String.eqb_neq _ _)) by (by apply Hnf).
  cbn [negb]. destruct Hs as [H1 H2 H3 H4 H5 H6 H7]. cbn [fst snd] in *.
  unfold persist, pop_fault. rewrite H4.
  destruct (PersistEvent false (w_now w) (w_db w) ev) as [d|e] eqn:E.
  - apply persist_live in E; [|by apply Hnf|done].
    destruct (hb_lastSeq _ <? ev_Seq ev) eqn:El; constructor; cbn; try done. by rewrite (Hn _ Ed).
  - destruct (_ || _); cbn [fst]; [|by constructor].
    destruct (hb_lastSeq _ <? ev_Seq ev) eqn:El; constructor; cbn; try done. by rewrite (Hn _ Ed).
Qed.

Lemma handle_poison s : stuck s ->
  exists e, handle_frame decode s (frame_sse f) = (s, Some e).
Proof.
  destruct s as [h w]. intros Hs. unfold handle_frame. cbn [frame_sse sse_Data].
  rewrite (proj2 (String.eqb_neq _ _)) by done. rewrite Hfd. unfold handleEvent. rewrite Hft.
  cbn [negb String.eqb Ascii.eqb Bool.eqb]. unfold persist, pop_fault.
  pose proof (st_faults _ Hs) as Hfa. cbn in Hfa. rewrite Hfa.
  pose proof (nul_output_rejected false (w_now w) (w_db w) fev Hft Hnul) as Hno.
  destruct (PersistEvent false (w_now w) (w_db w) fev) as [d|e]; [done|]. by exists e.
Qed.

Lemma handle_to_poison s pre post :
  stuck s -> Forall earlier pre ->
  exists s' e, handle_all (handle_frame decode) s (pre ++ f :: post) = (s', Some e) /\ stuck s'.
Proof.
  intros Hs Hpre. revert s Hs. induction Hpre as [|g pre Hg _ IH]; intros s Hs; cbn.
  { destruct (handle_poison s Hs) as [e ->]. by exists s, e. }
  pose proof (handle_earlier s g Hs Hg) as Hs'.
  destruct (handle_frame decode s (frame_sse g)) as [s1 [e|]]; [by exists s1, e|]. by apply IH.
Qed.

(** The judge's answer to a request from [from]: its log after that number. *)
Definition replay (log : list Frame) (from : Z) : conn :=
  Body (write_items (map IFrame (filter (fun g => from < fr_Seq g) log))) false.

Lemma item_frames_map l : item_frames (map IFrame l) = l.
Proof. induction l as [|g l IH]; cbn; [done|]. by f_equal. Qed.

Context (pre post : list Frame).
Hypothesis Hread : Forall frame_readable (pre ++ f :: post).
Hypothesis Hpre : Forall earlier pre.

Lemma stream_poison s : stuck s ->
  exists s' e, stream decode (replay (pre ++ f :: post) (hb_lastSeq (fst s))) s = (s', Some e) /\ stuck s'.
Proof.
  intros Hs. unfold stream, replay, ParseSSE.
  assert (Hsub : filter (fun g => hb_lastSeq (fst s) < fr_Seq g) (pre ++ f :: post) =
    filter (fun g => hb_lastSeq (fst s) < fr_Seq g) pre ++
    f :: filter (fun g => hb_lastSeq (fst s) < fr_Seq g) post).
  { rewrite filter_app, filter_cons_True; [done|]. apply Hs. }
  rewrite parse_items.
  - rewrite item_frames_map, Hsub.
    destruct (handle_to_poison s (filter (fun g => hb_lastSeq (fst s) < fr_Seq g) pre)
      (filter (fun g => hb_lastSeq (fst s) < fr_Seq g) post) Hs) as (s' & e & -> & Hs').
    + eapply Forall_sublist; [apply sublist_filter|done].
    + by eexists _, _.
  - rewrite item_frames_map. eapply Forall_sublist; [apply sublist_filter|done].
Qed.

Lemma run_loop_poison n attempt s : stuck s ->
  exists r, db_commits (w_db (snd (run_loop decode (fun _ => replay (pre ++ f :: post)) n attempt s))) !! c
    = Some r /\ co_status r = "server_error".
Proof.
  revert attempt s. induction n as [|n IH]; intros attempt s Hs; cbn [run_loop].
  - destruct s as [h w]. destruct Hs as [Hc _ _ Hfa _ (r & Hr & Hg) _]. cbn [fst snd] in *.
    unfold failServerError, pop_fault. rewrite Hfa, Hc. cbn.
    rewrite lookup_alter_eq, Hr. cbn. rewrite Hg. by eexists.
  - destruct (stream_poison s Hs) as (s' & e & -> & Hs'). rewrite (st_terminal _ Hs'), (st_ctx _ Hs').
    cbn [orb]. destruct s' as [h w]. unfold pop_select. cbn [fst snd].
    destruct (w_selects w) as [|b sel] eqn:Es; [by apply IH|].
    pose proof (st_selects _ Hs') as Hsel. cbn in Hsel. rewrite Es in Hsel. inversion Hsel; subst.
    apply IH. destruct Hs'. by constructor.
Qed.

(** A submission whose output contains a NUL byte cannot be graded: NUL is
    valid UTF-8, so the judge keeps it, but no PostgreSQL text column takes it;
    the consumer retries the same [case_result] on its three connections and the
    commit ends as a server error, whatever the verdict the judge published
    after it. *)
Theorem nul_output_becomes_server_error s (Hs : stuck s) :
  exists r, db_commits (w_db (snd (run decode (fun _ => replay (pre ++ f :: post)) s))) !! c = Some r /\
    co_status r = "server_error".
Proof.
  unfold run. pose proof (run_loop_poison maxStreamAttempts 1 s Hs) as H.
  by destruct (run_loop decode _ maxStreamAttempts 1 s).
Qed.
End Poison.

(** What the judge reports is not always what the database accepts: an output
    that is valid UTF-8 and within the limit is reported byte for byte, so it can
    be stored in a text column exactly when it has no NUL byte. *)
Theorem reported_output_storable s max
    (Hv : utf8_valid s = true) (Hmax : 0 < max) (Hlen : Z.of_nat (String.length s) <= max) :
  readLimited (FRegular s) max = s /\
  (pg_text (readLimited (FRegular s) max) = true <-> no_byte NUL s).
Proof.
  assert (E : readLimited (FRegular s) max = s).
  { unfold readLimited. cbn. rewrite (proj2 (Z.ltb_lt _ _) Hmax). cbn.
    rewrite take_bytes_all by lia. by apply to_valid_utf8_id. }
  rewrite E. split; [done|]. unfold pg_text, no_byte. rewrite Hv. cbn. apply Nat.eqb_eq.
Qed.

(** * Executions *)

(** A decoder for the frames used below: [finished] events are recognised by
    their name, the case result by its test case, everything else is a status. *)
Definition demo_decode (data : string) : option Event :=
  if contains "finished" data
  then Some ((zero_event "finished" 5 0) <| ev_Status := "completed" |> <| ev_Score := "100" |>)
  else if contains "case_result" data
  then Some ((zero_event "case_result" 5 2) <| ev_TestCaseID := 7 |> <| ev_Status := "correct" |>
               <| ev_UserOutput := str1 NUL |>)
  else Some ((zero_event "status" 5 1) <| ev_Status := "running" |>).

Definition nul_frame : Frame := mk_frame 2 NameCaseResult "{case_result}".

Lemma nul_output_becomes_server_error_witness :
  exists r, db_commits (w_db (snd (run (PG := plain_postgres) demo_decode
      (fun _ => replay ([mk_frame 1 NameStatus "{status}"] ++ nul_frame :: [mk_frame 3 NameFinished "{finished}"]))
      (new_hub 5, mk_world demo_db 50 [] [])))) !! 5 = Some r /\ co_status r = "server_error".
Proof.
  eapply (nul_output_becomes_server_error (PG := plain_postgres) demo_decode 5 nul_frame _ eq_refl);
    [reflexivity|discriminate|discriminate| | |].
  - repeat constructor; vm_compute; congruence.
  - repeat constructor; vm_compute; [intros ? [= <-]; reflexivity|intros ? [= <-]; discriminate].
  - constructor; try done. by exists running_row.
Defined.

Lemma reported_output_storable_witness :
  readLimited (FRegular (str1 NUL)) (cfg_MaxOutputFileSize default_config) = str1 NUL.
Proof. apply reported_output_storable; [reflexivity|done|cbn; lia]. Defined.


(** A verdict can be lost although the run succeeded and the judge still
    holds it: a consumer that is slow for two seconds while 64 events wait in its
    channel misses the [finished] frame, the judge closes the channel, the stream
    ends without an error, and the consumer, which reconnects only after an
    error, records a server error; a reconnection would have received the
    verdict from the judge's replay buffer. *)
Theorem stalled_consumer_loses_verdict :
  let '(t0, (_, ch, _)) := subscribe_topic new_topic 0 in
  let '(t, log) := exec (JT := plain_text)
    (map (fun n => demo_status (Z.of_nat n)) (seq 1 64) ++ [demo_finished]) t0 in
  match handleEvents "5" true [] false (repeat TFrame 65) (default (mk_chan [] true []) (t_chans t !! ch)) with
  | Err _ => False
  | Ok (body, _) =>
      map fr_Name (backlog_of t 64) = [NameFinished] /\
      co_status <$> db_commits (w_db (snd (run (PG := plain_postgres) demo_decode
        (fun attempt _ => if attempt =? 1 then Body body false
                          else Body (write_backlog (backlog_of t 64)) false)
        (new_hub 5, mk_world demo_db 50 [] [])))) !! 5 = Some "server_error"
  end.
Proof. vm_compute. by split. Qed.
