(* ===== verification/Language.v ===== *)
(** * Languages and file extensions

    [src/judge/internal/language/language.go]: the table of languages, the index
    from extensions to languages and the deduction of a zip submission's
    language. Go visits a map in an unspecified order; [DeduceFromArchive] takes
    that order as an argument, and its theorem holds for every order. *)

From S2P Require Import Prelude GoStrings.

Record Language := mk_language {
  l_Name : string; l_Extensions : list string; l_Compilable : bool; l_ImageName : string
}.

#[export] Instance Language_eq_dec : EqDecision Language.
Proof. solve_decision. Defined.

Definition DefaultImageFormat := "ghcr.io/runcodes-icmc/runcodes-runner-%s:latest".

(** [fmt.Sprintf(format, name)] for a format whose only verb is one [%s]. *)
Fixpoint sprintf_s (format name : string) : string :=
  match format with
  | String "%" (String "s" r) => name +:+ r
  | String a r => String a (sprintf_s r name)
  | EmptyString => ""
  end.

Definition Image (l : Language) (format : string) : string :=
  sprintf_s (if String.eqb format "" then DefaultImageFormat else format) (l_ImageName l).

Definition StandardExtension (l : Language) : string :=
  match l_Extensions l with [] => "" | e :: _ => e end.

Definition KnownLanguages : list Language := [
  mk_language "C" ["c"; "h"] true "c";
  mk_language "C++" ["cpp"; "cc"; "cxx"; "c++"; "hpp"; "h"] true "cpp";
  mk_language "C#" ["cs"] true "dotnet";
  mk_language "Fortran" ["f"; "f90"; "f95"; "f15"; "f03"] true "fortran";
  mk_language "Golang" ["go"] true "go";
  mk_language "Haskell" ["hs"; "lhs"] true "haskell";
  mk_language "Java" ["java"; "jar"; "class"] true "java";
  mk_language "Octave" ["m"] false "octave";
  mk_language "Pascal" ["pas"; "pp"; "pascal"] true "pascal";
  mk_language "Portugol" ["por"] true "portugol";
  mk_language "Python" ["py"; "py3"; "pyc"] false "python";
  mk_language "R" ["r"] false "r";
  mk_language "Rust" ["rs"] true "rust";
  mk_language "Lua" ["lua"; "lol"; "lu"; "luac"] true "lua";
  mk_language "Julia" ["jl"] false "julia";
  mk_language "Prolog" ["pl"; "pro"; "prolog"] true "prolog";
  mk_language "C (OpenMP)" ["omp.c"; "omp.h"] true "c-omp";
  mk_language "C++ (OpenMP)"
    ["omp.cpp"; "omp.cc"; "omp.cxx"; "omp.c++"; "omp.hpp"; "omp.h"] true "cpp-omp";
  mk_language "C (OpenMP + MPI)" ["mpi.c"; "mpi.h"] true "c-omp-mpi";
  mk_language "C++ (OpenMP + MPI)"
    ["mpi.cpp"; "mpi.cc"; "mpi.cxx"; "mpi.c++"; "mpi.hpp"; "mpi.h"] true "cpp-omp-mpi";
  mk_language "Verilog" ["v"; "vh"] false "verilog";
  mk_language "Zig" ["zig"] true "zig"].

(** A nil pointer marks an ambiguous extension. *)
Notation index := (gmap string (option Language)).

Definition index_extension (lang : Language) (idx : index) (ext : string) : index :=
  match idx !! ext with
  | Some _ => <[ext := None]> idx
  | None => <[ext := Some lang]> idx
  end.

Definition buildIndex (langs : list Language) : index :=
  fold_left (fun idx lang => fold_left (index_extension lang) (l_Extensions lang) idx) langs ∅.

Definition extensionIndex : index := buildIndex KnownLanguages.

Definition isCompound (ext : string) : bool :=
  existsb (String.eqb ext) ["c"; "h"; "cpp"; "cc"; "cxx"; "c++"; "hpp"].

Section Extensions.
  Context {UT : UnicodeTables}.

Definition normalizeExtension (name : string) : string :=
  let ext := trim_prefix "." (to_lower (path_ext name)) in
  if String.eqb ext "" then ""
  else
    let base := trim_suffix (path_ext name) name in
    if isCompound ext && contains "." base then
      let pre := trim_prefix "." (to_lower (path_ext base)) in
      if String.eqb pre "omp" || String.eqb pre "mpi" then pre +:+ "." +:+ ext else ext
    else ext.

Definition FromExtension (ext : string) : option Language :=
  mjoin (extensionIndex !! to_lower ext).

Definition FromFilename (fname : string) : option Language := FromExtension (normalizeExtension fname).

Definition StandardizeExtension (ext : string) : string :=
  let ext := to_lower (trim_prefix "." ext) in
  if String.eqb ext "zip" then "zip"
  else match FromExtension ext with Some lang => StandardExtension lang | None => "" end.

Definition IsCompilable (ext : string) : bool :=
  match FromExtension ext with Some lang => l_Compilable lang | None => false end.

(** The first loop of [DeduceFromArchive]. *)
Definition count_extension (counts : gmap string nat) (name : string) : gmap string nat :=
  let ext := normalizeExtension name in
  if String.eqb ext "" then counts
  else
    let standard := StandardizeExtension ext in
    if String.eqb standard "" then counts
    else <[standard := S (default O (counts !! standard))]> counts.
Definition count_extensions (names : list string) : gmap string nat :=
  fold_left count_extension names ∅.

(** The second loop, over the entries in the order the map yields them. [None]
    is the initial [("", -1)], which any count replaces. *)
Definition better (best : option (string * nat)) (e : string * nat) : option (string * nat) :=
  match best with
  | None => Some e
  | Some (b, n) =>
      if (n <? snd e)%nat || ((snd e =? n)%nat && String.ltb (fst e) b) then Some e else best
  end.

Definition DeduceFromArchive (order : gmap string nat -> list (string * nat)) (names : list string)
  : option string :=
  let counts := count_extensions names in
  if decide (counts = ∅) then None else fst <$> fold_left better (order counts) None.
End Extensions.

(** * Lemmas *)

(** The languages that list an extension, once per occurrence. *)
Definition owners (langs : list Language) (ext : string) : list Language :=
  flat_map (fun l => map (fun _ => l) (filter (fun e => e = ext) (l_Extensions l))) langs.

Definition index_entry (os : list Language) : option (option Language) :=
  match os with [] => None | [l] => Some (Some l) | _ => Some None end.

Lemma index_entry_snoc os l :
  index_entry (os ++ [l]) = match index_entry os with None => Some (Some l) | Some _ => Some None end.
Proof. by destruct os as [|x [|y os]]. Qed.

Lemma index_extensions lang exts idx (os : string -> list Language) :
  (forall ext, idx !! ext = index_entry (os ext)) ->
  forall ext, fold_left (index_extension lang) exts idx !! ext =
    index_entry (os ext ++ map (fun _ => lang) (filter (fun e => e = ext) exts)).
Proof.
  revert idx os. induction exts as [|e exts IH]; intros idx os H ext.
  { cbn. by rewrite app_nil_r. }
  cbn [fold_left]. rewrite (IH _ (fun x => os x ++ map (fun _ => lang) (filter (fun y => y = x) [e]))).
  - rewrite <- app_assoc, <- map_app, <- filter_app. done.
  - intros x. unfold index_extension. rewrite filter_cons. destruct (decide (e = x)) as [<-|Hne].
    + cbn. rewrite index_entry_snoc, <- H. destruct (idx !! e); by rewrite lookup_insert_eq.
    + cbn. rewrite app_nil_r, <- H. destruct (idx !! e); by rewrite lookup_insert_ne.
Qed.

Lemma buildIndex_owners langs ext : buildIndex langs !! ext = index_entry (owners langs ext).
Proof.
  unfold buildIndex. assert (G : forall idx os, (forall x, idx !! x = index_entry (os x)) ->
    fold_left (fun idx lang => fold_left (index_extension lang) (l_Extensions lang) idx) langs idx !! ext =
    index_entry (os ext ++ owners langs ext)).
  { induction langs as [|l langs IH]; intros idx os H; cbn; [by rewrite app_nil_r|].
    rewrite (IH _ (fun x => os x ++ map (fun _ => l) (filter (fun e => e = x) (l_Extensions l)))).
    - unfold owners. cbn. by rewrite <- app_assoc.
    - by apply index_extensions. }
  apply (G ∅ (fun _ => [])). intros x. by rewrite lookup_empty.
Qed.

Lemma owners_elem langs ext l : l ∈ owners langs ext <-> l ∈ langs /\ ext ∈ l_Extensions l.
Proof.
  unfold owners. rewrite list_elem_of_In, in_flat_map. split.
  - intros (x & Hx & (e & <- & He)%in_map_iff). apply list_elem_of_In, list_elem_of_filter in He as [-> He].
    by rewrite list_elem_of_In.
  - intros [Hl He]. exists l. split; [by apply list_elem_of_In|]. apply in_map_iff.
    exists ext. split; [done|]. by apply list_elem_of_In, list_elem_of_filter.
Qed.

Lemma known_owners_nodup :
  forallb (fun l => forallb (fun e => bool_decide (NoDup (owners KnownLanguages e))) (l_Extensions l))
    KnownLanguages = true.
Proof. vm_compute. reflexivity. Qed.

(** No language lists an extension twice, so an extension has one owner exactly
    when one language lists it. *)
Lemma owners_single ext l :
  owners KnownLanguages ext = [l] <->
  l ∈ KnownLanguages /\ ext ∈ l_Extensions l /\
  forall l', l' ∈ KnownLanguages -> ext ∈ l_Extensions l' -> l' = l.
Proof.
  split.
  - intros E. pose proof (owners_elem KnownLanguages ext) as H. rewrite E in H.
    assert (Hl : l ∈ [l]) by set_solver. apply H in Hl as [H1 H2]. split_and!; [done|done|].
    intros l' H3 H4. by apply list_elem_of_singleton, H.
  - intros (Hl & He & Hu).
    assert (Hnd : NoDup (owners KnownLanguages ext)).
    { pose proof known_owners_nodup as Hall. rewrite forallb_forall in Hall.
      specialize (Hall l (proj1 (list_elem_of_In _ _) Hl)). rewrite forallb_forall in Hall.
      specialize (Hall ext (proj1 (list_elem_of_In _ _) He)). by apply bool_decide_eq_true in Hall. }
    assert (Hin : forall x, x ∈ owners KnownLanguages ext <-> x = l).
    { intros x. rewrite owners_elem. naive_solver. }
    destruct (owners KnownLanguages ext) as [|x [|y os]].
    + by destruct (not_elem_of_nil l); apply Hin.
    + f_equal. apply Hin. set_solver.
    + assert (x = l) by (apply Hin; set_solver). assert (y = l) by (apply Hin; set_solver). subst.
      apply NoDup_cons in Hnd as [Hnd _]. set_solver.
Qed.

(** ** The most frequent extension *)

(** [a] is preferred to [b]: more files, or as many and a smaller name. *)
Definition preferred (a b : string * nat) : Prop :=
  snd b < snd a \/ (snd a = snd b /\ str_lt (fst a) (fst b)).

Lemma preferred_trans a b c : preferred a b -> preferred b c -> preferred a c.
Proof.
  unfold preferred. intros [H1|[H1 S1]] [H2|[H2 S2]]; try (left; lia). right. split; [lia|].
  by eapply str_lt_trans.
Qed.

Lemma preferred_irrefl a : ~ preferred a a.
Proof. unfold preferred. intros [H|[_ H]]; [lia|]. by eapply str_lt_irrefl. Qed.

Lemma preferred_total a b : preferred a b \/ a = b \/ preferred b a.
Proof.
  unfold preferred. destruct a as [a n], b as [b m]. cbn.
  destruct (Nat.lt_trichotomy n m) as [?|[->|?]]; [auto| |auto].
  destruct (str_lt_total a b) as [?|[->|?]]; auto.
Qed.

Lemma better_spec b e :
  (preferred e b /\ better (Some b) e = Some e) \/ (~ preferred e b /\ better (Some b) e = Some b).
Proof.
  destruct b as [b n], e as [e m]. unfold better, preferred, str_lt. cbn [fst snd].
  destruct (n <? m) eqn:E1; cbn.
  { apply Nat.ltb_lt in E1. auto. }
  apply Nat.ltb_ge in E1. destruct (m =? n) eqn:E2; cbn.
  - apply Nat.eqb_eq in E2 as ->. destruct (String.ltb e b); [by auto|].
    right. split; [|done]. intros [?|[_ ?]]; [lia|done].
  - apply Nat.eqb_neq in E2. right. split; [|done]. intros [?|[? _]]; lia.
Qed.

(** The loop keeps an entry no other entry is preferred to. *)
Lemma better_fold l b :
  exists m, fold_left better l (Some b) = Some m /\ m ∈ b :: l /\
    forall x, x ∈ b :: l -> x = m \/ preferred m x.
Proof.
  revert b. induction l as [|e l IH]; intros b.
  { exists b. split_and!; [done|set_solver|]. intros x Hx%list_elem_of_singleton. by left. }
  cbn [fold_left]. destruct (better_spec b e) as [[Hp ->]|[Hp ->]].
  - destruct (IH e) as (m & Hm & Hin & Hmax). exists m. split_and!; [done|set_solver|].
    intros x [->|Hx]%elem_of_cons; [|by apply Hmax]. right.
    destruct (Hmax e) as [->|?]; [set_solver|done|by eapply preferred_trans].
  - destruct (IH b) as (m & Hm & Hin & Hmax). exists m. split_and!; [done|set_solver|].
    intros x [->|[->|Hx]%elem_of_cons]%elem_of_cons; [apply Hmax; set_solver| |apply Hmax; set_solver].
    destruct (preferred_total e b) as [?|[->|He]]; [done|apply Hmax; set_solver|].
    destruct (Hmax b) as [<-|?]; [set_solver|by right|right; by eapply preferred_trans].
Qed.

Section Deduce.
  Context {UT : UnicodeTables}.

(** Every counted extension is a non-empty canonical name. *)
Lemma count_extensions_keys names k n :
  count_extensions names !! k = Some n -> exists ext, StandardizeExtension ext = k /\ k <> "".
Proof.
  unfold count_extensions. assert (H0 : forall k n, (∅ : gmap string nat) !! k = Some n ->
    exists ext, StandardizeExtension ext = k /\ k <> "") by (intros ??; by rewrite lookup_empty).
  revert H0. generalize (∅ : gmap string nat). revert k n.
  induction names as [|x names IH]; intros k n m Hm; cbn; [by apply Hm|].
  apply IH. intros k' n'. unfold count_extension.
  destruct (String.eqb (normalizeExtension x) ""); [apply Hm|].
  destruct (String.eqb_spec (StandardizeExtension (normalizeExtension x)) "") as [|Hne]; [apply Hm|].
  destruct (decide (StandardizeExtension (normalizeExtension x) = k')) as [<-|Hk].
  - intros _. by eexists.
  - rewrite lookup_insert_ne by done. apply Hm.
Qed.

(** * Properties *)

(** An extension denotes a language exactly when that language is the only
    one that lists it (compared in lower case): an extension listed by two
    languages, such as [h], denotes none, and the order of the table does not
    matter. *)
Theorem extension_denotes_unique_owner ext l :
  FromExtension ext = Some l <->
  l ∈ KnownLanguages /\ to_lower ext ∈ l_Extensions l /\
  forall l', l' ∈ KnownLanguages -> to_lower ext ∈ l_Extensions l' -> l' = l.
Proof.
  rewrite <- owners_single. unfold FromExtension, extensionIndex. rewrite buildIndex_owners.
  destruct (owners KnownLanguages (to_lower ext)) as [|x [|y os]]; cbn; naive_solver.
Qed.

(** The language deduced from an archive does not depend on the order in
    which Go walks its map of counts: it is the canonical extension with the most
    files, the smallest in byte order among those with equally many, and the
    deduction fails exactly when no file has a known extension. *)
Theorem archive_language_order_independent
    (order1 order2 : gmap string nat -> list (string * nat)) names
    (H1 : forall m, order1 m ≡ₚ map_to_list m) (H2 : forall m, order2 m ≡ₚ map_to_list m) :
  DeduceFromArchive order1 names = DeduceFromArchive order2 names /\
  match DeduceFromArchive order1 names with
  | None => count_extensions names = ∅
  | Some best =>
      exists n, count_extensions names !! best = Some n /\
        forall ext m, count_extensions names !! ext = Some m ->
          m < n \/ (m = n /\ (ext = best \/ str_lt best ext))
  end.
Proof.
  assert (Hone : forall order, (forall m : gmap string nat, order m ≡ₚ map_to_list m) ->
    count_extensions names <> ∅ ->
    exists best n, DeduceFromArchive order names = Some best /\ count_extensions names !! best = Some n /\
      forall ext m, count_extensions names !! ext = Some m -> (ext, m) = (best, n) \/ preferred (best, n) (ext, m)).
  { intros order Ho Hne. unfold DeduceFromArchive. rewrite decide_False by done.
    assert (Hel : forall k n, (k, n) ∈ order (count_extensions names) <-> count_extensions names !! k = Some n).
    { intros k n. rewrite (Ho _). apply elem_of_map_to_list. }
    destruct (order (count_extensions names)) as [|b l] eqn:El.
    { destruct Hne. apply map_eq. intros k. rewrite lookup_empty.
      destruct (count_extensions names !! k) as [n|] eqn:E; [|done]. apply Hel in E. by inversion E. }
    destruct (better_fold l b) as ([best n] & Hm & Hin & Hmax). exists best, n. cbn [fold_left better].
    rewrite Hm. split_and!; [done|by apply Hel|]. intros ext m E. by apply Hmax, Hel. }
  destruct (decide (count_extensions names = ∅)) as [He|Hne].
  { unfold DeduceFromArchive. by rewrite !decide_True. }
  destruct (Hone order1 H1 Hne) as (b1 & n1 & -> & L1 & M1).
  destruct (Hone order2 H2 Hne) as (b2 & n2 & -> & L2 & M2). split.
  - destruct (M1 _ _ L2) as [|P1]; [congruence|]. destruct (M2 _ _ L1) as [|P2]; [congruence|].
    destruct (preferred_irrefl (b1, n1)). by eapply preferred_trans.
  - exists n1. split; [done|]. intros ext m [[= -> ->]|[?|[? ?]]]%M1; cbn in *; auto.
Qed.
Lemma FromExtension_known ext l : FromExtension ext = Some l -> l ∈ KnownLanguages.
Proof.
  unfold FromExtension, extensionIndex. rewrite buildIndex_owners. intros H.
  apply (owners_elem KnownLanguages (to_lower ext) l).
  destruct (owners KnownLanguages (to_lower ext)) as [|x [|y os]]; cbn in H; simplify_eq. set_solver.
Qed.

Lemma known_standard :
  forallb (fun l => String.eqb (StandardizeExtension (StandardExtension l)) (StandardExtension l))
    KnownLanguages = true.
Proof. vm_compute. reflexivity. Qed.

(** Canonical extensions are fixed points: standardizing an extension twice
    is standardizing it once, and the result is either empty, [zip], or the
    canonical extension of a known language. *)
Theorem standardize_idempotent ext :
  StandardizeExtension (StandardizeExtension ext) = StandardizeExtension ext /\
  (StandardizeExtension ext = "" \/ StandardizeExtension ext = "zip" \/
   exists l, l ∈ KnownLanguages /\ StandardizeExtension ext = StandardExtension l).
Proof.
  unfold StandardizeExtension at 2 3 4 5 6.
  destruct (String.eqb _ "zip"); [by auto|].
  destruct (FromExtension _) as [l|] eqn:E; [|by auto].
  apply FromExtension_known in E as Hl. split; [|eauto].
  pose proof known_standard as H. rewrite forallb_forall in H.
  by apply String.eqb_eq, H, list_elem_of_In.
Qed.
End Deduce.

Lemma archive_language_order_independent_witness :
  DeduceFromArchive (UT := ascii_tables) (fun m => map_to_list m) ["a.py"; "b.c"; "c.c"; "d.py"; "e.txt"] = Some "c" /\
  DeduceFromArchive (UT := ascii_tables) (fun m => reverse (map_to_list m)) ["a.py"; "b.c"; "c.c"; "d.py"; "e.txt"] = Some "c".
Proof.
  destruct (archive_language_order_independent (UT := ascii_tables) (fun m => map_to_list m)
    (fun m => reverse (map_to_list m)) ["a.py"; "b.c"; "c.c"; "d.py"; "e.txt"]) as [H _].
  - done.
  - intros m. apply reverse_Permutation.
  - assert (E : DeduceFromArchive (UT := ascii_tables) (fun m => map_to_list m)
      ["a.py"; "b.c"; "c.c"; "d.py"; "e.txt"] = Some "c") by (vm_compute; reflexivity).
    split; [exact E|]. rewrite <- H. exact E.
Defined.
