(* ===== verification/Queue.v ===== *)
(** * The durable queue and the worker pool

    [src/judge/internal/store/store.go] ([Claim], [markTerminal]) and
    [src/judge/internal/worker/pool.go]. A claim is a transaction: it locks the
    oldest queued row that nobody holds (FOR UPDATE SKIP LOCKED), decides what to
    write and commits, or rolls back on an error. Several workers, of one judge or
    of several, interleave: [sys_step] is one database-visible step of any of
    them, or of the backend. *)

From S2P Require Import Prelude GoStrings Float64 JudgeModel.
From Stdlib Require Import QArith.
Local Open Scope Z_scope.

(** ** Tables *)

Record QRow := mk_qrow {
  q_status : string;
  q_user : option Z;
  q_exercise : Z;
  q_s3 : option string;
  q_created : Z;
  q_started : option Z
}.
#[export] Instance QRow_eta : Settable QRow := fun r =>
  mk_qrow (q_status r) (q_user r) (q_exercise r) (q_s3 r) (q_created r) (q_started r).

(** An exercise: whether it is a ghost, and the exercise it stands for. *)
Record Exercise := mk_exercise { e_ghost : bool; e_real : option Z }.

Record QDb := mk_qdb { q_commits : gmap Z QRow; q_exercises : gmap Z Exercise }.
#[export] Instance QDb_eta : Settable QDb := fun d => mk_qdb (q_commits d) (q_exercises d).

Definition queued (r : QRow) : bool := String.eqb (q_status r) "queued".

(** [SELECT ... WHERE status = 'queued' ORDER BY created_at FOR UPDATE SKIP LOCKED
    LIMIT 1]: what the database may answer. *)
Definition selectable (d : QDb) (locked : gset Z) (id : Z) : Prop :=
  id ∉ locked /\ exists r, q_commits d !! id = Some r /\ queued r = true.

Definition select_queued (d : QDb) (locked : gset Z) (answer : option Z) : Prop :=
  match answer with
  | None => forall id, ~ selectable d locked id
  | Some id =>
      selectable d locked id /\
      forall id' r r', q_commits d !! id = Some r -> q_commits d !! id' = Some r' ->
        selectable d locked id' -> q_created r <= q_created r'
  end.

(** ** The claim *)

Inductive claim_result := ClaimEmpty | ClaimError | Claimed (c : Commit).

(** Which of the transaction's later statements fail. *)
Record claim_faults := mk_faults {
  f_update : bool; f_exercise : bool; f_terminal : bool; f_commit : bool
}.
Definition no_faults : claim_faults := mk_faults false false false false.

(** [markTerminal]: settle the row inside the claim transaction. *)
Definition markTerminal (f : claim_faults) (r : QRow) : claim_result * option QRow :=
  if f_terminal f || f_commit f then (ClaimError, None)
  else (ClaimEmpty, Some (r <| q_status := "server_error" |>)).

(** [time.Duration(seconds * float64(time.Second))], clamped at zero. *)
Definition queue_wait (seconds : float64) : Z :=
  match fmul seconds (float_of_Z 1000000000) with
  | Fin q => Z.max 0 (Z.quot (Qnum q) (Zpos (Qden q)))
  | _ => 0
  end.

Definition real_exercise (id : Z) (e : Exercise) : Z :=
  if e_ghost e then default id (e_real e) else id.

(** [Claim] after the row is locked: the result and, when the transaction commits,
    the row it writes. [wait] is the queue time the database computed. *)
Definition claim_row (f : claim_faults) (now : Z) (wait : option float64) (d : QDb) (id : Z) (r : QRow)
  : claim_result * option QRow :=
  match q_s3 r with
  | None => markTerminal f r
  | Some key =>
      if String.eqb key "" then markTerminal f r
      else if f_update f then (ClaimError, None)
      else
        let r' := r <| q_status := "compiling" |> <| q_started := Some now |> in
        if f_exercise f then (ClaimError, None)
        else match q_exercises d !! q_exercise r with
        | None => markTerminal f r'
        | Some e =>
            if f_commit f then (ClaimError, None)
            else (Claimed (mk_commit id (default 0 (q_user r)) (q_exercise r)
                    (real_exercise (q_exercise r) e) key
                    (match wait with Some w => queue_wait w | None => 0 end)
                    (match wait with Some _ => true | None => false end)), Some r')
        end
  end.

(** ** Interleaved claims *)

(** [sy_open] maps a worker to the row its open transaction has locked;
    [sy_claims] lists the commits handed to processors, oldest first. *)
Record sys := mk_sys { sy_db : QDb; sy_open : gmap nat Z; sy_claims : list Commit }.
#[export] Instance sys_eta : Settable sys := fun s => mk_sys (sy_db s) (sy_open s) (sy_claims s).

Definition locked (s : sys) : gset Z := list_to_set (map snd (map_to_list (sy_open s))).

Definition write_row (d : QDb) (id : Z) (w : option QRow) : QDb :=
  match w with None => d | Some r => d <| q_commits := <[id := r]> (q_commits d) |> end.

Inductive sys_step (s : sys) : sys -> Prop :=
| StepSelect w id :
    sy_open s !! w = None -> select_queued (sy_db s) (locked s) (Some id) ->
    sys_step s (s <| sy_open := <[w := id]> (sy_open s) |>)
| StepFinish w id r f now wait res row :
    sy_open s !! w = Some id -> q_commits (sy_db s) !! id = Some r ->
    claim_row f now wait (sy_db s) id r = (res, row) ->
    sys_step s (mk_sys (write_row (sy_db s) id row) (delete w (sy_open s))
                  (match res with Claimed c => sy_claims s ++ [c] | _ => sy_claims s end))
| StepSubmit id r :
    q_commits (sy_db s) !! id = None ->
    sys_step s (s <| sy_db := write_row (sy_db s) id (Some r) |>)
| StepUpdate id r r' :
    q_commits (sy_db s) !! id = Some r -> id ∉ locked s ->
    (queued r' = true -> queued r = true) ->
    sys_step s (s <| sy_db := write_row (sy_db s) id (Some r') |>).

(** ** The worker pool *)

(** [p_inflight] counts the semaphore's slots; [p_wake] is the one-slot channel. *)
Record Pool := mk_pool { p_concurrency : nat; p_inflight : nat; p_wake : bool }.
#[export] Instance Pool_eta : Settable Pool := fun p =>
  mk_pool (p_concurrency p) (p_inflight p) (p_wake p).

Definition Wake (p : Pool) : Pool := p <| p_wake := true |>.

(** [drain] against the answers [Claim] will give: the pool, and the answers it
    did not ask for. *)
Fixpoint drain (p : Pool) (answers : list claim_result) : Pool * list claim_result :=
  if (p_inflight p <? p_concurrency p)%nat then
    match answers with
    | Claimed c :: r => drain (p <| p_inflight := S (p_inflight p) |>) r
    | _ :: r => (p, r)
    | [] => (p, [])
    end
  else (p, answers).

(** One turn of [Run]: a wake-up or a tick, a run that ends, or a call of [Wake]. *)
Inductive pool_event := PoolTick (answers : list claim_result) | PoolDone | PoolWake.

Definition pool_step (p : Pool) (e : pool_event) : Pool :=
  match e with
  | PoolTick answers => fst (drain (p <| p_wake := false |>) answers)
  | PoolDone => p <| p_inflight := pred (p_inflight p) |>
  | PoolWake => Wake p
  end.

(** * Lemmas *)

Lemma locked_elem s id : id ∈ locked s <-> exists w, sy_open s !! w = Some id.
Proof.
  unfold locked. rewrite elem_of_list_to_set. split.
  - intros ([w i] & -> & H)%list_elem_of_fmap. exists w. by apply elem_of_map_to_list.
  - intros [w H%elem_of_map_to_list]. by apply (list_elem_of_fmap_2 snd) in H.
Qed.

(** A committed claim takes the row out of the queue. *)
Lemma claim_row_leaves_queue f now wait d id r res r' :
  claim_row f now wait d id r = (res, Some r') -> queued r' = false.
Proof.
  unfold claim_row, markTerminal. intros H.
  repeat (case_match; simplify_eq; try done).
Qed.

Lemma claim_row_claimed f now wait d id r c row :
  claim_row f now wait d id r = (Claimed c, row) -> c_ID c = id /\ is_Some row.
Proof.
  unfold claim_row, markTerminal. intros H.
  repeat (case_match; simplify_eq; try done).
Qed.

(** No row is handed out twice, locked by two workers, or handed out and still
    queued. *)
Record sys_inv (s : sys) : Prop := {
  si_nodup : NoDup (map c_ID (sy_claims s));
  si_claimed c : c ∈ sy_claims s -> exists r, q_commits (sy_db s) !! c_ID c = Some r /\ queued r = false;
  si_open w id : sy_open s !! w = Some id -> exists r, q_commits (sy_db s) !! id = Some r /\ queued r = true;
  si_locks w1 w2 id : sy_open s !! w1 = Some id -> sy_open s !! w2 = Some id -> w1 = w2
}.

Lemma si_open_write s id r w i :
  sys_inv s -> sy_open s !! w = Some i ->
  (i = id -> queued r = true) ->
  exists r', <[id := r]> (q_commits (sy_db s)) !! i = Some r' /\ queued r' = true.
Proof.
  intros Hi Hw Hq. destruct (decide (id = i)) as [->|].
  - rewrite lookup_insert_eq. eauto.
  - rewrite lookup_insert_ne by done. by apply (si_open _ Hi w).
Qed.

Lemma sys_step_inv s s' : sys_inv s -> sys_step s s' -> sys_inv s'.
Proof.
  intros Hi Hs. pose proof Hi as [Hnd Hcl Hop Hlk]. destruct Hs as
    [w id Hw [[Hnl (r & Hr & Hq)] _]|w id r f now wait res row Hw Hr Hc|id r Hr|id r r' Hr Hnl Hq].
  - constructor; cbn; try done.
    + intros w' i. destruct (decide (w = w')) as [->|]; [rewrite lookup_insert_eq; intros [= <-]; eauto|].
      rewrite lookup_insert_ne by done. apply Hop.
    + intros w1 w2 i. destruct (decide (w = w1)) as [<-|], (decide (w = w2)) as [<-|];
        rewrite ?lookup_insert_eq, ?lookup_insert_ne by done; try done; [| |apply Hlk];
        [intros [= <-] H|intros H [= <-]]; destruct Hnl; apply locked_elem; eauto.
  - destruct (Hop w id Hw) as (r0 & Hr0 & Hq0). simplify_eq.
    constructor; cbn.
    + destruct res as [| |c]; try done. rewrite map_app. apply NoDup_app. split_and!; [done| |apply NoDup_singleton].
      intros i Hin ->%list_elem_of_singleton. apply list_elem_of_fmap in Hin as (c' & Hid & Hc').
      apply claim_row_claimed in Hc as [Hc _]. destruct (Hcl c' Hc') as (r1 & Hr1 & Hq1). congruence.
    + intros c Hin. assert (Hcase : c ∈ sy_claims s \/ res = Claimed c).
      { destruct res; [by left..|]. apply elem_of_app in Hin as [?| ->%list_elem_of_singleton]; auto. }
      destruct Hcase as [Hold| ->].
      * destruct (Hcl c Hold) as (r1 & Hr1 & Hq1). exists r1. split; [|done].
        assert (id <> c_ID c) by congruence.
        destruct row; cbn; [|done]. by rewrite lookup_insert_ne.
      * pose proof (claim_row_claimed _ _ _ _ _ _ _ _ Hc) as [-> [r1 ->]]. exists r1. cbn.
        rewrite lookup_insert_eq. split; [done|]. by eapply claim_row_leaves_queue.
    + intros w' i [Hne Hw']%lookup_delete_Some. destruct (decide (i = id)) as [->|].
      { destruct Hne. by apply (Hlk w w' id). }
      destruct row as [r1|]; cbn; [|by apply (Hop w')]. rewrite lookup_insert_ne by done. by apply (Hop w').
    + intros w1 w2 i [_ H1]%lookup_delete_Some [_ H2]%lookup_delete_Some. by apply (Hlk w1 w2 i).
  - constructor; cbn; try done.
    + intros c Hin. destruct (Hcl c Hin) as (r1 & Hr1 & Hq1). exists r1. split; [|done].
      rewrite lookup_insert_ne; congruence.
    + intros w' i Hw'. apply (si_open_write s id r w' i Hi Hw'). intros ->.
      destruct (Hop w' id Hw') as (? & ? & _). congruence.
  - constructor; cbn; try done.
    + intros c Hin. destruct (Hcl c Hin) as (r1 & Hr1 & Hq1).
      destruct (decide (id = c_ID c)) as [->|]; [|rewrite lookup_insert_ne by done; eauto].
      exists r'. rewrite lookup_insert_eq. split; [done|]. simplify_eq.
      destruct (queued r'); [|done]. by rewrite Hq in Hq1.
    + intros w' i Hw'. apply (si_open_write s id r' w' i Hi Hw'). intros ->.
      destruct Hnl. apply locked_elem. eauto.
Qed.

(** * Properties *)

(** C8: No submission is graded twice: however many workers, of however many
    judges, claim concurrently, and whatever the backend submits or updates
    meanwhile (it never puts a row back in the queue), the commits handed to
    processors are all different, none of them is still queued, and no row is
    locked by two claims. *)
Theorem no_commit_claimed_twice s s' (Hinit : sy_open s = ∅ /\ sy_claims s = []) (Hs : rtc sys_step s s') :
  NoDup (map c_ID (sy_claims s')) /\
  (forall c, c ∈ sy_claims s' -> exists r, q_commits (sy_db s') !! c_ID c = Some r /\ queued r = false) /\
  (forall w1 w2 id, sy_open s' !! w1 = Some id -> sy_open s' !! w2 = Some id -> w1 = w2).
Proof.
  assert (Hi : sys_inv s).
  { destruct Hinit as [Ho Hc]. constructor; rewrite ?Ho, ?Hc; cbn.
    - constructor.
    - intros c H. by inversion H.
    - intros w id. by rewrite lookup_empty.
    - intros w1 w2 id. by rewrite lookup_empty. }
  assert (Hi' : sys_inv s').
  { clear Hinit. induction Hs as [|s1 s2 s3 H1 _ IH]; [done|]. by eapply IH, sys_step_inv. }
  by destruct Hi'.
Qed.

(** A row that can never be processed does not block the queue: a claim whose
    statements succeed always takes the row it selected out of the queue. The
    commit is handed out, marked [compiling] with its claim time and with the
    exercise a ghost stands for, exactly when it has a source object and its
    exercise exists; otherwise it becomes a server error and nothing is handed
    out. A claim that fails writes nothing. *)
Theorem claim_always_advances_queue f now wait d id r :
  let '(res, row) := claim_row f now wait d id r in
  (f = no_faults -> exists r', row = Some r' /\ queued r' = false) /\
  (res = ClaimError <-> row = None) /\
  (forall c, res = Claimed c <->
     exists key e r', q_s3 r = Some key /\ key <> "" /\ q_exercises d !! q_exercise r = Some e /\
       f_update f = false /\ f_exercise f = false /\ f_commit f = false /\ row = Some r' /\ q_status r' = "compiling" /\ q_started r' = Some now /\
       c = mk_commit id (default 0 (q_user r)) (q_exercise r)
             (if e_ghost e then default (q_exercise r) (e_real e) else q_exercise r) key
             (match wait with Some w => queue_wait w | None => 0 end)
             (match wait with Some _ => true | None => false end)) /\
  (res = ClaimEmpty -> exists r', row = Some r' /\ q_status r' = "server_error" /\
     (q_s3 r = None \/ q_s3 r = Some "" \/ q_exercises d !! q_exercise r = None)).
Proof.
  destruct f as [fu fe ft fc]. unfold claim_row, markTerminal, real_exercise, no_faults.
  cbn [f_update f_exercise f_terminal f_commit].
  destruct (q_s3 r) as [key|] eqn:Ek; [destruct (String.eqb_spec key "") as [->|Hk]|].
  - destruct fu, fe, ft, fc; cbn; naive_solver.
  - destruct fu; [naive_solver|]. destruct fe; [naive_solver|].
    destruct (q_exercises d !! q_exercise r) as [e|] eqn:Ee; cbn; destruct ft, fc; naive_solver.
  - destruct fu, fe, ft, fc; cbn; naive_solver.
Qed.

(** At any moment at most [Concurrency] commits are being processed, whatever
    the order of ticks, wake-ups and finished runs; a poll stops at the first
    claim that yields nothing, and stops asking when every slot is busy. *)
Theorem pool_respects_concurrency p events (H : (p_inflight p <= p_concurrency p)%nat) :
  let p' := fold_left pool_step events p in
  (p_inflight p' <= p_concurrency p')%nat /\ p_concurrency p' = p_concurrency p.
Proof.
  assert (Hd : forall answers p, (p_inflight p <= p_concurrency p)%nat ->
    (p_inflight (fst (drain p answers)) <= p_concurrency p)%nat /\
    p_concurrency (fst (drain p answers)) = p_concurrency p).
  { clear. induction answers as [|a answers IH]; intros p Hp; cbn [drain];
      destruct (p_inflight p <? p_concurrency p)%nat eqn:E; try (by split).
    apply Nat.ltb_lt in E. destruct a; try (by split). exact (IH (mk_pool (p_concurrency p) (S (p_inflight p)) (p_wake p)) E). }
  revert p H. induction events as [|e events IH]; intros p H; cbn; [by split|].
  destruct (IH (pool_step p e)) as [H1 H2].
  - destruct e as [answers| |]; cbn; [|lia|lia].
    destruct (Hd answers (p <| p_wake := false |>)) as [H3 H4]; [done|]. rewrite H4. exact H3.
  - split; [done|]. rewrite H2. destruct e as [answers| |]; cbn; [|done..].
    by destruct (Hd answers (p <| p_wake := false |>)).
Qed.

(** A poll does not get past a row that cannot be processed: [Claim] settles
    such a row and reports an empty queue, which ends the poll, so a submission
    queued behind it waits for the next poll although slots are free. *)
Theorem unprocessable_row_ends_poll now d id r c p
    (Hbad : q_s3 r = None) (Hfree : (p_inflight p < p_concurrency p)%nat) :
  drain p [fst (claim_row no_faults now None d id r); Claimed c] = (p, [Claimed c]).
Proof.
  unfold claim_row, markTerminal. rewrite Hbad. cbn [no_faults f_terminal f_commit orb fst drain].
  apply Nat.ltb_lt in Hfree. by rewrite Hfree.
Qed.

(** * Executions *)

Definition demo_row : QRow := mk_qrow "queued" (Some 3) 9 (Some "k/a.c") 100 None.
Definition demo_qdb : QDb :=
  mk_qdb {[1 := demo_row; 2 := demo_row <| q_created := 200 |>]} {[9 := mk_exercise true (Some 8)]}.

Lemma no_commit_claimed_twice_witness :
  exists s', rtc sys_step (mk_sys demo_qdb ∅ []) s' /\ NoDup (map c_ID (sy_claims s')) /\
    map c_RealExerciseID (sy_claims s') = [8].
Proof.
  assert (exists s', rtc sys_step (mk_sys demo_qdb ∅ []) s' /\ map c_RealExerciseID (sy_claims s') = [8])
    as (s' & Hs & Hr).
  { eexists. split; [eapply rtc_l; [|apply rtc_once]|].
    - apply (StepSelect _ 0%nat 1); [done|]. cbn. split.
      + split; [done|]. by exists demo_row.
      + intros id' r r' Hr Hr' _. assert (r = demo_row) as -> by (vm_compute in Hr; by injection Hr as <-).
        cbn in Hr'. destruct (decide (id' = 1)) as [->|]; [vm_compute in Hr'; by injection Hr' as <-|].
        rewrite lookup_insert_ne in Hr' by done.
        destruct (decide (id' = 2)) as [->|]; [vm_compute in Hr'; by injection Hr' as <-|].
        by rewrite lookup_singleton_ne in Hr'.
    - by eapply (StepFinish _ 0%nat 1 demo_row no_faults 300 None
        (Claimed (mk_commit 1 3 9 8 "k/a.c" 0 false))).
    - reflexivity. }
  exists s'. split; [exact Hs|]. split; [|exact Hr].
  by apply (no_commit_claimed_twice (mk_sys demo_qdb ∅ []) _ (conj eq_refl eq_refl) Hs).
Defined.

Lemma pool_respects_concurrency_witness :
  p_inflight (fold_left pool_step
    [PoolWake; PoolTick [Claimed (mk_commit 1 0 0 0 "" 0 false); Claimed (mk_commit 2 0 0 0 "" 0 false);
                         Claimed (mk_commit 3 0 0 0 "" 0 false)]; PoolDone] (mk_pool 2 0 false)) = 1%nat /\
  (p_inflight (fold_left pool_step [PoolWake] (mk_pool 2 0 false)) <= 2)%nat.
Proof.
  split; [reflexivity|]. apply (pool_respects_concurrency (mk_pool 2 0 false) [PoolWake]). cbn. lia.
Defined.

Lemma unprocessable_row_ends_poll_witness :
  drain (mk_pool 2 0 false)
    [fst (claim_row no_faults 5 None demo_qdb 1 (demo_row <| q_s3 := None |>));
     Claimed (mk_commit 2 3 9 8 "k/a.c" 0 false)]
  = (mk_pool 2 0 false, [Claimed (mk_commit 2 3 9 8 "k/a.c" 0 false)]).
Proof. apply unprocessable_row_ends_poll; [reflexivity|cbn; lia]. Defined.
