(* ===== verification/Workspace.v ===== *)
(** * Preparing a workspace

    [src/judge/internal/engine/workspace.go], with the downloads of
    [storage/s3.go] it asks for: the run directory of a commit, its language, the
    extraction of an archive and the configuration file the container's harness
    sources. File-system and object-store operations are values, [fs_op]; the state
    records those performed, the paths that exist under the execution directory and
    the phase timings. What an operation answers is the environment's. *)

From S2P Require Import Prelude Effects GoStrings GoPath Float64 JudgeModel JudgeConfig Grading Language.
From Stdlib Require Import QArith.
Local Open Scope Z_scope.

(** ** The outside world *)

(** An entry of an archive: its header, and the bytes its reader yields. *)
Record zip_entry := mk_entry {
  ze_Name : string; ze_IsDir : bool; ze_Symlink : bool; ze_UncompressedSize64 : Z; ze_content : Z
}.

Inductive download :=
| CommitSource (key : string)
| CompilationFile (exercise : Z) (path : string)
| CaseInput (id : Z)
| CaseFile (id : Z) (name : string).

Inductive fs_op :=
| RemoveAll (path : string)
| MkdirWorld (path : string)
| MkdirPrivate (path : string)
| Download (what : download) (path : string)
| OpenEntry (name : string)
| Create (path : string)
| Copy (path : string) (bytes : Z)
| WriteFile (path content : string).

Inductive ws_error :=
| EIO (e : string)
| EArchive (e : string)
| ETooManyEntries
| EEscapes (name : string)
| EFileTooLarge (name : string)
| EArchiveTooLarge
| ENoSource
| EUnsupportedArchive (ext : string)
| EUnsupported (name : string)
| EInvalidName (name : string).

(** Operation number [n] may fail; the archive is opened three times. *)
Record ws_env := mk_wenv {
  we_io : nat -> fs_op -> option string;
  we_archive : nat -> res string (list zip_entry);
  we_order : gmap string nat -> list (string * nat);
  we_nonce : res string string;
  we_compilation_files : res string (list string);
  we_test_cases : res string (list TestCase);
  we_clock : string -> Z * Z * Z
}.

Record W := mk_w {
  w_ops : list fs_op; w_paths : gset string; w_expected : string; w_timings : RunTimings
}.
#[export] Instance W_eta : Settable W := fun s =>
  mk_w (w_ops s) (w_paths s) (w_expected s) (w_timings s).

Abbreviation io := (eff W ws_error).

(** ** The container configuration *)

(** [shellSingleQuote]. *)
Definition shellSingleQuote (s : string) : string := replace_byte "'" "'\''" s.

Definition shellWord (value : string) : res ws_error string :=
  if contains_any (str1 LF +:+ str1 CR +:+ str1 NUL) value then Err (EInvalidName value)
  else Ok (shellSingleQuote value).

(** [int(d.Seconds())]: the whole and fractional seconds added in floating point,
    then truncated. *)
Definition seconds (d : Z) : Z :=
  match fadd (float_of_Z (Z.quot d second)) (fdiv (float_of_Z (Z.rem d second)) (float_of_Z second)) with
  | Fin q => Z.quot (Qnum q) (Zpos (Qden q))
  | _ => 0
  end.

Definition assign (name value : string) : string := name +:+ "=" +:+ value +:+ nl.

Definition case_config (defaultCase : Z) (tc : TestCase) : string :=
  let timeout := if tc_CPUTimeLimit tc <=? 0 then defaultCase else tc_CPUTimeLimit tc in
  assign ("t_" +:+ fmt_int (tc_ID tc)) (fmt_int timeout) +:+
  assign ("ms_" +:+ fmt_int (tc_ID tc)) (fmt_int (tc_MemUsageLimit tc)) +:+
  assign ("fs_" +:+ fmt_int (tc_ID tc)) (fmt_int (tc_FileSizeLimit tc)) +:+
  assign ("stack_" +:+ fmt_int (tc_ID tc)) (fmt_int (tc_StackLimit tc)).

Definition container_config (cfg : Config) (nonce src_file : string) (cases : list TestCase) : string :=
  assign "monitor_max_fs" (fmt_int (cfg_MonitorMaxFileSize cfg)) +:+
  assign "monitor_max_ms" (fmt_int (cfg_MonitorMaxMemSize cfg)) +:+
  assign "compilation_timeout" (fmt_int (seconds (cfg_CompilationTimeout cfg))) +:+
  assign "run_nonce" ("'" +:+ shellSingleQuote nonce +:+ "'") +:+
  assign "src_file" ("'" +:+ src_file +:+ "'") +:+
  fold_right (fun tc s => case_config (seconds (cfg_DefaultCaseTimeout cfg)) tc +:+ s) "" cases.

(** ** Archives *)

Section Workspace.
Context {UT : UnicodeTables} (cfg : Config) (env : ws_env).

(** Perform an operation. Creating the private directory is one call that leaves
    nothing when it fails; any other may leave something behind. *)
Definition created (op : fs_op) (ok : bool) : gset string :=
  match op with
  | MkdirWorld p | Download _ p | Create p | Copy p _ | WriteFile p _ => {[p]}
  | MkdirPrivate p => if ok then {[p]} else ∅
  | RemoveAll _ | OpenEntry _ => ∅
  end.
Definition removed (op : fs_op) (ok : bool) (paths : gset string) : gset string :=
  match op with
  | RemoveAll p => if ok then filter (fun q => ~ below p q) paths else paths
  | _ => paths
  end.

Definition perform (op : fs_op) : io unit := fun s =>
  let err := we_io env (length (w_ops s)) op in
  let ok := match err with None => true | Some _ => false end in
  (s <| w_ops := w_ops s ++ [op] |> <| w_paths := removed op ok (w_paths s) ∪ created op ok |>,
   match err with None => Ok tt | Some e => Err (EIO e) end).

(** A failure that is only logged. *)
Definition ignore (m : io unit) : io unit := fun s => (fst (m s), Ok tt).

Definition mkdirWorld (dir : string) : io unit := perform (MkdirWorld dir).

(** [uint64] of an [int64]. *)
Definition to_uint64 (z : Z) : Z := z mod 2 ^ 64.

(** One entry of [extractZip]; the result is the new running total. *)
Definition extract_entry (dest : string) (maxFileBytes maxTotalBytes total : Z) (f : zip_entry) : io Z :=
  let target := filepath_join dest (path_clean (ze_Name f)) in
  if negb (String.eqb target dest) && negb (has_prefix (dest +:+ "/") target) then fail (EEscapes (ze_Name f))
  else if ze_IsDir f then _ ← mkdirWorld target; mret total
  else if to_uint64 maxFileBytes <? ze_UncompressedSize64 f then fail (EFileTooLarge (ze_Name f))
  else if maxTotalBytes <? wrap64 (total + wrap64 (ze_UncompressedSize64 f)) then fail EArchiveTooLarge
  else
    _ ← mkdirWorld (filepath_dir target);
    _ ← perform (OpenEntry (ze_Name f));
    _ ← perform (Create target);
    let remaining := wrap64 (maxTotalBytes - total) in
    let limit := if remaining <? maxFileBytes then remaining else maxFileBytes in
    let written := Z.max 0 (Z.min (ze_content f) (wrap64 (limit + 1))) in
    _ ← perform (Copy target written);
    if limit <? written then fail (EFileTooLarge (ze_Name f))
    else mret (wrap64 (total + written)).

Fixpoint extract_entries (dest : string) (maxFileBytes maxTotalBytes total : Z) (files : list zip_entry) : io unit :=
  match files with
  | [] => mret tt
  | f :: rest =>
      total ← extract_entry dest maxFileBytes maxTotalBytes total f;
      extract_entries dest maxFileBytes maxTotalBytes total rest
  end.

(** [zip.OpenReader], the [n]-th time. *)
Definition open_archive (n : nat) : io (list zip_entry) :=
  lift (match we_archive env n with Ok l => Ok l | Err e => Err (EArchive e) end).

Definition extractZip (dest : string) (maxFileBytes maxTotalBytes maxEntries : Z) : io unit :=
  files ← open_archive 1;
  if (0 <? maxEntries) && (maxEntries <? Z.of_nat (length files)) then fail ETooManyEntries
  else extract_entries dest maxFileBytes maxTotalBytes 0 files.

(** ** The language of a submission *)

Definition deduceArchiveLanguage : io string :=
  files ← open_archive 0;
  match DeduceFromArchive (we_order env) (map ze_Name files) with
  | Some ext => mret ext
  | None => fail (EArchive "no recognized language in archive")
  end.

(** The name an entry may be compiled under. *)
Definition entry_name (want : Language) (f : zip_entry) : option string :=
  if ze_IsDir f || ze_Symlink f then None
  else
    let name := path_clean (trim_prefix "./" (ze_Name f)) in
    if String.eqb name "." || has_prefix "../" name || has_prefix "/" name then None
    else if contains_any (" " +:+ String "009" (str1 CR +:+ str1 LF)) name then None
    else if bool_decide (FromFilename name = Some want) then Some name else None.

(** The loop's [best] and [bestDepth]; [None] is the empty [best]. *)
Definition best_entry (best : option string) (name : string) : option string :=
  match best with
  | None => Some name
  | Some b =>
      if (depth name <? depth b)%nat || ((depth name =? depth b)%nat && String.ltb name b)
      then Some name else Some b
  end.

Definition best_of (want : Language) (files : list zip_entry) : option string :=
  fold_left (fun best f => match entry_name want f with Some n => best_entry best n | None => best end)
    files None.

Definition archiveEntryPoint (ext : string) : io string :=
  files ← open_archive 2;
  match FromExtension ext with
  | None => fail (EUnsupportedArchive ext)
  | Some want => match best_of want files with Some b => mret b | None => fail ENoSource end
  end.

Record resolved := mk_resolved {
  rs_Language : option Language; rs_Extension : string; rs_Compilable : bool; rs_SourceFile : string
}.

Definition resolveLanguage (sourceDir sourcePath : string) : io resolved :=
  let fname := path_base sourcePath in
  let ext := to_lower (trim_prefix "." (path_ext fname)) in
  '(ext, lang, source) ←
    (if String.eqb ext "zip" then
       ext ← deduceArchiveLanguage;
       _ ← extractZip sourceDir (cfg_MaxExtractFileBytes cfg) (cfg_MaxExtractBytes cfg)
             (cfg_MaxExtractEntries cfg);
       source ← archiveEntryPoint ext;
       mret (ext, FromExtension ext, source)
     else mret (ext, FromFilename fname, ""));
  match lang with
  | None => if negb (String.eqb ext "zip") then fail (EUnsupported fname)
            else mret (mk_resolved lang ext (IsCompilable ext) source)
  | Some _ => mret (mk_resolved lang ext (IsCompilable ext) source)
  end.

(** ** The run directory *)

Definition workspaceName (id : Z) : string := "commit_" +:+ fmt_int id.
Definition expectedName (id : Z) : string := "expected_" +:+ fmt_int id.
Definition baseDir (id : Z) : string := filepath_join (cfg_ExecDir cfg) (workspaceName id).
Definition expectedDir (id : Z) : string := filepath_join (cfg_ExecDir cfg) (expectedName id).
Definition expectedOutputPath (id case : Z) : string :=
  filepath_join (expectedDir id) (fmt_int case +:+ ".out").

Definition prepareExpectedDir (id : Z) : io unit :=
  _ ← perform (RemoveAll (expectedDir id));
  _ ← perform (MkdirPrivate (expectedDir id));
  modify (fun s => s <| w_expected := expectedDir id |>).

(** A phase: its timing is recorded whether or not it fails. *)
Definition measured {A} (phase : string) (m : io A) : io A :=
  finally m (let '(started, since, finished) := we_clock env phase in
             modify (fun s => s <| w_timings := Measure (w_timings s) phase started since finished |>)).

Definition fetchCompilationFiles (sourceDir : string) (exercise : Z) : io unit :=
  paths ← lift (match we_compilation_files env with Ok l => Ok l | Err e => Err (EIO e) end);
  each (fun p => perform (Download (CompilationFile exercise p) (filepath_join sourceDir (path_base p)))) paths.

Definition fetch_case (base : string) (tc : TestCase) : io unit :=
  let inputDest := filepath_join base (fmt_int (tc_ID tc) +:+ ".in") in
  _ ← (if String.eqb (tc_InputType tc) "file" then perform (Download (CaseInput (tc_ID tc)) inputDest)
       else perform (WriteFile inputDest (tc_Input tc)));
  let testDir := filepath_join base ("test_" +:+ fmt_int (tc_ID tc)) in
  _ ← mkdirWorld testDir;
  each (fun name => perform (Download (CaseFile (tc_ID tc) name) (filepath_join testDir (path_base name))))
    (tc_Files tc).

Definition fetchTestCases (base : string) (cases : list TestCase) : io unit := each (fetch_case base) cases.

Definition writeContainerConfig (base nonce sourceName : string) (cases : list TestCase) : io unit :=
  src_file ← lift (shellWord sourceName);
  perform (WriteFile (filepath_join base "container.config") (container_config cfg nonce src_file cases)).

Record prepared := mk_prepared {
  pw_nonce : string; pw_resolved : resolved; pw_cases : list TestCase
}.

Definition prepare_body (commit : Commit) : io prepared :=
  let id := c_ID commit in
  let base := baseDir id in
  _ ← perform (RemoveAll base);
  _ ← mkdirWorld base;
  let srcDir := filepath_join base "src" in
  _ ← mkdirWorld srcDir;
  _ ← prepareExpectedDir id;
  nonce ← lift (match we_nonce env with Ok n => Ok n | Err e => Err (EIO e) end);
  let fname := Filename commit in
  let sourcePath := filepath_join srcDir (path_base fname) in
  _ ← measured PhaseSourceDownload (perform (Download (CommitSource (c_S3Key commit)) sourcePath));
  rs ← measured PhaseSourceResolve (resolveLanguage srcDir sourcePath);
  _ ← measured PhaseCompilationFiles (fetchCompilationFiles srcDir (c_RealExerciseID commit));
  cases ← measured PhaseTestCases (lift (match we_test_cases env with Ok l => Ok l | Err e => Err (EIO e) end));
  _ ← measured PhaseTestCaseFiles (fetchTestCases base cases);
  let sourceName := if String.eqb (rs_SourceFile rs) "" then fname else rs_SourceFile rs in
  _ ← measured PhaseContainerConfig (writeContainerConfig base nonce sourceName cases);
  mret (mk_prepared nonce rs cases).

(** The deferred cleanup of a failed preparation. *)
Definition prepare_cleanup (id : Z) : io unit :=
  _ ← ignore (perform (RemoveAll (baseDir id)));
  expected ← gets w_expected;
  if String.eqb expected "" then mret tt else ignore (perform (RemoveAll expected)).

Definition prepareWorkspace (commit : Commit) : io prepared :=
  measured PhaseWorkspacePrepare
    (finally_with (prepare_body commit)
       (fun r => match r with Ok _ => mret tt | Err _ => prepare_cleanup (c_ID commit) end)).

(** The deferred cleanup of [Process], for a workspace that was prepared. *)
Definition process_cleanup (commit : Commit) : io unit :=
  if cfg_KeepWorkspaces cfg then mret tt
  else _ ← ignore (perform (RemoveAll (baseDir (c_ID commit))));
       ignore (perform (RemoveAll (expectedDir (c_ID commit)))).

(** What [Process] does to the execution directory: it prepares the workspace and,
    after the run, cleans up one it was given. *)
Definition process_workspace (commit : Commit) : io unit :=
  _ ← prepareWorkspace commit; process_cleanup commit.
End Workspace.
