(* ===== verification/ShellConfig.v ===== *)
(** * The configuration file and the shell that sources it

    The harness of a runner image (src/runners/base/base-script.sh) reads
    [container.config] with bash's [source]. The reader below is the specification
    the writer is checked against: the quoting rules of the shell command language
    for a line [name=word], where the word is made of plain characters, of
    single-quoted strings, in which every byte but the quote stands for itself, and
    of backslash-escaped characters. Whatever else the shell would do with a line is
    outside the fragment and rejected, so a file this reader accepts only assigns
    variables. *)

From S2P Require Import Prelude Effects GoStrings GoPath Float64 JudgeModel JudgeConfig Workspace.
Local Open Scope Z_scope.

(** ** The reader *)

Inductive sh_state :=
| ShName (name : string)
| ShWord (name value : string)
| ShQuote (name value : string)
| ShEscape (name value : string).

Definition name_char (a : ascii) : bool :=
  is_digit a || in_range 65 90 (b2z a) || in_range 97 122 (b2z a) || Ascii.eqb a "_".
Definition valid_name (s : string) : bool :=
  match s with String a r => negb (is_digit a) && all_bytes name_char s | EmptyString => false end.

(** The assignments a file makes, in order. *)
Fixpoint sh_source (st : sh_state) (s : string) : option (list (string * string)) :=
  match s with
  | EmptyString => match st with ShName "" => Some [] | _ => None end
  | String a r =>
      match st with
      | ShName n =>
          if Ascii.eqb a "=" then if valid_name n then sh_source (ShWord n "") r else None
          else sh_source (ShName (n +:+ str1 a)) r
      | ShWord n v =>
          if Ascii.eqb a LF then cons (n, v) <$> sh_source (ShName "") r
          else if Ascii.eqb a "'" then sh_source (ShQuote n v) r
          else if Ascii.eqb a "\" then sh_source (ShEscape n v) r
          else if int_char a then sh_source (ShWord n (v +:+ str1 a)) r
          else None
      | ShQuote n v =>
          if Ascii.eqb a "'" then sh_source (ShWord n v) r
          else if Ascii.eqb a NUL then None
          else sh_source (ShQuote n (v +:+ str1 a)) r
      | ShEscape n v => if Ascii.eqb a LF then None else sh_source (ShWord n (v +:+ str1 a)) r
      end
  end.

(** ** Reading what the writer wrote *)

Lemma app_str1 v a s : (v +:+ str1 a) +:+ s = v +:+ String a s.
Proof. by rewrite app_assoc_s. Qed.

Lemma read_name n acc r :
  all_bytes name_char n = true -> valid_name (acc +:+ n) = true ->
  sh_source (ShName acc) (n +:+ "=" +:+ r) = sh_source (ShWord (acc +:+ n) "") r.
Proof.
  revert acc. induction n as [|a n IH]; intros acc Hn Hv.
  - rewrite app_nil_r_s in *. cbn. by rewrite Hv.
  - cbn in Hn. apply andb_true_iff in Hn as [Ha Hn]. cbn [String.append sh_source].
    destruct (Ascii.eqb_spec a "=") as [->|_]; [done|].
    rewrite IH; rewrite ?app_str1; done.
Qed.

Lemma read_plain n v acc r :
  all_bytes int_char v = true ->
  sh_source (ShWord n acc) (v +:+ nl +:+ r) = cons (n, acc +:+ v) <$> sh_source (ShName "") r.
Proof.
  revert acc. induction v as [|a v IH]; intros acc Hv.
  - by rewrite app_nil_r_s.
  - cbn in Hv. apply andb_true_iff in Hv as [Ha Hv]. cbn [String.append sh_source].
    destruct (Ascii.eqb_spec a LF) as [->|_]; [done|].
    destruct (Ascii.eqb_spec a "'") as [->|_]; [done|].
    destruct (Ascii.eqb_spec a "\") as [->|_]; [done|].
    rewrite Ha, IH by done. by rewrite app_str1.
Qed.

Lemma read_in_quotes n v acc r :
  no_byte NUL v ->
  sh_source (ShQuote n acc) (shellSingleQuote v +:+ "'" +:+ r) = sh_source (ShWord n (acc +:+ v)) r.
Proof.
  unfold shellSingleQuote. revert acc. induction v as [|a v IH]; intros acc Hv.
  - by rewrite app_nil_r_s.
  - apply no_byte_cons in Hv as [Ha Hv]. cbn [replace_byte].
    destruct (Ascii.eqb_spec a "'") as [->|Hq].
    + cbn [String.append sh_source Ascii.eqb]. cbn. rewrite IH by done. by rewrite app_str1.
    + cbn [String.append sh_source]. rewrite (proj2 (Ascii.eqb_neq _ _) Hq), (proj2 (Ascii.eqb_neq _ _) Ha).
      rewrite IH by done. by rewrite app_str1.
Qed.

Lemma valid_name_chars n : valid_name n = true -> all_bytes name_char n = true.
Proof. destruct n; [done|]. cbn [valid_name]. by intros [_ ?]%andb_true_iff. Qed.

Lemma read_line n r :
  valid_name n = true -> sh_source (ShName "") (n +:+ "=" +:+ r) = sh_source (ShWord n "") r.
Proof. intros Hn. by apply (read_name n ""); [apply valid_name_chars|]. Qed.

(** A line with a plain value, and one with a quoted value. *)
Lemma read_assign n v r :
  valid_name n = true -> all_bytes int_char v = true ->
  sh_source (ShName "") (assign n v +:+ r) = cons (n, v) <$> sh_source (ShName "") r.
Proof.
  intros Hn Hv. unfold assign. by rewrite !app_assoc_s, read_line, read_plain by done.
Qed.

Lemma read_assign_quoted n v r :
  valid_name n = true -> no_byte NUL v ->
  sh_source (ShName "") (assign n ("'" +:+ shellSingleQuote v +:+ "'") +:+ r)
  = cons (n, v) <$> sh_source (ShName "") r.
Proof.
  intros Hn Hv. unfold assign. rewrite !app_assoc_s, read_line by done.
  transitivity (sh_source (ShQuote n "") (shellSingleQuote v +:+ "'" +:+ nl +:+ r)); [done|].
  by rewrite read_in_quotes.
Qed.

Lemma fmt_int_digits z : 0 <= z -> all_bytes is_digit (fmt_int z) = true.
Proof. intros Hz. unfold fmt_int. rewrite (proj2 (Z.ltb_ge _ _)) by lia. by apply fmt_digits_all. Qed.

Lemma valid_case_name p z :
  valid_name p = true -> 0 <= z -> valid_name (p +:+ fmt_int z) = true.
Proof.
  intros Hp Hz. destruct p as [|a p]; [done|]. cbn [valid_name] in *.
  apply andb_true_iff in Hp as [Ha Hp]. change (String a p +:+ fmt_int z) with (String a (p +:+ fmt_int z)).
  cbn [valid_name]. rewrite Ha. change (String a (p +:+ fmt_int z)) with (String a p +:+ fmt_int z).
  rewrite all_bytes_app, Hp. cbn. apply (all_bytes_impl is_digit); [|by apply fmt_int_digits].
  intros b Hb. unfold name_char. by rewrite Hb.
Qed.

(** The settings of one test case. *)
Definition case_settings (defaultCase : Z) (tc : TestCase) : list (string * string) :=
  [("t_" +:+ fmt_int (tc_ID tc),
    fmt_int (if tc_CPUTimeLimit tc <=? 0 then defaultCase else tc_CPUTimeLimit tc));
   ("ms_" +:+ fmt_int (tc_ID tc), fmt_int (tc_MemUsageLimit tc));
   ("fs_" +:+ fmt_int (tc_ID tc), fmt_int (tc_FileSizeLimit tc));
   ("stack_" +:+ fmt_int (tc_ID tc), fmt_int (tc_StackLimit tc))].

Lemma read_cases d cases :
  Forall (fun tc => 0 <= tc_ID tc) cases ->
  sh_source (ShName "") (fold_right (fun tc s => case_config d tc +:+ s) "" cases)
  = Some (concat (map (case_settings d) cases)).
Proof.
  induction 1 as [|tc cases Htc _ IH]; [done|]. cbn [fold_right map concat].
  revert IH. set (rest := fold_right _ _ _). clearbody rest. intros IH. unfold case_config. rewrite !app_assoc_s.
  rewrite !read_assign by (try apply fmt_int_chars; by apply valid_case_name).
  by rewrite IH.
Qed.

Lemma shellWord_ok src word :
  shellWord src = Ok word ->
  word = shellSingleQuote src /\ no_byte LF src /\ no_byte CR src /\ no_byte NUL src.
Proof.
  unfold shellWord. destruct (contains_any _ src) eqn:E; [done|]. intros [= <-].
  split; [done|]. by split_and!; (eapply contains_any_false; [|exact E]).
Qed.

(** The settings the harness is meant to see. *)
Definition settings (cfg : Config) (nonce src : string) (cases : list TestCase) : list (string * string) :=
  [("monitor_max_fs", fmt_int (cfg_MonitorMaxFileSize cfg));
   ("monitor_max_ms", fmt_int (cfg_MonitorMaxMemSize cfg));
   ("compilation_timeout", fmt_int (seconds (cfg_CompilationTimeout cfg)));
   ("run_nonce", nonce); ("src_file", src)]
  ++ concat (map (case_settings (seconds (cfg_DefaultCaseTimeout cfg))) cases).

(** C40: Whatever a submitted file is called, the shell that sources the
    configuration file sees exactly the assignments the judge means and no other
    statement: the limits, the run's nonce, the file name byte for byte, and the
    four settings of every test case. *)
Theorem container_config_read_back (cfg : Config) nonce src word cases
    (Hword : shellWord src = Ok word) (Hnonce : no_byte NUL nonce)
    (Hids : Forall (fun tc => 0 <= tc_ID tc) cases) :
  sh_source (ShName "") (container_config cfg nonce word cases) = Some (settings cfg nonce src cases).
Proof.
  apply shellWord_ok in Hword as (-> & _ & _ & Hsrc).
  unfold container_config, settings.
  rewrite !read_assign by (done || apply fmt_int_chars).
  rewrite !read_assign_quoted, read_cases by done. reflexivity.
Qed.

Definition hostile_name : string := "a'; touch pwned #.c".

Lemma container_config_read_back_witness :
  shellWord hostile_name = Ok "a'\''; touch pwned #.c" /\
  sh_source (ShName "") (container_config default_config "5eed" "a'\''; touch pwned #.c" [])
    = Some (settings default_config "5eed" hostile_name []).
Proof.
  assert (H : shellWord hostile_name = Ok "a'\''; touch pwned #.c") by reflexivity.
  split; [exact H|]. exact (container_config_read_back default_config "5eed" hostile_name _ [] H eq_refl (Forall_nil_2 _)).
Defined.
