(* ===== verification/WorkspaceProofs.v ===== *)
(** * Properties of the workspace

    Extraction stays inside the source directory and within its budget, whatever
    the archive says; the entry point is the least eligible file; the harness reads
    back exactly the settings the judge wrote; a preparation that fails, and a run
    that ends, leave nothing behind. *)

From S2P Require Import Prelude Effects GoStrings GoPath Float64 JudgeModel JudgeConfig Grading Language Workspace.
Local Open Scope Z_scope.

(** ** Paths of an extraction *)

(** Where extracting into [dest] may touch the file system. *)
Definition confined (dest : string) (op : fs_op) : Prop :=
  match op with
  | MkdirWorld p => below dest p \/ p = filepath_dir dest
  | Create p | Copy p _ => below dest p
  | OpenEntry _ => True
  | _ => False
  end.

Definition bytes_of (op : fs_op) : Z := match op with Copy _ n => n | _ => 0 end.
Definition copied (ops : list fs_op) : Z := fold_right (fun op z => bytes_of op + z) 0 ops.
Definition is_copy (op : fs_op) : bool := match op with Copy _ _ => true | _ => false end.
Definition copies (ops : list fs_op) : nat := length (List.filter is_copy ops).

Lemma copied_app a b : copied (a ++ b) = copied a + copied b.
Proof. unfold copied. induction a as [|op a IH]; cbn [fold_right app]; lia. Qed.

Lemma copies_app a b : copies (a ++ b) = (copies a + copies b)%nat.
Proof. unfold copies. by rewrite List.filter_app, length_app. Qed.

Lemma parent_confined dest t :
  clean_dir dest -> rooted t = true -> path_clean t = t -> below dest t ->
  below dest (filepath_dir t) \/ filepath_dir t = filepath_dir dest.
Proof.
  intros (Hr & Hc & _) Hrt Hct [l Hl]. pose proof (comps_safe t Hrt) as Hs.
  assert (Et : t = "/" +:+ join_comps (comps t)) by by rewrite <- clean_abs.
  destruct l as [|x l _] using rev_ind.
  - right. rewrite app_nil_r in Hl. rewrite Et, Hl, <- clean_abs, Hc by done. done.
  - left. rewrite app_assoc in Hl. rewrite Hl in Hs. apply Forall_app in Hs as [Hs Hx].
    rewrite Et, Hl. unfold below. destruct (comps_dir (comps dest ++ l) x) as [_ ->]; [done|by inversion Hx|].
    by eexists.
Qed.

Lemma removed_sub op ok paths p : p ∈ removed op ok paths -> p ∈ paths.
Proof. destruct op; cbn; try done. destruct ok; [|done]. by intros [_ ?]%elem_of_filter. Qed.

Lemma created_sub op ok p : p ∈ created op ok -> p ∈ created op true.
Proof. destruct op, ok; cbn; set_solver. Qed.

Section Extraction.
Context (env : ws_env) (dest : string) (maxFile maxTotal : Z).
Hypothesis Hdest : clean_dir dest.
Hypothesis Hfile : 0 <= maxFile <= max_int64.
Hypothesis Htotal : 0 <= maxTotal <= max_int64.

(** The operations [new] an extraction adds: [n] entries, [b] bytes. *)
Definition extracted (s s' : W) (n : nat) (b : Z) : Prop :=
  exists new, w_ops s' = w_ops s ++ new /\ Forall (confined dest) new /\ copied new = b /\
    Forall (fun op => 0 <= bytes_of op <= maxFile + 1) new /\ (copies new <= n)%nat /\
    w_expected s' = w_expected s /\
    (forall p, p ∈ w_paths s' -> p ∈ w_paths s \/ exists op, op ∈ new /\ p ∈ created op true).

Lemma extracted_refl s n : extracted s s n 0.
Proof. exists []. split_and!; [by rewrite app_nil_r|done|done|done|cbn; lia|done|by left]. Qed.

Lemma extracted_perform s s' n b op :
  extracted s s' n b -> confined dest op -> 0 <= bytes_of op <= maxFile + 1 ->
  let n' := if is_copy op then S n else n in
  let r := fst (perform env op s') in extracted s r n' (b + bytes_of op).
Proof.
  intros (new & Hn & Hc & Hb & Hf & Hk & He & Hp) Ho Hbo n' r.
  exists (new ++ [op]). subst r n'. cbn [perform fst w_ops w_paths]. split_and!.
  - by rewrite Hn, app_assoc.
  - apply Forall_app. by split; [|constructor].
  - rewrite copied_app, Hb. cbn. lia.
  - apply Forall_app. by split; [|constructor].
  - rewrite copies_app. unfold copies at 2. cbn. destruct (is_copy op); cbn; lia.
  - exact He.
  - intros p Hin. cbn in Hin. apply elem_of_union in Hin as [Hin|Hin].
    + apply removed_sub, Hp in Hin as [?|(o & ? & ?)]; [by left|right]. exists o. set_solver.
    + right. exists op. split; [set_solver|]. by apply created_sub in Hin.
Qed.

Lemma extracted_trans s1 s2 s3 n m a b :
  extracted s1 s2 n a -> extracted s2 s3 m b -> extracted s1 s3 (n + m) (a + b).
Proof.
  intros (x & Hx & Hxc & Hxb & Hxf & Hxn & Hxe & Hxp) (y & Hy & Hyc & Hyb & Hyf & Hyn & Hye & Hyp).
  exists (x ++ y). split_and!; [by rewrite Hy, Hx, app_assoc|by apply Forall_app|rewrite copied_app; lia
                               |by apply Forall_app|rewrite copies_app; lia|congruence|].
  intros p [Hin|(o & Ho & Hin)]%Hyp; [apply Hxp in Hin as [?|(o & Ho & Hin)]; [by left|]|];
    right; exists o; set_solver.
Qed.

(** [perform] as a step of a computation. *)
Lemma wp_perform s0 s n b op (Q : unit -> W -> Prop) (R : ws_error -> W -> Prop) :
  extracted s0 s n b -> confined dest op -> 0 <= bytes_of op <= maxFile + 1 ->
  (forall s', extracted s0 s' (if is_copy op then S n else n) (b + bytes_of op) -> Q tt s') ->
  (forall e s', extracted s0 s' (if is_copy op then S n else n) (b + bytes_of op) -> R e s') ->
  wp (perform env op) Q R s.
Proof.
  intros H Ho Hb HQ HR. assert (H' := extracted_perform _ _ _ _ _ H Ho Hb). cbn in H'.
  unfold wp, perform. destruct (we_io _ _ _); [by apply HR|by apply HQ].
Qed.

Lemma extract_entry_spec total f s :
  0 <= total <= maxTotal ->
  wp (extract_entry env dest maxFile maxTotal total f)
     (fun total' s' => total <= total' <= maxTotal /\ extracted s s' 1 (total' - total))
     (fun _ s' => exists b, extracted s s' 1 b /\ 0 <= b <= maxTotal - total + 1) s.
Proof.
  intros Ht. unfold extract_entry. set (target := filepath_join dest (path_clean (ze_Name f))).
  assert (Hfail : forall s', extracted s s' 0 0 ->
    exists b, extracted s s' 1 b /\ 0 <= b <= maxTotal - total + 1).
  { intros s' (new & H1 & H2 & H3 & H4 & H5 & Hee & H6). exists 0. split; [|lia].
    exists new. split_and!; try done. lia. }
  assert (Hone : forall s' b, extracted s s' 0 b -> extracted s s' 1 b).
  { intros s' b (new & H1 & H2 & H3 & H4 & H5 & Hee & H6). exists new. split_and!; try done. lia. }
  destruct (negb (String.eqb target dest) && negb (has_prefix (dest +:+ "/") target)) eqn:Esc.
  { apply wp_fail, Hfail, extracted_refl. }
  destruct (below_checked dest (path_clean (ze_Name f)) Hdest) as (Hrt & Hct & Hbt).
  { fold target. destruct (String.eqb_spec target dest); [by left|right].
    by destruct (has_prefix _ _). }
  fold target in Hrt, Hct, Hbt.
  destruct (ze_IsDir f).
  { apply wp_bind. apply (wp_perform s s 0 0); [apply extracted_refl|by left|cbn; lia| |].
    - intros s' H. apply wp_ret. split; [lia|]. rewrite Z.sub_diag. by apply Hone.
    - intros e s' H. by apply Hfail. }
  destruct (_ <? _); [apply wp_fail, Hfail, extracted_refl|].
  destruct (_ <? _); [apply wp_fail, Hfail, extracted_refl|].
  apply wp_bind, (wp_perform s s 0 0); [apply extracted_refl|by apply parent_confined|cbn; lia| |by intros; apply Hfail].
  intros s1 H1. apply wp_bind, (wp_perform s s1 0 0); [exact H1|done|cbn; lia| |by intros; apply Hfail].
  intros s2 H2. apply wp_bind, (wp_perform s s2 0 0); [exact H2|done|cbn; lia| |by intros; apply Hfail].
  intros s3 H3. cbv zeta.
  rewrite (wrap64_id (maxTotal - total)) by (unfold int64, min_int64, max_int64 in *; lia).
  set (limit := if maxTotal - total <? maxFile then maxTotal - total else maxFile).
  assert (Hlim : 0 <= limit <= maxFile /\ limit <= maxTotal - total) by (unfold limit; destruct (Z.ltb_spec (maxTotal - total) maxFile); lia).
  clearbody limit. set (written := Z.max 0 (Z.min (ze_content f) (wrap64 (limit + 1)))).
  assert (Hw : 0 <= written <= limit + 1).
  { unfold written. destruct (Z.eq_dec limit max_int64) as [E|E].
    - assert (wrap64 (limit + 1) = min_int64) as -> by (rewrite E; by vm_compute).
      unfold min_int64. lia.
    - rewrite wrap64_id by (unfold int64, min_int64, max_int64 in *; lia). lia. }
  clearbody written. apply wp_bind, (wp_perform s s3 0 0); [exact H3|done|cbn; lia| |].
  - intros s4 H4. destruct (limit <? written) eqn:El.
    + apply wp_fail. exists written. split; [exact H4|lia].
    + apply wp_ret. rewrite wrap64_id by (unfold int64, min_int64, max_int64 in *; lia).
      split; [lia|]. replace (total + written - total) with (0 + written) by lia. exact H4.
  - intros e s4 H4. exists written. split; [exact H4|lia].
Qed.

Lemma extract_entries_spec files total s :
  0 <= total <= maxTotal ->
  wp (extract_entries env dest maxFile maxTotal total files)
     (fun _ s' => exists b, extracted s s' (length files) b /\ 0 <= b <= maxTotal - total)
     (fun _ s' => exists b, extracted s s' (length files) b /\ 0 <= b <= maxTotal - total + 1) s.
Proof.
  revert total s. induction files as [|f files IH]; intros total s Ht; cbn [extract_entries length].
  - apply wp_ret. exists 0. split; [apply extracted_refl|lia].
  - apply wp_bind. eapply wp_mono; [by apply extract_entry_spec| |].
    + intros total' s' [Ht' H']. cbn beta in *. eapply wp_mono; [apply IH; lia| |].
      all: try intros e; try intros s''; intros (b & Hb & Hr); exists (total' - total + b);
        split; [by apply (extracted_trans _ _ _ 1 (length files) _ _ H' Hb)|lia].
    + intros e s' (b & (new & H1 & H2 & H3 & H4 & H5 & Hee & H6) & Hb). exists b. split; [|done].
      exists new. split_and!; try done. lia.
Qed.
End Extraction.

(** ** The entry point of an archive *)

Lemma path_clean_idem s : path_clean (path_clean s) = path_clean s.
Proof.
  destruct (rooted s) eqn:Hr.
  { rewrite (clean_abs (path_clean s)) by by apply rooted_clean.
    by rewrite comps_clean, <- clean_abs. }
  unfold path_clean at 2 3. rewrite Hr. destruct (String.eqb_spec s ""); [done|].
  destruct (comps_rel s Hr) as (k & l & E & Hl). rewrite E.
  assert (Hns : Forall (no_byte "/") (repeat ".." k ++ l)).
  { apply Forall_app. split; [|by apply safe_no_slash]. clear. induction k; cbn; by constructor. }
  destruct (repeat ".." k ++ l) as [|e r] eqn:El; [done|].
  assert (He : e <> "" /\ no_byte "/" e).
  { split; [|by inversion Hns]. destruct k; cbn in El; [|by injection El as <-].
    subst l. by inversion Hl as [|?? [? _]]. }
  assert (Hrel : rooted (join_comps (e :: r)) = false).
  { destruct He as [He Hs]. destruct e as [|a e]; [done|]. apply no_byte_cons in Hs as [Ha _].
    unfold join_comps. destruct r; by apply rooted_cons_false. }
  assert (Hc : comps (join_comps (e :: r)) = e :: r).
  { unfold comps. rewrite Hrel, split_join by done. rewrite <- El.
    rewrite fold_left_app. assert (Hd : fold_left (path_push false) (repeat ".." k) [] = repeat ".." k).
    { clear. enough (H : forall m, fold_left (path_push false) (repeat ".." k) (repeat ".." m) = repeat ".." (k + m)).
      { specialize (H O). rewrite Nat.add_0_r in H. exact H. }
      induction k as [|k IH]; intros m; [done|]. cbn [repeat fold_left].
      replace (path_push false (repeat ".." m) "..") with (repeat ".." (S m)) by by destruct m.
      rewrite IH. by replace (k + S m)%nat with (S k + m)%nat by lia. }
    rewrite Hd, push_all_safe by done. rewrite rev_app_distr, rev_involutive. f_equal.
    clear. induction k as [|k IH]; cbn; [done|]. rewrite IH. clear. induction k; cbn; congruence. }
  unfold path_clean. rewrite Hrel, Hc.
  destruct (String.eqb_spec (join_comps (e :: r)) "") as [E0|]; [|done].
  exfalso. destruct e as [|a e]; [by destruct He|]. by destruct r.
Qed.

Section EntryPoint.
Context {UT : UnicodeTables}.

(** The names the judge may choose from. *)
Definition candidates (want : Language) (files : list zip_entry) : list string := omap (entry_name want) files.

(** [p] is chosen before [q]: nearer to the top, then smaller. *)
Definition before (p q : string) : Prop := (depth p < depth q)%nat \/ (depth p = depth q /\ str_lt p q).

Lemma before_irrefl p : ~ before p p.
Proof. intros [H|[_ H]]; [lia|by apply str_lt_irrefl in H]. Qed.
Lemma before_trans p q r : before p q -> before q r -> before p r.
Proof.
  intros [H1|[H1 H1']] [H2|[H2 H2']]; unfold before; [left; lia..|right].
  split; [lia|by eapply str_lt_trans].
Qed.
Lemma before_total p q : before p q \/ p = q \/ before q p.
Proof.
  unfold before. destruct (Nat.lt_trichotomy (depth p) (depth q)) as [H|[H|H]]; [by left; left| |by right; right; left].
  destruct (str_lt_total p q) as [?|[?|?]]; auto.
Qed.

#[export] Instance before_dec : RelDecision before.
Proof. intros p q. unfold before, str_lt. apply _. Defined.

Lemma best_entry_least best n : best_entry best n = keep_least before best n.
Proof.
  unfold best_entry, keep_least. destruct best as [b|]; [|done].
  destruct (decide (before n b)) as [H|H].
  - replace (_ || _) with true; [done|]. symmetry. apply orb_true_iff.
    destruct H as [H|[H1 H2]]; [left|right]; [by apply Nat.ltb_lt|].
    apply andb_true_iff. split; [by apply Nat.eqb_eq|done].
  - replace (_ || _) with false; [done|]. symmetry. apply orb_false_iff. split.
    + apply Nat.ltb_ge. unfold before in H. lia.
    + apply andb_false_iff. destruct (Nat.eqb_spec (depth n) (depth b)); [right|by left].
      destruct (String.ltb n b) eqn:E; [|done]. exfalso. apply H. by right.
Qed.

Lemma best_of_least want files : best_of want files = fold_left (keep_least before) (candidates want files) None.
Proof.
  unfold best_of, candidates. generalize (@None string). induction files as [|f files IH]; intros best; cbn; [done|].
  destruct (entry_name want f) as [n|]; cbn; [|apply IH]. by rewrite best_entry_least, IH.
Qed.

(** The least candidate, if there is one. *)
Lemma best_of_spec want files :
  match best_of want files with
  | None => candidates want files = []
  | Some p => p ∈ candidates want files /\ forall q, q ∈ candidates want files -> q = p \/ before p q
  end.
Proof. rewrite best_of_least. apply keep_least_spec; [apply before_trans|apply before_total]. Qed.

Lemma FromFilename_dotdot : FromFilename ".." = None.
Proof. by vm_compute. Qed.

(** What every candidate is: a clean path below the source directory. *)
Lemma entry_name_spec want f p :
  entry_name want f = Some p ->
  ze_IsDir f = false /\ FromFilename p = Some want /\
  contains_any (" " +:+ String "009" (str1 CR +:+ str1 LF)) p = false /\
  Forall safe (comps p) /\ comps p <> [] /\ p = join_comps (comps p).
Proof.
  unfold entry_name. destruct (ze_IsDir f); [done|]. destruct (ze_Symlink f); [done|].
  set (name := path_clean (trim_prefix "./" (ze_Name f))). cbn [orb].
  destruct (String.eqb_spec name "."); [done|]. destruct (has_prefix "../" name) eqn:E1; [done|].
  destruct (has_prefix "/" name) eqn:E2; [done|]. cbn [orb].
  destruct (contains_any _ name) eqn:E3; [done|].
  case_bool_decide as Hl; [|done]. intros [= <-].
  assert (Hc : path_clean name = name) by apply path_clean_idem.
  assert (Hdd : name <> "..").
  { intros E. rewrite E, FromFilename_dotdot in Hl. discriminate Hl. }
  destruct (rel_safe name E2 Hc n Hdd E1) as [Hs Hj].
  assert (Hne : comps name <> []).
  { intros E. rewrite E in Hj. apply n. rewrite <- Hc, Hj. reflexivity. }
  exact (conj eq_refl (conj Hl (conj E3 (conj Hs (conj Hne Hj))))).
Qed.
End EntryPoint.

(** ** The language of a submission *)

Section Resolve.
Context {UT : UnicodeTables} (cfg : Config) (env : ws_env).

(** The file name's own extension and the compound one decide alike whether a
    language is compiled. *)
Lemma compound_compilable pre ext l :
  isCompound ext = true -> (pre = "omp" \/ pre = "mpi") ->
  FromExtension (pre +:+ "." +:+ ext) = Some l -> IsCompilable ext = l_Compilable l.
Proof.
  unfold isCompound. rewrite existsb_exists. intros (e & He & Heq) Hpre.
  apply String.eqb_eq in Heq as <-. cbn [In] in He.
  destruct Hpre as [-> | ->]; repeat (destruct He as [<-|He];
    [vm_compute; intros [= <-]; reflexivity || (vm_compute; intros [=])|]); destruct He.
Qed.

Lemma to_lower_dot s : to_lower (String "." s) = String "." (to_lower s).
Proof. by unfold to_lower; cbn. Qed.

Lemma trim_lower e : has_prefix "." e = true \/ e = "" ->
  trim_prefix "." (to_lower e) = to_lower (trim_prefix "." e).
Proof.
  intros [[r ->]%has_prefix_spec| ->]; [|done].
  change ("." +:+ r) with (String "." r). rewrite to_lower_dot.
  change (String "." (to_lower r)) with ("." +:+ to_lower r). change (String "." r) with ("." +:+ r).
  by rewrite !trim_prefix_app.
Qed.
Lemma path_ext_dot s : has_prefix "." (path_ext s) = true \/ path_ext s = "".
Proof.
  unfold path_ext. assert (H : forall acc, has_prefix "." acc = true \/ acc = "" ->
    has_prefix "." (ext_go s acc) = true \/ ext_go s acc = ""); [|apply H; by right].
  induction s as [|a s IH]; intros acc Ha; cbn [ext_go]; [done|].
  destruct (Ascii.eqb_spec a "/"); [apply IH; by right|].
  destruct (Ascii.eqb_spec a ".") as [->|]; [|by apply IH].
  apply IH. left. change (String "." s) with ("." +:+ s). apply has_prefix_app.
Qed.

Lemma filename_compilable fname l :
  FromFilename fname = Some l ->
  IsCompilable (to_lower (trim_prefix "." (path_ext fname))) = l_Compilable l.
Proof.
  unfold FromFilename, normalizeExtension. rewrite trim_lower by apply path_ext_dot.
  set (ext := to_lower _). clearbody ext.
  assert (Hsame : FromExtension ext = Some l -> IsCompilable ext = l_Compilable l).
  { unfold IsCompilable. by intros ->. }
  destruct (String.eqb_spec ext "") as [->|Hne]; [exact Hsame|].
  destruct (isCompound ext) eqn:Ec; cbn [andb]; [|exact Hsame].
  destruct (contains "." _); [|exact Hsame]. set (pre := trim_prefix "." _). clearbody pre.
  destruct (String.eqb_spec pre "omp") as [->|]; cbn [orb];
    [apply compound_compilable; [exact Ec|by left]|].
  destruct (String.eqb_spec pre "mpi") as [->|];
    [apply compound_compilable; [exact Ec|by right]|exact Hsame].
Qed.

Lemma archiveEntryPoint_spec ext s :
  wp (archiveEntryPoint env ext)
     (fun p _ => exists want files, FromExtension ext = Some want /\ we_archive env 2 = Ok files /\
                                    best_of want files = Some p)
     (fun _ _ => True) s.
Proof.
  unfold archiveEntryPoint, open_archive. apply wp_bind, wp_lift.
  destruct (we_archive env 2) as [files|e]; [|exact I].
  destruct (FromExtension ext) as [want|]; [|exact I].
  destruct (best_of want files) as [p|] eqn:E; [|exact I]. apply wp_ret. by exists want, files.
Qed.

(** What a resolved language is. *)
Definition consistent (rs : resolved) : Prop :=
  exists l, rs_Language rs = Some l /\ rs_Compilable rs = l_Compilable l /\
            (rs_SourceFile rs = "" \/ FromFilename (rs_SourceFile rs) = Some l).

Lemma candidate_language want files p :
  p ∈ candidates want files -> FromFilename p = Some want.
Proof.
  intros (f & _ & Hf)%list_elem_of_omap. by apply entry_name_spec in Hf as (_ & H & _).
Qed.

Lemma resolveLanguage_consistent srcDir srcPath s :
  wp (resolveLanguage cfg env srcDir srcPath) (fun rs _ => consistent rs) (fun _ _ => True) s.
Proof.
  unfold resolveLanguage. set (fname := path_base srcPath). set (ext := to_lower _). apply wp_bind.
  destruct (String.eqb_spec ext "zip") as [_|Hz].
  - apply wp_bind. eapply wp_mono; [apply wp_true| |done]. clear s. intros e s _.
    apply wp_bind. eapply wp_mono; [apply wp_true| |done]. clear s. intros _ s _.
    apply wp_bind. eapply wp_mono; [apply archiveEntryPoint_spec| |done].
    clear s. intros p s (want & files & Hw & _ & Hb). apply wp_ret. rewrite Hw. apply wp_ret.
    exists want. split; [reflexivity|]. split; [unfold IsCompilable; by rewrite Hw|]. right.
    pose proof (best_of_spec want files) as Hs. rewrite Hb in Hs. by eapply candidate_language, Hs.
  - apply wp_ret. destruct (FromFilename fname) as [l|] eqn:El.
    + apply wp_ret. exists l. split; [reflexivity|]. split; [|by left]. by apply filename_compilable.
    + by rewrite (proj2 (String.eqb_neq _ _) Hz).
Qed.
End Resolve.

(** ** What a preparation leaves on disk *)

Section Cleanup.
Context {UT : UnicodeTables} (cfg : Config) (env : ws_env) (commit : Commit).
Hypothesis Hexec : rooted (cfg_ExecDir cfg) = true.
Hypothesis Hbounds : 0 <= cfg_MaxExtractFileBytes cfg <= max_int64 /\ 0 <= cfg_MaxExtractBytes cfg <= max_int64.
Context (P0 : gset string).
Local Abbreviation base := (baseDir cfg (c_ID commit)).
Local Abbreviation expected := (expectedDir cfg (c_ID commit)).

Lemma workspaceName_safe id : safe (workspaceName id).
Proof. by apply (safe_prefix_int "c" "ommit_"). Qed.
Lemma expectedName_safe id : safe (expectedName id).
Proof. by apply (safe_prefix_int "e" "xpected_"). Qed.

Lemma base_rooted : rooted base = true.
Proof. by apply join_rooted. Qed.
Lemma comps_base id : comps (baseDir cfg id) = comps (cfg_ExecDir cfg) ++ [workspaceName id].
Proof. apply comps_join_safe; [done|apply workspaceName_safe]. Qed.
Lemma comps_expected id : comps (expectedDir cfg id) = comps (cfg_ExecDir cfg) ++ [expectedName id].
Proof. apply comps_join_safe; [done|apply expectedName_safe]. Qed.

(** Only the run's two directories have grown. *)
Definition tidy (s : W) : Prop :=
  (w_expected s = "" \/ w_expected s = expected) /\
  forall p, p ∈ w_paths s -> p ∈ P0 \/ below base p \/ (w_expected s = expected /\ below expected p).

Lemma perform_tidy op : (forall p, p ∈ created op true -> below base p) -> keeps tidy (perform env op).
Proof.
  intros Ho s [He Hp]. assert (H : tidy (fst (perform env op s))).
  { split; [done|]. intros p [Hin|Hin]%elem_of_union; cbn in *.
    - apply Hp. by apply removed_sub in Hin.
    - right; left. apply Ho. by apply created_sub in Hin. }
  unfold wp, perform in *. by destruct (we_io _ _ _).
Qed.

(** An operation that creates at most [p]. *)
Lemma perform_tidy_at op p : created op true ⊆ {[p]} -> below base p -> keeps tidy (perform env op).
Proof. intros Ho Hp. apply perform_tidy. intros q Hq%Ho. by apply elem_of_singleton in Hq as ->. Qed.

Lemma mkdir_tidy p : below base p -> keeps tidy (mkdirWorld env p).
Proof. by apply perform_tidy_at. Qed.

Lemma prepareExpectedDir_tidy : keeps tidy (prepareExpectedDir cfg env (c_ID commit)).
Proof.
  unfold prepareExpectedDir. apply keeps_bind; [apply perform_tidy; cbn; set_solver|].
  intros _ s [He Hp]. apply wp_bind. unfold wp, perform. destruct (we_io _ _ _); cbn.
  - split; [done|]. intros p [Hin|Hin]%elem_of_union; [by apply Hp|]. by apply elem_of_empty in Hin.
  - split; [by right|]. intros p [Hin|Hin]%elem_of_union; cbn in Hin.
    + destruct (Hp p Hin) as [?|[?|[? ?]]]; auto.
    + apply elem_of_singleton in Hin as ->. right; right. split; [done|apply below_refl].
Qed.

Lemma src_dir_clean : clean_dir (filepath_join base "src").
Proof.
  destruct (join_rooted base "src" base_rooted) as [H1 H2]. split_and!; [done|done|].
  rewrite comps_join_safe by (by apply base_rooted || done). by destruct (comps base).
Qed.

Lemma below_src p : below (filepath_join base "src") p -> below base p.
Proof. apply below_trans, below_join; [by apply base_rooted|done]. Qed.

Lemma src_parent : below base (filepath_dir (filepath_join base "src")).
Proof.
  destruct src_dir_clean as (Hr & Hc & _).
  assert (E : filepath_join base "src" = "/" +:+ join_comps (comps base ++ ["src"])).
  { rewrite <- (comps_join_safe base "src"); [|by apply base_rooted|done]. by rewrite <- clean_abs. }
  rewrite E. unfold below.
  destruct (comps_dir (comps base) "src") as [_ ->]; [by apply comps_safe, base_rooted|done|done].
Qed.

Lemma extractZip_tidy :
  keeps tidy (extractZip env (filepath_join base "src") (cfg_MaxExtractFileBytes cfg)
                (cfg_MaxExtractBytes cfg) (cfg_MaxExtractEntries cfg)).
Proof.
  intros s [He Hp]. unfold extractZip, open_archive. apply wp_bind, wp_lift.
  destruct (we_archive env 1) as [files|e]; [|by split]. destruct (_ && _); [by split|].
  assert (Hx : forall s' n b, extracted (filepath_join base "src") (cfg_MaxExtractFileBytes cfg) s s' n b ->
    tidy s').
  { intros s' n b (new & H1 & H2 & H3 & H4 & H5 & Hee & H6). split; [by rewrite Hee|]. rewrite Hee.
    intros p [Hin|(op & Hop & Hin)]%H6; [by apply Hp|]. right; left.
    rewrite Forall_forall in H2. specialize (H2 op Hop).
    destruct op; cbn in H2, Hin; try done; apply elem_of_singleton in Hin as ->; try by apply below_src.
    destruct H2 as [?| ->]; [by apply below_src|apply src_parent]. }
  eapply wp_mono; [apply (extract_entries_spec env _ _ _ src_dir_clean); [apply Hbounds..|]| |].
  - destruct Hbounds. lia.
  - intros _ s' (b & Hb & _). by eapply Hx.
  - intros e s' (b & Hb & _). by eapply Hx.
Qed.

Lemma measured_tidy {A} phase (m : io A) : keeps tidy m -> keeps tidy (measured env phase m).
Proof.
  intros H. apply keeps_finally; [exact H|]. destruct (we_clock env phase) as [[? ?] ?].
  by apply keeps_modify.
Qed.

Lemma resolveLanguage_tidy path : keeps tidy (resolveLanguage cfg env (filepath_join base "src") path).
Proof.
  unfold resolveLanguage. apply keeps_bind.
  - apply keeps_if; [|apply keeps_ret]. apply keeps_bind.
    { apply keeps_bind; [apply keeps_lift|]. intros files.
      destruct (DeduceFromArchive _ _); [apply keeps_ret|apply keeps_fail]. }
    intros ext. apply keeps_bind; [apply extractZip_tidy|]. intros _.
    apply keeps_bind; [|intros; apply keeps_ret]. apply keeps_bind; [apply keeps_lift|]. intros files.
    destruct (FromExtension ext); [|apply keeps_fail].
    destruct (best_of _ _); [apply keeps_ret|apply keeps_fail].
  - intros [[ext lang] src]. destruct lang; [apply keeps_ret|].
    apply keeps_if; [apply keeps_fail|apply keeps_ret].
Qed.

Lemma fetch_case_tidy tc : keeps tidy (fetch_case env base tc).
Proof.
  pose proof base_rooted as Hb. assert (Ht : safe ("test_" +:+ fmt_int (tc_ID tc))) by by apply (safe_prefix_int "t" "est_").
  unfold fetch_case. apply keeps_bind; [|intros _; apply keeps_bind; [|intros _]].
  - apply keeps_if; (eapply perform_tidy_at; [cbn [created]; reflexivity|]); (apply below_join; [done|by apply safe_int_suffix]).
  - apply mkdir_tidy. by apply below_join.
  - apply keeps_each. intros name _. eapply perform_tidy_at; [cbn [created]; reflexivity|]. by apply below_join_base.
Qed.

Lemma prepare_body_tidy : keeps tidy (prepare_body cfg env commit).
Proof.
  pose proof base_rooted as Hb. assert (Hs : safe "src") by done.
  assert (Hsrc : below base (filepath_join base "src")) by by apply below_join.
  unfold prepare_body.
  repeat (lazymatch goal with |- keeps _ (mbind _ _) => apply keeps_bind; [|intros] end);
    repeat match goal with |- keeps tidy (measured _ _ _) => apply measured_tidy end.
  - apply perform_tidy. cbn. set_solver.
  - apply mkdir_tidy, below_refl.
  - by apply mkdir_tidy.
  - apply prepareExpectedDir_tidy.
  - apply keeps_lift.
  - eapply perform_tidy_at; [cbn [created]; reflexivity|]. by apply below_join_base.
  - apply resolveLanguage_tidy.
  - apply keeps_bind; [apply keeps_lift|]. intros paths. apply keeps_each. intros p _.
    eapply perform_tidy_at; [cbn [created]; reflexivity|]. by apply below_join_base.
  - apply keeps_lift.
  - apply keeps_each. intros tc _. apply fetch_case_tidy.
  - apply keeps_bind; [apply keeps_lift|]. intros src. eapply perform_tidy_at; [cbn [created]; reflexivity|].
    by apply below_join.
  - apply keeps_ret.
Qed.
(** Removing a directory, when that succeeds. *)
Lemma wp_remove q (Q : unit -> W -> Prop) R s :
  we_io env (length (w_ops s)) (RemoveAll q) = None ->
  (forall s', w_paths s' = filter (fun p => ~ below q p) (w_paths s) -> w_expected s' = w_expected s -> Q tt s') ->
  wp (ignore (perform env (RemoveAll q))) Q R s.
Proof.
  intros Hio HQ. unfold wp, ignore. apply HQ; unfold perform; rewrite Hio; [|done]. cbn. set_solver.
Qed.

Lemma wp_measured {A} phase (m : io A) (Q : A -> W -> Prop) (R : ws_error -> W -> Prop) s :
  (forall a s t, Q a s -> Q a (s <| w_timings := t |>)) ->
  (forall e s t, R e s -> R e (s <| w_timings := t |>)) ->
  wp m Q R s -> wp (measured env phase m) Q R s.
Proof.
  intros HQ HR H. apply wp_finally. destruct (we_clock env phase) as [[? ?] ?].
  eapply wp_mono; [exact H| |]; intros ? s' H'; apply wp_modify; auto.
Qed.

(** Nothing of this run is left. *)
Definition clean (s : W) : Prop := forall p, p ∈ w_paths s -> p ∈ P0 /\ ~ below base p.

Lemma expected_ne : expected <> "".
Proof.
  intros E. destruct (join_rooted (cfg_ExecDir cfg) (expectedName (c_ID commit)) Hexec) as [H _].
  unfold expectedDir in E. by rewrite E in H.
Qed.

(** After the run, or after a preparation that failed. *)
Lemma leaves_nothing s :
  (forall n p, we_io env n (RemoveAll p) = None) -> cfg_KeepWorkspaces cfg = false ->
  tidy s -> wp (process_workspace cfg env commit) (fun _ => clean) (fun _ => clean) s.
Proof.
  intros Hrm Hkeep H0. unfold process_workspace, prepareWorkspace. apply wp_bind.
  apply (wp_mono _ _ (fun _ => tidy) _ (fun _ => clean)).
  - apply wp_measured; [done|done|]. apply wp_finally_with.
    eapply wp_mono; [by apply prepare_body_tidy| |]; cbn beta.
    + intros a s1 H1. by apply wp_ret.
    + clear s H0. intros e s [He Hp]. unfold prepare_cleanup. apply wp_bind, wp_remove; [apply Hrm|].
      intros s2 Hs2 He2. apply wp_bind, wp_gets. rewrite He2.
      destruct He as [He|He]; rewrite He.
      * apply wp_ret. intros p Hin. rewrite Hs2 in Hin. apply elem_of_filter in Hin as [Hnb Hin].
        destruct (Hp p Hin) as [?|[?|[E _]]]; [by split|done|]. rewrite He in E. by destruct expected_ne.
      * rewrite (proj2 (String.eqb_neq _ _) expected_ne). apply wp_remove; [apply Hrm|].
        intros s3 Hs3 _ p Hin. rewrite Hs3, Hs2 in Hin.
        apply elem_of_filter in Hin as [Hne [Hnb Hin]%elem_of_filter].
        destruct (Hp p Hin) as [?|[?|[_ ?]]]; [by split|done|done].
  - clear s H0. intros _ s [_ Hp]. unfold process_cleanup. rewrite Hkeep.
    apply wp_bind, wp_remove; [apply Hrm|]. intros s2 Hs2 _. apply wp_remove; [apply Hrm|].
    intros s3 Hs3 _ p Hin. rewrite Hs3, Hs2 in Hin.
    apply elem_of_filter in Hin as [Hne [Hnb Hin]%elem_of_filter].
    destruct (Hp p Hin) as [?|[?|[_ ?]]]; [by split|done|done].
  - done.
Qed.
End Cleanup.

(** * Properties *)

(** C39: Extracting an archive, whatever its headers and contents and however the
    file system answers, only creates files at or below the destination and
    directories below it (or its own parent); it writes no file beyond the per-file
    limit and one byte, at most the total limit and one byte in all, not more than
    the total limit when it succeeds, and no more files than the entry limit. *)
Theorem extraction_confined env dest maxFile maxTotal maxEntries s
    (Hdest : clean_dir dest) (Hfile : 0 <= maxFile <= max_int64) (Htotal : 0 <= maxTotal <= max_int64) :
  let '(s', r) := extractZip env dest maxFile maxTotal maxEntries s in
  exists new, w_ops s' = w_ops s ++ new /\ Forall (confined dest) new /\
    Forall (fun op => 0 <= bytes_of op <= maxFile + 1) new /\
    copied new <= maxTotal + 1 /\ (is_ok r = true -> copied new <= maxTotal) /\
    (0 < maxEntries -> Z.of_nat (copies new) <= maxEntries).
Proof.
  assert (H0 : exists new, w_ops s = w_ops s ++ new /\ Forall (confined dest) new /\
    Forall (fun op => 0 <= bytes_of op <= maxFile + 1) new /\ copied new <= maxTotal + 1 /\
    (true = true -> copied new <= maxTotal) /\ (0 < maxEntries -> Z.of_nat (copies new) <= maxEntries)).
  { exists []. split_and!; [by rewrite app_nil_r|done|done|cbn; lia|cbn; lia|cbn; lia]. }
  unfold extractZip, open_archive, lift, mbind, eff_bind.
  destruct (we_archive env 1) as [files|e].
  2:{ destruct H0 as (new & ?). exists new. naive_solver. }
  destruct ((0 <? maxEntries) && (maxEntries <? Z.of_nat (length files))) eqn:En.
  { destruct H0 as (new & ?). exists new. naive_solver. }
  assert (H := extract_entries_spec env dest maxFile maxTotal Hdest Hfile Htotal files 0 s ltac:(lia)).
  unfold wp in H. destruct (extract_entries _ _ _ _ _ _ s) as [s' [u|e]];
    destruct H as (b & (new & H1 & H2 & H3 & H4 & H5 & _) & Hb); exists new; split_and!; try done; try lia.
Qed.

Section Claims.
Context {UT : UnicodeTables}.

(** The file of an archive chosen for compilation is the least eligible one: a
    regular entry of the archive's language without blanks in its name, nearest the
    top of the archive and then smallest, whatever the order of the entries; its
    name resolves below the source directory; and there is none exactly when no
    entry is eligible. *)
Theorem entry_point_is_least want files :
  match best_of want files with
  | None => candidates want files = []
  | Some p =>
      p ∈ candidates want files /\
      (forall q, q ∈ candidates want files -> q = p \/ before p q) /\
      (forall files', files ≡ₚ files' -> best_of want files' = Some p) /\
      FromFilename p = Some want /\ no_byte " " p /\ no_byte LF p /\
      (forall src, rooted src = true -> below src (filepath_join src p) /\ filepath_join src p <> src)
  end.
Proof.
  assert (Hs := best_of_spec want files). destruct (best_of want files) as [p|] eqn:Eb; [|exact Hs].
  destruct Hs as [Hin Hleast].
  assert (Hc := Hin). apply list_elem_of_omap in Hc as (f & _ & Hf).
  apply entry_name_spec in Hf as (_ & Hl & Hblank & Hsafe & Hne & Hj).
  split; [exact Hin|]. split; [exact Hleast|]. split; [|split; [exact Hl|]].
  - intros files' Hp. assert (Hs' := best_of_spec want files').
    assert (Hperm : forall q, q ∈ candidates want files <-> q ∈ candidates want files').
    { intros q. unfold candidates. by rewrite Hp. }
    destruct (best_of want files') as [p'|].
    + destruct Hs' as [Hin' Hleast']. f_equal.
      destruct (Hleast p') as [E|H1]; [by apply Hperm|exact E|].
      destruct (Hleast' p) as [E|H2]; [by apply Hperm|exact (eq_sym E)|].
      exfalso. apply (before_irrefl p). by eapply before_trans.
    + apply Hperm in Hin. rewrite Hs' in Hin. destruct (proj1 (elem_of_nil p) Hin).
  - split; [|split].
    + eapply contains_any_false; [|exact Hblank]. reflexivity.
    + eapply contains_any_false; [|exact Hblank]. reflexivity.
    + intros src Hr. assert (Hcj := comps_join_rel src p Hr Hsafe Hne Hj). split.
      * unfold below. rewrite Hcj. by eexists.
      * intros E. rewrite E in Hcj. apply (f_equal length) in Hcj. rewrite length_app in Hcj.
        destruct (comps p); [by apply Hne|]. cbn in Hcj. lia.
Qed.

(** A submission whose language is resolved has one, is compiled exactly when
    that language is, whether it is a single file, a file with a compound
    OpenMP/MPI extension or an archive, and the entry point of an archive is of that
    very language. *)
Theorem resolved_language_consistent cfg env srcDir srcPath s s' rs
    (Hrs : resolveLanguage cfg env srcDir srcPath s = (s', Ok rs)) :
  exists l, rs_Language rs = Some l /\ rs_Compilable rs = l_Compilable l /\
            (rs_SourceFile rs = "" \/ FromFilename (rs_SourceFile rs) = Some l).
Proof. exact (wp_ok _ _ _ _ _ _ (resolveLanguage_consistent cfg env srcDir srcPath s) Hrs). Qed.

(** An archive of C++ sources may be given a header as its entry point: the
    extensions of a language include its headers', so the smaller name wins. *)
Theorem header_can_be_entry_point :
  let files := [mk_entry "main.cpp" false false 1 1; mk_entry "lib.hpp" false false 1 1] in
  exists cpp, FromExtension "cpp" = Some cpp /\ best_of cpp files = Some "lib.hpp".
Proof.
  exists (mk_language "C++" ["cpp"; "cc"; "cxx"; "c++"; "hpp"; "h"] true "cpp").
  split; [vm_compute; reflexivity|]. vm_compute. reflexivity.
Qed.

(** Preparing a workspace and cleaning it up leaves nothing: whether the
    preparation fails at any of its steps or succeeds, afterwards every path under
    the execution directory was there before the run and none is in the run's
    directory, provided directories can be removed. *)
Theorem no_workspace_leaks cfg env commit s
    (Hexec : rooted (cfg_ExecDir cfg) = true)
    (Hbounds : 0 <= cfg_MaxExtractFileBytes cfg <= max_int64 /\ 0 <= cfg_MaxExtractBytes cfg <= max_int64)
    (Hrm : forall n p, we_io env n (RemoveAll p) = None)
    (Hkeep : cfg_KeepWorkspaces cfg = false) (Hfresh : w_expected s = "") :
  forall p, p ∈ w_paths (fst (process_workspace cfg env commit s)) ->
    p ∈ w_paths s /\ ~ below (baseDir cfg (c_ID commit)) p.
Proof.
  assert (H := leaves_nothing cfg env commit Hexec Hbounds (w_paths s) s Hrm Hkeep).
  unfold wp in H. assert (Ht : tidy cfg commit (w_paths s) s) by (split; [by left|by left]).
  specialize (H Ht). by destruct (process_workspace cfg env commit s) as [s' [?|?]].
Qed.

(** The expected output of a case never lies in a directory a container sees:
    its path is outside the workspace of every commit. *)
Theorem expected_outputs_private cfg (Hexec : rooted (cfg_ExecDir cfg) = true) :
  forall a b case, ~ below (baseDir cfg a) (expectedOutputPath cfg b case).
Proof.
  intros a b case. unfold below, expectedOutputPath.
  rewrite comps_join_safe; [|by apply join_rooted|by apply safe_int_suffix].
  rewrite (comps_base cfg Hexec), (comps_expected cfg Hexec). intros [k Hk].
  rewrite <- !app_assoc in Hk. apply app_inv_head in Hk. by injection Hk.
Qed.
End Claims.

(** ** Witnesses *)

Definition sample_archive : list zip_entry :=
  [mk_entry "src/" true false 0 0; mk_entry "src/main.py" false false 10 10;
   mk_entry "../evil.py" false false 4 4; mk_entry "main.py" false false 12 20].
Definition sample_wenv : ws_env :=
  mk_wenv (fun _ _ => None) (fun _ => Ok sample_archive) map_to_list (Ok "5eed") (Ok [])
    (Ok []) (fun _ => (0, 1, 1)).
Definition empty_W : W := mk_w [] ∅ "" NewRunTimings.
Definition sample_src : string := "/exec/commit_1/src".

Lemma sample_src_clean : clean_dir sample_src.
Proof. split_and!; [reflexivity|reflexivity|by vm_compute]. Qed.

Lemma extraction_confined_witness :
  w_ops (fst (extractZip sample_wenv sample_src 100 1000 10 empty_W)) =
    [MkdirWorld "/exec/commit_1/src/src"; MkdirWorld "/exec/commit_1/src/src";
     OpenEntry "src/main.py"; Create "/exec/commit_1/src/src/main.py";
     Copy "/exec/commit_1/src/src/main.py" 10] /\
  copied (w_ops (fst (extractZip sample_wenv sample_src 100 1000 10 empty_W))) <= 1001.
Proof.
  assert (E : w_ops (fst (extractZip sample_wenv sample_src 100 1000 10 empty_W)) =
    [MkdirWorld "/exec/commit_1/src/src"; MkdirWorld "/exec/commit_1/src/src";
     OpenEntry "src/main.py"; Create "/exec/commit_1/src/src/main.py";
     Copy "/exec/commit_1/src/src/main.py" 10]) by (vm_compute; reflexivity).
  split; [exact E|].
  assert (H := extraction_confined sample_wenv sample_src 100 1000 10 empty_W sample_src_clean
    ltac:(unfold max_int64; lia) ltac:(unfold max_int64; lia)).
  destruct (extractZip sample_wenv sample_src 100 1000 10 empty_W) as [s' r].
  destruct H as (new & Hn & _ & _ & Hc & _). cbn [fst] in *. rewrite Hn. exact Hc.
Defined.

Definition sample_resolved : resolved :=
  mk_resolved (Some (mk_language "C (OpenMP)" ["omp.c"; "omp.h"] true "c-omp")) "c" true "".

Lemma resolved_language_consistent_witness :
  exists l, rs_Language sample_resolved = Some l /\ rs_Compilable sample_resolved = l_Compilable l.
Proof.
  assert (H : resolveLanguage (UT := ascii_tables) default_config sample_wenv sample_src
    "/exec/commit_1/src/main.omp.c" empty_W = (empty_W, Ok sample_resolved))
    by (vm_compute; reflexivity).
  destruct (resolved_language_consistent (UT := ascii_tables) _ _ _ _ _ _ _ H) as (l & Hl & Hc & _).
  exact (ex_intro _ l (conj Hl Hc)).
Defined.

Definition sample_upload : Commit := mk_commit 1 2 3 3 "users/2/a.zip" 0 false.

Lemma no_workspace_leaks_witness :
  "/tmp/runcodes-judge/commit_1" ∉
    w_paths (fst (process_workspace (UT := ascii_tables) default_config sample_wenv sample_upload empty_W)).
Proof.
  intros Hp.
  refine (not_elem_of_empty (C := gset string) _ (proj1 (no_workspace_leaks (UT := ascii_tables)
    default_config sample_wenv sample_upload empty_W eq_refl _ (fun _ _ => eq_refl) eq_refl eq_refl _ Hp))).
  vm_compute. split; split; discriminate.
Defined.

Lemma expected_outputs_private_witness :
  rooted (cfg_ExecDir default_config) = true /\
  ~ below (baseDir default_config 3) (expectedOutputPath default_config 3 9).
Proof. split; [reflexivity|]. exact (expected_outputs_private default_config eq_refl 3 3 9). Defined.
