(* ===== verification/Runner.v ===== *)
(** * Running a commit

    [src/judge/internal/engine/runner.go] and [container.go]: [Process], from the
    prepared workspace to the terminal event. The code is a sequence of effects on
    the container runtime and the event hub; the model runs it in a state monad
    whose state holds the trace of effects, the recorded timings and the
    [runOutcome], and whose errors are Go's error values. What the outside world
    answers (the runtime, the container's log lines, the files at the moment they
    are read, the clock, the quota monitor) is the record [run_env].

    The log stream is a list of events: a line, or the timer of the current wait
    firing; the end of the list is the stream being closed. *)

From S2P Require Import Prelude Effects GoStrings Float64 JudgeModel JudgeConfig Cmp Grading Language.
From Stdlib Require Import QArith.
Local Open Scope Z_scope.

(** ** Milestones *)

Definition milestoneLine (milestone nonce : string) : string :=
  if String.eqb nonce "" then milestone else milestone +:+ " " +:+ nonce.

Definition caseDoneID (line nonce : string) : option Z :=
  match fields line with
  | [f0; f1; f2] =>
      if negb (String.eqb f0 "case.done") || negb (String.eqb f2 nonce) then None
      else match parse_int f1 with
      | Some id => if id <=? 0 then None else Some id
      | None => None
      end
  | _ => None
  end.

Inductive log_event := LogLine (line : string) | LogTimeout.

Inductive run_error :=
| ErrImage (e : string)
| ErrCreate (e : string)
| ErrStart (e : string)
| ErrStreamEnded (wanted : string)
| ErrTimeout (wanted : string)
| ErrStartup (milestone : string)
| ErrQuota (e : string)
| ErrHarnessExit (code : Z)
| ErrGrade (e : grade_error).

(** ** Effects *)

Inductive action :=
| ActRemoveByName
| ActCreate
| ActStart
| ActRemove
| ActStop
| ActGrade (id : Z)
| ActStatus (status : string)
| ActCompilation (compiled : bool) (message error : string)
| ActCase (r : CaseResult)
| ActArtifactCase (id : Z) (state : string)
| ActArtifact
| ActAlert (milestone : string)
| ActPrepareError (e : string)
| ActError (e : run_error)
| ActTimings (phases : list PhaseTiming)
| ActFinished (status : RunStatus) (correct : Z) (score : float64) (message error : string).

Record runOutcome := mk_outcome {
  ro_status : RunStatus;
  ro_compilationMessage : string;
  ro_compilationError : string;
  ro_caseResults : list CaseResult;
  ro_streamed : option caseStream
}.
#[export] Instance runOutcome_eta : Settable runOutcome := fun o =>
  mk_outcome (ro_status o) (ro_compilationMessage o) (ro_compilationError o) (ro_caseResults o)
    (ro_streamed o).
Definition zero_outcome : runOutcome := mk_outcome RunUnset "" "" [] None.

Record workspace := mk_workspace {
  ws_Language : option Language; ws_TestCases : list TestCase; ws_Compilable : bool; ws_RunNonce : string
}.

(** The places where the runner looks at the quota monitor's verdict. *)
Inductive quota_point :=
| AtCompilationStart | AtCompilationDone | AtCompileFailed | AtRunStart | AtRunDone | AtEnd.

Record run_env := mk_env {
  rv_prepare : RunTimings -> RunTimings;
  rv_image : res string bool;
  rv_create : option string;
  rv_start : option string;
  rv_log : list log_event;
  rv_quota : quota_point -> option string;
  rv_compile_out : file_state;
  rv_compile_err : file_state;
  rv_compile_warnings : file_state;
  rv_compile_monitor : file_state;
  rv_live : Z -> case_files;
  rv_live_fetch : Z -> option file_state;
  rv_final : Z -> case_files;
  rv_final_fetch : Z -> option file_state;
  rv_exit : Z * bool;
  rv_clock : string -> Z * Z * Z;
  rv_published : list (Z * string);
  rv_uploaded : Z
}.

Record St := mk_st { st_trace : list action; st_timings : RunTimings; st_outcome : runOutcome }.
#[export] Instance St_eta : Settable St := fun s => mk_st (st_trace s) (st_timings s) (st_outcome s).

Abbreviation run := (eff St run_error).

Definition emit (a : action) : run unit := modify (fun s => s <| st_trace := st_trace s ++ [a] |>).
Definition timing (f : RunTimings -> RunTimings) : run unit :=
  modify (fun s => s <| st_timings := f (st_timings s) |>).
Definition outcome (f : runOutcome -> runOutcome) : run unit :=
  modify (fun s => s <| st_outcome := f (st_outcome s) |>).

Section Runner.
Context {UT : UnicodeTables} {FT : FloatText} (cfg : Config) (env : run_env) (ws : workspace).

(** [timings.Measure(phase)] and the call of its result. *)
Definition measure (phase : string) : run unit :=
  let '(started, since, finished) := rv_clock env phase in
  timing (fun t => Measure t phase started since finished).

(** [timings.Record(phase, time.Since(start))]. *)
Definition record (phase : string) : run unit :=
  let '(started, since, _) := rv_clock env phase in
  timing (fun t => Record_ t phase (since - started)).

(** ** Waiting for a milestone *)

Inductive await_result := Arrived (rest : list log_event) | Ended | TimedOut.

Fixpoint await_loop (wanted : string) (onLine : string -> run unit) (log : list log_event)
  : run await_result :=
  match log with
  | [] => mret Ended
  | LogTimeout :: _ => mret TimedOut
  | LogLine line :: rest =>
      if String.eqb line wanted then mret (Arrived rest)
      else (_ ← onLine line; await_loop wanted onLine rest)
  end.

Definition no_callback : string -> run unit := fun _ => mret tt.

Definition awaitLine (expected : string) (onLine : string -> run unit) (log : list log_event)
  : run (list log_event) :=
  let wanted := milestoneLine expected (ws_RunNonce ws) in
  r ← await_loop wanted onLine log;
  match r with
  | Arrived rest => mret rest
  | Ended => fail (ErrStreamEnded wanted)
  | TimedOut => fail (ErrTimeout wanted)
  end.

Definition awaitStartup (milestone : string) (log : list log_event) : run (list log_event) :=
  map_error (fun e => match e with ErrTimeout _ => ErrStartup milestone | _ => e end)
    (awaitLine milestone no_callback log).

(** The monitor exists only when a limit is configured. *)
Definition quota_error (p : quota_point) : option string :=
  if (cfg_MaxWorkspaceBytes cfg <=? 0) && (cfg_MaxWorkspaceEntries cfg <=? 0) then None
  else rv_quota env p.

Definition workspaceAware {A} (p : quota_point) (m : run A) : run A :=
  map_error (fun e => match quota_error p with Some q => ErrQuota q | None => e end) m.

Definition check_quota (p : quota_point) : run unit :=
  match quota_error p with Some q => fail (ErrQuota q) | None => mret tt end.

(** ** Compilation *)

(** [secondsDuration]: negative is zero; the conversion truncates. *)
Definition secondsDuration (seconds : float64) : Z :=
  if flt seconds (Fin 0%Q) then 0
  else match fmul seconds (float_of_Z 1000000000) with
  | Fin q => Z.quot (QArith_base.Qnum q) (Zpos (QArith_base.Qden q))
  | _ => 0
  end.

Definition compile_timings (info : monitorInfo) : run unit :=
  if mi_HasTime info then
    timing (fun t => RecordMonitor t PhaseCompile (secondsDuration (mi_Time info))
              (secondsDuration (mi_CPU info)) (mi_HasCPU info) (mi_Mem info) (mi_HasMem info))
  else mret tt.

(** The explanation shown when the compiler wrote nothing. *)
Definition compilation_error_text (info : monitorInfo) (diagnostics : string) : string :=
  if negb (String.eqb diagnostics "") then diagnostics
  else "compilation failed: " +:+
    (if negb (Valid info) then "the monitor did not produce a report"
     else match exitFailureMessage info with
          | (msg, true) => msg
          | _ => "the compiler did not exit successfully"
          end).

Definition with_warnings (message warnings : string) : string :=
  if String.eqb warnings "" then message
  else (if negb (String.eqb (trim_space message) "") then message +:+ nl else message)
       +:+ "compiler warnings:" +:+ nl +:+ warnings.

(** The compilation phase; [None] when the compilation failed and the run is
    over. *)
Definition compile_phase (log : list log_event) : run (option (list log_event)) :=
  log ← workspaceAware AtCompilationStart (awaitStartup "compilation.start" log);
  _ ← record PhaseStartup;
  log ← workspaceAware AtCompilationDone (awaitLine "compilation.done" no_callback log);
  let message := readLimited (rv_compile_out env) (cfg_MaxOutputFileSize cfg) in
  let diagnostics := readLimited (rv_compile_err env) (cfg_MaxOutputFileSize cfg) in
  let warnings := readLimited (rv_compile_warnings env) (cfg_MaxOutputFileSize cfg) in
  _ ← outcome (fun o => o <| ro_compilationMessage := message |>);
  let info := readMonitor (rv_compile_monitor env) in
  _ ← compile_timings info;
  if compilationFailed info then
    _ ← check_quota AtCompileFailed;
    let err := compilation_error_text info diagnostics in
    _ ← outcome (fun o => o <| ro_compilationError := err |> <| ro_status := RunCompilationError |>);
    _ ← emit (ActCompilation false message err);
    mret None
  else
    let warnings := if String.eqb warnings "" then diagnostics else warnings in
    _ ← outcome (fun o => o <| ro_compilationMessage := with_warnings message warnings |>);
    mret (Some log).

(** ** Execution *)

(** The callback of the [run.done] wait: grade and publish a case as soon as its
    milestone arrives, once. *)
Definition on_case_done (line : string) : run unit :=
  streamed ← gets (fun s => default ∅ (ro_streamed (st_outcome s)));
  match caseDoneID line (ws_RunNonce ws) with
  | None => mret tt
  | Some id =>
      match findTestCase (ws_TestCases ws) id with
      | None => mret tt
      | Some tc =>
          match streamed !! id with
          | Some _ => mret tt
          | None =>
              match gradeCase cfg (rv_live_fetch env) tc (rv_live env id) with
              | Err _ => mret tt
              | Ok result =>
                  _ ← outcome (fun o => o <| ro_streamed := Some (<[cr_TestCaseID result := result]> streamed) |>);
                  emit (ActCase result)
              end
          end
      end
  end.

(** The files the final pass reads: those of the cases that were not streamed, up
    to the first case that cannot be graded. *)
Fixpoint grade_reads (streamed : option caseStream) (cases : list TestCase) : list action :=
  match cases with
  | [] => []
  | tc :: rest =>
      match streamed ≫= (fun s => s !! tc_ID tc) with
      | Some _ => grade_reads streamed rest
      | None =>
          ActGrade (tc_ID tc) ::
          match gradeCase cfg (rv_final_fetch env) tc (rv_final env (tc_ID tc)) with
          | Err _ => []
          | Ok _ => grade_reads streamed rest
          end
      end
  end.

Definition stopContainer : run unit := emit ActStop.

Definition run_phase (log : list log_event) : run unit :=
  message ← gets (fun s => ro_compilationMessage (st_outcome s));
  _ ← emit (ActCompilation true message "");
  log ← workspaceAware AtRunStart (awaitStartup "run.start" log);
  _ ← (if ws_Compilable ws then mret tt else record PhaseStartup);
  _ ← emit (ActStatus "running");
  _ ← outcome (fun o => o <| ro_streamed := Some ∅ |>);
  _ ← workspaceAware AtRunDone (awaitLine "run.done" on_case_done log);
  _ ← record PhaseRun;
  _ ← stopContainer;
  _ ← check_quota AtEnd;
  _ ← (let '(code, exited) := rv_exit env in
       if exited && negb (code =? 0) then fail (ErrHarnessExit code) else mret tt);
  streamed ← gets (fun s => ro_streamed (st_outcome s));
  _ ← modify (fun s => s <| st_trace := st_trace s ++ grade_reads streamed (ws_TestCases ws) |>);
  _ ← measure PhaseGrade;
  match gradeAll cfg (rv_final_fetch env) (rv_final env) streamed (ws_TestCases ws) with
  | Err e => fail (ErrGrade e)
  | Ok results => outcome (fun o => o <| ro_caseResults := results |>)
  end.

Definition drive : run unit :=
  if ws_Compilable ws then
    log ← compile_phase (rv_log env);
    match log with None => mret tt | Some log => run_phase log end
  else run_phase (rv_log env).

(** The deferred stop: only when the run phase has not stopped the container. *)
Definition stopped (s : St) : bool :=
  existsb (fun a => match a with ActStop => true | _ => false end) (st_trace s).
Definition deferred_stop : run unit := fun s => if stopped s then (s, Ok tt) else stopContainer s.

Definition runContainer (lang : Language) : run unit :=
  let image := Image lang (cfg_ImageFormat cfg) in
  let '(started, since, _) := rv_clock env PhaseImageEnsure in
  _ ← timing (fun t => RecordDetail t PhaseImageEnsure (since - started)
        [("image", AStr image);
         ("pulled", ABool (match rv_image env with Ok p => p | Err _ => false end))]);
  _ ← (match rv_image env with Err e => fail (ErrImage e) | Ok _ => mret tt end);
  _ ← emit ActRemoveByName;
  _ ← measure PhaseContainerCreate;
  _ ← (match rv_create env with Some e => fail (ErrCreate e) | None => emit ActCreate end);
  _ ← measure PhaseContainerStart;
  _ ← (match rv_start env with
       | Some e => _ ← emit ActRemove; fail (ErrStart e)
       | None => emit ActStart
       end);
  finally drive deferred_stop.

(** ** Finishing *)

Definition classify (e : run_error) : RunStatus :=
  match e with
  | ErrStartup _ => RunServerError
  | ErrTimeout _ => RunTimeout
  | _ => RunServerError
  end.

Definition finish_run (status : RunStatus) (correct : Z) (score : float64) (message errMsg : string) : run unit :=
  t ← gets st_timings;
  _ ← (match Phases t with [] => mret tt | ps => emit (ActTimings ps) end);
  emit (ActFinished status correct score message errMsg).

(** [closePublisher]: the uploads still running report before it returns. *)
Definition closePublisher : run unit :=
  started ← gets (fun s => ro_streamed (st_outcome s));
  match started with
  | None => mret tt
  | Some _ => modify (fun s => s <| st_trace := st_trace s ++
                 map (fun '(id, state) => ActArtifactCase id state) (rv_published env) |>)
  end.

Definition publish_results (streamed : option caseStream) (results : list CaseResult) : list action :=
  omap (fun r => match streamed ≫= (fun s => s !! cr_TestCaseID r) with
                 | Some _ => None | None => Some (ActCase r) end) results.

(** [Process]. Preparing the workspace is the environment's: the phases it times
    and its error, [prepare]. *)
Definition Process (commit : Commit) (prepare : option string) : run unit :=
  _ ← (if c_HasQueueWait commit then timing (fun t => Record_ t PhaseQueue (c_QueueWait commit)) else mret tt);
  _ ← emit (ActStatus "compiling");
  _ ← timing (rv_prepare env);
  match prepare with
  | Some e =>
      _ ← emit (ActPrepareError e);
      finish_run RunServerError 0 (Fin 0%Q) "" ""
  | None =>
      match ws_Language ws with
      | None =>
          _ ← emit (ActPrepareError ("could not determine language for " +:+ Filename commit));
          finish_run RunServerError 0 (Fin 0%Q) "" ""
      | Some lang => fun s =>
          let '(s, r) := runContainer lang s in
          let o := st_outcome s in
          match r with
          | Err e =>
              (_ ← (match e with ErrStartup m => emit (ActAlert m) | _ => mret tt end);
               _ ← closePublisher;
               _ ← emit (ActError e);
               finish_run (classify e) 0 (Fin 0%Q) (ro_compilationMessage o) (ro_compilationError o)) s
          | Ok _ =>
              (_ ← modify (fun s => s <| st_trace := st_trace s ++
                     publish_results (ro_streamed o) (ro_caseResults o) |>);
               _ ← closePublisher;
               _ ← measure PhaseArtifact;
               _ ← (if 0 <? rv_uploaded env then emit ActArtifact else mret tt);
               if bool_decide (ro_status o = RunCompilationError) then
                 finish_run RunCompilationError 0 (Fin 0%Q) (ro_compilationMessage o) (ro_compilationError o)
               else
                 let '(correct, score, status) := scoreRun (ws_TestCases ws) (ro_caseResults o) in
                 finish_run status correct score (ro_compilationMessage o) (ro_compilationError o)) s
          end
      end
  end.

(** The run of a commit: its trace. *)
Definition trace_of (commit : Commit) (prepare : option string) : list action :=
  st_trace (fst (Process commit prepare (mk_st [] NewRunTimings zero_outcome))).

(** [executionTimeout]: the base timeout once per case and once more, plus each
    case's CPU limit or the default, in int64 nanoseconds. *)
Definition case_timeout (tc : TestCase) : Z :=
  if tc_CPUTimeLimit tc <=? 0 then cfg_DefaultCaseTimeout cfg else wrap64 (tc_CPUTimeLimit tc * second).
Definition executionTimeout (cases : list TestCase) : Z :=
  fold_left (fun total tc => wrap64 (total + case_timeout tc)) cases
    (wrap64 (cfg_BaseExecTimeout cfg * (1 + Z.of_nat (length cases)))).
End Runner.

(** [isInternalOutputFile]. *)
Definition isInternalOutputFile (name : string) : bool :=
  let base := path_base name in
  if has_prefix "compilation." base then true
  else
    let ext := path_ext base in
    if existsb (String.eqb ext) [".monitor_out"; ".monitor_err"; ".output"; ".error"]
    then match parse_int (trim_suffix ext base) with Some _ => true | None => false end
    else false.

(** * The protocol of a run

    What the container runtime and the event hub may observe, as a finite
    automaton over effects. *)

Inductive pstate :=
| PInit | PPrepared | PNamed | PCreated | PRunning | PRemoved | PStopped | PFailed | PTimed | PDone.

#[export] Instance pstate_eq_dec : EqDecision pstate.
Proof. solve_decision. Defined.

Definition pstep (q : pstate) (a : action) : option pstate :=
  match q, a with
  | PInit, ActStatus _ => Some PPrepared
  | PPrepared, ActPrepareError _ => Some PFailed
  | PPrepared, ActRemoveByName => Some PNamed
  | PNamed, ActCreate => Some PCreated
  | PCreated, ActStart => Some PRunning
  | PCreated, ActRemove => Some PRemoved
  | PRunning, (ActCompilation _ _ _ | ActStatus _ | ActCase _) => Some PRunning
  | PRunning, ActStop => Some PStopped
  | PStopped, (ActGrade _ | ActCase _ | ActArtifactCase _ _ | ActArtifact | ActAlert _) => Some PStopped
  | (PPrepared | PNamed | PCreated | PRemoved | PStopped), ActError _ => Some PFailed
  | (PStopped | PFailed), ActTimings _ => Some PTimed
  | (PStopped | PFailed | PTimed), ActFinished _ _ _ _ _ => Some PDone
  | _, _ => None
  end.

Fixpoint protocol (q : pstate) (tr : list action) : option pstate :=
  match tr with
  | [] => Some q
  | a :: r => match pstep q a with Some q => protocol q r | None => None end
  end.

Lemma protocol_app q tr1 tr2 :
  protocol q (tr1 ++ tr2) = match protocol q tr1 with Some q => protocol q tr2 | None => None end.
Proof. revert q. induction tr1 as [|a r IH]; intros q; cbn; [done|]. by destruct (pstep q a). Qed.

(** The published case results of a trace. *)
Definition case_of (a : action) : option CaseResult := match a with ActCase r => Some r | _ => None end.
Definition cases (tr : list action) : list CaseResult := omap case_of tr.

Lemma cases_app tr1 tr2 : cases (tr1 ++ tr2) = cases tr1 ++ cases tr2.
Proof. apply omap_app. Qed.

(** Before the stop there is none, and [PStopped] is reached by it. *)
Definition before_stop (q : pstate) : bool :=
  match q with PInit | PPrepared | PNamed | PCreated | PRunning | PRemoved => true | _ => false end.
Definition is_stop (a : action) : bool := match a with ActStop => true | _ => false end.

Lemma protocol_stop tr q :
  protocol PInit tr = Some q ->
  (before_stop q = true -> existsb is_stop tr = false) /\ (q = PStopped -> existsb is_stop tr = true).
Proof.
  revert q. induction tr as [|a tr IH] using rev_ind; intros q; [by intros [= <-]|].
  rewrite protocol_app, existsb_app. destruct (protocol PInit tr) as [q0|]; [|done].
  destruct (IH q0 eq_refl) as [H1 H2]. cbn. rewrite orb_false_r.
  destruct q0, a; cbn; intros [= <-]; cbn; rewrite ?orb_true_r, ?orb_false_r; try done; auto.
Qed.

