(* ===== verification/RunnerProofs.v ===== *)
(** * Properties of a run

    The effects of [Process] follow the protocol of [Runner.v], every test case is
    published once, and the verdict of the terminal event is the one the published
    results give; a verdict needs the milestones of this run's nonce, and the
    submission is blamed for a timeout only after its startup milestone.
 *)

From S2P Require Import Prelude Effects GoStrings Float64 JudgeModel JudgeConfig Cmp Grading Language Runner.
From Stdlib Require Import QArith.
Local Open Scope Z_scope.

(** ** Results of the cases *)

Lemma findTestCase_spec tcs id tc : findTestCase tcs id = Some tc -> tc ∈ tcs /\ tc_ID tc = id.
Proof.
  induction tcs as [|t tcs IH]; cbn; [done|]. destruct (tc_ID t =? id) eqn:E.
  - intros [= ->]. split; [left|lia].
  - intros [H1 H2]%IH. split; [by right|done].
Qed.

Lemma correct_cases_perm l1 l2 : l1 ≡ₚ l2 -> correct_cases l1 = correct_cases l2.
Proof. unfold correct_cases. by intros ->. Qed.

(** ** The invariant of a run *)

Section Invariant.
Context (tcs : list TestCase).

(** The published results are the streamed ones, each test case once. *)
Definition Coherent (tr : list action) (o : runOutcome) : Prop :=
  let S : caseStream := default ∅ (ro_streamed o) in
  stream_keyed S /\
  (forall r, r ∈ cases tr <-> S !! cr_TestCaseID r = Some r) /\
  NoDup (map cr_TestCaseID (cases tr)) /\
  (forall r, r ∈ cases tr -> cr_TestCaseID r ∈ map tc_ID tcs).

(** [b]: the execution phase has begun. *)
Definition Inv (b : bool) (q : pstate) (tr : list action) (o : runOutcome) : Prop :=
  protocol PInit tr = Some q /\ Coherent tr o /\ (b = false <-> ro_streamed o = None) /\
  ro_status o = RunUnset /\ ro_caseResults o = [].

Lemma protocol_emit q q' tr a :
  protocol PInit tr = Some q -> pstep q a = Some q' -> protocol PInit (tr ++ [a]) = Some q'.
Proof. intros H1 H2. rewrite protocol_app, H1. cbn. by rewrite H2. Qed.

Lemma Coherent_emit tr o l :
  Forall (fun a => case_of a = None) l -> Coherent tr o -> Coherent (tr ++ l) o.
Proof.
  intros Ha. assert (Hl : cases l = []).
  { induction Ha as [|a l Ha _ IH]; [done|]. unfold cases in *. cbn. by rewrite Ha. }
  unfold Coherent. by rewrite cases_app, Hl, app_nil_r.
Qed.

Lemma Inv_emit b q q' tr o a :
  Inv b q tr o -> pstep q a = Some q' -> case_of a = None -> Inv b q' (tr ++ [a]) o.
Proof.
  intros (H1 & H2 & H3) Hs Hc. split_and!; [by eapply protocol_emit| |apply H3..].
  apply Coherent_emit; [by repeat constructor|done].
Qed.

Lemma Inv_outcome b q tr o o' :
  Inv b q tr o -> ro_streamed o' = ro_streamed o -> ro_status o' = ro_status o ->
  ro_caseResults o' = ro_caseResults o -> Inv b q tr o'.
Proof. unfold Inv, Coherent. by intros H -> -> ->. Qed.

Lemma Inv_protocol b q tr o : Inv b q tr o -> protocol PInit tr = Some q.
Proof. by intros [H _]. Qed.

Lemma stream_empty_lookup id r : (∅ : caseStream) !! id = Some r -> False.
Proof. intros H. by apply (lookup_empty_Some (M := gmap Z)) in H. Qed.

Lemma Inv_no_case q tr o : Inv false q tr o -> cases tr = [].
Proof.
  intros (_ & (_ & Hc & _) & H3 & _). rewrite (proj1 H3 eq_refl) in Hc.
  destruct (cases tr) as [|r l]; [done|]. pose proof (proj1 (Hc r) (list_elem_of_here _ _)) as H.
  exact (False_ind _ (stream_empty_lookup _ _ H)).
Qed.

(** The compilation failed: nothing was run. *)
Definition CompFailed (q : pstate) (tr : list action) (o : runOutcome) : Prop :=
  protocol PInit tr = Some q /\ cases tr = [] /\ ro_streamed o = None /\
  ro_status o = RunCompilationError /\ ro_caseResults o = [].

Lemma CompFailed_emit q q' tr o a :
  CompFailed q tr o -> pstep q a = Some q' -> case_of a = None -> CompFailed q' (tr ++ [a]) o.
Proof.
  intros (H1 & H2 & H3) Hs Hc. split_and!; [by eapply protocol_emit| |apply H3..].
  rewrite cases_app, H2. unfold cases. cbn. by rewrite Hc.
Qed.

Lemma Inv_start_stream q tr o : Inv false q tr o -> Inv true q tr (o <| ro_streamed := Some ∅ |>).
Proof.
  intros (H1 & H2 & H3 & H4). split_and!; [done| |done|apply H4..].
  unfold Coherent in *. rewrite (proj1 H3 eq_refl) in H2. exact H2.
Qed.

Lemma Inv_case tr o r :
  Inv true PRunning tr o -> cr_TestCaseID r ∈ map tc_ID tcs ->
  default ∅ (ro_streamed o) !! cr_TestCaseID r = None ->
  Inv true PRunning (tr ++ [ActCase r])
    (o <| ro_streamed := Some (<[cr_TestCaseID r := r]> (default ∅ (ro_streamed o))) |>).
Proof.
  intros (H1 & (Hk & Hc & Hn & Ht) & H3 & H4) Hin Hnone.
  split_and!; [by eapply protocol_emit| |done|apply H4..].
  unfold Coherent. cbn. rewrite cases_app. change (cases [ActCase r]) with [r].
  set (S := default ∅ (ro_streamed o)) in *. unfold caseStream in *.
  split_and!.
  - by apply stream_keyed_insert.
  - intros r'. rewrite elem_of_app, list_elem_of_singleton, Hc.
    destruct (decide (cr_TestCaseID r' = cr_TestCaseID r)) as [E|E].
    + rewrite E, lookup_insert_eq, Hnone. split; [by intros [?|<-]|intros [= <-]; by right].
    + rewrite lookup_insert_ne by done. split; [by intros [?| ->]|by left].
  - rewrite map_app. apply NoDup_app. split_and!; [done| |apply NoDup_singleton].
    intros id (r' & -> & Hr')%list_elem_of_fmap. cbn. rewrite list_elem_of_singleton.
    apply Hc in Hr'. intros E. rewrite E in Hr'. congruence.
  - intros r'. rewrite elem_of_app, list_elem_of_singleton. intros [Hr| ->]; [by apply Ht|done].
Qed.

End Invariant.

#[global] Arguments Inv : simpl never.

(** The runner's own operations. *)
Ltac wp_step :=
  lazymatch goal with
  | |- wp (emit _) _ _ _ => apply wp_modify
  | |- wp (timing _) _ _ _ => apply wp_modify
  | |- wp (outcome _) _ _ _ => apply wp_modify
  | |- wp (measure _ _) _ _ _ => unfold measure; destruct (rv_clock _ _) as [[? ?] ?]; apply wp_modify
  | |- wp (record _ _) _ _ _ => unfold record; destruct (rv_clock _ _) as [[? ?] ?]; apply wp_modify
  | |- wp (workspaceAware _ _ _ _) _ _ _ => unfold workspaceAware
  | |- wp (finally _ _) _ _ _ => fail "use wp_finally"
  | |- _ => wp_core
  end; cbn [st_trace st_timings st_outcome].
Ltac wp_steps := repeat wp_step.

Section Safety.
Context {UT : UnicodeTables} {FT : FloatText} (cfg : Config) (env : run_env) (ws : workspace).
Local Abbreviation inv b q s := (Inv (ws_TestCases ws) b q (st_trace s) (st_outcome s)).

Lemma await_loop_inv b q wanted onLine log s :
  (forall line s E, inv b q s -> wp (onLine line) (fun _ s => inv b q s) E s) ->
  inv b q s -> forall E, wp (await_loop wanted onLine log) (fun _ s => inv b q s) E s.
Proof.
  intros Hl. revert s. induction log as [|[line|] log IH]; intros s H E; cbn [await_loop]; [done| |done].
  case_match; [done|]. wp_step. eapply wp_mono; [exact (Hl _ _ E H)| |done].
  intros ? s' H'. by apply IH.
Qed.

Lemma awaitLine_inv b q expected onLine log s :
  (forall line s E, inv b q s -> wp (onLine line) (fun _ s => inv b q s) E s) ->
  inv b q s ->
  wp (awaitLine ws expected onLine log) (fun _ s => inv b q s) (fun _ s => inv b q s) s.
Proof.
  intros Hl H. unfold awaitLine. wp_step. eapply wp_mono; [exact (await_loop_inv b q _ onLine log s Hl H (fun _ s => inv b q s))| |done].
  intros [rest| |] s' H'; by wp_steps.
Qed.

Lemma awaitStartup_inv b q milestone log s :
  inv b q s ->
  wp (awaitStartup ws milestone log) (fun _ s => inv b q s) (fun _ s => inv b q s) s.
Proof.
  intros H. unfold awaitStartup. wp_step.
  assert (Hl : forall line s E, inv b q s -> wp (no_callback line) (fun _ s => inv b q s) E s).
  { intros line s' E H'. by apply wp_ret. }
  eapply wp_mono; [exact (awaitLine_inv b q milestone no_callback log s Hl H)|done|].
  intros e s' H'. exact H'.
Qed.

Lemma check_quota_inv p Q E s :
  Q tt s -> (forall q, E (ErrQuota q) s) -> wp (check_quota cfg env p) Q E s.
Proof. intros H1 H2. unfold check_quota. case_match; wp_step; auto. Qed.

Lemma on_case_done_inv line s E :
  inv true PRunning s -> wp (on_case_done cfg env ws line) (fun _ s => inv true PRunning s) E s.
Proof.
  intros H. unfold on_case_done. do 2 wp_step.
  destruct (caseDoneID line (ws_RunNonce ws)) as [id|]; [|by wp_step].
  destruct (findTestCase (ws_TestCases ws) id) as [tc|] eqn:Ef; [|by wp_step].
  apply findTestCase_spec in Ef as [Hin <-].
  destruct (_ !! tc_ID tc) as [r|] eqn:El; [by wp_step|].
  destruct (gradeCase _ _ _ _) as [r|e] eqn:Eg; [|by wp_step].
  apply gradeCase_common in Eg as [Hid _]. wp_steps. rewrite <- Hid in El.
  apply (Inv_case _ _ _ _ H); [|exact El]. rewrite Hid. by apply list_elem_of_fmap_2.
Qed.

(** The suite ran and was graded. *)
Definition Graded (tr : list action) (o : runOutcome) : Prop :=
  protocol PInit tr = Some PStopped /\ Coherent (ws_TestCases ws) tr o /\ ro_status o = RunUnset /\
  ro_streamed o <> None /\
  gradeAll cfg (rv_final_fetch env) (rv_final env) (ro_streamed o) (ws_TestCases ws)
    = Ok (ro_caseResults o).

Lemma compile_phase_inv log s :
  inv false PRunning s ->
  wp (compile_phase cfg env ws log)
     (fun r s => match r with
                 | Some _ => inv false PRunning s
                 | None => CompFailed PRunning (st_trace s) (st_outcome s) end)
     (fun _ s => inv false PRunning s) s.
Proof.
  intros H. unfold compile_phase. wp_steps.
  eapply wp_mono; [exact (awaitStartup_inv false PRunning _ _ _ H)| |done].
  clear s H. intros log' s H. wp_steps.
  eapply wp_mono; [refine (awaitLine_inv false PRunning _ no_callback _ _ _ _); [by intros; apply wp_ret|exact H]| |done].
  clear s H. intros log2 s H. wp_steps. unfold compile_timings.
  set (msg := readLimited (rv_compile_out env) _).
  set (info := readMonitor _).
  assert (H' : Inv (ws_TestCases ws) false PRunning (st_trace s)
                 ((st_outcome s) <| ro_compilationMessage := msg |>)) by exact (Inv_outcome _ _ _ _ _ _ H eq_refl eq_refl eq_refl).
  eapply (wp_mono _ _ (fun _ s => inv false PRunning s) _ (fun _ s => inv false PRunning s));
    [destruct (mi_HasTime info); wp_steps; exact H'| |done].
  clear s H H'. intros _ s H. destruct (compilationFailed info).
  - wp_steps. apply check_quota_inv; [|done]. wp_steps.
    apply (CompFailed_emit PRunning); [|done..]. pose proof (Inv_no_case _ _ _ _ H) as Hn.
    destruct H as (H1 & H2 & H3 & H4 & H5). split_and!; [done|done|by apply H3|done|done].
  - wp_steps. exact (Inv_outcome _ _ _ _ _ _ H eq_refl eq_refl eq_refl).
Qed.

Lemma grade_reads_protocol streamed tcs tr :
  protocol PInit tr = Some PStopped -> protocol PInit (tr ++ grade_reads cfg env streamed tcs) = Some PStopped.
Proof.
  intros H. rewrite protocol_app, H. induction tcs as [|tc tcs IH]; cbn [grade_reads]; [done|].
  case_match; [done|]. cbn. by case_match.
Qed.

Lemma grade_reads_no_case streamed tcs :
  Forall (fun a => case_of a = None) (grade_reads cfg env streamed tcs).
Proof.
  induction tcs as [|tc tcs IH]; cbn [grade_reads]; [constructor|].
  case_match; [done|]. constructor; [done|]. by case_match; [|constructor].
Qed.

Definition run_errored (s : St) : Prop := inv true PRunning s \/ inv false PRunning s \/ inv true PStopped s.

Lemma run_phase_inv log s :
  inv false PRunning s ->
  wp (run_phase cfg env ws log) (fun _ s => Graded (st_trace s) (st_outcome s))
     (fun _ s => run_errored s) s.
Proof.
  intros H. unfold run_phase. wp_steps.
  assert (H' := Inv_emit _ _ _ PRunning _ _
    (ActCompilation true (ro_compilationMessage (st_outcome s)) "") H eq_refl eq_refl).
  eapply wp_mono; [refine (awaitStartup_inv false PRunning _ _ _ _); exact H'| |by right; left].
  clear s H H'. intros log2 s H. wp_step.
  eapply (wp_mono _ _ (fun _ s => inv false PRunning s) _ (fun _ s => inv false PRunning s));
    [destruct (ws_Compilable ws); wp_steps; exact H| |by right; left].
  clear s H. intros _ s H. wp_steps.
  assert (H' := Inv_start_stream _ _ _ _
    (Inv_emit _ _ _ PRunning _ _ (ActStatus "running") H eq_refl eq_refl)).
  eapply wp_mono; [refine (awaitLine_inv true PRunning _ _ _ _ _ _); [apply on_case_done_inv|exact H']
                  | |by left].
  clear s H H'. intros log3 s H. wp_steps. unfold stopContainer. wp_steps.
  assert (H' := Inv_emit _ _ _ PStopped _ _ ActStop H eq_refl eq_refl). clear H.
  apply check_quota_inv; [|by right; right]. wp_steps.
  destruct (_ && negb _); wp_steps; [by right; right|].
  destruct H' as (H1 & H2 & H3 & H4 & H5).
  apply (grade_reads_protocol (ro_streamed (st_outcome s)) (ws_TestCases ws)) in H1.
  apply (Coherent_emit _ _ _ _ (grade_reads_no_case (ro_streamed (st_outcome s)) (ws_TestCases ws))) in H2.
  match goal with |- wp (match gradeAll _ _ _ ?x _ with _ => _ end) _ _ _ =>
    change x with (ro_streamed (st_outcome s)) end.
  destruct (gradeAll cfg _ _ (ro_streamed (st_outcome s)) (ws_TestCases ws)) as [results|e] eqn:Eg; wp_steps.
  - split_and!; [exact H1|exact H2|apply H4| |exact Eg].
    cbn. intros Hn. by apply H3 in Hn.
  - right; right. by split_and!.
Qed.

Lemma drive_inv s :
  inv false PRunning s ->
  wp (drive cfg env ws)
     (fun _ s => CompFailed PRunning (st_trace s) (st_outcome s) \/ Graded (st_trace s) (st_outcome s))
     (fun _ s => run_errored s) s.
Proof.
  intros H. unfold drive. destruct (ws_Compilable ws).
  - wp_step. eapply wp_mono; [by apply compile_phase_inv| |by right; left].
    intros [log|] s'; cbn; [|by left].
    intros H'. eapply wp_mono; [by apply run_phase_inv|by right|done].
  - eapply wp_mono; [by apply run_phase_inv|by right|done].
Qed.

Lemma deferred_stop_running (Q : unit -> St -> Prop) E s :
  protocol PInit (st_trace s) = Some PRunning ->
  wp stopContainer Q E s -> wp deferred_stop Q E s.
Proof.
  intros H HQ. unfold wp, deferred_stop. change (stopped s) with (existsb is_stop (st_trace s)).
  by rewrite (proj1 (protocol_stop _ _ H) eq_refl).
Qed.

Lemma deferred_stop_stopped (Q : unit -> St -> Prop) E s :
  protocol PInit (st_trace s) = Some PStopped -> Q tt s -> wp deferred_stop Q E s.
Proof.
  intros H HQ. unfold wp, deferred_stop. change (stopped s) with (existsb is_stop (st_trace s)).
  by rewrite (proj2 (protocol_stop _ _ H) eq_refl).
Qed.

(** The state in which [runContainer] returns an error. *)
Definition container_errored (e : run_error) (s : St) : Prop :=
  (exists b, inv b PStopped s) \/
  ((forall m, e <> ErrStartup m) /\
   exists q, inv false q s /\ q ∈ [PPrepared; PNamed; PRemoved]).

Lemma runContainer_inv lang s :
  inv false PPrepared s ->
  wp (runContainer cfg env ws lang)
     (fun _ s => CompFailed PStopped (st_trace s) (st_outcome s) \/ Graded (st_trace s) (st_outcome s))
     container_errored s.
Proof.
  intros H. unfold runContainer. wp_steps.
  destruct (rv_image env) as [p|e]; wp_steps; [|right; split; [done|]; exists PPrepared; set_solver].
  apply (Inv_emit _ _ _ PNamed _ _ ActRemoveByName) in H; [|done..].
  destruct (rv_create env) as [e|]; wp_steps; [right; split; [done|]; exists PNamed; set_solver|].
  apply (Inv_emit _ _ _ PCreated _ _ ActCreate) in H; [|done..].
  destruct (rv_start env) as [e|]; wp_steps.
  { apply (Inv_emit _ _ _ PRemoved _ _ ActRemove) in H; [|done..].
    right; split; [done|]; exists PRemoved; set_solver. }
  apply (Inv_emit _ _ _ PRunning _ _ ActStart) in H; [|done..].
  apply wp_finally. eapply wp_mono; [apply drive_inv; exact H| |]; clear s H.
  - intros _ s [H|H].
    + apply deferred_stop_running; [apply H|]. left. by apply (CompFailed_emit PRunning).
    + apply deferred_stop_stopped; [apply H|]. by right.
  - intros e s [H|[H|H]].
    1,2: apply deferred_stop_running; [by eapply Inv_protocol|]; left; eexists;
         by apply (Inv_emit _ _ PRunning).
    apply deferred_stop_stopped; [by eapply Inv_protocol|]. left. by eexists.
Qed.

(** ** The terminal event *)

(** What the published results [L] and the terminal event's status and count say
    of each other. *)
Definition Reported (L : list CaseResult) (status : RunStatus) (correct : Z) : Prop :=
  NoDup (map tc_ID (ws_TestCases ws)) ->
  NoDup (map cr_TestCaseID L) /\
  (forall r, r ∈ L -> cr_TestCaseID r ∈ map tc_ID (ws_TestCases ws)) /\
  (status = RunCompleted \/ status = RunUncompleted ->
     map cr_TestCaseID L ≡ₚ map tc_ID (ws_TestCases ws) /\
     correct = correct_cases L /\
     (status = RunCompleted <->
        ws_TestCases ws <> [] /\ Forall (fun r => cr_Status r = CaseCorrect) L)).

Definition Final (tr : list action) : Prop :=
  protocol PInit tr = Some PDone /\
  exists status correct score message error,
    last tr = Some (ActFinished status correct score message error) /\
    Reported (cases tr) status correct.

Lemma Final_snoc q tr status correct score message error :
  protocol PInit tr = Some q -> q ∈ [PStopped; PFailed; PTimed] -> Reported (cases tr) status correct ->
  Final (tr ++ [ActFinished status correct score message error]).
Proof.
  intros H Hq HR. split.
  - eapply protocol_emit; [exact H|]. set_unfold. by destruct Hq as [->|[->|[->|?]]].
  - exists status, correct, score, message, error. split; [apply last_snoc|].
    rewrite cases_app. change (cases [ActFinished _ _ _ _ _]) with (@nil CaseResult).
    by rewrite app_nil_r.
Qed.

Lemma finish_run_final q status correct score message error s E :
  protocol PInit (st_trace s) = Some q -> q ∈ [PStopped; PFailed] ->
  Reported (cases (st_trace s)) status correct ->
  wp (finish_run status correct score message error) (fun _ s => Final (st_trace s)) E s.
Proof.
  intros H Hq HR. unfold finish_run. wp_steps.
  destruct (Phases (st_timings s)) as [|ph phs]; wp_steps.
  - eapply Final_snoc; [exact H| |exact HR]. set_solver.
  - apply (Final_snoc PTimed); [|set_solver|].
    + eapply protocol_emit; [exact H|]. set_unfold. by destruct Hq as [->|[->|?]].
    + cbn. rewrite cases_app. change (cases [ActTimings _]) with (@nil CaseResult).
      by rewrite app_nil_r.
Qed.

Lemma Reported_failed tr o status :
  Coherent (ws_TestCases ws) tr o -> status <> RunCompleted -> status <> RunUncompleted ->
  Reported (cases tr) status 0.
Proof. intros (_ & _ & Hn & Hi) H1 H2 _. split_and!; [done|done|naive_solver]. Qed.

Lemma classify_failed e : classify e <> RunCompleted /\ classify e <> RunUncompleted.
Proof. by destruct e. Qed.

(** The last results published, those of the cases that were not streamed. *)
Lemma publish_cases streamed results :
  cases (publish_results streamed results) =
  filter (fun r => streamed ≫= (fun s => s !! cr_TestCaseID r) = None) results.
Proof.
  induction results as [|r rs IH]; [done|]. unfold cases, publish_results in *.
  rewrite filter_cons. cbn. destruct (streamed ≫= _) eqn:E; cbn; rewrite IH, decide_bool_decide.
  - by rewrite bool_decide_false.
  - by rewrite bool_decide_true.
Qed.

Lemma publish_protocol streamed results tr :
  protocol PInit tr = Some PStopped -> protocol PInit (tr ++ publish_results streamed results) = Some PStopped.
Proof.
  intros H. rewrite protocol_app, H. induction results as [|r rs IH]; [done|].
  unfold publish_results in *. cbn. by destruct (streamed ≫= _).
Qed.

Lemma graded_permutation tr o (Hnd : NoDup (map tc_ID (ws_TestCases ws))) :
  Graded tr o ->
  cases (tr ++ publish_results (ro_streamed o) (ro_caseResults o)) ≡ₚ ro_caseResults o /\
  map cr_TestCaseID (ro_caseResults o) = map tc_ID (ws_TestCases ws).
Proof.
  intros (_ & (Hk & Hc & Hn & Hi) & _ & Hs & Hg).
  destruct (ro_streamed o) as [S|]; [|done]. cbn [default id] in *.
  destruct (gradeAll_results _ _ _ _ _ _ Hk Hg) as [Hm Hf]. split; [|done].
  rewrite <- Hm in Hnd, Hi. rewrite cases_app, publish_cases. cbn [mbind option_bind].
  unfold caseStream in *. set (L := cases tr) in *. set (P := filter _ _). set (R := ro_caseResults o) in *.
  assert (HP : forall r, r ∈ P <-> r ∈ R /\ S !! cr_TestCaseID r = None).
  { intros r. unfold P. rewrite list_elem_of_filter. tauto. }
  assert (HR : forall r r', r ∈ R -> S !! cr_TestCaseID r = Some r' -> r = r').
  { intros r r' Hr Hx. apply list_elem_of_lookup in Hr as [i Hr].
    destruct (Forall2_lookup_r _ _ _ _ _ Hf Hr) as (tc & Htc & Hp).
    apply Hp. assert (tc_ID tc = cr_TestCaseID r) as ->; [|done].
    assert (E := f_equal (fun l => l !! i) Hm). cbn in E.
    rewrite !list_lookup_fmap, Hr, Htc in E. by injection E. }
  assert (HndR : NoDup R) by by eapply NoDup_fmap_1.
  apply NoDup_Permutation; [|done|].
  - apply NoDup_app. split_and!; [by eapply NoDup_fmap_1| |].
    + intros r Hr%Hc [_ Hx]%HP. congruence.
    + by apply NoDup_filter.
  - intros r. rewrite elem_of_app, HP, Hc. split.
    + intros [Hx|[Hr _]]; [|done].
      assert (Hr : cr_TestCaseID r ∈ map cr_TestCaseID R) by by apply Hi, Hc.
      apply list_elem_of_fmap in Hr as (r' & E & Hr). rewrite E in Hx.
      by rewrite <- (HR _ _ Hr Hx).
    + intros Hr. destruct (S !! cr_TestCaseID r) as [r'|] eqn:E; [|by right].
      left. by pose proof (HR _ _ Hr E) as ->.
Qed.

Lemma Graded_reported tr o :
  Graded tr o ->
  let '(correct, _, status) := scoreRun (ws_TestCases ws) (ro_caseResults o) in
  Reported (cases (tr ++ publish_results (ro_streamed o) (ro_caseResults o))) status correct.
Proof.
  intros HG. destruct (scoreRun _ _) as [[correct score] status] eqn:Esc. intros Hnd.
  destruct (graded_permutation tr o Hnd HG) as [Hp Hm]. rewrite <- Hm in Hnd |- *.
  split_and!; [by rewrite Hp| |intros _; split_and!; [by rewrite Hp| |]].
  - intros r Hr. rewrite Hp in Hr. by apply list_elem_of_fmap_2.
  - rewrite (correct_cases_perm _ _ Hp). unfold scoreRun in Esc.
    destruct (_ =? 0) eqn:E0; [|by case_match; injection Esc].
    assert (ro_caseResults o = []) as ->.
    { destruct (ws_TestCases ws); [|done]. by destruct (ro_caseResults o). }
    by injection Esc as <-.
  - rewrite Hp, <- correct_cases_all. unfold scoreRun in Esc.
    assert (length (ro_caseResults o) = length (ws_TestCases ws)) as Hlen.
    { apply (f_equal length) in Hm. by rewrite !length_map in Hm. }
    rewrite Hlen. destruct (_ =? 0) eqn:E0.
    + injection Esc as _ _ <-. split; [done|]. intros [Hne _]. destruct Hne. apply length_zero_iff_nil. lia.
    + assert (ws_TestCases ws <> []) by (intros Hnil; by rewrite Hnil in E0).
      destruct (correct_cases _ =? _) eqn:E; injection Esc as _ _ <-; [split; [split; [done|lia]|done]|].
      split; [done|lia].
Qed.

Lemma closePublisher_final (Q : St -> Prop) E s :
  (forall l, Forall (fun a => case_of a = None) l ->
     protocol PStopped l = Some PStopped ->
     (ro_streamed (st_outcome s) = None -> l = []) ->
     forall t, Q (mk_st (st_trace s ++ l) t (st_outcome s))) ->
  wp (closePublisher env) (fun _ => Q) E s.
Proof.
  intros H. unfold closePublisher. wp_steps. destruct s as [tr t o]; cbn in *.
  destruct (ro_streamed o) eqn:Es; wp_steps.
  - apply H; [| |done]; induction (rv_published env) as [|[id state] l IH]; by try constructor.
  - rewrite <- (app_nil_r tr). by apply H.
Qed.

Lemma Inv_initial : Inv (ws_TestCases ws) false PInit [] zero_outcome.
Proof.
  split_and!; try done. unfold Coherent. cbn. split_and!.
  - apply stream_keyed_empty.
  - intros r. split; [by intros ?%elem_of_nil|by intros ?%stream_empty_lookup].
  - constructor.
  - by intros r ?%elem_of_nil.
Qed.

Lemma process_error_final e s E :
  container_errored e s ->
  wp (_ ← (match e with ErrStartup m => emit (ActAlert m) | _ => mret tt end);
      _ ← closePublisher env;
      _ ← emit (ActError e);
      finish_run (classify e) 0 (Fin 0%Q) (ro_compilationMessage (st_outcome s))
        (ro_compilationError (st_outcome s)))
     (fun _ s => Final (st_trace s)) E s.
Proof.
  intros He. destruct (classify_failed e) as [Hc1 Hc2].
  set (msg := ro_compilationMessage _). set (err := ro_compilationError _). clearbody msg err.
  wp_step. eapply (wp_mono _ _ (fun _ => container_errored e) _ (fun _ _ => False)); [| |done].
  { destruct e as [| | | | |m| | |]; wp_steps; try exact He.
    destruct He as [[b Hb]|[Hm _]]; [|by destruct (Hm m)].
    left. exists b. exact (Inv_emit _ _ _ _ _ _ (ActAlert m) Hb eq_refl eq_refl). }
  clear s He. intros _ s He. wp_step. apply closePublisher_final. intros l Hl1 Hl2 Hl3 t. wp_steps.
  destruct He as [[b (H1 & H2 & _)]|[_ (q & (H1 & H2 & H3 & _) & Hq)]].
  - apply (finish_run_final PFailed); [|set_solver|]; cbn.
    + eapply protocol_emit; [by rewrite protocol_app, H1|done].
    + eapply Reported_failed; [|done..].
      by do 2 (eapply Coherent_emit; [by repeat constructor|]).
  - rewrite (Hl3 (proj1 H3 eq_refl)). rewrite app_nil_r.
    apply (finish_run_final PFailed); [|set_solver|]; cbn.
    + eapply protocol_emit; [exact H1|]. set_unfold. by destruct Hq as [->|[->|[->|?]]].
    + eapply Reported_failed; [|done..]. by eapply Coherent_emit; [by repeat constructor|].
Qed.

Lemma process_result_final s E :
  CompFailed PStopped (st_trace s) (st_outcome s) \/ Graded (st_trace s) (st_outcome s) ->
  let o := st_outcome s in
  wp (_ ← modify (fun s => s <| st_trace := st_trace s ++
             publish_results (ro_streamed o) (ro_caseResults o) |>);
      _ ← closePublisher env;
      _ ← measure env PhaseArtifact;
      _ ← (if 0 <? rv_uploaded env then emit ActArtifact else mret tt);
      if bool_decide (ro_status o = RunCompilationError) then
        finish_run RunCompilationError 0 (Fin 0%Q) (ro_compilationMessage o) (ro_compilationError o)
      else
        let '(correct, score, status) := scoreRun (ws_TestCases ws) (ro_caseResults o) in
        finish_run status correct score (ro_compilationMessage o) (ro_compilationError o))
     (fun _ s => Final (st_trace s)) E s.
Proof.
  intros H o. wp_steps. set (P := publish_results _ _).
  assert (HP : protocol PInit (st_trace s ++ P) = Some PStopped).
  { apply publish_protocol. by destruct H as [H|H]; apply H. }
  apply closePublisher_final. intros l Hl1 Hl2 _ t. cbn [st_trace].
  assert (Hl : cases l = []).
  { clear -Hl1. induction Hl1 as [|a l Ha _ IH]; [done|]. unfold cases in *. cbn. by rewrite Ha. }
  do 3 wp_step. set (tr := (st_trace s ++ P) ++ l).
  assert (Hp : protocol PInit tr = Some PStopped) by (unfold tr; by rewrite protocol_app, HP).
  assert (Hc : cases tr = cases (st_trace s ++ P)) by (unfold tr; by rewrite cases_app, Hl, app_nil_r).
  eapply (wp_mono _ _ (fun _ s' => protocol PInit (st_trace s') = Some PStopped /\
    cases (st_trace s') = cases (st_trace s ++ P)) _ (fun _ _ => False)); [| |done].
  { destruct (0 <? rv_uploaded env); wp_steps; [|by split].
    split; [exact (protocol_emit PStopped PStopped tr ActArtifact Hp eq_refl)|].
    rewrite <- Hc. change (cases (tr ++ [ActArtifact]) = cases tr). by rewrite cases_app, app_nil_r. }
  clear tr Hp Hc.
  intros _ s' [Hp Hc]. destruct H as [(_ & Hn & Hs & Hst & Hr)|HG].
  - rewrite bool_decide_true by done. apply (finish_run_final PStopped); [done|set_solver|].
    rewrite Hc, cases_app, Hn. unfold P, o. rewrite Hr. cbn.
    intros _. split_and!; [constructor|by intros r ?%elem_of_nil|by intros [?|?]].
  - assert (HR := Graded_reported _ _ HG).
    rewrite bool_decide_false by (destruct HG as (_ & _ & Hst & _); unfold o; by rewrite Hst).
    destruct (scoreRun _ _) as [[correct score] status].
    apply (finish_run_final PStopped); [done|set_solver|]. by rewrite Hc.
Qed.

Lemma Process_final commit prepare : Final (trace_of cfg env ws commit prepare).
Proof.
  enough (H : wp (Process cfg env ws commit prepare) (fun _ s => Final (st_trace s)) (fun _ s => Final (st_trace s))
    (mk_st [] NewRunTimings zero_outcome)).
  { unfold wp, trace_of in *. by destruct (Process _ _ _ _ _ _) as [s [?|?]]. }
  unfold Process. wp_step.
  eapply (wp_mono _ _ (fun _ s => inv false PInit s) _ (fun _ _ => False)); [| |done].
  { destruct (c_HasQueueWait commit); wp_steps; exact Inv_initial. }
  intros _ s H. wp_steps.
  apply (Inv_emit _ _ _ PPrepared _ _ (ActStatus "compiling")) in H; [|done..].
  assert (Hfail : forall e s', inv false PPrepared s' ->
    wp (_ ← emit (ActPrepareError e); finish_run RunServerError 0 (Fin 0%Q) "" "")
       (fun _ s => Final (st_trace s)) (fun _ s => Final (st_trace s)) s').
  { intros e s' (H1 & H2 & _). wp_steps. apply (finish_run_final PFailed); [|set_solver|]; cbn.
    - by eapply protocol_emit.
    - eapply Reported_failed; [|done..]. by eapply Coherent_emit; [by repeat constructor|]. }
  destruct prepare as [e|]; [apply Hfail; exact H|].
  destruct (ws_Language ws) as [lang|]; [|apply Hfail; exact H].
  match goal with |- wp _ _ _ ?s1 => assert (HC := runContainer_inv lang s1 H); clear H Hfail; set (s2 := s1) in * end.
  unfold wp in HC |- *. destruct (runContainer _ _ _ _ s2) as [s3 [u|e]].
  - apply process_result_final. exact HC.
  - apply process_error_final. exact HC.
Qed.

End Safety.

(** ** What the log must say *)

(** The milestones [names], with the run's nonce, in order and before any wait
    times out. *)
Fixpoint passed (nonce : string) (names : list string) (log : list log_event) : Prop :=
  match names with
  | [] => True
  | m :: ms => exists pre rest, log = pre ++ LogLine (milestoneLine m nonce) :: rest /\
                 LogTimeout ∉ pre /\ passed nonce ms rest
  end.

(** A wait timed out after the milestone [m]. *)
Definition timed_out_after (nonce m : string) (log : list log_event) : Prop :=
  exists pre rest, log = pre ++ LogLine (milestoneLine m nonce) :: rest /\
    LogTimeout ∉ pre /\ LogTimeout ∈ rest.

(** The milestones of a run that is graded. *)
Definition milestones (compilable : bool) : list string :=
  (if compilable then ["compilation.start"; "compilation.done"] else []) ++ ["run.start"; "run.done"].

Definition startup_milestone (compilable : bool) : string :=
  if compilable then "compilation.start" else "run.start".

Section Log.
Context {UT : UnicodeTables} {FT : FloatText} (cfg : Config) (env : run_env) (ws : workspace).
Local Abbreviation nonce := (ws_RunNonce ws).

Definition reaches (m : string) (log rest : list log_event) : Prop :=
  exists pre, log = pre ++ LogLine (milestoneLine m nonce) :: rest /\ LogTimeout ∉ pre.

(** What an error of the log's waits says: a [timeoutError] needs a timeout. *)
Definition timeout_in (log : list log_event) (e : run_error) : Prop :=
  match e with ErrTimeout _ => LogTimeout ∈ log | _ => True end.

Lemma await_loop_reaches m onLine log s :
  (forall line s E, wp (onLine line) (fun _ _ => True) E s) -> forall E,
  wp (await_loop (milestoneLine m nonce) onLine log)
     (fun r _ => match r with
                 | Arrived rest => reaches m log rest
                 | TimedOut => LogTimeout ∈ log
                 | Ended => True end) E s.
Proof.
  intros Hl. revert s. induction log as [|[line|] log IH]; intros s E; cbn [await_loop];
    [done| |apply wp_ret; by left].
  destruct (String.eqb_spec line (milestoneLine m nonce)) as [->|Hne].
  - wp_step. exists []. split; [done|]. by intros ?%elem_of_nil.
  - wp_step. eapply wp_mono; [exact (Hl _ _ E)| |done]. intros [] s' _.
    eapply wp_mono; [exact (IH s' E)| |done]. intros [rest| |] _; [|done|by right].
    intros (pre & -> & Hn). exists (LogLine line :: pre). split; [done|].
    by intros [?|?]%elem_of_cons.
Qed.

Lemma awaitLine_reaches m onLine log s :
  (forall line s E, wp (onLine line) (fun _ _ => True) E s) ->
  wp (awaitLine ws m onLine log) (fun rest _ => reaches m log rest) (fun e _ => timeout_in log e) s.
Proof.
  intros Hl. unfold awaitLine. wp_step.
  eapply wp_mono; [exact (await_loop_reaches m onLine log s Hl (fun e _ => timeout_in log e))| |done].
  intros [rest| |] s' H'; by wp_steps.
Qed.

Lemma awaitStartup_reaches m log s :
  wp (awaitStartup ws m log) (fun rest _ => reaches m log rest)
     (fun e _ => forall w, e <> ErrTimeout w) s.
Proof.
  unfold awaitStartup. wp_step.
  eapply wp_mono; [refine (awaitLine_reaches m no_callback log s _); by intros|done|].
  by intros [] s' _ w.
Qed.

Lemma timeout_in_aware p log e :
  timeout_in log e ->
  timeout_in log (match quota_error cfg env p with Some q => ErrQuota q | None => e end).
Proof. by case_match. Qed.

Lemma timeout_in_none log e : (forall w, e <> ErrTimeout w) -> timeout_in log e.
Proof. destruct e; try done. intros H. by destruct (H wanted). Qed.

Lemma on_case_done_total line s E : wp (on_case_done cfg env ws line) (fun _ _ => True) E s.
Proof. unfold on_case_done. wp_steps. repeat case_match; by wp_steps. Qed.

Lemma check_quota_log p Q log s :
  Q tt s -> wp (check_quota cfg env p) Q (fun e _ => timeout_in log e) s.
Proof. intros H. unfold check_quota. case_match; by wp_step. Qed.

(** What an error of the run says of the log. *)
Definition blamed (log : list log_event) (e : run_error) : Prop :=
  match e with
  | ErrTimeout _ => timed_out_after nonce (startup_milestone (ws_Compilable ws)) log
  | _ => True
  end.

Lemma blamed_timeout log rest e :
  reaches (startup_milestone (ws_Compilable ws)) log rest -> timeout_in rest e -> blamed log e.
Proof. intros (pre & -> & Hn) He. destruct e; try done. by exists pre, rest. Qed.

Lemma timeout_in_reaches m log rest e : reaches m log rest -> timeout_in rest e -> timeout_in log e.
Proof.
  intros (pre & -> & _) He. destruct e; try done. cbn in *. rewrite elem_of_app. right. by right.
Qed.

Lemma check_quota_blamed p Q log s : (quota_error cfg env p = None -> Q tt s) -> wp (check_quota cfg env p) Q (fun e _ => blamed log e) s.
Proof. intros H. unfold check_quota. destruct (quota_error _ _ _); wp_step; [done|by apply H]. Qed.

Lemma compile_phase_log log s :
  ws_Compilable ws = true ->
  wp (compile_phase cfg env ws log)
     (fun r s => exists l1 l2, reaches "compilation.start" log l1 /\ reaches "compilation.done" l1 l2 /\
                 match r with
                 | Some rest => rest = l2
                 | None => ro_status (st_outcome s) = RunCompilationError /\ quota_error cfg env AtCompileFailed = None
                 end)
     (fun e _ => blamed log e) s.
Proof.
  intros Hc. unfold compile_phase. wp_steps.
  eapply wp_mono; [exact (awaitStartup_reaches _ log s)| |].
  2:{ intros e s' He. case_match; [done|]. destruct e; try done. by destruct (He wanted). }
  intros l1 s1 H1. wp_steps.
  eapply wp_mono; [refine (awaitLine_reaches _ no_callback l1 _ _); by intros| |].
  2:{ intros e s' He. apply (blamed_timeout log l1); [by rewrite Hc|by apply timeout_in_aware]. }
  intros l2 s2 H2. wp_steps. unfold compile_timings. set (info := readMonitor _).
  eapply (wp_mono _ _ (fun _ _ => True) _ (fun _ _ => False)); [by destruct (mi_HasTime info)| |done].
  intros _ s3 _. destruct (compilationFailed info); wp_steps; [|by exists l1, l2].
  apply check_quota_blamed. intros Hq. wp_steps. by exists l1, l2.
Qed.

(** The run phase from the log [rest] that follows the compilation. *)
Lemma run_phase_log log s :
  wp (run_phase cfg env ws log)
     (fun _ _ => exists l1 l2, reaches "run.start" log l1 /\ reaches "run.done" l1 l2 /\
                   (snd (rv_exit env) = true -> fst (rv_exit env) = 0) /\ quota_error cfg env AtEnd = None)
     (fun e _ => match e with ErrTimeout _ => exists l1, reaches "run.start" log l1 /\ LogTimeout ∈ l1 | _ => True end) s.
Proof.
  unfold run_phase. wp_steps.
  eapply wp_mono; [exact (awaitStartup_reaches _ log _)| |].
  2:{ intros e s' He. destruct (quota_error _ _ _); [done|]. destruct e; try done. by destruct (He wanted). }
  intros l1 s1 H1. wp_step.
  eapply (wp_mono _ _ (fun _ _ => True) _ (fun _ _ => False)); [| |done].
  { destruct (ws_Compilable ws); by wp_steps. }
  intros _ s2 _. wp_steps.
  eapply wp_mono; [refine (awaitLine_reaches _ (on_case_done cfg env ws) l1 _ _);
                   intros; apply on_case_done_total| |].
  2:{ intros e s' He. apply (timeout_in_aware AtRunDone) in He.
      destruct (quota_error _ _ _); [done|]. destruct e; try done. by exists l1. }
  intros l2 s3 H2. destruct (rv_exit env) as [code exited] eqn:Ex.
  unfold stopContainer, check_quota. wp_steps. destruct (quota_error _ _ _) eqn:Eq; wp_steps; [done|].
  destruct (exited && negb (code =? 0)) eqn:Eb; wp_steps; [done|].
  destruct (gradeAll _ _ _ _ _) as [results|e]; wp_steps; [|done].
  exists l1, l2. split_and!; [done|done| |done]. cbn. intros ->. cbn in Eb. lia.
Qed.

Lemma reaches_passed m log rest ms : reaches m log rest -> passed nonce ms rest -> passed nonce (m :: ms) log.
Proof. intros (pre & -> & Hn) H. by exists pre, rest. Qed.

(** The verdict a graded run may have. *)
Definition graded_log : Prop :=
  passed nonce (milestones (ws_Compilable ws)) (rv_log env) /\
  (snd (rv_exit env) = true -> fst (rv_exit env) = 0) /\ quota_error cfg env AtEnd = None.
Definition compiled_log : Prop :=
  ws_Compilable ws = true /\ passed nonce ["compilation.start"; "compilation.done"] (rv_log env) /\
  quota_error cfg env AtCompileFailed = None.

(** The status the container phase leaves, and what the log says then. *)
Definition container_log (s : St) : Prop :=
  (graded_log /\ ro_status (st_outcome s) = RunUnset) \/
  (compiled_log /\ ro_status (st_outcome s) = RunCompilationError).

Lemma run_phase_unset log s :
  Inv (ws_TestCases ws) false PRunning (st_trace s) (st_outcome s) ->
  wp (run_phase cfg env ws log)
     (fun _ s => exists l1 l2, reaches "run.start" log l1 /\ reaches "run.done" l1 l2 /\
                   ((snd (rv_exit env) = true -> fst (rv_exit env) = 0) /\ quota_error cfg env AtEnd = None) /\
                   ro_status (st_outcome s) = RunUnset)
     (fun e _ => match e with ErrTimeout _ => exists l1, reaches "run.start" log l1 /\ LogTimeout ∈ l1 | _ => True end) s.
Proof.
  intros H. eapply wp_mono; [exact (wp_conj _ _ _ _ _ _ (run_phase_log log s) (run_phase_inv cfg env ws log s H))| |].
  - intros _ s' [(l1 & l2 & H1 & H2 & H3) (_ & _ & Hst & _)]. by exists l1, l2.
  - by intros e s' [He _].
Qed.

Lemma drive_log s :
  Inv (ws_TestCases ws) false PRunning (st_trace s) (st_outcome s) ->
  wp (drive cfg env ws) (fun _ => container_log) (fun e _ => blamed (rv_log env) e) s.
Proof.
  intros H. unfold drive, container_log, graded_log, compiled_log. destruct (ws_Compilable ws) eqn:Hc.
  - wp_step. eapply wp_mono;
      [exact (wp_conj _ _ _ _ _ _ (compile_phase_log (rv_log env) s Hc) (compile_phase_inv cfg env ws (rv_log env) s H))
      | |by intros e s' [He _]].
    clear s H. intros [log|] s [(l1 & l2 & H1 & H2 & H3) H]; cbn in H3.
    + subst log. eapply wp_mono; [by apply run_phase_unset| |].
      * intros _ s2 (l3 & l4 & H3 & H4 & Hex & Hst). left. split; [|done]. split; [|done].
        eapply reaches_passed, reaches_passed, reaches_passed, reaches_passed; done.
      * intros e s2 He. apply (blamed_timeout _ l1); [by rewrite Hc|].
        destruct e; try done. destruct He as (l3 & (pre & -> & _) & He).
        destruct H2 as (pre2 & -> & _). cbn. rewrite !elem_of_app, !elem_of_cons, elem_of_app.
        right. right. right. by right.
    + destruct H3 as [H3 Hq]. wp_step. right. split; [|done]. split_and!; [done| |done]. by eapply reaches_passed, reaches_passed.
  - eapply wp_mono; [by apply run_phase_unset| |].
    + intros _ s' (l1 & l2 & H1 & H2 & Hex & Hst). left. split; [|done]. split; [|done].
      by eapply reaches_passed, reaches_passed.
    + intros e s' He. destruct e; try done. destruct He as (l1 & (pre & -> & Hn) & He).
      exists pre, l1. by rewrite Hc.
Qed.

Lemma runContainer_log lang s :
  Inv (ws_TestCases ws) false PPrepared (st_trace s) (st_outcome s) ->
  wp (runContainer cfg env ws lang) (fun _ => container_log) (fun e _ => blamed (rv_log env) e) s.
Proof.
  intros H. unfold runContainer. wp_steps.
  destruct (rv_image env) as [p|e]; wp_steps; [|done].
  apply (Inv_emit _ _ _ PNamed _ _ ActRemoveByName) in H; [|done..].
  destruct (rv_create env) as [e|]; wp_steps; [done|].
  apply (Inv_emit _ _ _ PCreated _ _ ActCreate) in H; [|done..].
  destruct (rv_start env) as [e|]; wp_steps; [done|].
  apply (Inv_emit _ _ _ PRunning _ _ ActStart) in H; [|done..].
  apply wp_finally. eapply wp_mono; [apply drive_log; exact H| |];
    intros ? s' H'; unfold wp, deferred_stop; by destruct (stopped s').
Qed.

(** What the terminal status says of the log. *)
Definition status_log (status : RunStatus) : Prop :=
  match status with
  | RunCompleted | RunUncompleted => graded_log
  | RunCompilationError => compiled_log
  | RunTimeout => timed_out_after nonce (startup_milestone (ws_Compilable ws)) (rv_log env)
  | RunServerError => True
  | _ => False
  end.

Definition ends_as (s : St) : Prop :=
  exists status correct score message error,
    last (st_trace s) = Some (ActFinished status correct score message error) /\ status_log status.

Lemma finish_run_ends status correct score message error s E :
  status_log status -> wp (finish_run status correct score message error) (fun _ => ends_as) E s.
Proof.
  intros H. unfold finish_run. wp_steps.
  destruct (Phases _); wp_steps; exists status, correct, score, message, error;
    (split; [apply last_snoc|done]).
Qed.

Lemma scoreRun_status tcs results :
  snd (scoreRun tcs results) = RunCompleted \/ snd (scoreRun tcs results) = RunUncompleted.
Proof. unfold scoreRun. repeat case_match; cbn; auto. Qed.

Lemma Process_ends commit prepare :
  wp (Process cfg env ws commit prepare) (fun _ => ends_as) (fun _ => ends_as)
    (mk_st [] NewRunTimings zero_outcome).
Proof.
  unfold Process. wp_step.
  eapply (wp_mono _ _ (fun _ s => Inv (ws_TestCases ws) false PInit (st_trace s) (st_outcome s)) _ (fun _ _ => False));
    [case_match; wp_steps; apply Inv_initial| |done].
  intros _ s H. wp_steps. apply (Inv_emit _ _ _ PPrepared _ _ (ActStatus "compiling")) in H; [|done..].
  destruct prepare as [e|]; [wp_steps; by apply finish_run_ends|].
  destruct (ws_Language ws) as [lang|]; [|wp_steps; by apply finish_run_ends].
  match goal with |- wp _ _ _ ?s1 => assert (HC := runContainer_log lang s1 H); clear H; set (s2 := s1) in * end.
  unfold wp in HC |- *. destruct (runContainer _ _ _ _ s2) as [s3 [u|e]].
  - match goal with |- match ?m s3 with _ => _ end => change (wp m (fun _ => ends_as) (fun _ => ends_as) s3) end.
    wp_steps. apply closePublisher_final. intros l _ _ _ t. wp_steps.
    eapply (wp_mono _ _ (fun _ _ => True) _ (fun _ _ => False)); [by case_match; wp_steps| |done].
    intros _ s4 _. case_bool_decide as Ho.
    + apply finish_run_ends. destruct HC as [[_ HC]|[HC _]]; [by rewrite HC in Ho|done].
    + pose proof (scoreRun_status (ws_TestCases ws) (ro_caseResults (st_outcome s3))) as Hst.
      destruct (scoreRun _ _) as [[correct score] status]. apply finish_run_ends.
      destruct HC as [[HC _]|[_ HC]]; [|done]. by destruct Hst as [Hst|Hst]; cbn in Hst; subst.
  - match goal with |- match ?m s3 with _ => _ end => change (wp m (fun _ => ends_as) (fun _ => ends_as) s3) end.
    wp_step. eapply (wp_mono _ _ (fun _ _ => True) _ (fun _ _ => False)); [by destruct e; wp_steps| |done].
    intros _ s4 _. wp_steps. apply closePublisher_final. intros l _ _ _ t. wp_steps.
    apply finish_run_ends. by destruct e.
Qed.

End Log.

(** ** What the protocol means *)

Definition is_start (a : action) : bool := match a with ActStart => true | _ => false end.
Definition is_finished (a : action) : bool := match a with ActFinished _ _ _ _ _ => true | _ => false end.
Definition occurrences (p : action -> bool) (tr : list action) : nat := length (List.filter p tr).

Lemma occurrences_snoc p tr a :
  occurrences p (tr ++ [a]) = (occurrences p tr + if p a then 1 else 0)%nat.
Proof. unfold occurrences. rewrite List.filter_app, length_app. cbn. by destruct (p a). Qed.

(** How often each container operation and the terminal event occurred. *)
Lemma protocol_counts tr q :
  protocol PInit tr = Some q ->
  occurrences is_finished tr = match q with PDone => 1 | _ => 0 end%nat /\
  (occurrences is_stop tr <= occurrences is_start tr <= 1)%nat /\
  (before_stop q = false -> occurrences is_stop tr = occurrences is_start tr) /\
  (before_stop q = true -> occurrences is_stop tr = 0%nat /\
     occurrences is_start tr = match q with PRunning => 1 | _ => 0 end%nat).
Proof.
  revert q. induction tr as [|a tr IH] using rev_ind; intros q; [intros [= <-]; by cbn; split_and!; lia|].
  rewrite protocol_app. destruct (protocol PInit tr) as [q0|]; [|done].
  destruct (IH q0 eq_refl) as (H1 & H2 & H3 & H4). cbn [protocol].
  destruct (pstep q0 a) as [q1|] eqn:E; [|done]. intros [= ->]. rewrite !occurrences_snoc.
  destruct q0, a; cbn in E; try done; injection E as <-; cbn in *;
    try specialize (H3 eq_refl); try specialize (H4 eq_refl); split_and!; intros; lia.
Qed.

Lemma graded_after_stop tr t1 id t2 q :
  protocol PInit tr = Some q -> tr = t1 ++ ActGrade id :: t2 -> existsb is_stop t1 = true.
Proof.
  intros H ->. rewrite protocol_app in H. destruct (protocol PInit t1) as [q1|] eqn:E; [|done].
  cbn in H. destruct q1; try done. by eapply (proj2 (protocol_stop _ _ E)).
Qed.

(** * Properties *)

Section Properties.
Context {UT : UnicodeTables} {FT : FloatText} (cfg : Config) (env : run_env) (ws : workspace).
Context (commit : Commit) (prepare : option string).
Local Abbreviation tr := (trace_of cfg env ws commit prepare).

(** C5: However the image, the runtime, the log stream, the quota monitor and the
    grading answer, a run publishes exactly one terminal event, as its last
    effect; a started container is stopped exactly once and no container is
    stopped that was not started; and the final pass reads no file of a case
    before the container is stopped. *)
Theorem run_follows_protocol :
  occurrences is_finished tr = 1%nat /\
  (exists status correct score message error,
     last tr = Some (ActFinished status correct score message error)) /\
  (occurrences is_start tr <= 1)%nat /\
  occurrences is_stop tr = occurrences is_start tr /\
  (forall t1 id t2, tr = t1 ++ ActGrade id :: t2 -> existsb is_stop t1 = true).
Proof.
  destruct (Process_final cfg env ws commit prepare) as [H (st & c & sc & m & e & Hl & _)].
  destruct (protocol_counts _ _ H) as (H1 & H2 & H3 & _).
  split_and!; [done|by repeat eexists|lia|by apply H3|].
  intros t1 id t2. by apply graded_after_stop with (q := PDone).
Qed.

(** C2: The verdict a run reports is the one its published case results give: each
    test case is published at most once, only the exercise's cases are, and a run
    that ends completed or uncompleted has published every case exactly once,
    counts the published correct ones, and is completed exactly when there is a
    case and every published result is correct. *)
Theorem verdict_matches_published_results
    (Hids : NoDup (map tc_ID (ws_TestCases ws))) :
  exists status correct score message error,
    last tr = Some (ActFinished status correct score message error) /\
    NoDup (map cr_TestCaseID (cases tr)) /\
    (forall r, r ∈ cases tr -> cr_TestCaseID r ∈ map tc_ID (ws_TestCases ws)) /\
    (status = RunCompleted \/ status = RunUncompleted ->
       map cr_TestCaseID (cases tr) ≡ₚ map tc_ID (ws_TestCases ws) /\
       correct = correct_cases (cases tr) /\
       (status = RunCompleted <->
          ws_TestCases ws <> [] /\ Forall (fun r => cr_Status r = CaseCorrect) (cases tr))).
Proof.
  destruct (Process_final cfg env ws commit prepare) as [H (st & c & sc & m & e & Hl & HR)].
  exists st, c, sc, m, e. split; [done|]. by apply HR.
Qed.

(** A verdict needs this run's milestones: a run ends graded only if the log
    holds every phase's milestone line with the run's nonce, in order, with no
    wait timing out before, the container did not exit with a failure and, when it
    was stopped, the quota had not been exceeded; it ends as a compilation error only
    after the compilation's milestones and within the quota; and the submission is blamed for a timeout only if a wait timed out after the startup
    milestone. Every other end is a server error. *)
Theorem verdict_needs_milestones :
  exists status correct score message error,
    last tr = Some (ActFinished status correct score message error) /\
    match status with
    | RunCompleted | RunUncompleted =>
        passed (ws_RunNonce ws) (milestones (ws_Compilable ws)) (rv_log env) /\
        (snd (rv_exit env) = true -> fst (rv_exit env) = 0) /\ quota_error cfg env AtEnd = None
    | RunCompilationError =>
        ws_Compilable ws = true /\
        passed (ws_RunNonce ws) ["compilation.start"; "compilation.done"] (rv_log env) /\
        quota_error cfg env AtCompileFailed = None
    | RunTimeout =>
        timed_out_after (ws_RunNonce ws) (startup_milestone (ws_Compilable ws)) (rv_log env)
    | RunServerError => True
    | _ => False
    end.
Proof.
  assert (H := Process_ends cfg env ws commit prepare).
  unfold trace_of, wp, ends_as in *. by destruct (Process _ _ _ _ _ _) as [s [?|?]].
Qed.

End Properties.

(** ** The execution budget *)

Definition sum_timeouts (cfg : Config) (cases : list TestCase) : Z :=
  fold_right (fun tc z => case_timeout cfg tc + z) 0 cases.

Lemma sum_timeouts_perm cfg l1 l2 : l1 ≡ₚ l2 -> sum_timeouts cfg l1 = sum_timeouts cfg l2.
Proof. unfold sum_timeouts. induction 1; cbn [fold_right]; lia. Qed.

Lemma sum_timeouts_ge cfg b cases :
  Forall (fun tc => 0 <= case_timeout cfg tc <= b) cases ->
  0 <= sum_timeouts cfg cases /\ Forall (fun tc => case_timeout cfg tc <= sum_timeouts cfg cases) cases.
Proof.
  unfold sum_timeouts. induction 1 as [|tc cases Htc _ [IH0 IH]]; cbn [fold_right]; [done|]. split; [lia|].
  constructor; [lia|]. eapply Forall_impl; [exact IH|]. cbv beta. lia.
Qed.

Lemma fold_timeouts cfg cases a b :
  Forall (fun tc => 0 <= case_timeout cfg tc <= b) cases ->
  0 <= a -> a + b * Z.of_nat (length cases) <= max_int64 ->
  fold_left (fun total tc => wrap64 (total + case_timeout cfg tc)) cases a = a + sum_timeouts cfg cases.
Proof.
  unfold sum_timeouts, max_int64. intros H. revert a.
  induction H as [|tc cases Htc _ IH]; intros a Ha Hb; cbn [fold_left fold_right length] in *; [lia|].
  rewrite wrap64_id by (unfold int64, min_int64, max_int64; nia).
  rewrite IH; [lia|lia|nia].
Qed.

(** For an exercise of fewer than 2^15 cases whose limits stay below 2^46
    nanoseconds (over 19 hours), the execution timeout does not overflow: it is the
    base timeout once per case and once more plus every case's own budget, so it
    never expires before one case's budget, and the order of the cases does not
    matter. *)
Theorem executionTimeout_covers_cases (cfg : Config) cases
    (Hn : Z.of_nat (length cases) < 2 ^ 15)
    (Hb : 0 <= cfg_BaseExecTimeout cfg <= 2 ^ 46)
    (Hd : 0 <= cfg_DefaultCaseTimeout cfg <= 2 ^ 46)
    (Hl : Forall (fun tc => tc_CPUTimeLimit tc * second <= 2 ^ 46) cases) :
  executionTimeout cfg cases =
    cfg_BaseExecTimeout cfg * (1 + Z.of_nat (length cases)) + sum_timeouts cfg cases /\
  Forall (fun tc => (if tc_CPUTimeLimit tc <=? 0 then cfg_DefaultCaseTimeout cfg
                     else tc_CPUTimeLimit tc * second) <= executionTimeout cfg cases) cases /\
  (forall cases', cases ≡ₚ cases' -> executionTimeout cfg cases' = executionTimeout cfg cases).
Proof.
  assert (Hone : forall tc, tc_CPUTimeLimit tc * second <= 2 ^ 46 ->
    case_timeout cfg tc = (if tc_CPUTimeLimit tc <=? 0 then cfg_DefaultCaseTimeout cfg
                           else tc_CPUTimeLimit tc * second) /\ 0 <= case_timeout cfg tc <= 2 ^ 46).
  { intros tc Htc. unfold case_timeout. destruct (_ <=? 0) eqn:E; [done|].
    unfold second in *. rewrite wrap64_id by (unfold int64, min_int64, max_int64; lia). lia. }
  assert (HF : forall l, Forall (fun tc => tc_CPUTimeLimit tc * second <= 2 ^ 46) l ->
    Forall (fun tc => 0 <= case_timeout cfg tc <= 2 ^ 46) l).
  { intros l H. eapply Forall_impl; [exact H|]. intros tc Htc. by apply Hone. }
  assert (Heq : forall l, l ≡ₚ cases -> executionTimeout cfg l =
    cfg_BaseExecTimeout cfg * (1 + Z.of_nat (length cases)) + sum_timeouts cfg cases).
  { intros l Hp. unfold executionTimeout. rewrite Hp at 2.
    rewrite wrap64_id by (unfold int64, min_int64, max_int64; nia).
    rewrite (fold_timeouts _ _ _ (2 ^ 46)); [by rewrite (sum_timeouts_perm _ _ _ Hp)| |nia|].
    - apply HF. by rewrite Hp.
    - rewrite Hp. unfold max_int64. nia. }
  split_and!; [by apply Heq| |intros l Hp; by rewrite !Heq].
  rewrite Heq by done. destruct (sum_timeouts_ge _ _ _ (HF _ Hl)) as [H0 Hs].
  rewrite Forall_forall in Hl, Hs |- *. intros tc Hin.
  rewrite <- (proj1 (Hone tc (Hl tc Hin))). specialize (Hs tc Hin). nia.
Qed.

Lemma executionTimeout_covers_cases_witness :
  executionTimeout default_config [sample_case] = 12 * second /\ 2 * second <= 12 * second.
Proof.
  destruct (executionTimeout_covers_cases default_config [sample_case]) as (H & Hc & _);
    [vm_compute; done|vm_compute; done|vm_compute; done|repeat constructor; vm_compute; done|].
  assert (E : executionTimeout default_config [sample_case] = 12 * second) by (vm_compute; reflexivity).
  split; [exact E|]. rewrite <- E. inversion Hc; subst. done.
Defined.

(** ** Witnesses *)

Definition sample_language : Language := mk_language "Python" [".py"] false "python".
Definition sample_workspace : workspace := mk_workspace (Some sample_language) [sample_case] false "n0nce".
Definition sample_log : list log_event :=
  [LogLine "run.start"; LogLine "run.start n0nce"; LogLine "case.done 7 guess";
   LogLine "case.done 7 n0nce"; LogLine "run.done n0nce"].
Definition sample_env : run_env :=
  mk_env id (Ok false) None None sample_log (fun _ => None) FMissing FMissing FMissing FMissing
    (fun _ => sample_files) no_fetch (fun _ => sample_files) no_fetch (0, true)
    (fun _ => (0, 1, 1)) [] 0.
Definition sample_commit : Commit := mk_commit 1 2 3 3 "a.py" 0 false.
Definition sample_trace : list action :=
  trace_of (UT := ascii_tables) (FT := simple_floats) default_config sample_env sample_workspace
    sample_commit None.

Example sample_trace_statuses :
  map (fun a => match a with ActCase r => cr_TestCaseID r | ActFinished _ c _ _ _ => 100 + c | _ => 0 end)
    sample_trace = [0; 0; 0; 0; 0; 0; 7; 0; 0; 101].
Proof. vm_compute. reflexivity. Qed.

Lemma verdict_matches_published_results_witness :
  map cr_TestCaseID (cases sample_trace) ≡ₚ [7] /\
  Forall (fun r => cr_Status r = CaseCorrect) (cases sample_trace).
Proof.
  destruct (verdict_matches_published_results (UT := ascii_tables) (FT := simple_floats) default_config
    sample_env sample_workspace sample_commit None (NoDup_singleton 7))
    as (st & c & sc & m & e & Hl & _ & _ & H).
  assert (Hst : option_map (fun a => match a with ActFinished s _ _ _ _ => s | _ => RunUnset end)
                  (last sample_trace) = Some RunCompleted) by (vm_compute; reflexivity).
  fold sample_trace in Hl, H. rewrite Hl in Hst. cbn in Hst. injection Hst as ->.
  destruct (H (or_introl eq_refl)) as (Hp & _ & Hc). split; [exact Hp|]. by apply Hc.
Defined.
