(* ===== verification/Quota.v ===== *)
(** * The quota of a workspace and the sweeper

    [src/judge/internal/engine/workspace_quota.go] and [sweeper.go]. A sample of the
    workspace is the tree [filepath.WalkDir] meets, in its order, with the errors the
    system answers; what a submission does between two samples is the list of samples.
    A sweep is the list of the entries of the execution directory. *)

From S2P Require Import Prelude Effects GoStrings GoPath Float64 Language JudgeModel JudgeConfig Grading Runner RunnerProofs.
Local Open Scope Z_scope.

(** ** A walk *)

Inductive fs_error := Permission | Vanished.

(** An entry of a directory. [Special] is a link, a device or a socket; a directory
    answers with its entries or with an error. *)
Inductive node :=
| Regular (info : res fs_error Z)
| Special
| Directory (listing : option fs_error) (children : list node).

(** [errWorkspaceLimitReached] or an error of the walk. *)
Inductive walk_error := LimitReached | WalkFailed (e : fs_error).

Record usage := mk_usage { us_bytes : Z; us_entries : Z }.
Definition no_usage : usage := mk_usage 0 0.

Section WalkAll.
Context (walk : node -> usage -> usage * option walk_error).
Fixpoint walk_all (l : list node) (u : usage) : usage * option walk_error :=
  match l with
  | [] => (u, None)
  | d :: l => match walk d u with (u, None) => walk_all l u | stop => stop end
  end.
End WalkAll.

Section Usage.
Context (maxBytes maxEntries : Z).

(** The callback on an entry that could be read. *)
Definition visit_entry (d : node) (u : usage) : usage * option walk_error :=
  let entries := wrap64 (us_entries u + 1) in
  let u := mk_usage (us_bytes u) entries in
  if (0 <? maxEntries) && (maxEntries <? entries) then (u, Some LimitReached)
  else match d with
  | Regular (Err e) => (u, Some (WalkFailed e))
  | Regular (Ok size) =>
      let u := mk_usage (wrap64 (us_bytes u + size)) entries in
      if (0 <? maxBytes) && (maxBytes <? us_bytes u) then (u, Some LimitReached) else (u, None)
  | _ => (u, None)
  end.

Fixpoint walkDir (d : node) (u : usage) : usage * option walk_error :=
  match visit_entry d u with
  | (u, None) =>
      match d with
      | Directory None children => walk_all walkDir children u
      | Directory (Some e) _ => (u, Some (WalkFailed e))
      | _ => (u, None)
      end
  | stop => stop
  end.

(** [Err]: the root itself cannot be read. *)
Definition workspaceUsage (root : res fs_error node) : usage * option walk_error :=
  match root with Err e => (no_usage, Some (WalkFailed e)) | Ok d => walkDir d no_usage end.

(** ** The monitor *)

Inductive quota_failure := LimitExceeded (used : usage) | Unverified.

Record workspaceMonitor := mk_monitor { mo_failure : option quota_failure; mo_kills : nat }.
Definition new_monitor : workspaceMonitor := mk_monitor None 0.

Definition setFailure (e : quota_failure) (m : workspaceMonitor) : workspaceMonitor * bool :=
  match mo_failure m with Some _ => (m, false) | None => (mk_monitor (Some e) (mo_kills m), true) end.

(** The failure is recorded and, by whoever recorded it, the container killed. *)
Definition fail_run (e : quota_failure) (m : workspaceMonitor) : workspaceMonitor :=
  let '(m, first) := setFailure e m in if first then mk_monitor (mo_failure m) (S (mo_kills m)) else m.

(** One sample; [false] ends the sampling. *)
Definition check (root : res fs_error node) (m : workspaceMonitor) : workspaceMonitor * bool :=
  match workspaceUsage root with
  | (used, Some LimitReached) => (fail_run (LimitExceeded used) m, false)
  | (_, Some (WalkFailed Permission)) => (fail_run Unverified m, false)
  | _ => (m, true)
  end.

(** The goroutine, until it ends or is cancelled after the last sample. *)
Fixpoint sampler (samples : list (res fs_error node)) (m : workspaceMonitor) : workspaceMonitor :=
  match samples with
  | [] => m
  | root :: rest => let '(m, go) := check root m in if go then sampler rest m else m
  end.

(** [None] is the nil monitor: no limit is configured. The workspace is sampled once
    whatever happens, and then at every tick. *)
Definition startWorkspaceMonitor (first : res fs_error node) (ticks : list (res fs_error node)) : option workspaceMonitor :=
  if (maxBytes <=? 0) && (maxEntries <=? 0) then None else Some (sampler (first :: ticks) new_monitor).
End Usage.

Definition workspaceAwareError {E} (of_quota : quota_failure -> E) (m : option workspaceMonitor) (err : E) : E :=
  match m ≫= mo_failure with Some f => of_quota f | None => err end.

(** ** The sweeper *)

Definition workspaceGrace : Z := 5 * minute.

(** An entry of the execution directory; [de_mtime] is [None] when [Info] fails. *)
Record dir_entry := mk_dir_entry { de_name : string; de_dir : bool; de_mtime : option Z }.

(** [time.Time.Sub]: saturated. *)
Definition time_sub (a b : Z) : Z := Z.max min_int64 (Z.min max_int64 (a - b)).

Definition run_directory (name : string) : bool :=
  has_prefix "commit_" name || has_prefix "expected_" name || has_prefix "pending_" name.

Section Sweep.
(** Whether [os.RemoveAll] succeeds on a name of the directory. *)
Context (removes : string -> bool).

(** What is removed besides [outputs], and the count; [None] is a directory that
    cannot be read. *)
Definition sweepLeftovers (entries : option (list dir_entry)) (workspaceAge now : Z) : list string :=
  if workspaceAge <=? 0 then []
  else omap (fun e =>
    if negb (de_dir e) then None
    else if negb (run_directory (de_name e)) then None
    else match de_mtime e with
    | None => None
    | Some mtime => if time_sub now mtime <=? workspaceAge then None
                    else if removes (de_name e) then Some (de_name e) else None
    end) (default [] entries).

Definition StartSweeper_age (cfg : Config) : Z :=
  if cfg_KeepWorkspaces cfg then 0 else wrap64 (cfg_MaxRunDuration cfg + workspaceGrace).

(** One sweep: the names removed. *)
Definition sweep (cfg : Config) (entries : option (list dir_entry)) (outputs : bool) (now : Z) : list string :=
  (if outputs && removes "outputs" then ["outputs"] else []) ++ sweepLeftovers entries (StartSweeper_age cfg) now.
End Sweep.

(** ** What a tree holds *)

(** The reference: the entries of a tree and the bytes of its regular files. *)
Fixpoint entries_of (d : node) : Z :=
  1 + match d with Directory _ l => foldr (fun c n => entries_of c + n) 0 l | _ => 0 end.
Fixpoint bytes_of (d : node) : Z :=
  match d with
  | Regular (Ok size) => size
  | Directory _ l => foldr (fun c n => bytes_of c + n) 0 l
  | _ => 0
  end.
Fixpoint readable (d : node) : bool :=
  match d with
  | Regular (Err _) | Directory (Some _) _ => false
  | Directory None l => forallb readable l
  | _ => true
  end.
Fixpoint sane (d : node) : bool :=
  match d with
  | Regular (Ok size) => 0 <=? size
  | Directory _ l => forallb sane l
  | _ => true
  end.

Definition sum_by (f : node -> Z) (l : list node) : Z := foldr (fun c n => f c + n) 0 l.

Definition over (maxBytes maxEntries bytes entries : Z) : Prop :=
  (0 < maxBytes /\ maxBytes < bytes) \/ (0 < maxEntries /\ maxEntries < entries).

Lemma node_nested_ind (P : node -> Prop) :
  (forall d, match d with Directory _ l => Forall P l | _ => True end -> P d) -> forall d, P d.
Proof.
  intros H. fix go 1. intros [i| |o l]; apply H; try exact I.
  induction l as [|d l IH]; constructor; [apply go|apply IH].
Qed.

Lemma sizes_nonneg d : sane d = true -> 0 <= bytes_of d /\ 1 <= entries_of d.
Proof.
  induction d as [d IH] using node_nested_ind. destruct d as [[z|e]| |o l]; cbn; try lia.
  intros Hs. assert (0 <= sum_by bytes_of l /\ 0 <= sum_by entries_of l); [|unfold sum_by in *; lia].
  clear o. induction IH as [|d l Hd _ IHl]; [cbn; lia|]. cbn in Hs. apply andb_true_iff in Hs as [H1 H2].
  specialize (Hd H1). specialize (IHl H2). cbn. unfold sum_by in *. lia.
Qed.

Lemma sums_nonneg l : forallb sane l = true -> 0 <= sum_by bytes_of l /\ 0 <= sum_by entries_of l.
Proof.
  intros H. pose proof (sizes_nonneg (Directory None l) H) as [H1 H2]. cbn in H1, H2. fold (sum_by bytes_of l) in H1.
  fold (sum_by entries_of l) in H2. split; [done|]. clear H1 H2. induction l as [|d l IH]; [done|]. cbn in H.
  apply andb_true_iff in H as [Hd Hl]. specialize (IH Hl). cbn. fold (sum_by entries_of l). pose proof (sizes_nonneg d Hd). lia.
Qed.

(** Two ways to add up a usage. *)
Ltac same_usage H :=
  cbn; match goal with |- ~ over _ _ ?a ?b =>
    match type of H with ~ over _ _ ?c ?e => replace a with c by lia; replace b with e by lia; exact H end end.

Section Exact.
Context (maxBytes maxEntries : Z).

Local Abbreviation over_u u := (over maxBytes maxEntries (us_bytes u) (us_entries u)).

(** What a part of a walk did: [b] bytes and [n] entries were there to count. *)
Definition walked (b n : Z) (ok : bool) (u : usage) (r : usage * option walk_error) : Prop :=
  match r with
  | (u', None) => ok = true /\ u' = mk_usage (us_bytes u + b) (us_entries u + n) /\ ~ over_u u'
  | (u', Some LimitReached) => over_u u' /\ us_bytes u' <= us_bytes u + b /\ us_entries u' <= us_entries u + n
  | (_, Some (WalkFailed _)) => ok = false
  end.

Definition small (b n : Z) (u : usage) : Prop :=
  0 <= us_bytes u /\ 0 <= us_entries u /\ us_bytes u + b <= max_int64 /\ us_entries u + n <= max_int64.

Lemma visit_entry_spec d u : sane d = true -> small (match d with Regular (Ok z) => z | _ => 0 end) 1 u -> ~ over_u u ->
  walked (match d with Regular (Ok z) => z | _ => 0 end) 1 (match d with Regular (Err _) => false | _ => true end) u (visit_entry maxBytes maxEntries d u).
Proof.
  destruct u as [b e]. unfold visit_entry, small, walked, over. cbn. intros Hs (H1 & H2 & H3 & H4) Ho.
  rewrite (wrap64_id (e + 1)) by (unfold int64, min_int64, max_int64 in *; lia).
  destruct ((0 <? maxEntries) && _) eqn:E1; [destruct d as [[]| |]; cbn in *; lia|].
  destruct d as [[z|x]| |o l]; cbn in *; try done; try (split_and!; [done|f_equal; lia|lia]).
  rewrite wrap64_id by (unfold int64, min_int64, max_int64 in *; lia).
  destruct ((0 <? maxBytes) && _) eqn:E2; cbn; [lia|]. split_and!; [done|f_equal; lia|lia].
Qed.

Lemma walkDir_spec d : forall u, sane d = true -> small (bytes_of d) (entries_of d) u -> ~ over_u u ->
  walked (bytes_of d) (entries_of d) (readable d) u (walkDir maxBytes maxEntries d u).
Proof.
  induction d as [d IH] using node_nested_ind. intros u Hs Hu Ho.
  destruct d as [i| |o l]; [destruct i as [z|x]| |].
  1,2,3: cbn [walkDir entries_of bytes_of readable]; pose proof (visit_entry_spec _ u Hs Hu Ho) as Hv; cbn in Hv;
    by destruct (visit_entry _ _ _ _) as [? [[]|]].
  cbn [sane] in Hs. pose proof (sums_nonneg l Hs) as [Hb He]. cbn [walkDir entries_of bytes_of readable] in *.
  fold (sum_by bytes_of l) in *. fold (sum_by entries_of l) in *.
  pose proof (visit_entry_spec (Directory o l) u Hs) as Hv. destruct Hu as (H1 & H2 & H3 & H4).
  specialize (Hv ltac:(unfold small; lia) Ho). cbn in Hv.
  destruct (visit_entry _ _ _ _) as [u1 [[]|]]; cbn in Hv.
  - cbn. intuition lia.
  - done.
  - destruct Hv as (_ & -> & Ho1). destruct o as [x|]; [done|].
    assert (forall u, small (sum_by bytes_of l) (sum_by entries_of l) u -> ~ over_u u ->
      walked (sum_by bytes_of l) (sum_by entries_of l) (forallb readable l) u (walk_all (walkDir maxBytes maxEntries) l u)) as Hl.
    { clear - IH Hs. induction IH as [|d l Hd _ IHl]; intros u (H1 & H2 & H3 & H4) Ho; cbn [walk_all].
      - cbn in *. split_and!; [done|destruct u; cbn; f_equal; lia|done].
      - cbn in Hs. apply andb_true_iff in Hs as [Hsd Hsl]. pose proof (sizes_nonneg d Hsd). pose proof (sums_nonneg l Hsl).
        cbn [sum_by foldr forallb] in *. fold (sum_by bytes_of l) in *. fold (sum_by entries_of l) in *.
        specialize (Hd u Hsd ltac:(unfold small; lia) Ho). destruct (walkDir _ _ d u) as [u1 [[]|]]; cbn in Hd.
        + cbn. intuition lia.
        + cbn. by rewrite Hd.
        + destruct Hd as (-> & -> & Ho1). specialize (IHl Hsl (mk_usage (us_bytes u + bytes_of d) (us_entries u + entries_of d))).
          specialize (IHl ltac:(unfold small; cbn; lia) Ho1). destruct (walk_all _ _ _) as [u2 [[]|]]; cbn in *; [intuition lia|done|].
          destruct IHl as (-> & -> & Ho2). cbn in Ho2. split_and!; [done|f_equal; lia|]. same_usage Ho2. }
    specialize (Hl (mk_usage (us_bytes u + 0) (us_entries u + 1)) ltac:(unfold small; cbn; lia) Ho1).
    destruct (walk_all _ _ _) as [u2 [[]|]]; cbn in *; [intuition lia|done|]. destruct Hl as (-> & -> & Ho2). cbn in Ho2.
    split_and!; [done|f_equal; lia|]. same_usage Ho2.
Qed.

(** A sample that cannot wrap the counters around. *)
Definition countable_sample (root : res fs_error node) : Prop :=
  match root with Ok d => sane d = true /\ bytes_of d <= max_int64 /\ entries_of d <= max_int64 | Err _ => True end.

(** Counting stops early only over a limit, and goes through only within them. *)
Lemma workspaceUsage_spec root : countable_sample root ->
  match workspaceUsage maxBytes maxEntries root with
  | (u, None) => exists d, root = Ok d /\ readable d = true /\ u = mk_usage (bytes_of d) (entries_of d) /\ ~ over_u u
  | (u, Some LimitReached) => exists d, root = Ok d /\ over_u u /\ us_bytes u <= bytes_of d /\ us_entries u <= entries_of d
  | (_, Some (WalkFailed _)) => forall d, root = Ok d -> readable d = false
  end.
Proof.
  destruct root as [d|e]; [|intros _; cbn; by intros d [=]]. intros (Hs & Hb & He). pose proof (sizes_nonneg d Hs).
  pose proof (walkDir_spec d no_usage Hs ltac:(unfold small; cbn; lia) ltac:(unfold over; cbn; lia)) as Hw. cbn [workspaceUsage].
  destruct (walkDir _ _ d no_usage) as [u [[]|]]; cbn in Hw.
  - exists d. split; [done|]. intuition lia.
  - intros d' [= <-]. done.
  - exists d. destruct Hw as (? & -> & ?). split_and!; try done; cbn; f_equal; lia.
Qed.
End Exact.

(** ** The monitor kills exactly when it must *)

(** As far as it could be read, the workspace is within the limits. *)
Definition tolerated (maxBytes maxEntries : Z) (root : res fs_error node) : Prop :=
  forall d, root = Ok d -> readable d = true -> ~ over maxBytes maxEntries (bytes_of d) (entries_of d).

(** Why a sample ended a run. *)
Definition breaks (maxBytes maxEntries : Z) (root : res fs_error node) (f : quota_failure) : Prop :=
  match f with
  | LimitExceeded used => exists d, root = Ok d /\ over maxBytes maxEntries (us_bytes used) (us_entries used) /\
      us_bytes used <= bytes_of d /\ us_entries used <= entries_of d
  | Unverified => forall d, root = Ok d -> readable d = false
  end.

Section Monitor.
Context (maxBytes maxEntries : Z).

Lemma check_spec root : countable_sample root ->
  match check maxBytes maxEntries root new_monitor with
  | (m, true) => m = new_monitor /\ tolerated maxBytes maxEntries root
  | (m, false) => exists f, m = mk_monitor (Some f) 1 /\ breaks maxBytes maxEntries root f
  end.
Proof.
  intros Hc. pose proof (workspaceUsage_spec maxBytes maxEntries root Hc) as Hw. unfold check, tolerated.
  destruct (workspaceUsage _ _ root) as [u [[|[]]|]].
  - exists (LimitExceeded u). by split.
  - by exists Unverified.
  - split; [done|]. intros d Hd Hr. rewrite (Hw d Hd) in Hr. done.
  - destruct Hw as (d & -> & Hr & -> & Ho). split; [done|]. by intros d' [= <-] _.
Qed.

(** The container is killed at most once, by the first sample that is over a limit
    or that cannot be verified, and that sample is the failure reported; without a
    failure every sample was within the limits as far as it could be read. *)
Theorem quota_kills_exactly samples (Hc : Forall countable_sample samples) :
  let m := sampler maxBytes maxEntries samples new_monitor in
  match mo_failure m with
  | None => mo_kills m = 0%nat /\ Forall (tolerated maxBytes maxEntries) samples
  | Some f => mo_kills m = 1%nat /\ exists pre s post, samples = pre ++ s :: post /\
      Forall (tolerated maxBytes maxEntries) pre /\ breaks maxBytes maxEntries s f
  end.
Proof.
  induction Hc as [|s samples Hs _ IH]; [done|]. cbn [sampler]. pose proof (check_spec s Hs) as Hk.
  destruct (check _ _ s new_monitor) as [m []].
  - destruct Hk as [-> Ht]. cbv zeta in *. destruct (mo_failure _) as [f|]; [|by destruct IH; split; [|constructor]].
    destruct IH as [Hn (pre & x & post & -> & Hp & Hf)]. split; [done|]. exists (s :: pre), x, post. by split_and!; [|constructor|].
  - destruct Hk as (f & -> & Hf). split; [done|]. by exists [], s, samples.
Qed.
End Monitor.

(** The sample's size wraps around: a sparse file of the largest size hides itself
    and every byte before it. *)
Example sparse_file_escapes :
  workspaceUsage (2 ^ 30) 0 (Ok (Directory None [Regular (Ok 1); Regular (Ok max_int64)])) = (mk_usage (- 2 ^ 63) 3, None).
Proof. by vm_compute. Qed.

(** ** What a verdict says of the workspace *)

Section Verdict.
Context {UT : UnicodeTables} {FT : FloatText} (cfg : Config) (env : run_env) (ws : workspace).
Context (text : quota_failure -> string) (samples : quota_point -> list (res fs_error node)).

(** The runner's monitor has taken [samples p] when the runner looks at it at [p]. *)
Definition monitored : Prop :=
  forall p, rv_quota env p = text <$> mo_failure (sampler (cfg_MaxWorkspaceBytes cfg) (cfg_MaxWorkspaceEntries cfg) (samples p) new_monitor).

Local Abbreviation within p := (Forall (tolerated (cfg_MaxWorkspaceBytes cfg) (cfg_MaxWorkspaceEntries cfg)) (samples p)).

Lemma quota_error_within p : monitored -> Forall countable_sample (samples p) -> quota_error cfg env p = None -> within p.
Proof.
  intros Hm Hc. unfold quota_error. destruct ((_ <=? 0) && (_ <=? 0)) eqn:E.
  - intros _. apply Forall_forall. intros s _ d _ _. unfold over. lia.
  - rewrite Hm. pose proof (quota_kills_exactly (cfg_MaxWorkspaceBytes cfg) (cfg_MaxWorkspaceEntries cfg) (samples p) Hc) as Hq.
    cbv zeta in Hq. destruct (mo_failure _); [done|]. by destruct Hq.
Qed.

End Verdict.

(** ** The sweeper spares what runs *)

Lemma sweepLeftovers_elem removes entries age now n :
  n ∈ sweepLeftovers removes entries age now ->
  exists e mtime, e ∈ default [] entries /\ de_name e = n /\ de_dir e = true /\ run_directory n = true /\
    de_mtime e = Some mtime /\ 0 < age /\ age < time_sub now mtime.
Proof.
  unfold sweepLeftovers. destruct (age <=? 0) eqn:Ea; [by intros ?%elem_of_nil|].
  intros (e & He & H)%list_elem_of_omap. destruct (de_dir e) eqn:Ed; [|done]. destruct (run_directory _) eqn:Er; [|done].
  destruct (de_mtime e) as [mt|] eqn:Em; [|done]. cbn in H. destruct (_ <=? age) eqn:El; [done|]. destruct (removes _); [|done].
  injection H as <-. exists e, mt. split_and!; try done; lia.
Qed.

(** A sweep removes nothing but directories of runs, and none that was touched during
    the longest run and the grace after it; none at all when workspaces are kept. *)
Theorem sweep_spares_active_runs removes cfg entries outputs now n
  (Hn : n ∈ sweep removes cfg entries outputs now) (Ho : n <> "outputs") :
  cfg_KeepWorkspaces cfg = false /\ run_directory n = true /\
  exists e mtime, e ∈ default [] entries /\ de_name e = n /\ de_dir e = true /\ de_mtime e = Some mtime /\
    (0 <= cfg_MaxRunDuration cfg -> cfg_MaxRunDuration cfg + workspaceGrace <= max_int64 ->
     mtime + cfg_MaxRunDuration cfg + workspaceGrace < now).
Proof.
  unfold sweep in Hn. apply elem_of_app in Hn as [Hn|Hn]; [destruct (outputs && _); [by apply list_elem_of_singleton in Hn|by apply elem_of_nil in Hn]|].
  apply sweepLeftovers_elem in Hn as (e & mt & He & <- & Hd & Hr & Hm & Ha & Hs). unfold StartSweeper_age in *.
  destruct (cfg_KeepWorkspaces cfg); [done|]. split_and!; [done|done|]. exists e, mt. split_and!; try done.
  intros H1 H2. rewrite wrap64_id in Hs by (unfold int64, min_int64, max_int64, workspaceGrace, minute, second in *; lia).
  unfold time_sub, min_int64, max_int64, workspaceGrace, minute, second in *. lia.
Qed.

(** ** Examples *)

Definition small_tree : res fs_error node := Ok (Directory None [Regular (Ok 20); Directory None [Special; Regular (Ok 300)]]).

Example monitor_demo :
  startWorkspaceMonitor 100 0 (Ok (Directory None [])) [small_tree; small_tree] = Some (mk_monitor (Some (LimitExceeded (mk_usage 320 5))) 1) /\
  startWorkspaceMonitor 0 0 small_tree [] = None /\
  startWorkspaceMonitor 0 4 (Ok (Directory None [Directory (Some Vanished) []])) [Ok (Directory None [Directory (Some Permission) []])]
    = Some (mk_monitor (Some Unverified) 1).
Proof. by vm_compute. Qed.

Example sweep_demo :
  sweep (fun _ => true) default_config
    (Some [mk_dir_entry "commit_1" true (Some 0); mk_dir_entry "commit_2" true (Some (10 ^ 15));
           mk_dir_entry "commit_3" false (Some 0); mk_dir_entry "cache" true (Some 0)]) true (10 ^ 15) = ["outputs"; "commit_1"].
Proof. by vm_compute. Qed.


Lemma sweep_spares_active_runs_witness :
  exists e mtime, e ∈ [mk_dir_entry "commit_1" true (Some 0)] /\ de_name e = "commit_1" /\ de_mtime e = Some mtime /\ mtime < 10 ^ 15.
Proof.
  destruct (sweep_spares_active_runs (fun _ => true) default_config (Some [mk_dir_entry "commit_1" true (Some 0)]) false (10 ^ 15) "commit_1")
    as (_ & _ & e & mt & He & Hn & _ & Hm & Hlt); [vm_compute; by left|done|].
  exists e, mt. split_and!; try done. specialize (Hlt ltac:(vm_compute; congruence) ltac:(vm_compute; congruence)).
  assert (0 <= cfg_MaxRunDuration default_config + workspaceGrace) by (vm_compute; congruence). lia.
Defined.
