(* ===== verification/Outputs.v ===== *)
(** * The files a submission generated

    [src/judge/internal/engine/outputs.go]: what is collected from the directory a
    case leaves, which of it may be published and under which name, and the budget
    every upload of a run shares. [Publisher.v] has the workers that upload it.

    A directory is a tree of nodes as [filepath.Walk] sees it, children in the
    order they are walked; a node that cannot be read stops the walk. *)

From S2P Require Import Prelude Effects GoStrings GoPath Float64 JudgeModel JudgeConfig Grading Workspace Runner.
Local Open Scope Z_scope.

(** ** Collecting *)

Inductive node :=
| Dir (name : string) (children : list node)
| File (name : string) (size : Z)
| Special (name : string)
| Unreadable (name : string).

(** What the directory to collect from is. *)
Inductive dir_state := DirMissing | DirError (e : string) | DirTree (children : list node).

Record generatedFile := mk_file { gf_Path : string; gf_Size : Z }.

Definition caseOutputDir (caseID : Z) : string := "case_" +:+ fmt_int caseID.

Definition isCaseOutputDir (name : string) : bool :=
  if has_prefix "case_" name
  then match parse_int (trim_prefix "case_" name) with Some _ => true | None => false end
  else false.

(** The walk below a directory whose relative path is [prefix]. *)
Fixpoint collect_node (skipDir : string -> bool) (prefix : string) (n : node) : option (list generatedFile) :=
  match n with
  | Dir name children =>
      if skipDir name then Some []
      else
        (fix collect_all (l : list node) : option (list generatedFile) :=
           match l with
           | [] => Some []
           | c :: r =>
               fs ← collect_node skipDir (prefix +:+ name +:+ "/") c;
               gs ← collect_all r;
               Some (fs ++ gs)
           end) children
  | File name size => Some [mk_file (prefix +:+ name) size]
  | Special _ => Some []
  | Unreadable _ => None
  end.

Fixpoint collect_all (skipDir : string -> bool) (prefix : string) (l : list node) : option (list generatedFile) :=
  match l with
  | [] => Some []
  | c :: r =>
      fs ← collect_node skipDir prefix c;
      gs ← collect_all skipDir prefix r;
      Some (fs ++ gs)
  end.

Definition collectGeneratedFiles (dir : dir_state) (skipDir : string -> bool) : res string (list generatedFile) :=
  match dir with
  | DirMissing => Ok []
  | DirError e => Err e
  | DirTree children =>
      match collect_all skipDir "" children with Some l => Ok l | None => Err "walk" end
  end.

(** ** What to publish *)

Record publishRequest := mk_request {
  rq_Dir : string;
  rq_Prefix : string;
  rq_TestCaseID : Z;
  rq_MaxFileBytes : Z;
  rq_SkipDir : string -> bool;
  rq_SkipFile : string -> bool
}.

Definition no_skip : string -> bool := fun _ => false.

Definition caseFileLimit (cfg : Config) (tc : TestCase) : Z :=
  if 0 <? tc_FileSizeLimit tc then tc_FileSizeLimit tc else cfg_MaxArtifactBytes cfg.

Definition caseOutputPrefix (tc : TestCase) : string :=
  "test_" +:+ fmt_int (if tc_Number tc <=? 0 then tc_ID tc else tc_Number tc).

Definition case_dir (base : string) (tc : TestCase) : string :=
  filepath_join (filepath_join base "outputfiles") (caseOutputDir (tc_ID tc)).

Definition pendingOutputDir (cfg : Config) (commitID caseID : Z) : string :=
  filepath_join (filepath_join (cfg_ExecDir cfg) ("pending_" +:+ fmt_int commitID)) ("case_" +:+ fmt_int caseID).

Inductive request_error := ENoCollectionDir | EStat (e : string) | EReadDir.

(** The request for a finished case; [None] when there is nothing to upload. The
    second component is the directory it removes. *)
Definition casePublishRequest (cfg : Config) (base : string) (dir : dir_state) (readable : bool)
    (tc : TestCase) (result : CaseResult) : res request_error (option publishRequest) * option string :=
  let path := case_dir base tc in
  match dir with
  | DirMissing => (Err ENoCollectionDir, None)
  | DirError e => (Err (EStat e), None)
  | DirTree entries =>
      if negb readable then (Err EReadDir, None)
      else match entries with
      | [] => (Ok None, None)
      | _ =>
          if bool_decide (cr_Status result = CaseKilledBySignal) then (Ok None, Some path)
          else (Ok (Some (mk_request path (caseOutputPrefix tc) (tc_ID tc) (caseFileLimit cfg tc) no_skip no_skip)),
                None)
      end
  end.

(** What [queueCaseOutputs] does with a case, up to the hand-over to the publisher. *)
Inductive queue_decision :=
| QHidden
| QNothing
| QError (e : request_error)
| QBudgetExceeded (caseID : Z)
| QSubmit (req : publishRequest).

(** [exhausted]: the budget's answer; [staged]: the rename into the pending area
    succeeded. *)
Definition queueCaseOutputs (cfg : Config) (base : string) (dir : dir_state) (readable exhausted staged : bool)
    (commitID : Z) (tc : TestCase) (result : CaseResult) : queue_decision :=
  if negb (tc_ShowUserOutput tc) then QHidden
  else match fst (casePublishRequest cfg base dir readable tc result) with
  | Err e => QError e
  | Ok None => QNothing
  | Ok (Some req) =>
      if exhausted then QBudgetExceeded (tc_ID tc)
      else
        let pending := pendingOutputDir cfg commitID (tc_ID tc) in
        QSubmit (if negb (String.eqb pending (rq_Dir req)) && staged
                 then mk_request pending (rq_Prefix req) (rq_TestCaseID req) (rq_MaxFileBytes req)
                        (rq_SkipDir req) (rq_SkipFile req)
                 else req)
  end.

(** The request of [publishRootOutputs]. *)
Definition root_request (cfg : Config) (base : string) : publishRequest :=
  mk_request (filepath_join base "outputfiles") "outputfiles" 0 (cfg_MaxArtifactBytes cfg) isCaseOutputDir
    (fun rel => isInternalOutputFile (path_base rel)).

(** The name a collected file is stored under. *)
Definition stored_name (req : publishRequest) (f : generatedFile) : string :=
  if String.eqb (rq_Prefix req) "" then gf_Path f else rq_Prefix req +:+ "/" +:+ gf_Path f.

(** ** The budget, one call at a time *)

Record artifactBudget := mk_budget { ab_limit : Z; ab_used : Z; ab_exhausted : bool }.
#[export] Instance artifactBudget_eta : Settable artifactBudget := fun b =>
  mk_budget (ab_limit b) (ab_used b) (ab_exhausted b).

Definition newArtifactBudget (limit : Z) : artifactBudget := mk_budget limit 0 false.

(** The budget ignores the call. *)
Definition unbounded (limit n : Z) : bool := (limit <=? 0) || (n <=? 0).

Definition reserve (b : artifactBudget) (n : Z) : artifactBudget * bool :=
  if unbounded (ab_limit b) n then (b, true)
  else if ab_limit b - n <? ab_used b then (b <| ab_exhausted := true |>, false)
  else (b <| ab_used := ab_used b + n |>, true).

Definition release (b : artifactBudget) (n : Z) : artifactBudget :=
  if unbounded (ab_limit b) n then b
  else
    let b := b <| ab_used := ab_used b - n |> in
    if ab_used b <? ab_limit b then b <| ab_exhausted := false |> else b.

Definition isExhausted (b : artifactBudget) : bool :=
  if ab_limit b <=? 0 then false else ab_exhausted b || (ab_limit b <=? ab_used b).

(** ** Publishing one request *)

(** What object storage answers for a file: the bytes it stored, or an error. *)
Definition upload_answer := generatedFile -> res string Z.

Record published := mk_published {
  pb_uploaded : nat; pb_failed : nat; pb_exceeded : bool; pb_stored : list (string * Z)
}.

Definition publish_file (upload : upload_answer) (req : publishRequest) (acc : artifactBudget * published)
    (f : generatedFile) : artifactBudget * published :=
  let '(b, p) := acc in
  if rq_SkipFile req (gf_Path f) then acc
  else if (0 <? rq_MaxFileBytes req) && (rq_MaxFileBytes req <? gf_Size f) then acc
  else match reserve b (gf_Size f) with
  | (b, false) => (b, mk_published (pb_uploaded p) (pb_failed p) true (pb_stored p))
  | (b, true) =>
      match upload f with
      | Err _ => (release b (gf_Size f), mk_published (pb_uploaded p) (S (pb_failed p)) (pb_exceeded p) (pb_stored p))
      | Ok n => (b, mk_published (S (pb_uploaded p)) (pb_failed p) (pb_exceeded p)
                      (pb_stored p ++ [(stored_name req f, n)]))
      end
  end.

Definition publishGeneratedFiles (dir : dir_state) (upload : upload_answer) (b : artifactBudget)
    (req : publishRequest) : artifactBudget * res string published :=
  match collectGeneratedFiles dir (rq_SkipDir req) with
  | Err e => (b, Err e)
  | Ok files =>
      let '(b, p) := fold_left (publish_file upload req) files (b, mk_published 0 0 false []) in (b, Ok p)
  end.

(** * Lemmas *)

Lemma collect_dir skipDir prefix name children :
  collect_node skipDir prefix (Dir name children) =
  if skipDir name then Some [] else collect_all skipDir (prefix +:+ name +:+ "/") children.
Proof.
  cbn [collect_node]. destruct (skipDir name); [done|].
  induction children as [|c r IH]; [done|]. cbn [collect_all].
  destruct (collect_node _ _ c) as [fs|]; [|done]. cbn. by rewrite IH.
Qed.

(** The regular files of a tree, with the names on the way, that no skipped
    directory hides. *)
Inductive reach (skipDir : string -> bool) : list node -> list string -> Z -> Prop :=
| reach_file l name size : File name size ∈ l -> reach skipDir l [name] size
| reach_dir l name children names size :
    Dir name children ∈ l -> skipDir name = false -> reach skipDir children names size ->
    reach skipDir l (name :: names) size.

Lemma reach_cons skipDir c l names size :
  reach skipDir (c :: l) names size <-> reach skipDir [c] names size \/ reach skipDir l names size.
Proof.
  split.
  - inversion 1 as [? name sz Hin|? name ch ns sz Hin Hs Hr]; subst; apply elem_of_cons in Hin as [<-|Hin].
    + left. constructor. by left.
    + right. by constructor.
    + left. econstructor; [by left|done|done].
    + right. by econstructor.
  - intros [H|H]; inversion H as [? name sz Hin|? name ch ns sz Hin Hs Hr]; subst.
    + apply list_elem_of_singleton in Hin. subst c. constructor. by left.
    + apply list_elem_of_singleton in Hin. subst c. econstructor; [by left|done|done].
    + constructor. by right.
    + econstructor; [by right|done|done].
Qed.

Lemma reach_nil skipDir names size : ~ reach skipDir [] names size.
Proof. inversion 1 as [? ? ? Hin|? ? ? ? ? Hin]; by apply elem_of_nil in Hin. Qed.

Lemma reach_names_ne skipDir l names size : reach skipDir l names size -> names <> [].
Proof. by inversion 1. Qed.

Lemma join_cons name names : names <> [] -> join_comps (name :: names) = name +:+ "/" +:+ join_comps names.
Proof. by destruct names. Qed.

(** Induction on trees through the lists of children. *)
Lemma node_ind' (P : node -> Prop) :
  (forall name children, Forall P children -> P (Dir name children)) ->
  (forall name size, P (File name size)) -> (forall name, P (Special name)) ->
  (forall name, P (Unreadable name)) -> forall n, P n.
Proof.
  intros Hd Hf Hs Hu. fix IH 1. intros [name children|name size|name|name]; [|apply Hf|apply Hs|apply Hu].
  apply Hd. induction children; constructor; [apply IH|done].
Qed.

Definition collects (skipDir : string -> bool) (prefix : string) (l : list node) (fs : list generatedFile) : Prop :=
  forall p z, mk_file p z ∈ fs <-> exists names, reach skipDir l names z /\ p = prefix +:+ join_comps names.

Lemma collects_app skipDir prefix c l fs gs :
  collects skipDir prefix [c] fs -> collects skipDir prefix l gs -> collects skipDir prefix (c :: l) (fs ++ gs).
Proof.
  intros H1 H2 p z. rewrite elem_of_app, (H1 p z), (H2 p z).
  split.
  - intros [(nl & ? & ?)|(nl & ? & ?)]; exists nl; rewrite reach_cons; auto.
  - intros (nl & [?|?]%reach_cons & ?); [left|right]; by exists nl.
Qed.

Lemma collect_all_spec skipDir l prefix fs :
  Forall (fun c => forall prefix fs, collect_node skipDir prefix c = Some fs -> collects skipDir prefix [c] fs) l ->
  collect_all skipDir prefix l = Some fs -> collects skipDir prefix l fs.
Proof.
  intros H. revert fs. induction H as [|c l Hc _ IH]; cbn [collect_all]; intros fs.
  - intros [= <-] p z. split; [by intros ?%elem_of_nil|]. by intros (nl & Hr%reach_nil & _).
  - destruct (collect_node _ _ c) as [gs|] eqn:E1; [|done].
    destruct (collect_all _ _ l) as [hs|]; [|done]. cbn. intros [= <-].
    apply collects_app; [by apply Hc|by apply IH].
Qed.

Lemma collect_node_spec skipDir n prefix fs :
  collect_node skipDir prefix n = Some fs -> collects skipDir prefix [n] fs.
Proof.
  revert prefix fs. induction n as [name children IH|name size|name|name] using node_ind'; intros prefix fs.
  - rewrite collect_dir. destruct (skipDir name) eqn:Es.
    + intros [= <-] p z. split; [by intros ?%elem_of_nil|]. intros (nl & H & _).
      inversion H as [? ? ? Hin|? ? ? ? ? Hin Hs]; subst; apply list_elem_of_singleton in Hin; [done|].
      injection Hin as -> ->. congruence.
    + intros Hc%(collect_all_spec _ _ _ _ IH) p z. rewrite (Hc p z). split.
      * intros (nl & Hr & ->). exists (name :: nl).
        split; [econstructor; [by apply list_elem_of_singleton|done|done]|].
        rewrite join_cons by by eapply reach_names_ne. by rewrite !app_assoc_s.
      * intros (nl & Hr & ->). inversion Hr as [? ? ? Hin|? ? ? ns' ? Hin Hs Hr']; subst;
          apply list_elem_of_singleton in Hin; [done|]. injection Hin as -> ->. exists ns'. split; [done|].
        rewrite join_cons by by eapply reach_names_ne. by rewrite !app_assoc_s.
  - intros [= <-] p z. rewrite list_elem_of_singleton. split.
    + intros [= -> ->]. exists [name]. split; [constructor; by apply list_elem_of_singleton|done].
    + intros (nl & Hr & ->). inversion Hr as [? ? ? Hin|? ? ? ? ? Hin]; subst;
        apply list_elem_of_singleton in Hin; [|done]. by injection Hin as -> ->.
  - intros [= <-] p z. split; [by intros ?%elem_of_nil|]. intros (nl & Hr & _).
    inversion Hr as [? ? ? Hin|? ? ? ? ? Hin]; subst; by apply list_elem_of_singleton in Hin.
  - done.
Qed.

Lemma collect_spec skipDir children fs :
  collectGeneratedFiles (DirTree children) skipDir = Ok fs -> collects skipDir "" children fs.
Proof.
  cbn. destruct (collect_all _ _ _) as [l|] eqn:E; [|done]. intros [= <-].
  eapply collect_all_spec; [|exact E]. apply Forall_forall. intros c _ prefix gs. apply collect_node_spec.
Qed.

Lemma isCaseOutputDir_caseOutputDir id : int64 id -> isCaseOutputDir (caseOutputDir id) = true.
Proof.
  intros H. unfold isCaseOutputDir, caseOutputDir. rewrite has_prefix_app, trim_prefix_app.
  by rewrite parse_int_fmt_int.
Qed.

(** The first component of a stored name is the prefix of its request. *)
Lemma stored_name_cut req f :
  rq_Prefix req <> "" -> no_byte "/" (rq_Prefix req) ->
  cut_byte "/" (stored_name req f) = Some (rq_Prefix req, gf_Path f).
Proof.
  intros Hne Hs. unfold stored_name. rewrite (proj2 (String.eqb_neq _ _) Hne).
  change ("/" +:+ gf_Path f) with (String "/" (gf_Path f)). by apply cut_byte_app.
Qed.

Lemma caseOutputPrefix_inj tc1 tc2 :
  0 < tc_Number tc1 -> 0 < tc_Number tc2 -> int64 (tc_Number tc1) -> int64 (tc_Number tc2) ->
  caseOutputPrefix tc1 = caseOutputPrefix tc2 -> tc_Number tc1 = tc_Number tc2.
Proof.
  unfold caseOutputPrefix. intros H1 H2 I1 I2 E.
  rewrite !(proj2 (Z.leb_gt _ _)) in E by lia.
  apply (f_equal (trim_prefix "test_")) in E. rewrite !trim_prefix_app in E.
  by apply fmt_int_inj in E.
Qed.

Lemma caseOutputPrefix_plain tc : caseOutputPrefix tc <> "" /\ no_byte "/" (caseOutputPrefix tc).
Proof.
  unfold caseOutputPrefix. split; [by intros E|]. apply no_byte_app.
  split; [done|by apply fmt_int_no_byte].
Qed.
