(* ===== verification/Publisher.v ===== *)
(** * The background publisher

    [outputPublisher] of [src/judge/internal/engine/outputs.go]: the goroutine that
    reads the container's log announces and submits the files of every finished
    case, [outputPublishWorkers] workers upload them, and [Close] waits for them.
    They share the queue, the commit's artifact budget, the failure counters and the
    event hub. A step is one access to that shared state by one goroutine, so every
    interleaving is a sequence of steps; [main_step] and [worker_step] compute it.
    What a file upload answers is the step's choice. *)

From S2P Require Import Prelude Effects GoStrings GoPath JudgeModel JudgeConfig Grading Outputs.
Local Open Scope Z_scope.

Definition outputPublishWorkers : nat := 4.
Definition outputPublishQueue : nat := 8.
Definition outputPublishFailureLimit : Z := 3.

Definition wrap32 (z : Z) : Z := (z + 2 ^ 31) mod 2 ^ 32 - 2 ^ 31.

(** What the client is told of a case's files. *)
Inductive pub_event :=
| Pending (id : Z)
| Ready (id : Z)
| Failed (id : Z) (reason : string) (limit : Z).

Definition ArtifactReasonBudgetExceeded := "commit_artifact_budget_exceeded".
Definition ArtifactReasonUploadFailed := "upload_failed".
Definition ArtifactReasonFileTooLarge := "file_too_large".
Definition ArtifactReasonStorageUnavailable := "storage_unavailable".

Definition event_case (e : pub_event) : Z :=
  match e with Pending id | Ready id | Failed id _ _ => id end.

(** A request and the directory it names, as the worker will find it. *)
Record task := mk_task { tk_req : publishRequest; tk_dir : dir_state }.
Definition tk_id (t : task) : Z := rq_TestCaseID (tk_req t).

(** A case whose milestone arrived, with what its collection directory holds. *)
Record finished := mk_finished {
  fc_case : TestCase; fc_result : CaseResult; fc_dir : dir_state; fc_readable : bool; fc_staged : bool
}.

(** ** Shared state *)

Record shared := mk_shared {
  sh_queue : list task;
  sh_closed : bool;
  sh_used : Z;
  sh_exhausted : bool;
  sh_failures : Z;
  sh_degraded : bool;
  sh_files : Z;
  sh_events : list pub_event;
  sh_stored : Z
}.
#[export] Instance shared_eta : Settable shared := fun s =>
  mk_shared (sh_queue s) (sh_closed s) (sh_used s) (sh_exhausted s) (sh_failures s) (sh_degraded s)
    (sh_files s) (sh_events s) (sh_stored s).

(** The counters of [publishGeneratedFiles]. *)
Record progress := mk_progress { pg_uploaded : nat; pg_failed : nat; pg_exceeded : bool }.

(** Where a worker is. Inside [publishGeneratedFiles] it holds the file at hand and
    the files left; [WCas] also holds the value of [used] it loaded. *)
Inductive worker :=
| WIdle
| WFiles (t : task) (rest : list generatedFile) (p : progress)
| WLoad (t : task) (f : generatedFile) (rest : list generatedFile) (p : progress)
| WCas (t : task) (f : generatedFile) (rest : list generatedFile) (p : progress) (used : Z)
| WRefuse (t : task) (rest : list generatedFile) (p : progress)
| WUpload (t : task) (f : generatedFile) (rest : list generatedFile) (p : progress)
| WRelease (t : task) (f : generatedFile) (rest : list generatedFile) (p : progress)
| WClear (t : task) (rest : list generatedFile) (p : progress)
| WRecord (t : task) (count : Z) (e : pub_event)
| WDegrade (t : task) (e : pub_event)
| WReset (t : task) (uploaded : nat)
| WAnnounce (t : task) (e : pub_event)
| WDone.

(** Where the goroutine that reads the log is. *)
Inductive main :=
| MNext (todo : list finished)
| MCheck (t : task) (todo : list finished)
| MCheckUsed (t : task) (todo : list finished)
| MBudget (id : Z) (todo : list finished)
| MAnnounce (t : task) (todo : list finished)
| MSubmit (t : task) (todo : list finished)
| MRefused (id : Z) (todo : list finished)
| MClose
| MWait
| MDone.

Section Publisher.
Context (cfg : Config) (base : string) (commitID limit : Z) (storage : bool).

Definition emit (s : shared) (e : pub_event) : shared := s <| sh_events := sh_events s ++ [e] |>.

(** ** The worker *)

Definition no_progress : progress := mk_progress 0 0 false.

(** [publishGeneratedFiles] up to its loop. *)
Definition begin_task (t : task) : worker :=
  if negb storage then WRecord t 1 (Failed (tk_id t) ArtifactReasonUploadFailed 0)
  else match collectGeneratedFiles (tk_dir t) (rq_SkipDir (tk_req t)) with
  | Err _ => WRecord t 1 (Failed (tk_id t) ArtifactReasonUploadFailed 0)
  | Ok files => WFiles t files no_progress
  end.

(** The branches of [worker] after [publishGeneratedFiles] returned. *)
Definition conclude (t : task) (p : progress) : worker :=
  if pg_exceeded p && (pg_uploaded p =? 0)%nat
  then WAnnounce t (Failed (tk_id t) ArtifactReasonBudgetExceeded limit)
  else if (0 <? pg_failed p)%nat
  then WRecord t (wrap32 (Z.of_nat (pg_failed p))) (Failed (tk_id t) ArtifactReasonUploadFailed 0)
  else WReset t (pg_uploaded p).

(** [ok]: the upload of the file at hand succeeds. *)
Definition worker_step (ok : bool) (s : shared) (w : worker) : option (shared * worker) :=
  match w with
  | WIdle =>
      match sh_queue s with
      | t :: queue => Some (s <| sh_queue := queue |>, begin_task t)
      | [] => if sh_closed s then Some (s, WDone) else None
      end
  | WFiles t [] p => Some (s, conclude t p)
  | WFiles t (f :: rest) p =>
      if rq_SkipFile (tk_req t) (gf_Path f) then Some (s, WFiles t rest p)
      else if (0 <? rq_MaxFileBytes (tk_req t)) && (rq_MaxFileBytes (tk_req t) <? gf_Size f)
      then Some (s, WFiles t rest p)
      else if unbounded limit (gf_Size f) then Some (s, WUpload t f rest p)
      else Some (s, WLoad t f rest p)
  | WLoad t f rest p =>
      if limit - gf_Size f <? sh_used s then Some (s, WRefuse t rest p)
      else Some (s, WCas t f rest p (sh_used s))
  | WCas t f rest p used =>
      if sh_used s =? used then Some (s <| sh_used := used + gf_Size f |>, WUpload t f rest p)
      else Some (s, WLoad t f rest p)
  | WRefuse t rest p =>
      Some (s <| sh_exhausted := true |>, WFiles t rest (mk_progress (pg_uploaded p) (pg_failed p) true))
  | WUpload t f rest p =>
      if ok then
        Some (s <| sh_stored := sh_stored s + (if unbounded limit (gf_Size f) then 0 else gf_Size f) |>,
              WFiles t rest (mk_progress (S (pg_uploaded p)) (pg_failed p) (pg_exceeded p)))
      else Some (s, WRelease t f rest p)
  | WRelease t f rest p =>
      let p := mk_progress (pg_uploaded p) (S (pg_failed p)) (pg_exceeded p) in
      if unbounded limit (gf_Size f) then Some (s, WFiles t rest p)
      else
        let s := s <| sh_used := sh_used s - gf_Size f |> in
        Some (s, if sh_used s <? limit then WClear t rest p else WFiles t rest p)
  | WClear t rest p => Some (s <| sh_exhausted := false |>, WFiles t rest p)
  | WRecord t count e =>
      let failures := wrap32 (sh_failures s + count) in
      Some (s <| sh_failures := failures |>,
            if failures <? outputPublishFailureLimit then WAnnounce t e else WDegrade t e)
  | WDegrade t e => Some (s <| sh_degraded := true |>, WAnnounce t e)
  | WReset t uploaded =>
      let s := s <| sh_failures := 0 |> in
      if (uploaded =? 0)%nat
      then Some (s, WAnnounce t (Failed (tk_id t) ArtifactReasonFileTooLarge 0))
      else Some (s <| sh_files := wrap64 (sh_files s + Z.of_nat uploaded) |>, WAnnounce t (Ready (tk_id t)))
  | WAnnounce t e => Some (emit s e, WIdle)
  | WDone => None
  end.

(** ** The log reader *)

(** The request of a finished case that has files to publish, as a task. *)
Definition case_task (c : finished) : option task :=
  match queueCaseOutputs cfg base (fc_dir c) (fc_readable c) false (fc_staged c) commitID (fc_case c) (fc_result c) with
  | QSubmit req => Some (mk_task req (fc_dir c))
  | _ => None
  end.

Definition is_done (w : worker) : bool := match w with WDone => true | _ => false end.

(** [Submit], under its lock. *)
Definition submit (s : shared) (t : task) : option shared :=
  if sh_closed s || sh_degraded s then None
  else if (length (sh_queue s) <? outputPublishQueue)%nat then Some (s <| sh_queue := sh_queue s ++ [t] |>)
  else None.

(** [stop]: the run ends here instead of reporting another case. *)
Definition main_step (stop : bool) (ws : list worker) (s : shared) (m : main) : option (shared * main) :=
  match m with
  | MNext todo =>
      if stop then Some (s, MClose)
      else match todo with
      | [] => Some (s, MClose)
      | c :: todo => match case_task c with Some t => Some (s, MCheck t todo) | None => Some (s, MNext todo) end
      end
  | MCheck t todo =>
      if limit <=? 0 then Some (s, MAnnounce t todo)
      else if sh_exhausted s then Some (s, MBudget (tk_id t) todo) else Some (s, MCheckUsed t todo)
  | MCheckUsed t todo =>
      if limit <=? sh_used s then Some (s, MBudget (tk_id t) todo) else Some (s, MAnnounce t todo)
  | MBudget id todo => Some (emit s (Failed id ArtifactReasonBudgetExceeded limit), MNext todo)
  | MAnnounce t todo => Some (emit s (Pending (tk_id t)), MSubmit t todo)
  | MSubmit t todo =>
      match submit s t with Some s => Some (s, MNext todo) | None => Some (s, MRefused (tk_id t) todo) end
  | MRefused id todo => Some (emit s (Failed id ArtifactReasonStorageUnavailable 0), MNext todo)
  | MClose => Some (s <| sh_closed := true |>, MWait)
  | MWait => if forallb is_done ws then Some (s, MDone) else None
  | MDone => None
  end.

(** ** The system *)

Record sys := mk_sys { sy_shared : shared; sy_main : main; sy_workers : list worker }.

Definition newOutputPublisher (todo : list finished) : sys :=
  mk_sys (mk_shared [] false 0 false 0 false 0 [] 0) (MNext todo) (repeat WIdle outputPublishWorkers).

Inductive step : sys -> sys -> Prop :=
| step_main stop s m ws s' m' :
    main_step stop ws s m = Some (s', m') -> step (mk_sys s m ws) (mk_sys s' m' ws)
| step_worker i ok s m ws w s' w' :
    ws !! i = Some w -> worker_step ok s w = Some (s', w') ->
    step (mk_sys s m ws) (mk_sys s' m (<[i := w']> ws)).
End Publisher.

(** ** Schedules *)

(** One turn: the reader's, or a worker's. *)
Inductive turn := Reader (stop : bool) | Worker (i : nat) (ok : bool).

Section Schedules.
Context (cfg : Config) (base : string) (commitID limit : Z) (storage : bool).

Definition take_turn (c : sys) (t : turn) : option sys :=
  match t with
  | Reader stop =>
      '(s, m) ← main_step cfg base commitID limit stop (sy_workers c) (sy_shared c) (sy_main c);
      Some (mk_sys s m (sy_workers c))
  | Worker i ok =>
      w ← sy_workers c !! i;
      '(s, w) ← worker_step limit storage ok (sy_shared c) w;
      Some (mk_sys s (sy_main c) (<[i := w]> (sy_workers c)))
  end.

Fixpoint take_turns (c : sys) (l : list turn) : option sys :=
  match l with [] => Some c | t :: l => c ← take_turn c t; take_turns c l end.

Lemma take_turns_run l c c' :
  take_turns c l = Some c' -> rtc (step cfg base commitID limit storage) c c'.
Proof.
  revert c. induction l as [|t l IH]; cbn; intros c H; [by injection H as ->|].
  destruct (take_turn c t) as [c1|] eqn:E; [|done]. cbn in H. eapply rtc_l; [|by apply IH].
  destruct c as [s m ws], t as [stop|i ok]; cbn in E.
  - destruct (main_step _ _ _ _ _ _ _ _) as [[s' m']|] eqn:Em; [|done]. injection E as <-. by eapply step_main.
  - destruct (ws !! i) as [w|] eqn:Ew; [|done]. cbn in E.
    destruct (worker_step _ _ _ _ _) as [[s' w']|] eqn:Es; [|done]. injection E as <-. by eapply step_worker.
Qed.
End Schedules.
