(* ===== verification/PublisherProofs.v ===== *)
(** * What the background publisher promises

    The specification is a [ledger]: which cases the client was told to wait for,
    how many bytes of the commit's budget are claimed and stored, and what the
    client was told, with no queue, no workers and no counters.
    [publisher_refines_ledger] simulates every interleaving of [Publisher.step] by
    it, so the ledger's properties hold of the code: every placeholder is settled
    exactly once, by the time the run ends, and the budget is never exceeded. A
    measure that every step decreases shows that the run does end. *)

From S2P Require Import Prelude Effects GoStrings GoPath JudgeModel JudgeConfig Grading Outputs Publisher.
Local Open Scope Z_scope.

(** ** The ledger *)

Record ledger := mk_ledger {
  lg_open : gset Z; lg_used : Z; lg_stored : Z; lg_trace : list pub_event
}.

Definition traced (l : list pub_event) : gset Z := list_to_set (event_case <$> l).

Definition settles (e : pub_event) : Prop := match e with Pending _ => False | _ => True end.

Definition empty_ledger : ledger := mk_ledger ∅ 0 0 [].

Inductive ledger_step (limit : Z) : ledger -> ledger -> Prop :=
| ledger_announce w u k l id :
    id ∉ traced l -> ledger_step limit (mk_ledger w u k l) (mk_ledger ({[id]} ∪ w) u k (l ++ [Pending id]))
| ledger_refuse w u k l id :
    id ∉ traced l ->
    ledger_step limit (mk_ledger w u k l) (mk_ledger w u k (l ++ [Failed id ArtifactReasonBudgetExceeded limit]))
| ledger_settle w u k l e :
    event_case e ∈ w -> settles e ->
    ledger_step limit (mk_ledger w u k l) (mk_ledger (w ∖ {[event_case e]}) u k (l ++ [e]))
| ledger_reserve w u k l n :
    0 < n -> u + n <= limit -> ledger_step limit (mk_ledger w u k l) (mk_ledger w (u + n) k l)
| ledger_release w u k l n :
    0 < n -> n <= u - k -> ledger_step limit (mk_ledger w u k l) (mk_ledger w (u - n) k l)
| ledger_store w u k l n :
    0 < n -> k + n <= u -> ledger_step limit (mk_ledger w u k l) (mk_ledger w u (k + n) l).

(** What the client may have been told of one case. *)
Definition events_of (id : Z) (l : list pub_event) : list pub_event := filter (fun e => event_case e = id) l.
#[local] Arguments events_of : simpl never.
#[local] Arguments traced : simpl never.

Inductive told (limit : Z) (id : Z) : list pub_event -> Prop :=
| told_nothing : told limit id []
| told_wait : told limit id [Pending id]
| told_settled e : event_case e = id -> settles e -> told limit id [Pending id; e]
| told_refused : told limit id [Failed id ArtifactReasonBudgetExceeded limit].

Lemma events_of_snoc id l e :
  events_of id (l ++ [e]) = events_of id l ++ (if decide (event_case e = id) then [e] else []).
Proof. unfold events_of. rewrite filter_app, filter_cons, filter_nil. done. Qed.

Lemma events_of_untold id l : id ∉ traced l -> events_of id l = [].
Proof.
  unfold traced, events_of. rewrite elem_of_list_to_set. intros H.
  induction l as [|e l IH]; [done|]. rewrite fmap_cons, not_elem_of_cons in H. destruct H as [H1 H2].
  rewrite filter_cons_False by congruence. auto.
Qed.

Lemma traced_snoc l e : traced (l ++ [e]) = {[event_case e]} ∪ traced l.
Proof. unfold traced. rewrite fmap_app, list_to_set_app_L. cbn. set_solver. Qed.

(** The invariant of the specification. *)
Record ledger_ok (limit : Z) (L : ledger) : Prop := {
  lo_told : forall id, told limit id (events_of id (lg_trace L));
  lo_open : forall id, id ∈ lg_open L <-> events_of id (lg_trace L) = [Pending id];
  lo_stored : 0 <= lg_stored L <= lg_used L;
  lo_limit : 0 < limit -> lg_used L <= limit
}.

Lemma ledger_step_ok limit L L' : ledger_step limit L L' -> ledger_ok limit L -> ledger_ok limit L'.
Proof.
  intros Hs [Ht Ho Hk Hl]. destruct Hs as [w u k l id Hn|w u k l id Hn|w u k l e Hin He|w u k l n ? ?|w u k l n ? ?|w u k l n ? ?];
    cbn in *; split; cbn; try done; try lia.
  - intros id'. rewrite events_of_snoc. cbn. case_decide; subst; [|by rewrite app_nil_r].
    rewrite events_of_untold by done. constructor.
  - intros id'. rewrite events_of_snoc. cbn. case_decide; subst.
    + rewrite events_of_untold by done. set_solver.
    + rewrite app_nil_r, <- Ho. set_solver.
  - intros id'. rewrite events_of_snoc. cbn. case_decide; subst; [|by rewrite app_nil_r].
    rewrite events_of_untold by done. constructor.
  - intros id'. rewrite events_of_snoc. cbn. case_decide; subst; [|by rewrite app_nil_r, <- Ho].
    rewrite Ho, events_of_untold by done. done.
  - intros id. rewrite events_of_snoc. case_decide; subst; [|by rewrite app_nil_r].
    apply Ho in Hin. rewrite Hin. by constructor.
  - intros id. rewrite events_of_snoc. case_decide as Hd; subst.
    + apply Ho in Hin. rewrite Hin. cbn. set_solver.
    + rewrite app_nil_r, <- Ho. set_solver.
Qed.

Lemma empty_ledger_ok limit : ledger_ok limit empty_ledger.
Proof. split; cbn; [constructor|set_solver|lia|lia]. Qed.

Lemma ledger_reachable_ok limit L : rtc (ledger_step limit) empty_ledger L -> ledger_ok limit L.
Proof.
  revert L. apply rtc_ind_r; [apply empty_ledger_ok|]. intros. by eapply ledger_step_ok.
Qed.

(** ** The simulation *)

Section Simulation.
Context (cfg : Config) (base : string) (commitID limit : Z) (storage : bool).

Local Abbreviation step := (step cfg base commitID limit storage).
Local Abbreviation main_step := (main_step cfg base commitID limit).
Local Abbreviation worker_step := (worker_step limit storage).

(** The cases the client waits for: announced, and in the hands of the reader, of
    the queue or of a worker. *)
Definition worker_cases (w : worker) : list Z :=
  match w with
  | WIdle | WDone => []
  | WFiles t _ _ | WLoad t _ _ _ | WCas t _ _ _ _ | WRefuse t _ _ | WUpload t _ _ _ | WRelease t _ _ _
  | WClear t _ _ | WRecord t _ _ | WDegrade t _ | WReset t _ | WAnnounce t _ => [tk_id t]
  end.
Definition main_cases (m : main) : list Z :=
  match m with MSubmit t _ => [tk_id t] | MRefused id _ => [id] | _ => [] end.
Definition awaited (s : shared) (m : main) (ws : list worker) : list Z :=
  main_cases m ++ (tk_id <$> sh_queue s) ++ (ws ≫= worker_cases).

(** The cases not reported yet. *)
Definition cases_of (todo : list finished) : list Z := (fun c => tc_ID (fc_case c)) <$> todo.
Definition future (m : main) : list Z :=
  match m with
  | MNext todo | MSubmit _ todo | MRefused _ todo => cases_of todo
  | MCheck t todo | MCheckUsed t todo | MAnnounce t todo => tk_id t :: cases_of todo
  | MBudget id todo => id :: cases_of todo
  | _ => []
  end.

(** The bytes a worker has reserved and not stored. *)
Definition charge (n : Z) : Z := if unbounded limit n then 0 else n.
Definition held (w : worker) : Z :=
  match w with WUpload _ f _ _ | WRelease _ f _ _ => charge (gf_Size f) | _ => 0 end.
Definition all_held (ws : list worker) : Z := foldr Z.add 0 (held <$> ws).

(** What a worker knows. *)
Definition worker_ok (w : worker) : Prop :=
  match w with
  | WCas _ f _ _ used => unbounded limit (gf_Size f) = false /\ used + gf_Size f <= limit
  | WLoad _ f _ _ => unbounded limit (gf_Size f) = false
  | WRecord t _ e | WDegrade t e | WAnnounce t e => event_case e = tk_id t /\ settles e
  | _ => True
  end.

Record related (s : shared) (m : main) (ws : list worker) (L : ledger) : Prop := {
  rl_open : lg_open L = list_to_set (awaited s m ws);
  rl_used : lg_used L = sh_used s;
  rl_stored : lg_stored L = sh_stored s;
  rl_trace : lg_trace L = sh_events s;
  rl_distinct : NoDup (awaited s m ws ++ future m);
  rl_future : forall id, id ∈ future m -> id ∉ traced (sh_events s);
  rl_held : sh_used s = sh_stored s + all_held ws;
  rl_workers : Forall worker_ok ws
}.

Lemma awaited_perm s m ws ws' : ws ≡ₚ ws' -> awaited s m ws ≡ₚ awaited s m ws'.
Proof. intros H. unfold awaited. by rewrite H. Qed.

Lemma all_held_perm ws ws' : ws ≡ₚ ws' -> all_held ws = all_held ws'.
Proof. unfold all_held. induction 1; cbn; lia. Qed.

Lemma related_perm s m ws ws' L : ws ≡ₚ ws' -> related s m ws L -> related s m ws' L.
Proof.
  intros H []. split; try done.
  - rewrite rl_open0. by rewrite (awaited_perm _ _ _ _ H).
  - by rewrite <- (awaited_perm _ _ _ _ H).
  - by rewrite <- (all_held_perm _ _ H).
  - by rewrite <- H.
Qed.

(** One worker among the others. *)
Lemma worker_front (ws : list worker) i w :
  ws !! i = Some w -> exists others, ws ≡ₚ w :: others /\ forall w', <[i := w']> ws ≡ₚ w' :: others.
Proof.
  intros H. exists (delete i ws). split; [by apply delete_Permutation|]. intros w'.
  rewrite (delete_Permutation (<[i := w']> ws) i w').
  - by rewrite !delete_take_drop, take_insert_ge, drop_insert_lt by lia.
  - apply list_lookup_insert_eq. by eapply lookup_lt_Some.
Qed.

Lemma awaited_front s m w ws : awaited s m (w :: ws) ≡ₚ worker_cases w ++ awaited s m ws.
Proof. unfold awaited. cbn. solve_Permutation. Qed.

(** A step the ledger does not see. *)
Lemma related_tau s s' m m' ws ws' L :
  awaited s' m' ws' ≡ₚ awaited s m ws ->
  sh_used s' = sh_used s -> sh_stored s' = sh_stored s -> sh_events s' = sh_events s ->
  future m' `sublist_of` future m -> all_held ws' = all_held ws -> (Forall worker_ok ws -> Forall worker_ok ws') ->
  related s m ws L -> related s' m' ws' L.
Proof.
  intros Ha Hu Hk He Hf Hh Hok []. split; rewrite ?Hu, ?Hk, ?He; auto.
  - by rewrite rl_open0, Ha.
  - rewrite Ha. by eapply sublist_NoDup; [|apply sublist_app].
  - intros id Hid. eapply rl_future0, elem_of_sublist; eauto.
  - lia.
Qed.

(** A worker's step the ledger does not see. *)
Lemma worker_tau s s' m w w' ws L :
  sh_queue s' = sh_queue s -> sh_used s' = sh_used s -> sh_stored s' = sh_stored s -> sh_events s' = sh_events s ->
  worker_cases w' = worker_cases w -> held w' = held w -> (worker_ok w -> worker_ok w') ->
  related s m (w :: ws) L -> related s' m (w' :: ws) L.
Proof.
  intros Hq Hu Hk He Hw Hh Hok. apply related_tau; try done.
  - unfold awaited. cbn. by rewrite Hq, Hw.
  - unfold all_held. cbn. by rewrite Hh.
  - inversion 1; subst. constructor; auto.
Qed.

(** A worker tells the client how a case ended. *)
Lemma worker_settles s m t e ws L :
  related s m (WAnnounce t e :: ws) L ->
  exists L', ledger_step limit L L' /\ related (emit s e) m (WIdle :: ws) L'.
Proof.
  destruct L as [w u k l]. intros []. cbn in *. subst.
  apply Forall_cons in rl_workers0 as [Ht Hws]. destruct Ht as [He Hs].
  assert (Ha : awaited s m (WAnnounce t e :: ws) ≡ₚ tk_id t :: awaited s m (WIdle :: ws))
    by (unfold awaited; cbn; solve_Permutation).
  assert (Hd := rl_distinct0). rewrite Ha in Hd. cbn in Hd. apply NoDup_cons in Hd as [Hn Hd].
  eexists; split; [apply (ledger_settle _ _ _ _ _ e)|split; cbn]; try done.
  - rewrite He, Ha. cbn. set_solver.
  - rewrite He, Ha. cbn. apply not_elem_of_app in Hn as [Hn _].
    change (awaited (emit s e) m (WIdle :: ws)) with (awaited s m (WIdle :: ws)).
    apply set_eq. intros x.
    rewrite elem_of_difference, elem_of_union, elem_of_list_to_set, elem_of_singleton.
    destruct (decide (x = tk_id t)); naive_solver.
  - intros id Hid. rewrite traced_snoc, He. apply rl_future0 in Hid as Hid'.
    apply not_elem_of_app in Hn as [_ Hn]. set_solver.
  - by constructor.
Qed.

Lemma begin_task_cases t :
  worker_cases (begin_task storage t) = [tk_id t] /\ held (begin_task storage t) = 0 /\
  worker_ok (begin_task storage t).
Proof. unfold begin_task. destruct storage; cbn; [|done]. by destruct (collectGeneratedFiles _ _). Qed.

Lemma conclude_cases t p :
  worker_cases (conclude limit t p) = [tk_id t] /\ held (conclude limit t p) = 0 /\
  worker_ok (conclude limit t p).
Proof. unfold conclude. by repeat case_match. Qed.

Lemma bounded_charge n : unbounded limit n = false -> 0 < limit /\ 0 < n /\ charge n = n.
Proof. unfold charge. intros H. rewrite H. unfold unbounded in H. lia. Qed.

(** The three changes of the budget. *)
Lemma worker_reserves s m t f rest p ws L :
  related s m (WCas t f rest p (sh_used s) :: ws) L ->
  exists L', ledger_step limit L L' /\
    related (s <| sh_used := sh_used s + gf_Size f |>) m (WUpload t f rest p :: ws) L'.
Proof.
  destruct L as [w u k l]. intros []. cbn in *. subst.
  apply Forall_cons in rl_workers0 as [[Hb Hl] Hws]. apply bounded_charge in Hb as (? & ? & Hc).
  eexists; split; [apply (ledger_reserve _ _ _ _ _ (gf_Size f)); lia|split; cbn]; try done.
  - rewrite rl_held0 at 1. unfold all_held. cbn. rewrite Hc. lia.
  - by constructor.
Qed.

Lemma worker_releases s m t f rest p ws w' L :
  unbounded limit (gf_Size f) = false -> worker_cases w' = [tk_id t] -> held w' = 0 -> worker_ok w' ->
  0 <= all_held ws ->
  related s m (WRelease t f rest p :: ws) L ->
  exists L', ledger_step limit L L' /\ related (s <| sh_used := sh_used s - gf_Size f |>) m (w' :: ws) L'.
Proof.
  destruct L as [w u k l]. intros Hb Hw Hh Hok Hws []. cbn in *. subst.
  apply bounded_charge in Hb as (? & ? & Hc).
  assert (Ha : awaited (s <| sh_used := sh_used s - gf_Size f |>) m (w' :: ws) =
               awaited s m (WRelease t f rest p :: ws)) by (unfold awaited; cbn; by rewrite Hw).
  unfold all_held in *. cbn in rl_held0. rewrite Hc in rl_held0.
  eexists; split; [apply (ledger_release _ _ _ _ _ (gf_Size f)); lia|split; rewrite ?Ha]; try done.
  - cbn. unfold all_held. cbn. lia.
  - inversion rl_workers0; subst. by constructor.
Qed.

Lemma worker_stores s m t f rest p p' ws L :
  0 <= all_held ws -> related s m (WUpload t f rest p :: ws) L ->
  exists L', rtc (ledger_step limit) L L' /\
    related (s <| sh_stored := sh_stored s + charge (gf_Size f) |>) m (WFiles t rest p' :: ws) L'.
Proof.
  destruct L as [w u k l]. intros Hws []. cbn in *. subst. unfold all_held in *. cbn in rl_held0.
  apply Forall_cons in rl_workers0 as [_ Hok].
  destruct (unbounded limit (gf_Size f)) eqn:Hb.
  - exists (mk_ledger (list_to_set (awaited s m (WUpload t f rest p :: ws))) (sh_used s) (sh_stored s) (sh_events s)).
    split; [done|]. unfold charge in *. rewrite Hb in *. split; cbn; try done; [lia|unfold all_held; cbn; lia|].
    by constructor.
  - apply bounded_charge in Hb as (? & ? & Hc). rewrite Hc in *.
    eexists; split; [apply rtc_once, (ledger_store _ _ _ _ _ (gf_Size f)); lia|split; cbn]; try done.
    + unfold all_held. cbn. lia.
    + by constructor.
Qed.

Lemma charge_nonneg n : 0 <= charge n.
Proof. unfold charge. destruct (unbounded limit n) eqn:E; [done|]. apply bounded_charge in E as (_ & ? & _). by apply Z.lt_le_incl. Qed.

Lemma all_held_nonneg ws : 0 <= all_held ws.
Proof.
  unfold all_held. induction ws as [|w ws IH]; cbn; [lia|].
  destruct w; cbn; try apply Z.add_nonneg_nonneg; try done; apply charge_nonneg.
Qed.

Lemma worker_simulated ok s m w ws s' w' L :
  worker_step ok s w = Some (s', w') -> related s m (w :: ws) L ->
  exists L', rtc (ledger_step limit) L L' /\ related s' m (w' :: ws) L'.
Proof.
  intros Hs HR.
  assert (Htau : sh_queue s' = sh_queue s -> sh_used s' = sh_used s -> sh_stored s' = sh_stored s ->
    sh_events s' = sh_events s -> worker_cases w' = worker_cases w -> held w' = held w ->
    (worker_ok w -> worker_ok w') -> exists L', rtc (ledger_step limit) L L' /\ related s' m (w' :: ws) L').
  { intros. exists L. split; [done|]. by eapply worker_tau. }
  destruct w as [|t [|f rest] p|t f rest p|t f rest p used|t rest p|t f rest p|t f rest p|t rest p|t n e|t e|t n|t e|];
    cbn in Hs.
  - destruct (sh_queue s) as [|t q] eqn:Eq; [|].
    + destruct (sh_closed s); [|done]. injection Hs as <- <-. by apply Htau.
    + injection Hs as <- <-. exists L. split; [done|]. destruct (begin_task_cases t) as (H1 & H2 & H3).
      eapply related_tau, HR; try done.
      * unfold awaited. cbn. rewrite Eq, H1. cbn. solve_Permutation.
      * unfold all_held. cbn. by rewrite H2.
      * inversion 1; subst. by constructor.
  - injection Hs as <- <-. destruct (conclude_cases t p) as (H1 & H2 & H3). by apply Htau.
  - destruct (rq_SkipFile _ _); [|destruct (_ && _); [|destruct (unbounded _ _) eqn:Eb]];
      injection Hs as <- <-; apply Htau; try done. cbn. unfold charge. by rewrite Eb.
  - destruct (_ <? _) eqn:El; injection Hs as <- <-; apply Htau; try done.
    intros Hu. split; [exact Hu|lia].
  - destruct (sh_used s =? used) eqn:Eu; injection Hs as <- <-.
    + apply Z.eqb_eq in Eu as <-. destruct (worker_reserves _ _ _ _ _ _ _ _ HR) as (L' & ? & ?).
      exists L'. split; [by apply rtc_once|done].
    + apply Htau; try done. by intros [].
  - injection Hs as <- <-. by apply Htau.
  - destruct ok; injection Hs as <- <-; [|by apply Htau].
    eapply worker_stores; [apply all_held_nonneg|done].
  - destruct (unbounded _ _) eqn:Eb.
    + injection Hs as <- <-. apply Htau; try done. cbn. unfold charge. by rewrite Eb.
    + injection Hs as <- <-.
      edestruct worker_releases as (L' & ? & HR'); [done| | | | |exact HR|exists L'; split; [by apply rtc_once|exact HR']];
        try apply all_held_nonneg; by case_match.
  - injection Hs as <- <-. by apply Htau.
  - destruct (_ <? _); injection Hs as <- <-; by apply Htau.
  - injection Hs as <- <-. by apply Htau.
  - destruct (_ =? _)%nat; injection Hs as <- <-; by apply Htau.
  - injection Hs as <- <-. apply worker_settles in HR as (L' & ? & ?). exists L'. split; [by apply rtc_once|done].
  - done.
Qed.

Lemma case_task_id c t : case_task cfg base commitID c = Some t -> tk_id t = tc_ID (fc_case c).
Proof.
  unfold case_task, queueCaseOutputs, casePublishRequest. intros H.
  destruct (tc_ShowUserOutput _); cbn in H; [|done].
  destruct (fc_dir c) as [| |[|x xs]]; cbn in H; try done; destruct (fc_readable c); cbn in H; try done.
  destruct (bool_decide _); cbn in H; [done|]. destruct (_ && _); injection H as <-; done.
Qed.

(** The next case of the reader. *)
Lemma related_next s m ws L id rest :
  future m = id :: rest -> related s m ws L ->
  id ∉ awaited s m ws /\ id ∉ rest /\ NoDup (awaited s m ws ++ rest) /\ id ∉ traced (sh_events s) /\
  forall id', id' ∈ rest -> id' <> id /\ id' ∉ traced (sh_events s).
Proof.
  intros Hf []. rewrite Hf in *. rewrite <- Permutation_middle in rl_distinct0.
  apply NoDup_cons in rl_distinct0 as [[Ha Hr]%not_elem_of_app Hd].
  split_and!; try done; [apply rl_future0; by left|].
  intros id' Hid. split; [by intros ->|]. apply rl_future0. by right.
Qed.

Lemma main_refuses s id todo ws L :
  related s (MBudget id todo) ws L ->
  exists L', ledger_step limit L L' /\
    related (emit s (Failed id ArtifactReasonBudgetExceeded limit)) (MNext todo) ws L'.
Proof.
  intros HR. destruct (related_next _ (MBudget id todo) _ _ id (cases_of todo) eq_refl HR) as (Ha & Hr & Hd & Ht & Hf).
  destruct L as [w u k l], HR. cbn in *. subst.
  eexists. split; [by apply ledger_refuse|split; cbn; try done].
  intros id' Hid. rewrite traced_snoc. cbn. apply Hf in Hid. set_solver.
Qed.

Lemma main_announces s t todo ws L :
  related s (MAnnounce t todo) ws L ->
  exists L', ledger_step limit L L' /\ related (emit s (Pending (tk_id t))) (MSubmit t todo) ws L'.
Proof.
  intros HR. destruct (related_next _ (MAnnounce t todo) _ _ (tk_id t) (cases_of todo) eq_refl HR) as (Ha & Hr & Hd & Ht & Hf).
  destruct L as [w u k l], HR. cbn in *. subst.
  eexists. split; [by apply ledger_announce|split; cbn; try done].
  - constructor; [|done]. by apply not_elem_of_app.
  - intros id' Hid. rewrite traced_snoc. cbn. apply Hf in Hid. set_solver.
Qed.

Lemma main_settles s id todo reason n ws L :
  related s (MRefused id todo) ws L ->
  exists L', ledger_step limit L L' /\ related (emit s (Failed id reason n)) (MNext todo) ws L'.
Proof.
  destruct L as [w u k l]. intros []. cbn in *. subst. apply NoDup_cons in rl_distinct0 as [Hn Hd].
  eexists. split; [apply (ledger_settle _ _ _ _ _ (Failed id reason n)); cbn; set_solver|split; cbn; try done].
  - apply set_eq. intros x. apply not_elem_of_app in Hn as [Hn _].
    rewrite elem_of_difference, elem_of_union, elem_of_list_to_set, elem_of_singleton.
    change (awaited _ _ _) with (awaited s (MNext todo) ws) in Hn |- *. destruct (decide (x = id)); naive_solver.
  - intros id' Hid. rewrite traced_snoc. cbn. apply not_elem_of_app in Hn as [_ Hn].
    apply rl_future0 in Hid as ?. set_solver.
Qed.

Lemma main_simulated stop s m ws s' m' L :
  main_step stop ws s m = Some (s', m') -> related s m ws L ->
  exists L', rtc (ledger_step limit) L L' /\ related s' m' ws L'.
Proof.
  intros Hs HR.
  assert (Htau : awaited s' m' ws ≡ₚ awaited s m ws -> sh_used s' = sh_used s -> sh_stored s' = sh_stored s ->
    sh_events s' = sh_events s -> future m' `sublist_of` future m ->
    exists L', rtc (ledger_step limit) L L' /\ related s' m' ws L').
  { intros. exists L. split; [done|]. by eapply related_tau. }
  assert (Hone : forall s0 m0, (exists L', ledger_step limit L L' /\ related s0 m0 ws L') ->
    exists L', rtc (ledger_step limit) L L' /\ related s0 m0 ws L').
  { intros s0 m0 (L' & ? & ?). exists L'. split; [by apply rtc_once|done]. }
  destruct m as [todo|t todo|t todo|id todo|t todo|t todo|id todo| | |]; cbn in Hs.
  - destruct stop; [|destruct todo as [|c todo]; [|destruct (case_task _ _ _ c) as [t|] eqn:Et]];
      injection Hs as <- <-; apply Htau; try done; cbn; try apply sublist_nil_l.
    + by rewrite (case_task_id _ _ Et).
    + by apply sublist_cons.
  - destruct (_ <=? _); [|destruct (sh_exhausted s)]; injection Hs as <- <-; by apply Htau.
  - destruct (_ <=? _); injection Hs as <- <-; by apply Htau.
  - injection Hs as <- <-. by apply Hone, main_refuses.
  - injection Hs as <- <-. by apply Hone, main_announces.
  - unfold submit in Hs. destruct (_ || _); [injection Hs as <- <-; by apply Htau|].
    destruct (_ <? _)%nat; injection Hs as <- <-; apply Htau; try done.
    unfold awaited. cbn. rewrite fmap_app. cbn. solve_Permutation.
  - injection Hs as <- <-. by apply Hone, main_settles.
  - injection Hs as <- <-. by apply Htau.
  - destruct (forallb _ _); [|done]. injection Hs as <- <-. by apply Htau.
  - done.
Qed.

Lemma step_simulated c c' L :
  step c c' -> related (sy_shared c) (sy_main c) (sy_workers c) L ->
  exists L', rtc (ledger_step limit) L L' /\ related (sy_shared c') (sy_main c') (sy_workers c') L'.
Proof.
  intros [stop s m ws s' m' H|i ok s m ws w s' w' Hw H] HR; cbn in *; [by eapply main_simulated|].
  destruct (worker_front ws i w Hw) as (others & Hp & Hp').
  destruct (worker_simulated _ _ m _ others _ _ L H) as (L' & ? & ?); [by eapply related_perm|].
  exists L'. split; [done|]. eapply related_perm; [|done]. symmetry. apply Hp'.
Qed.

Lemma related_start todo :
  NoDup (cases_of todo) ->
  let c := newOutputPublisher todo in related (sy_shared c) (sy_main c) (sy_workers c) empty_ledger.
Proof.
  intros H. split; try done.
  by repeat constructor.
Qed.

Lemma run_simulated todo c :
  NoDup (cases_of todo) -> rtc step (newOutputPublisher todo) c ->
  exists L, rtc (ledger_step limit) empty_ledger L /\ related (sy_shared c) (sy_main c) (sy_workers c) L.
Proof.
  intros Hn. revert c. apply rtc_ind_r; [exists empty_ledger; split; [done|by apply related_start]|].
  intros c c' _ Hs (L & HL & HR). destruct (step_simulated _ _ _ Hs HR) as (L' & ? & ?).
  exists L'. split; [by etrans|done].
Qed.
End Simulation.

(** ** Every run ends *)

Section Progress.
Context (cfg : Config) (base : string) (commitID limit : Z) (storage : bool).

Local Abbreviation step := (step cfg base commitID limit storage).
Local Abbreviation main_step := (main_step cfg base commitID limit).
Local Abbreviation worker_step := (worker_step limit storage).

Record shaped (s : shared) (m : main) (ws : list worker) : Prop := {
  sp_closed : sh_closed s = match m with MWait | MDone => true | _ => false end;
  sp_done : WDone ∈ ws -> sh_closed s = true /\ sh_queue s = [];
  sp_final : m = MDone -> Forall (eq WDone) ws;
  sp_queue : (length (sh_queue s) <= outputPublishQueue)%nat;
  sp_workers : length ws = outputPublishWorkers
}.

Lemma shaped_start todo :
  let c := newOutputPublisher todo in shaped (sy_shared c) (sy_main c) (sy_workers c).
Proof. split; try done; [set_solver|cbn; lia]. Qed.

Lemma forallb_done ws : forallb is_done ws = true <-> Forall (eq WDone) ws.
Proof.
  induction ws as [|w ws IH]; cbn; [done|]. rewrite andb_true_iff, IH, Forall_cons.
  destruct w; naive_solver.
Qed.

Lemma worker_step_shared ok s w s' w' :
  worker_step ok s w = Some (s', w') ->
  sh_closed s' = sh_closed s /\ w <> WDone /\ (sh_queue s' = sh_queue s \/ exists t, sh_queue s = t :: sh_queue s') /\
  (w' = WDone -> sh_closed s = true /\ sh_queue s = []).
Proof.
  assert (Hb : forall t, begin_task storage t <> WDone) by (intros t; unfold begin_task; by repeat case_match).
  assert (Hc : forall t p, conclude limit t p <> WDone) by (intros t p; unfold conclude; by repeat case_match).
  destruct w; cbn; intros H; repeat case_match; simplify_eq/=; split_and!; try done; try (by left); try (by right; eexists).
  - by intros ?%Hb.
  - by intros ?%Hc.
Qed.

Lemma shaped_step c c' :
  step c c' -> shaped (sy_shared c) (sy_main c) (sy_workers c) -> shaped (sy_shared c') (sy_main c') (sy_workers c').
Proof.
  intros [stop s m ws s' m' H|i ok s m ws w s' w' Hw H] []; cbn in *.
  - assert (Hs : (m = MWait /\ m' = MDone /\ s' = s /\ forallb is_done ws = true) \/
      (sh_closed s = false /\ (length (sh_queue s') <= outputPublishQueue)%nat /\
       sh_closed s' = match m' with MWait => true | _ => false end /\ m' <> MDone)).
    { destruct m; cbn in H; repeat case_match; simplify_eq/=; try (by left); right; split_and!; try done.
      all: unfold submit in *; repeat case_match; simplify_eq/=; try done.
      rewrite length_app. cbn. apply Nat.ltb_lt in H1. lia. }
    destruct Hs as [(-> & -> & -> & Hd)|(Hc & Hq & Hc' & Hm)].
    + split; try done. intros _. by apply forallb_done.
    + split; try done; [by destruct m'|].
      intros Hd. apply sp_done0 in Hd as [? _]. congruence.
  - apply worker_step_shared in H as (Hc & Hw' & Hq & Hd).
    assert (Hwi : (i < length ws)%nat) by by eapply lookup_lt_Some.
    split; rewrite ?Hc; try done.
    + intros Hin. apply list_elem_of_lookup in Hin as [j Hj].
      assert (Hcq : sh_closed s = true /\ sh_queue s = []).
      { destruct (decide (i = j)) as [->|Hij].
        - rewrite list_lookup_insert_eq in Hj by done. apply Hd. congruence.
        - rewrite list_lookup_insert_ne in Hj by done. apply sp_done0. by eapply list_elem_of_lookup_2. }
      destruct Hcq as [? Hn]. split; [done|]. destruct Hq as [->|[t Ht]]; [done|]. rewrite Hn in Ht. done.
    + intros ->. specialize (sp_final0 eq_refl). rewrite Forall_lookup in sp_final0. by apply sp_final0 in Hw.
    + destruct Hq as [->|[t Ht]]; [done|]. rewrite Ht in sp_queue0. cbn in *. lia.
    + by rewrite length_insert.
Qed.

(** What is left to do. A file costs at most seven steps, not counting the turns of
    the compare-and-swap loop. *)
Local Open Scope nat_scope.
Definition files_of (t : task) : nat :=
  match collectGeneratedFiles (tk_dir t) (rq_SkipDir (tk_req t)) with Ok l => length l | Err _ => 0 end.
Definition task_work (t : task) : nat := 7 * files_of t + 5.

Definition worker_work (w : worker) : nat :=
  match w with
  | WFiles _ rest _ => 7 * length rest + 5
  | WLoad _ _ rest _ | WCas _ _ rest _ _ => 7 * length rest + 9
  | WUpload _ _ rest _ => 7 * length rest + 8
  | WRelease _ _ rest _ => 7 * length rest + 7
  | WClear _ rest _ | WRefuse _ rest _ => 7 * length rest + 6
  | WRecord _ _ _ => 4
  | WDegrade _ _ | WReset _ _ => 3
  | WAnnounce _ _ => 2
  | WIdle => 1
  | WDone => 0
  end.

Definition case_work (c : finished) : nat :=
  match case_task cfg base commitID c with Some t => task_work t + 6 | None => 1 end.
Definition todo_work (todo : list finished) : nat := 3 + sum_list (case_work <$> todo).

Definition main_work (m : main) : nat :=
  match m with
  | MNext todo => todo_work todo
  | MCheck t todo => todo_work todo + task_work t + 5
  | MCheckUsed t todo => todo_work todo + task_work t + 4
  | MBudget _ todo => todo_work todo + 1
  | MAnnounce t todo => todo_work todo + task_work t + 3
  | MSubmit t todo => todo_work todo + task_work t + 2
  | MRefused _ todo => todo_work todo + 1
  | MClose => 2
  | MWait => 1
  | MDone => 0
  end.

Definition workers_work (ws : list worker) : nat := sum_list (worker_work <$> ws).
Definition queue_work (s : shared) : nat := sum_list (task_work <$> sh_queue s).
Definition total_work (s : shared) (m : main) (ws : list worker) : nat :=
  main_work m + queue_work s + workers_work ws.

(** The turns of the loop: a worker that loaded an old value must load again. *)
Definition retry (used : Z) (w : worker) : nat :=
  match w with
  | WLoad _ _ _ _ => 2
  | WCas _ _ _ _ u => if (used =? u)%Z then 1 else 3
  | _ => 0
  end.
Definition retries (s : shared) (ws : list worker) : nat := sum_list (retry (sh_used s) <$> ws).

Definition work (c : sys) : nat :=
  13 * total_work (sy_shared c) (sy_main c) (sy_workers c) + retries (sy_shared c) (sy_workers c).

Local Close Scope nat_scope.
Lemma retries_bound s ws : (retries s ws <= 3 * length ws)%nat.
Proof.
  unfold retries. induction ws as [|w ws IH]; cbn; [lia|].
  enough (retry (sh_used s) w <= 3)%nat by (cbn in *; lia). destruct w; cbn; try case_match; lia.
Qed.

Lemma sum_list_cons x (l : list nat) : sum_list (x :: l) = (x + sum_list l)%nat.
Proof. done. Qed.

Lemma sum_list_perm (l l' : list nat) : l ≡ₚ l' -> sum_list l = sum_list l'.
Proof. induction 1; cbn; lia. Qed.

Lemma begin_task_work t : (worker_work (begin_task storage t) <= task_work t)%nat.
Proof. unfold begin_task, task_work, files_of. destruct storage; cbn; [|lia]. destruct (collectGeneratedFiles _ _); cbn; lia. Qed.

Lemma conclude_work t p : (worker_work (conclude limit t p) <= 4)%nat.
Proof. unfold conclude. repeat case_match; cbn; lia. Qed.

(** A worker's step does some work, or is a turn of the loop. *)
Lemma worker_step_works ok s w s' w' :
  worker_step ok s w = Some (s', w') ->
  (queue_work s' + worker_work w' < queue_work s + worker_work w)%nat \/
  (s' = s /\ worker_work w' = worker_work w /\ (retry (sh_used s) w' < retry (sh_used s) w)%nat).
Proof.
  unfold queue_work. intros H.
  destruct w as [|t [|f rest] p|t f rest p|t f rest p used| | | | | | | | |]; cbn in H;
    repeat case_match; simplify_eq/=; try (left; lia).
  - left. rewrite H0. cbn. lia.
  - left. pose proof (begin_task_work t). lia.
  - left. pose proof (conclude_work t p). lia.
  - right. rewrite Z.eqb_refl. split_and!; [done|done|lia].
  - right. destruct (_ =? _) eqn:E; [congruence|]. split_and!; [done|done|lia].
Qed.

Lemma main_step_works stop s m ws s' m' :
  main_step stop ws s m = Some (s', m') ->
  (main_work m' + queue_work s' < main_work m + queue_work s)%nat.
Proof.
  intros H. destruct m as [[|c todo]| | | | | | | | |]; cbn in H; unfold submit, queue_work in *;
    repeat case_match; simplify_eq/=; unfold todo_work, case_work in *; try lia.
  all: cbn; repeat case_match; simplify_eq; try lia.
  rewrite fmap_app, sum_list_with_app. cbn. lia.
Qed.

Lemma step_works c c' :
  step c c' -> length (sy_workers c) = outputPublishWorkers -> (work c' < work c)%nat.
Proof.
  unfold work, total_work, outputPublishWorkers.
  intros [stop s m ws s' m' H|i ok s m ws w s' w' Hw H] Hl; cbn [sy_shared sy_main sy_workers] in *.
  - apply main_step_works in H. pose proof (retries_bound s' ws). lia.
  - destruct (worker_front ws i w Hw) as (others & Hp & Hp').
    assert (Ho : length others = 3%nat) by (apply Permutation_length in Hp; cbn in Hp; lia).
    pose proof (retries_bound s' others) as Hr. pose proof (retries_bound s others) as Hr'.
    assert (Hww : forall x, (retry (sh_used s') x <= 3)%nat) by (intros x; destruct x; cbn; try case_match; lia).
    specialize (Hww w'). unfold workers_work, retries in *.
    rewrite !(sum_list_perm _ _ (fmap_Permutation _ _ _ Hp)), !(sum_list_perm _ _ (fmap_Permutation _ _ _ (Hp' w'))).
    rewrite !fmap_cons, !sum_list_cons.
    apply worker_step_works in H as [H|(-> & H1 & H2)]; lia.
Qed.

Lemma shaped_progress c :
  shaped (sy_shared c) (sy_main c) (sy_workers c) ->
  (sy_main c = MDone /\ Forall (eq WDone) (sy_workers c) /\ sh_queue (sy_shared c) = []) \/ exists c', step c c'.
Proof.
  destruct c as [s m ws]. cbn. intros [].
  assert (Hm : m = MDone \/ m = MWait \/ exists s' m', main_step false ws s m = Some (s', m')).
  { destruct m; cbn; eauto; right; right; repeat case_match; eauto. }
  destruct Hm as [->|[->|(s' & m' & Hm)]].
  - left. split; [done|]. assert (Hf := sp_final0 eq_refl). split; [done|]. apply sp_done0.
    destruct ws as [|w ws]; [done|]. apply Forall_cons in Hf as [<- _]. by left.
  - right. destruct (forallb is_done ws) eqn:Ed.
    + eexists. apply (step_main _ _ _ _ _ false). cbn. by rewrite Ed.
    + assert (He : Exists (fun w => is_done w = false) ws).
      { clear -Ed. induction ws as [|w ws IH]; [done|]. cbn in Ed. destruct (is_done w) eqn:E; [right; auto|by left]. }
      apply Exists_exists in He as (w & [i Hw]%list_elem_of_lookup & Hd).
      assert (Hs : exists s' w', worker_step true s w = Some (s', w')).
      { destruct w as [|t [|f rest] p| | | | | | | | | | |]; cbn; try done; rewrite ?sp_closed0; repeat case_match; eauto. }
      destruct Hs as (s' & w' & Hs). eexists. by eapply step_worker.
  - right. eexists. by apply (step_main _ _ _ _ _ false).
Qed.

Lemma reachable_shaped todo c :
  rtc step (newOutputPublisher todo) c -> shaped (sy_shared c) (sy_main c) (sy_workers c).
Proof.
  revert c. apply rtc_ind_r; [apply shaped_start|]. intros c c' _ Hs. by apply shaped_step.
Qed.

Lemma nsteps_work n c c' :
  shaped (sy_shared c) (sy_main c) (sy_workers c) -> nsteps step n c c' -> (work c' + n <= work c)%nat.
Proof.
  intros Hsh H. induction H as [|n c c1 c2 Hs _ IH]; [lia|].
  assert (Hw := step_works _ _ Hs (sp_workers _ _ _ Hsh)). apply (shaped_step _ _ Hs), IH in Hsh. lia.
Qed.

Lemma finishes c :
  shaped (sy_shared c) (sy_main c) (sy_workers c) -> exists c', rtc step c c' /\ sy_main c' = MDone.
Proof.
  induction c as [c IH] using (well_founded_induction (well_founded_ltof _ work)). intros Hsh.
  destruct (shaped_progress c Hsh) as [[? _]|[c1 Hs]]; [by exists c|].
  destruct (IH c1) as (c' & ? & ?); [by apply step_works, (sp_workers _ _ _ Hsh)|by eapply shaped_step|].
  exists c'. split; [by eapply rtc_l|done].
Qed.
End Progress.

(** ** The properties *)

(** C9: the publisher implements the ledger. Whatever the workers' speed and
    whatever object storage answers, every state the reader and the four workers can
    reach is one the ledger reaches, with the same events told to the client in the
    same order, the same bytes claimed and stored, and the ledger's open cases
    exactly those in the hands of the reader, the queue or a worker. *)
Theorem publisher_refines_ledger cfg base commitID limit storage todo c :
  NoDup (cases_of todo) ->
  rtc (step cfg base commitID limit storage) (newOutputPublisher todo) c ->
  exists L, rtc (ledger_step limit) empty_ledger L /\
    lg_trace L = sh_events (sy_shared c) /\
    lg_used L = sh_used (sy_shared c) /\ lg_stored L = sh_stored (sy_shared c) /\
    lg_open L = list_to_set (awaited (sy_shared c) (sy_main c) (sy_workers c)).
Proof.
  intros Hn Hr. destruct (run_simulated _ _ _ _ _ _ _ Hn Hr) as (L & HL & []). by exists L.
Qed.

(** C13: no placeholder is left behind. At any time the client has been told of a
    case at most that its files are pending and then one final word, or in one word
    that the budget is spent; and once the publisher is closed no case is pending. *)
Theorem every_placeholder_settles cfg base commitID limit storage todo c id :
  NoDup (cases_of todo) ->
  rtc (step cfg base commitID limit storage) (newOutputPublisher todo) c ->
  told limit id (events_of id (sh_events (sy_shared c))) /\
  (sy_main c = MDone -> events_of id (sh_events (sy_shared c)) <> [Pending id]).
Proof.
  intros Hn Hr. destruct (run_simulated _ _ _ _ _ _ _ Hn Hr) as (L & HL & []).
  apply ledger_reachable_ok in HL as []. rewrite <- rl_trace0. split; [done|].
  intros Hm. rewrite <- lo_open0, rl_open0, elem_of_list_to_set.
  apply reachable_shaped in Hr as []. specialize (sp_final0 Hm).
  assert (Hq : sh_queue (sy_shared c) = []).
  { apply sp_done0. destruct (sy_workers c) as [|w ws]; [done|]. apply Forall_cons in sp_final0 as [<- _]. by left. }
  unfold awaited. rewrite Hm, Hq. cbn. clear -sp_final0.
  induction sp_final0 as [|w ws <- _ IH]; [by apply not_elem_of_nil|done].
Qed.

(** the budget and the queue are bounds. The bytes stored never exceed the bytes
    claimed, those never exceed the commit's limit when it has one, and never more
    than [outputPublishQueue] cases wait; all of it at every point of every
    interleaving, so the optimistic reservation loses no update. *)
Theorem publisher_bounds cfg base commitID limit storage todo c :
  NoDup (cases_of todo) ->
  rtc (step cfg base commitID limit storage) (newOutputPublisher todo) c ->
  0 <= sh_stored (sy_shared c) <= sh_used (sy_shared c) /\
  (0 < limit -> sh_used (sy_shared c) <= limit) /\
  (length (sh_queue (sy_shared c)) <= outputPublishQueue)%nat.
Proof.
  intros Hn Hr. destruct (run_simulated _ _ _ _ _ _ _ Hn Hr) as (L & HL & []).
  apply ledger_reachable_ok in HL as []. apply reachable_shaped in Hr as [].
  rewrite <- rl_used0, <- rl_stored0. auto.
Qed.

(** C14: closing the publisher always returns. An execution has at most
    [work] steps, however the goroutines interleave and however often a
    reservation must be retried; a state no goroutine can leave is the end, with
    every worker gone and nothing queued; and the end can always be reached. *)
Theorem publisher_run_ends cfg base commitID limit storage todo :
  let start := newOutputPublisher todo in
  (forall n c, nsteps (step cfg base commitID limit storage) n start c ->
     (n <= work cfg base commitID start)%nat) /\
  (forall c, rtc (step cfg base commitID limit storage) start c ->
     (sy_main c = MDone /\ Forall (eq WDone) (sy_workers c) /\ sh_queue (sy_shared c) = []) \/
     exists c', step cfg base commitID limit storage c c') /\
  (forall c, rtc (step cfg base commitID limit storage) start c ->
     exists c', rtc (step cfg base commitID limit storage) c c' /\ sy_main c' = MDone).
Proof.
  split_and!.
  - intros n c H. apply nsteps_work in H; [lia|apply shaped_start].
  - intros c H. eapply shaped_progress, reachable_shaped, H.
  - intros c H. eapply finishes, reachable_shaped, H.
Qed.

(** ** A run *)

Definition MiB : Z := 1024 * 1024.

Definition written (id : Z) (sizes : list Z) : finished :=
  mk_finished (sample_case <| tc_ID := id |> <| tc_Number := id |> <| tc_ShowUserOutput := true |> <| tc_FileSizeLimit := 0 |>)
    (sample_result <| cr_TestCaseID := id |> <| cr_Status := CaseCorrect |>)
    (DirTree (imap (fun i n => File (fmt_int (Z.of_nat i)) n) sizes)) true true.

(** Case 1 stores most of the budget of 256 MiB and one file of case 2 does not fit;
    case 3 writes a single byte. *)
Definition busy_run : list finished :=
  [written 1 [60 * MiB; 60 * MiB; 60 * MiB; 60 * MiB]; written 2 [5 * MiB; 20 * MiB]; written 3 [1]].

Definition busy_schedule : list turn :=
  repeat (Reader false) 5 ++ repeat (Worker 0 true) 20 ++ repeat (Reader false) 5 ++ repeat (Worker 1 true) 11 ++
  repeat (Reader false) 5 ++ ((fun i => Worker i true) <$> seq 0 4) ++ [Reader false].

Definition busy_end : option sys :=
  take_turns default_config "/run" 7 (256 * MiB) true (newOutputPublisher busy_run) busy_schedule.

Lemma busy_end_reachable c :
  busy_end = Some c -> rtc (step default_config "/run" 7 (256 * MiB) true) (newOutputPublisher busy_run) c.
Proof. apply take_turns_run. Qed.

Lemma busy_distinct : NoDup (cases_of busy_run).
Proof. apply (bool_decide_unpack _). vm_compute. exact I. Qed.

(** one file that does not fit refuses every case after it. A run stores 245
    of its 256 MiB, one file of case 2 does not fit, and case 3 is refused without
    being queued, its single byte declared past the budget, although the budget has
    room for it. The comment of [publishGeneratedFiles] says a large file cannot make
    the following cases' files unpublishable until the total is exhausted. *)
Theorem large_file_blocks_later_cases :
  exists c,
    rtc (step default_config "/run" 7 (256 * MiB) true) (newOutputPublisher busy_run) c /\
    sy_main c = MDone /\
    sh_events (sy_shared c) =
      [Pending 1; Ready 1; Pending 2; Ready 2; Failed 3 ArtifactReasonBudgetExceeded (256 * MiB)] /\
    sh_used (sy_shared c) = 245 * MiB /\ sh_stored (sy_shared c) = 245 * MiB /\
    fst (reserve (mk_budget (256 * MiB) (sh_used (sy_shared c)) false) 1) =
      mk_budget (256 * MiB) (245 * MiB + 1) false.
Proof.
  destruct busy_end as [c|] eqn:E; [|by vm_compute in E].
  exists c. split; [by apply busy_end_reachable|].
  vm_compute in E. injection E as <-. by vm_compute.
Qed.

Lemma publisher_refines_ledger_witness :
  exists c L, busy_end = Some c /\ rtc (ledger_step (256 * MiB)) empty_ledger L /\
    lg_trace L = sh_events (sy_shared c) /\ lg_used L = 245 * MiB.
Proof.
  destruct busy_end as [c|] eqn:E; [|by vm_compute in E].
  destruct (publisher_refines_ledger default_config "/run" 7 (256 * MiB) true busy_run c busy_distinct
    (busy_end_reachable c E)) as (L & HL & Ht & Hu & _).
  exists c, L. split; [done|]. split; [done|]. split; [done|]. rewrite Hu.
  vm_compute in E. by injection E as <-.
Defined.

Lemma every_placeholder_settles_witness :
  exists c, busy_end = Some c /\ told (256 * MiB) 2 (events_of 2 (sh_events (sy_shared c))) /\
    events_of 2 (sh_events (sy_shared c)) <> [Pending 2].
Proof.
  destruct busy_end as [c|] eqn:E; [|by vm_compute in E].
  destruct (every_placeholder_settles default_config "/run" 7 (256 * MiB) true busy_run c 2 busy_distinct
    (busy_end_reachable c E)) as [Ht Hm].
  exists c. split; [done|]. split; [done|]. apply Hm. vm_compute in E. by injection E as <-.
Defined.

Lemma publisher_bounds_witness :
  exists c, busy_end = Some c /\ 0 < 256 * MiB /\ sh_used (sy_shared c) <= 256 * MiB.
Proof.
  destruct busy_end as [c|] eqn:E; [|by vm_compute in E].
  exists c. split; [done|]. split; [by vm_compute|].
  by apply (publisher_bounds default_config "/run" 7 (256 * MiB) true busy_run c busy_distinct (busy_end_reachable c E)).
Defined.
