(* ===== verification/Sql.v ===== *)
(** * Statements and transactions

    How the backend's services talk to PostgreSQL. Every statement may fail (the
    connection drops, a limit is hit); which ones do is an argument, [fault], of the
    number of statements sent before. A statement that succeeds reads or writes the
    tables; a transaction keeps its writes only if its [COMMIT] succeeds. The
    services answer every database failure with the same error. *)

From S2P Require Import Prelude Effects.

Record conn (T : Type) := mk_conn { cn_db : T; cn_sent : nat }.
Arguments mk_conn {T} _ _.
Arguments cn_db {T} _.
Arguments cn_sent {T} _.

Section Sql.
Context {T E : Type} (fault : nat -> bool) (server : E).

Abbreviation db A := (eff (conn T) E A).

(** Send one statement: its effect, unless it fails. [None] is a row the
    constraints of a table refuse. *)
Definition statement {A} (f : T -> option (T * A)) : db A := fun c =>
  let n := cn_sent c in
  if fault n then (mk_conn (cn_db c) (S n), Err server)
  else match f (cn_db c) with
  | Some (d, a) => (mk_conn d (S n), Ok a)
  | None => (mk_conn (cn_db c) (S n), Err server)
  end.

Definition query {A} (f : T -> A) : db A := statement (fun d => Some (d, f d)).
Definition exec (f : T -> option T) : db unit := statement (fun d => option_map (fun d => (d, tt)) (f d)).

(** [BeginTx] ... [Commit], with the deferred [Rollback] of every other way out. *)
Definition transaction {A} (m : db A) : db A := fun c =>
  let n := cn_sent c in
  if fault n then (mk_conn (cn_db c) (S n), Err server)
  else match m (mk_conn (cn_db c) (S n)) with
  | (c', Err e) => (mk_conn (cn_db c) (cn_sent c'), Err e)
  | (c', Ok a) =>
      if fault (cn_sent c') then (mk_conn (cn_db c) (S (cn_sent c')), Err server)
      else (mk_conn (cn_db c') (S (cn_sent c')), Ok a)
  end.

(** ** What a result says of the tables *)

(** [m] from tables [d] may end with the tables [d'] and the result [r]. *)
Definition runs {A} (m : db A) (d d' : T) (r : res E A) : Prop :=
  exists n n', m (mk_conn d n) = (mk_conn d' n', r).

Lemma runs_ret {A} (a : A) d d' r : runs (mret a) d d' r -> d' = d /\ r = Ok a.
Proof. by intros (n & n' & [= -> -> <-]). Qed.

Lemma runs_fail {A} e d d' (r : res E A) : runs (fail e) d d' r -> d' = d /\ r = Err e.
Proof. by intros (n & n' & [= -> -> <-]). Qed.

Lemma runs_bind {A B} (m : db A) (k : A -> db B) d d' r :
  runs (m ≫= k) d d' r ->
  (exists e, runs m d d' (Err e) /\ r = Err e) \/ exists d1 a, runs m d d1 (Ok a) /\ runs (k a) d1 d' r.
Proof.
  intros (n & n' & H). unfold mbind, eff_bind in H.
  destruct (m (mk_conn d n)) as [[d1 n1] [a|e]] eqn:Em.
  - right. exists d1, a. split; [by exists n, n1|by exists n1, n'].
  - left. injection H as -> -> <-. exists e. split; [by exists n, n'|done].
Qed.

Lemma runs_statement {A} (f : T -> option (T * A)) d d' r :
  runs (statement f) d d' r -> (d' = d /\ r = Err server) \/ exists a, f d = Some (d', a) /\ r = Ok a.
Proof.
  intros (n & n' & H). unfold statement in H. cbn in H.
  destruct (fault n); [injection H as -> _ <-; by left|].
  destruct (f d) as [[d1 a]|]; injection H as -> _ <-; [right; by exists a|by left].
Qed.

Lemma runs_query {A} (f : T -> A) d d' r :
  runs (query f) d d' r -> d' = d /\ (r = Err server \/ r = Ok (f d)).
Proof. intros [[-> ->]|(a & [= <- <-] & ->)]%runs_statement; auto. Qed.

Lemma runs_exec (f : T -> option T) d d' r :
  runs (exec f) d d' r -> (d' = d /\ r = Err server) \/ (f d = Some d' /\ r = Ok tt).
Proof.
  intros [?|([] & H & ->)]%runs_statement; [by left|right].
  destruct (f d); [by injection H as ->|done].
Qed.

(** A transaction writes everything or nothing. *)
Lemma runs_transaction {A} (m : db A) d d' r :
  runs (transaction m) d d' r ->
  (d' = d /\ exists e, r = Err e) \/ exists a, r = Ok a /\ runs m d d' (Ok a).
Proof.
  intros (n & n' & H). unfold transaction in H. cbn in H.
  destruct (fault n); [injection H as -> _ <-; left; eauto|].
  destruct (m _) as [[d1 n1] [a|e]] eqn:Em; cbn in H; [|injection H as -> _ <-; left; eauto].
  destruct (fault n1); injection H as -> _ <-; [left; eauto|right; exists a; split; [done|by exists (S n), n1]].
Qed.

(** The result of a transaction that fails is one of the body's, or the server's. *)
Lemma runs_transaction_err {A} (m : db A) d d' e :
  runs (transaction m) d d' (Err e) -> d' = d.
Proof. by intros [[-> _]|(a & [=] & _)]%runs_transaction. Qed.

(** ** Without faults *)

Definition no_fault := forall n, fault n = false.

Lemma statement_ok {A} (f : T -> option (T * A)) d n d' a :
  no_fault -> f d = Some (d', a) -> statement f (mk_conn d n) = (mk_conn d' (S n), Ok a).
Proof. intros Hf E1. unfold statement. cbn. by rewrite Hf, E1. Qed.

Lemma query_ok {A} (f : T -> A) d n : no_fault -> query f (mk_conn d n) = (mk_conn d (S n), Ok (f d)).
Proof. intros Hf. by apply statement_ok. Qed.

Lemma exec_ok f d n d' : no_fault -> f d = Some d' -> exec f (mk_conn d n) = (mk_conn d' (S n), Ok tt).
Proof. intros Hf E1. apply statement_ok; [done|]. by rewrite E1. Qed.

Lemma transaction_ok {A} (m : db A) d n d' n' a :
  no_fault -> m (mk_conn d (S n)) = (mk_conn d' n', Ok a) ->
  transaction m (mk_conn d n) = (mk_conn d' (S n'), Ok a).
Proof. intros Hf E1. unfold transaction. cbn. by rewrite Hf, E1, Hf. Qed.
End Sql.

(** Take a finished computation apart, statement by statement. *)
Ltac runs_step H :=
  lazymatch type of H with
  | runs (mret _) _ _ _ => apply runs_ret in H as [-> H]
  | runs (fail _) _ _ _ => apply runs_fail in H as [-> H]
  | runs (query _ _ _) _ _ _ => apply runs_query in H as [-> H]
  | runs (exec _ _ _) _ _ _ => apply runs_exec in H as [[-> H]|[? H]]
  | runs (mbind _ _) _ _ _ =>
      let H1 := fresh H in
      apply runs_bind in H as [(? & H1 & H)|(? & ? & H1 & H)]
  end.
