(* ===== verification/Catalog.v ===== *)
(** * Exercises and who may work on them

    The rows the backend keeps of classes, exercises, test cases, limits and
    submissions, and [src/backend/services/exercise-access-service.go]: the relation
    of a caller to an exercise. A table is a map from its primary key; the query
    that loads an exercise's access is one statement. The creator and the times of an
    exercise are not kept, nor whether a language is compiled; no statement of the
    program leaves a description NULL. *)

From S2P Require Import Prelude Effects GoStrings Sql.
From stdpp Require Export sorting.
Local Open Scope Z_scope.

(** ** Rows *)

Record OfferingRow := mk_offering {
  of_owner : option Z; of_end : Z; of_name : string; of_description : option string; of_code : option string;
  of_visible : bool
}.
#[export] Instance OfferingRow_eta : Settable OfferingRow := fun r =>
  mk_offering (of_owner r) (of_end r) (of_name r) (of_description r) (of_code r) (of_visible r).
Record EnrollmentRow := mk_enrollment { en_role : string; en_banned : bool; en_created : Z }.
#[export] Instance EnrollmentRow_eta : Settable EnrollmentRow := fun r =>
  mk_enrollment (en_role r) (en_banned r) (en_created r).

Record ExerciseRow := mk_exercise {
  ex_offering : Z; ex_deadline : Z; ex_open_date : Z; ex_show_before : bool; ex_removed : bool;
  ex_ghost : bool; ex_real : option Z; ex_title : string; ex_description : string
}.
#[export] Instance ExerciseRow_eta : Settable ExerciseRow := fun r =>
  mk_exercise (ex_offering r) (ex_deadline r) (ex_open_date r) (ex_show_before r) (ex_removed r) (ex_ghost r) (ex_real r)
    (ex_title r) (ex_description r).

Record LanguageRow := mk_language { la_name : string; la_extension : string; la_available : bool }.

Record CaseRow := mk_case_row {
  ca_exercise : Z; ca_input : string; ca_input_type : string; ca_show_input : bool;
  ca_expected : string; ca_expected_type : string; ca_show_expected : bool; ca_show_output : bool
}.
#[export] Instance CaseRow_eta : Settable CaseRow := fun r =>
  mk_case_row (ca_exercise r) (ca_input r) (ca_input_type r) (ca_show_input r) (ca_expected r)
    (ca_expected_type r) (ca_show_expected r) (ca_show_output r).

(** [models.Limits] and [models.LimitOverrides]; [None] is a nil field. *)
Record Limits := mk_limits {
  li_cpu : Z; li_mem : Z; li_stack : Z; li_file : Z
}.
Record LimitOverrides := mk_overrides {
  lo_cpu : option Z; lo_mem : option Z; lo_stack : option Z; lo_file : option Z
}.
#[export] Instance Limits_eq_dec : EqDecision Limits.
Proof. solve_decision. Defined.
#[export] Instance LimitOverrides_eq_dec : EqDecision LimitOverrides.
Proof. solve_decision. Defined.

(** No row: every field is inherited. *)
Definition no_overrides : LimitOverrides := mk_overrides None None None None.

Record SubmissionRow := mk_submission {
  su_user : Z; su_exercise : Z; su_status : string; su_s3_key : option string; su_language : option Z;
  su_created : Z
}.
#[export] Instance SubmissionRow_eta : Settable SubmissionRow := fun r =>
  mk_submission (su_user r) (su_exercise r) (su_status r) (su_s3_key r) (su_language r) (su_created r).

Record Tables := mk_tables {
  t_offerings : gmap Z OfferingRow;
  t_enrollments : gmap (Z * Z) EnrollmentRow;
  t_exercises : gmap Z ExerciseRow;
  t_languages : gmap Z LanguageRow;
  t_allowed : gset (Z * Z);
  t_cases : gmap Z CaseRow;
  t_case_files : gmap Z (Z * string);
  t_exercise_limits : gmap (Z * Z) LimitOverrides;
  t_case_limits : gmap (Z * Z) LimitOverrides;
  t_commits : gmap Z SubmissionRow;
  t_snapshot : gmap (Z * Z) Limits;
  t_results : gmap (Z * Z) string;
  t_compilation_files : gmap Z (Z * string);
  t_attached_files : gmap Z (Z * string)
}.
#[export] Instance Tables_eta : Settable Tables := fun t =>
  mk_tables (t_offerings t) (t_enrollments t) (t_exercises t) (t_languages t) (t_allowed t) (t_cases t)
    (t_case_files t) (t_exercise_limits t) (t_case_limits t) (t_commits t) (t_snapshot t) (t_results t)
    (t_compilation_files t) (t_attached_files t).

(** The errors the services answer with. *)
Inductive svc_error :=
| ErrServer | ErrExerciseNotFound | ErrNotOwner | ErrNotEnrolled | ErrInvalidLimits | ErrInvalidTestCase
| ErrTestCaseNotFound | ErrDeadlinePassed | ErrNoTestCases | ErrInvalidFileType | ErrSubmissionLimit
| ErrQueueFull | ErrJudgeUnavailable | ErrCommitNotFound
| ErrCommitSourceNotFound.
#[export] Instance svc_error_eq_dec : EqDecision svc_error.
Proof. solve_decision. Defined.

Abbreviation svc A := (eff (conn Tables) svc_error A).

(** ** Rows in the order a query asks for *)

Definition by_key {A} (x y : Z * A) : Prop := x.1 <= y.1.
#[export] Instance by_key_dec {A} : RelDecision (@by_key A) := fun x y => decide (x.1 <= y.1).

Definition sorted_keys {A} (P : Z * A -> Prop) `{forall x, Decision (P x)} (m : gmap Z A) : list (Z * A) :=
  merge_sort by_key (filter P (map_to_list m)).

Lemma elem_of_sorted_keys {A} (P : Z * A -> Prop) `{forall x, Decision (P x)} (m : gmap Z A) k v :
  (k, v) ∈ sorted_keys P m <-> m !! k = Some v /\ P (k, v).
Proof. unfold sorted_keys. rewrite merge_sort_Permutation, list_elem_of_filter, elem_of_map_to_list. tauto. Qed.

Lemma sorted_keys_NoDup {A} (P : Z * A -> Prop) `{forall x, Decision (P x)} (m : gmap Z A) :
  NoDup (sorted_keys P m).*1.
Proof.
  unfold sorted_keys. rewrite merge_sort_Permutation.
  apply (NoDup_fmap_fst (filter P (map_to_list m))).
  - intros k x y [_ Hx]%list_elem_of_filter [_ Hy]%list_elem_of_filter.
    apply elem_of_map_to_list in Hx, Hy. congruence.
  - apply NoDup_filter, NoDup_map_to_list.
Qed.

(** The keys come out in increasing order. *)
Lemma sorted_keys_lt {A} (P : Z * A -> Prop) `{forall x, Decision (P x)} (m : gmap Z A) :
  StronglySorted Z.lt (sorted_keys P m).*1.
Proof.
  pose proof (sorted_keys_NoDup P m) as Hnd. revert Hnd.
  assert (StronglySorted by_key (sorted_keys P m)) as Hs.
  { unfold by_key. apply StronglySorted_merge_sort; [intros ???; lia|intros ??; lia]. }
  induction Hs as [|x l Hs IH Hx]; cbn; intros Hnd; [constructor|].
  apply NoDup_cons in Hnd as [Hnx Hnd]. constructor; [by apply IH|].
  apply Forall_fmap, Forall_forall. intros y Hy. cbn.
  assert (x.1 <= y.1) by (rewrite Forall_forall in Hx; by apply (Hx y)).
  assert (x.1 <> y.1); [|lia]. intros Exy. apply Hnx. rewrite Exy. by apply list_elem_of_fmap_2.
Qed.

(** ** Access *)

(** The JWT claims the services read; [None] is a missing or non-numeric id. *)
Record Claims := mk_claims { cl_id : option Z; cl_role : string }.

Definition EnrollmentRoleStudent := "student".
Definition EnrollmentRoleMonitor := "monitor".
Definition EnrollmentRoleProfessor := "professor".

Definition claimsUserID (claims : Claims) : res svc_error (Z * string) :=
  match cl_id claims with None => Err ErrServer | Some id => Ok (id, cl_role claims) end.

Definition isPrivilegedRole (role : string) : bool := String.eqb role "professor" || String.eqb role "admin".

Record exerciseAccess := mk_access {
  ac_id : Z; ac_exercise : ExerciseRow; ac_owner : Z; ac_canAuthor : bool; ac_isEnrolled : bool;
  ac_enrollmentRole : string; ac_banned : bool
}.

(** The exercise that owns the rows of [id]: [CASE WHEN ghost AND real_id IS NOT
    NULL THEN real_id ELSE id END]. *)
Definition owning_exercise (id : Z) (ex : ExerciseRow) : Z :=
  if ex_ghost ex then default id (ex_real ex) else id.

Definition authoringExerciseID (a : exerciseAccess) : Z := owning_exercise (ac_id a) (ac_exercise a).

Definition enrollment_of (t : Tables) (offering user : Z) : option EnrollmentRow :=
  t_enrollments t !! (offering, user).

(** What the access query computes of an exercise and a caller. *)
Definition access_row (t : Tables) (exerciseID userID : Z) (role : string) : option exerciseAccess :=
  ex ← t_exercises t !! exerciseID;
  o ← t_offerings t !! ex_offering ex;
  let en := enrollment_of t (ex_offering ex) userID in
  let enrollRole := from_option en_role "" en in
  let banned := from_option en_banned false en in
  let isEnrolled := negb (String.eqb enrollRole "") && negb banned in
  let owner := isPrivilegedRole role && bool_decide (of_owner o = Some userID) in
  Some (mk_access exerciseID ex (default 0 (of_owner o))
          (owner || (isEnrolled && String.eqb enrollRole EnrollmentRoleProfessor))
          isEnrolled enrollRole banned).

Section Access.
Context (fault : nat -> bool).

Definition loadExerciseAccess (exerciseID userID : Z) (role : string) : svc exerciseAccess :=
  row ← query fault ErrServer (fun t => access_row t exerciseID userID role);
  match row with None => fail ErrExerciseNotFound | Some acc => mret acc end.

Definition loadExerciseAccessForClaims (exerciseID : Z) (claims : Claims) : svc exerciseAccess :=
  '(userID, role) ← lift (claimsUserID claims);
  loadExerciseAccess exerciseID userID role.

Definition requireExerciseAuthor (exerciseID : Z) (claims : Claims) : svc exerciseAccess :=
  acc ← loadExerciseAccessForClaims exerciseID claims;
  if ac_canAuthor acc then mret acc else fail ErrNotOwner.

Definition CanAuthorExercise (exerciseID : Z) (claims : Claims) : svc bool :=
  acc ← loadExerciseAccessForClaims exerciseID claims;
  mret (ac_canAuthor acc).
End Access.

Definition exerciseVisible (ex : ExerciseRow) (now : Z) : bool :=
  if ex_removed ex then false else ex_show_before ex || (ex_open_date ex <=? now).

(** Who may author an exercise, as the comments of the service put it: the owner of
    its class, if a professor or an administrator, and the professors enrolled in
    the class and not banned from it. *)
Definition may_author (t : Tables) (exerciseID : Z) (claims : Claims) : Prop :=
  exists ex o user, cl_id claims = Some user /\ t_exercises t !! exerciseID = Some ex /\
    t_offerings t !! ex_offering ex = Some o /\
    ((of_owner o = Some user /\ (cl_role claims = "professor" \/ cl_role claims = "admin")) \/
     exists en, enrollment_of t (ex_offering ex) user = Some en /\
       en_role en = EnrollmentRoleProfessor /\ en_banned en = false).

Lemma access_row_author t exerciseID userID role acc :
  access_row t exerciseID userID role = Some acc -> ac_canAuthor acc = true ->
  may_author t exerciseID (mk_claims (Some userID) role).
Proof.
  unfold access_row. intros H Hc.
  destruct (t_exercises t !! exerciseID) as [ex|] eqn:Eex; [|done]. cbn in H.
  destruct (t_offerings t !! ex_offering ex) as [o|] eqn:Eo; [|done]. cbn in H.
  injection H as <-. cbn [ac_canAuthor] in Hc. exists ex, o, userID. repeat split; [done|done|].
  apply orb_true_iff in Hc as [Hc|Hc]; apply andb_true_iff in Hc as [H1 H2].
  - left. apply bool_decide_eq_true in H2. split; [done|].
    apply orb_true_iff in H1 as [H1%String.eqb_eq|H1%String.eqb_eq]; auto.
  - right. apply andb_true_iff in H1 as [_ H1]. apply String.eqb_eq in H2.
    destruct (enrollment_of _ _ _) as [en|]; [|done]. exists en. cbn in *.
    repeat split; [done|]. by apply negb_true_iff in H1.
Qed.

Lemma requireExerciseAuthor_ok fault exerciseID claims t t' acc :
  runs (requireExerciseAuthor fault exerciseID claims) t t' (Ok acc) ->
  t' = t /\ may_author t exerciseID claims /\
  exists ex, t_exercises t !! exerciseID = Some ex /\ authoringExerciseID acc = owning_exercise exerciseID ex.
Proof.
  unfold requireExerciseAuthor, loadExerciseAccessForClaims, claimsUserID, loadExerciseAccess. intros H.
  destruct claims as [[user|] role]; cbn [cl_id cl_role] in H.
  2:{ by destruct H as (? & ? & ?). }
  change (runs ((row ← query fault ErrServer (fun t => access_row t exerciseID user role);
     match row with None => fail ErrExerciseNotFound | Some acc => mret acc end) ≫=
     (fun acc => if ac_canAuthor acc then mret acc else fail ErrNotOwner)) t t' (Ok acc)) in H.
  apply runs_bind in H as [(e & _ & [=])|(t1 & a & H & Ha)].
  apply runs_bind in H as [(e & _ & [=])|(t2 & row & H & Hr)].
  apply runs_query in H as [-> [[=]|[= ->]]].
  destruct (access_row t exerciseID user role) as [a'|] eqn:Er.
  2:{ apply runs_fail in Hr as [_ [=]]. }
  apply runs_ret in Hr as [-> [= <-]].
  destruct (ac_canAuthor a) eqn:Ec; [|apply runs_fail in Ha as [_ [=]]].
  apply runs_ret in Ha as [-> [= <-]]. split; [done|]. split; [by eapply access_row_author|].
  unfold access_row in Er. destruct (t_exercises t !! exerciseID) as [ex|]; [|done]. cbn in Er.
  destruct (t_offerings t !! ex_offering ex); [|done]. injection Er as <-. by exists ex.
Qed.

(** [DELETE FROM exercises_test_cases], with the rows [ON DELETE CASCADE] takes. *)
Definition delete_case (id : Z) (t : Tables) : Tables :=
  t <| t_cases := delete id (t_cases t) |>
    <| t_case_files := filter (fun x : Z * (Z * string) => x.2.1 <> id) (t_case_files t) |>
    <| t_case_limits := filter (fun x : Z * Z * LimitOverrides => x.1.1 <> id) (t_case_limits t) |>
    <| t_snapshot := filter (fun x : Z * Z * Limits => x.1.2 <> id) (t_snapshot t) |>
    <| t_results := filter (fun x : Z * Z * string => x.1.2 <> id) (t_results t) |>.

Lemma CanAuthorExercise_runs fault exerciseID claims t t' r :
  runs (CanAuthorExercise fault exerciseID claims) t t' r ->
  t' = t /\ (r = Ok true -> may_author t exerciseID claims).
Proof.
  intros (n & n' & H). revert H. unfold CanAuthorExercise, loadExerciseAccessForClaims, claimsUserID, loadExerciseAccess.
  unfold mbind, eff_bind, lift, query, statement. destruct claims as [[user|] role]; cbn; [|by intros [= -> _ <-]].
  destruct (fault n); [by intros [= -> _ <-]|].
  destruct (access_row t exerciseID user role) as [acc|] eqn:Ea; cbn; intros [= -> _ <-]; [|done].
  split; [done|]. intros [= Hc]. by eapply access_row_author.
Qed.
