(* ===== verification/Limits.v ===== *)
(** * The limits a submission runs under

    [src/backend/services/limits-service.go] and [src/backend/models/limits-model.go]:
    the three layers of limits, the pages that show and replace them, and the
    snapshot that freezes them when a commit is queued. The platform defaults, the
    collation of [ORDER BY] and the failing statements are arguments. *)

From S2P Require Import Prelude Effects GoStrings Sql Catalog.
Local Open Scope Z_scope.

(** ** Resolution *)

(** The zero value of the Go string is [LimitSourceUnset]. *)
Inductive LimitSource := LimitSourcePlatform | LimitSourceExercise | LimitSourceCase | LimitSourceUnset.

Record LimitSources := mk_sources {
  so_cpu : LimitSource; so_mem : LimitSource; so_stack : LimitSource; so_file : LimitSource
}.

Definition Empty (o : LimitOverrides) : bool :=
  bool_decide (lo_cpu o = None) && bool_decide (lo_mem o = None) &&
  bool_decide (lo_stack o = None) && bool_decide (lo_file o = None).

Record limitLayer := mk_layer { ly_overrides : LimitOverrides; ly_source : LimitSource }.

(** One assignment of the loop: a non-nil field wins and carries its source. *)
Definition override {A} (new : option Z) (source : LimitSource) (cur : Z * LimitSource) (k : Z * LimitSource -> A) : A :=
  k (match new with Some v => (v, source) | None => cur end).

Definition apply_layer (acc : Limits * LimitSources) (layer : limitLayer) : Limits * LimitSources :=
  let '(l, s) := acc in
  let o := ly_overrides layer in
  let src := ly_source layer in
  override (lo_cpu o) src (li_cpu l, so_cpu s) (fun cpu =>
  override (lo_mem o) src (li_mem l, so_mem s) (fun mem =>
  override (lo_stack o) src (li_stack l, so_stack s) (fun stack =>
  override (lo_file o) src (li_file l, so_file s) (fun file =>
    (mk_limits cpu.1 mem.1 stack.1 file.1, mk_sources cpu.2 mem.2 stack.2 file.2))))).

Definition resolveLimits (platform : Limits) (layers : list limitLayer) : Limits * LimitSources :=
  fold_left apply_layer layers
    (platform, mk_sources LimitSourcePlatform LimitSourcePlatform LimitSourcePlatform LimitSourcePlatform).

(** ** Validation *)

Record LanguageLimits := mk_language_limits {
  ll_id : Z; ll_name : string; ll_extension : string; ll_overrides : LimitOverrides;
  ll_limits : Limits; ll_sources : LimitSources
}.

Record allowedLanguage := mk_allowed { al_id : Z; al_name : string; al_extension : string }.

Definition refuses (bad : Z -> bool) (v : option Z) : bool := from_option bad false v.

Fixpoint validate_entries (allowed seen : gset Z) (entries : list LanguageLimits) : option svc_error :=
  match entries with
  | [] => None
  | e :: rest =>
      if negb (bool_decide (ll_id e ∈ allowed)) then Some ErrInvalidLimits
      else if bool_decide (ll_id e ∈ seen) then Some ErrInvalidLimits
      else
        let o := ll_overrides e in
        if refuses (fun v => v <=? 0) (lo_cpu o) then Some ErrInvalidLimits
        else if refuses (fun v => v <? 0) (lo_mem o) then Some ErrInvalidLimits
        else if refuses (fun v => v <? 0) (lo_stack o) then Some ErrInvalidLimits
        else if refuses (fun v => v <? 0) (lo_file o) then Some ErrInvalidLimits
        else validate_entries allowed ({[ll_id e]} ∪ seen) rest
  end.

Definition validateLanguageLimits (languages : list allowedLanguage) (entries : list LanguageLimits)
  : option svc_error := validate_entries (list_to_set (al_id <$> languages)) ∅ entries.

(** ** Columns: an [int] and three [bigint]s *)

Definition int32 (v : Z) : bool := (- 2 ^ 31 <=? v) && (v <? 2 ^ 31).
Definition bigint (v : Z) : bool := (- 2 ^ 63 <=? v) && (v <? 2 ^ 63).

Definition overrides_fit (o : LimitOverrides) : bool :=
  from_option int32 true (lo_cpu o) && from_option bigint true (lo_mem o) &&
  from_option bigint true (lo_stack o) && from_option bigint true (lo_file o).

Definition limits_fit (l : Limits) : bool :=
  int32 (li_cpu l) && bigint (li_mem l) && bigint (li_stack l) && bigint (li_file l).

(** [INSERT] of an override row under its primary key. *)
Definition insert_override (owner language : Z) (o : LimitOverrides) (owned : bool)
    (languages : gmap Z LanguageRow) (m : gmap (Z * Z) LimitOverrides) : option (gmap (Z * Z) LimitOverrides) :=
  if owned && bool_decide (is_Some (languages !! language)) && overrides_fit o &&
     bool_decide (m !! (owner, language) = None)
  then Some (<[(owner, language) := o]> m) else None.

(** [DELETE ... WHERE] the first column of the key is [owner]. *)
Definition delete_overrides (owner : Z) (m : gmap (Z * Z) LimitOverrides) : gmap (Z * Z) LimitOverrides :=
  filter (fun '((o, _), _) => o <> owner) m.

(** ** The service *)

Section Limits.
Context (fault : nat -> bool) (collation : relation string) `{!RelDecision collation} (platform : Limits).

Definition by_name (x y : allowedLanguage) : Prop :=
  if decide (al_name x = al_name y) then al_id x <= al_id y else collation (al_name x) (al_name y).
#[local] Instance by_name_dec : RelDecision by_name.
Proof using RelDecision0. intros x y. unfold by_name. destruct (decide _); apply _. Defined.

Definition allowed_languages (exerciseID : Z) (t : Tables) : list allowedLanguage :=
  merge_sort by_name
    (omap (fun '(e, l) =>
       if decide (e = exerciseID)
       then (fun r => mk_allowed l (la_name r) (la_extension r)) <$> t_languages t !! l
       else None) (elements (t_allowed t))).

Definition loadAllowedLanguages (exerciseID : Z) : svc (list allowedLanguage) :=
  query fault ErrServer (allowed_languages exerciseID).

(** The rows of one owner, as the map from the language the Go code builds. *)
Definition overrides_of (owner : Z) (m : gmap (Z * Z) LimitOverrides) : gmap Z LimitOverrides :=
  list_to_map (omap (fun '((o, l), v) => if decide (o = owner) then Some (l, v) else None) (map_to_list m)).

Definition loadExerciseOverrides (exerciseID : Z) : svc (gmap Z LimitOverrides) :=
  query fault ErrServer (fun t => overrides_of exerciseID (t_exercise_limits t)).

Definition loadCaseOverrides (caseIDs : list Z) : svc (gmap Z (gmap Z LimitOverrides)) :=
  match caseIDs with
  | [] => mret ∅
  | _ => query fault ErrServer (fun t =>
      fold_left (fun m c =>
        let rows := overrides_of c (t_case_limits t) in
        if decide (rows = ∅) then m else <[c := rows]> m) caseIDs ∅)
  end.

Definition layer_of (m : gmap Z LimitOverrides) (language : Z) : LimitOverrides :=
  default no_overrides (m !! language).

Definition language_limits (layers : list limitLayer) (own : LimitOverrides) (language : allowedLanguage)
  : LanguageLimits :=
  let '(limits, sources) := resolveLimits platform layers in
  mk_language_limits (al_id language) (al_name language) (al_extension language) own limits sources.

Definition case_language_limits (exercise case : gmap Z LimitOverrides) (language : allowedLanguage)
  : LanguageLimits :=
  language_limits [mk_layer (layer_of exercise (al_id language)) LimitSourceExercise;
                   mk_layer (layer_of case (al_id language)) LimitSourceCase]
    (layer_of case (al_id language)) language.

Definition TestCaseLanguageLimits (exerciseID : Z) (caseIDs : list Z) : svc (gmap Z (list LanguageLimits)) :=
  languages ← loadAllowedLanguages exerciseID;
  exerciseOverrides ← loadExerciseOverrides exerciseID;
  caseOverrides ← loadCaseOverrides caseIDs;
  mret (fold_left (fun m c =>
          <[c := case_language_limits exerciseOverrides (default ∅ (caseOverrides !! c)) <$> languages]> m)
          caseIDs ∅).

Definition ListExerciseLanguageLimits (exerciseID : Z) (claims : Claims) : svc (list LanguageLimits) :=
  _ ← requireExerciseAuthor fault exerciseID claims;
  languages ← loadAllowedLanguages exerciseID;
  overrides ← loadExerciseOverrides exerciseID;
  mret ((fun language =>
    language_limits [mk_layer (layer_of overrides (al_id language)) LimitSourceExercise]
      (layer_of overrides (al_id language)) language) <$> languages).

Definition InsertExerciseLanguageLimits (exerciseID : Z) (entries : list LanguageLimits) : svc unit :=
  each (fun e =>
    if Empty (ll_overrides e) then mret tt
    else exec fault ErrServer (fun t =>
      (fun m => t <| t_exercise_limits := m |>) <$>
        insert_override exerciseID (ll_id e) (ll_overrides e)
          (bool_decide (is_Some (t_exercises t !! exerciseID))) (t_languages t) (t_exercise_limits t))) entries.

Definition InsertTestCaseLanguageLimits (caseID : Z) (entries : list LanguageLimits) : svc unit :=
  each (fun e =>
    if Empty (ll_overrides e) then mret tt
    else exec fault ErrServer (fun t =>
      (fun m => t <| t_case_limits := m |>) <$>
        insert_override caseID (ll_id e) (ll_overrides e)
          (bool_decide (is_Some (t_cases t !! caseID))) (t_languages t) (t_case_limits t))) entries.

Definition ReplaceExerciseLanguageLimits (exerciseID : Z) (entries : list LanguageLimits) (claims : Claims)
  : svc (list LanguageLimits) :=
  acc ← requireExerciseAuthor fault exerciseID claims;
  let authoringID := authoringExerciseID acc in
  languages ← loadAllowedLanguages authoringID;
  match validateLanguageLimits languages entries with
  | Some e => fail e
  | None =>
      _ ← transaction fault ErrServer
            (_ ← exec fault ErrServer (fun t =>
                   Some (t <| t_exercise_limits := delete_overrides authoringID (t_exercise_limits t) |>));
             InsertExerciseLanguageLimits authoringID entries);
      ListExerciseLanguageLimits exerciseID claims
  end.

(** Inside the caller's transaction. *)
Definition ReplaceTestCaseLanguageLimits (caseID exerciseID : Z) (entries : list LanguageLimits) : svc unit :=
  languages ← loadAllowedLanguages exerciseID;
  match validateLanguageLimits languages entries with
  | Some e => fail e
  | None =>
      _ ← exec fault ErrServer (fun t =>
            Some (t <| t_case_limits := delete_overrides caseID (t_case_limits t) |>));
      InsertTestCaseLanguageLimits caseID entries
  end.

(** [COALESCE] of the two joined rows and the platform default. *)
Definition coalesce (case exercise : option Z) (platform : Z) : Z := default (default platform exercise) case.

(** The row the snapshot query selects for a commit and a case. *)
Definition snapshot_limits (t : Tables) (commitID caseID : Z) : option Limits :=
  c ← t_commits t !! commitID;
  e ← t_exercises t !! su_exercise c;
  tc ← t_cases t !! caseID;
  if decide (ca_exercise tc = owning_exercise (su_exercise c) e) then
    let tcl := su_language c ≫= fun l => t_case_limits t !! (caseID, l) in
    let ell := su_language c ≫= fun l => t_exercise_limits t !! (ca_exercise tc, l) in
    let field (f : LimitOverrides -> option Z) (p : Z) := coalesce (tcl ≫= f) (ell ≫= f) p in
    Some (mk_limits (field lo_cpu (li_cpu platform)) (field lo_mem (li_mem platform))
            (field lo_stack (li_stack platform)) (field lo_file (li_file platform)))
  else None.

Definition snapshot_rows (t : Tables) (commitIDs : list Z) : gmap (Z * Z) Limits :=
  list_to_map (commitIDs ≫= fun c => omap (fun '(tc, _) => (fun l => ((c, tc), l)) <$> snapshot_limits t c tc)
                                     (map_to_list (t_cases t))).

(** [ON CONFLICT DO NOTHING]: a row that is there wins. *)
Definition SnapshotCommitLimits (commitIDs : list Z) : svc unit :=
  match commitIDs with
  | [] => mret tt
  | _ => exec fault ErrServer (fun t =>
      if limits_fit platform then Some (t <| t_snapshot := t_snapshot t ∪ snapshot_rows t commitIDs |>) else None)
  end.
End Limits.
