(* ===== verification/LimitsProofs.v ===== *)
(** * What the limits services guarantee

    Resolution picks the most specific layer of each field; a replaced set reads
    back; the SQL snapshot freezes what the pages show; every stored limit is usable.
    [ReplaceExerciseLanguageLimits] stores through a ghost exercise and shows the
    ghost's own rows. *)

From S2P Require Import Prelude Effects GoStrings Sql Catalog Limits.
Local Open Scope Z_scope.

(** ** Resolution *)

(** The last layer that sets a field, with its source; else the platform. *)
Definition winner (f : LimitOverrides -> option Z) (layers : list limitLayer) (platform : Z) : Z * LimitSource :=
  default (platform, LimitSourcePlatform)
    (last (omap (fun l => (fun v => (v, ly_source l)) <$> f (ly_overrides l)) layers)).

Lemma winner_snoc f layers l p :
  winner f (layers ++ [l]) p =
  match f (ly_overrides l) with Some v => (v, ly_source l) | None => winner f layers p end.
Proof.
  unfold winner. rewrite omap_app. cbn. destruct (f (ly_overrides l)); cbn; [by rewrite last_snoc|].
  by rewrite app_nil_r.
Qed.

(** Each of the four limits is resolved on its own: it is the value of the most
    specific layer that sets it, whatever the other fields of that layer say, and its
    source names that layer; a limit no layer sets is the platform's. *)
Theorem limits_resolved_per_field platform layers :
  let '(l, s) := resolveLimits platform layers in
  (li_cpu l, so_cpu s) = winner lo_cpu layers (li_cpu platform) /\
  (li_mem l, so_mem s) = winner lo_mem layers (li_mem platform) /\
  (li_stack l, so_stack s) = winner lo_stack layers (li_stack platform) /\
  (li_file l, so_file s) = winner lo_file layers (li_file platform).
Proof.
  induction layers as [|y layers IH] using rev_ind; [done|].
  unfold resolveLimits in *. rewrite fold_left_app. cbn [fold_left].
  destruct (fold_left apply_layer layers _) as [l s]. destruct IH as (E1 & E2 & E3 & E4).
  unfold apply_layer, override. rewrite !winner_snoc, <- E1, <- E2, <- E3, <- E4. cbn.
  destruct (lo_cpu _), (lo_mem _), (lo_stack _), (lo_file _); done.
Qed.

(** ** Rows *)

Lemma overrides_of_lookup owner m l : overrides_of owner m !! l = m !! (owner, l).
Proof.
  unfold overrides_of. set (f := fun '((o, l), v) => _).
  assert (forall l v, (l, v) ∈ omap f (map_to_list m) <-> m !! (owner, l) = Some v) as Hin.
  { intros l' v. rewrite list_elem_of_omap. unfold f. split.
    - intros ([[o l1] v1] & Hm & E1). apply elem_of_map_to_list in Hm.
      destruct (decide (o = owner)) as [->|]; [|done]. by injection E1 as -> ->.
    - intros Hm. exists ((owner, l'), v). rewrite elem_of_map_to_list, decide_True by done. done. }
  apply option_eq. intros v. rewrite <- Hin. symmetry. apply elem_of_list_to_map.
  apply NoDup_fmap_fst.
  - intros k x y Hx Hy. apply Hin in Hx, Hy. congruence.
  - assert (NoDup (map_to_list m)) as Hnd by apply NoDup_map_to_list.
    clear Hin l. revert Hnd. generalize (map_to_list m) as xs. intros xs Hnd.
    assert (forall a b c, f a = Some c -> f b = Some c -> a = b) as Hf.
    { intros [[o1 l1] v1] [[o2 l2] v2] c. unfold f. repeat case_decide; congruence. }
    induction Hnd as [|x xs Hx Hnd IH]; [constructor|]. cbn. destruct (f x) as [c|] eqn:Ex; [|done].
    constructor; [|done]. intros (b & Hb & Eb)%list_elem_of_omap. apply Hx. by rewrite (Hf _ _ _ Ex Eb).
Qed.

Lemma delete_overrides_lookup owner m o l :
  delete_overrides owner m !! (o, l) = if decide (o = owner) then None else m !! (o, l).
Proof.
  unfold delete_overrides. destruct (decide (o = owner)) as [->|Ho].
  - apply map_lookup_filter_None. right. by intros v _ [].
  - destruct (m !! (o, l)) as [v|] eqn:Em; [apply map_lookup_filter_Some; by split|].
    apply map_lookup_filter_None. by left.
Qed.

Lemma Empty_true o : Empty o = true <-> o = no_overrides.
Proof.
  unfold Empty. destruct o as [[?|] [?|] [?|] [?|]]; cbn; split; try done; by intros [=].
Qed.

(** ** Validation *)

Definition above (low : Z) (v : option Z) : Prop := forall x, v = Some x -> low <= x.

(** A set of overrides the judge can run under: positive CPU time, no negative
    byte limit. *)
Definition usable (o : LimitOverrides) : Prop :=
  above 1 (lo_cpu o) /\ above 0 (lo_mem o) /\ above 0 (lo_stack o) /\ above 0 (lo_file o).

Lemma refuses_above bad low v : (forall x, bad x = false <-> low <= x) -> refuses bad v = false <-> above low v.
Proof.
  intros H. unfold refuses, above. destruct v as [x|]; cbn; [|by split].
  rewrite H. split; [by intros Hx y [= <-]|by intros Hx; apply Hx].
Qed.

Lemma validate_entries_spec allowed seen entries :
  (validate_entries allowed seen entries = None <->
   NoDup (ll_id <$> entries) /\
   Forall (fun e => ll_id e ∈ allowed /\ ll_id e ∉ seen /\ usable (ll_overrides e)) entries) /\
  (validate_entries allowed seen entries = None \/ validate_entries allowed seen entries = Some ErrInvalidLimits).
Proof.
  revert seen. induction entries as [|e entries IH]; intros seen; cbn [validate_entries fmap list_fmap].
  { split; [|by left]. split; [|done]. intros _. split; constructor. }
  assert (forall x, (x <=? 0) = false <-> 1 <= x) as P1 by (intros x; rewrite Z.leb_gt; lia).
  assert (forall x, (x <? 0) = false <-> 0 <= x) as P0 by (intros x; rewrite Z.ltb_ge; lia).
  rewrite NoDup_cons, Forall_cons. unfold usable at 1.
  rewrite <- (refuses_above _ 1 _ P1), <- !(refuses_above _ 0 _ P0).
  case_bool_decide as Ha; cbn; [|split; [split; [done|]|by right]; by intros (_ & (Ha' & _) & _)].
  case_bool_decide as Hs; [split; [split; [done|]|by right]; by intros (_ & (_ & Hs' & _) & _)|].
  destruct (refuses _ (lo_cpu _)), (refuses _ (lo_mem _)), (refuses _ (lo_stack _)), (refuses _ (lo_file _));
    try (split; [split; [done|]|by right]; by intros (_ & (_ & _ & [=] & [=] & [=] & [=]) & _)).
  destruct (IH ({[ll_id e]} ∪ seen)) as [IH1 IH2]. split; [|done]. rewrite IH1. clear IH IH1 IH2.
  split.
  - intros (Hnd & Hf). rewrite Forall_forall in Hf.
    split; [split; [|done]|split; [by repeat split|]].
    + intros (x & Ex & Hx)%list_elem_of_fmap. destruct (Hf x Hx) as (_ & Hn & _). set_solver.
    + apply Forall_forall. intros x Hx. destruct (Hf x Hx) as (? & ? & ?). set_solver.
  - intros ((Hn & Hnd) & _ & Hf). rewrite Forall_forall in Hf. split; [done|].
    apply Forall_forall. intros x Hx. destruct (Hf x Hx) as (? & ? & ?). split; [done|]. split; [|done].
    intros [Ex%elem_of_singleton|?]%elem_of_union; [|done]. apply Hn. rewrite <- Ex. by apply list_elem_of_fmap_2.
Qed.

(** What a request may replace the limits of an exercise's languages with. *)
Definition well_formed (languages : list allowedLanguage) (entries : list LanguageLimits) : Prop :=
  NoDup (ll_id <$> entries) /\
  Forall (fun e => ll_id e ∈ al_id <$> languages /\ usable (ll_overrides e)) entries.

Lemma validateLanguageLimits_spec languages entries :
  (validateLanguageLimits languages entries = None <-> well_formed languages entries) /\
  (validateLanguageLimits languages entries = None \/
   validateLanguageLimits languages entries = Some ErrInvalidLimits).
Proof.
  unfold validateLanguageLimits, well_formed.
  destruct (validate_entries_spec (list_to_set (al_id <$> languages)) ∅ entries) as [H1 H2].
  split; [|done]. rewrite H1, !Forall_forall. setoid_rewrite elem_of_list_to_set. set_solver.
Qed.

(** ** Writing overrides *)

(** The overrides a list of entries gives each language. *)
Definition given (entries : list LanguageLimits) : gmap Z LimitOverrides :=
  list_to_map ((fun e => (ll_id e, ll_overrides e)) <$> entries).

Lemma given_cons e entries : given (e :: entries) = <[ll_id e := ll_overrides e]> (given entries).
Proof. done. Qed.

Lemma given_None entries l : l ∉ ll_id <$> entries -> given entries !! l = None.
Proof. intros H. apply not_elem_of_list_to_map. by rewrite <- list_fmap_compose. Qed.

(** A loop of inserts, seen through the table it writes: the rows it adds, and
    nothing else. *)
Definition writes (get : Tables -> gmap (Z * Z) LimitOverrides) (set : gmap (Z * Z) LimitOverrides -> Tables -> Tables)
    (owner : Z) (entries : list LanguageLimits) (t u : Tables) : Prop :=
  exists m, u = set m t /\
    (forall l, l ∈ ll_id <$> entries -> layer_of (overrides_of owner m) l = layer_of (given entries) l) /\
    (forall o l, (o = owner -> l ∉ ll_id <$> entries) -> m !! (o, l) = get t !! (o, l)).

Section Insert.
Context (fault : nat -> bool) (get : Tables -> gmap (Z * Z) LimitOverrides)
  (set : gmap (Z * Z) LimitOverrides -> Tables -> Tables) (owned : Tables -> bool) (owner : Z).
Hypothesis get_set : forall m t, get (set m t) = m.
Hypothesis set_set : forall m m' t, set m (set m' t) = set m t.
Hypothesis set_get : forall t, set (get t) t = t.

Definition insert_all (entries : list LanguageLimits) : svc unit :=
  each (fun e =>
    if Empty (ll_overrides e) then mret tt
    else exec fault ErrServer (fun t =>
      (fun m => set m t) <$> insert_override owner (ll_id e) (ll_overrides e) (owned t) (t_languages t) (get t)))
    entries.

Lemma insert_override_Some language o ow langs m m' :
  insert_override owner language o ow langs m = Some m' -> m' = <[(owner, language) := o]> m.
Proof. unfold insert_override. destruct (_ && _); [by intros [= <-]|done]. Qed.

Lemma insert_all_writes entries t t' r :
  NoDup (ll_id <$> entries) -> (forall l, l ∈ ll_id <$> entries -> get t !! (owner, l) = None) ->
  runs (insert_all entries) t t' r -> r = Ok tt -> writes get set owner entries t t'.
Proof.
  revert t. induction entries as [|e entries IH]; intros t Hnd Hnone H ->.
  { apply runs_ret in H as [-> _]. exists (get t). rewrite set_get. split; [done|]. split; [|done].
    by intros l ?%elem_of_nil. }
  cbn [fmap list_fmap] in Hnd, Hnone. apply NoDup_cons in Hnd as [Hn Hnd].
  unfold insert_all in H. cbn [each] in H.
  apply runs_bind in H as [(? & _ & [=])|(t1 & [] & He & H)].
  assert (exists m1, t1 = set m1 t /\ layer_of (overrides_of owner m1) (ll_id e) = ll_overrides e /\
            forall o l, (o, l) <> (owner, ll_id e) -> m1 !! (o, l) = get t !! (o, l)) as (m1 & -> & Hm1 & Hm1').
  { destruct (Empty (ll_overrides e)) eqn:Ee.
    - apply runs_ret in He as [-> _]. exists (get t). rewrite set_get. split; [done|]. split; [|done].
      apply Empty_true in Ee. unfold layer_of. by rewrite overrides_of_lookup, Hnone, Ee by by left.
    - apply runs_exec in He as [[_ [=]]|[He _]].
      destruct (insert_override _ _ _ _ _ _) as [m1|] eqn:Em; [|done]. injection He as <-.
      apply insert_override_Some in Em as ->. eexists. split; [done|]. split.
      + unfold layer_of. by rewrite overrides_of_lookup, lookup_insert_eq.
      + intros o l Hne. by rewrite lookup_insert_ne. }
  apply IH in H as (m & -> & Hg & Hm); [|done| |done].
  - exists m. rewrite set_set. split; [done|]. split.
    + intros l [->|Hl]%elem_of_cons.
      * unfold layer_of at 2. rewrite given_cons, lookup_insert_eq. cbn. rewrite <- Hm1.
        unfold layer_of. rewrite !overrides_of_lookup, Hm by done. by rewrite get_set.
      * rewrite Hg by done. unfold layer_of. rewrite given_cons, lookup_insert_ne; [done|]. by intros <-.
    + intros o l Hol. rewrite Hm, get_set.
      * apply Hm1'. intros [= -> ->]. by destruct (Hol eq_refl); left.
      * intros -> Hl. destruct (Hol eq_refl). by right.
  - intros l Hl. rewrite get_set, Hm1'; [apply Hnone; by right|]. intros [= ->]. done.
Qed.
End Insert.

Lemma InsertExerciseLanguageLimits_writes fault ex entries t t' :
  NoDup (ll_id <$> entries) -> (forall l, l ∈ ll_id <$> entries -> t_exercise_limits t !! (ex, l) = None) ->
  runs (InsertExerciseLanguageLimits fault ex entries) t t' (Ok tt) ->
  writes t_exercise_limits (fun m t => t <| t_exercise_limits := m |>) ex entries t t'.
Proof.
  intros Hnd Hn H. eapply insert_all_writes; [done|done|by intros []|done|done| |done].
  by apply H.
Qed.

Lemma InsertTestCaseLanguageLimits_writes fault tc entries t t' :
  NoDup (ll_id <$> entries) -> (forall l, l ∈ ll_id <$> entries -> t_case_limits t !! (tc, l) = None) ->
  runs (InsertTestCaseLanguageLimits fault tc entries) t t' (Ok tt) ->
  writes t_case_limits (fun m t => t <| t_case_limits := m |>) tc entries t t'.
Proof.
  intros Hnd Hn H. eapply insert_all_writes; [done|done|by intros []|done|done| |done].
  by apply H.
Qed.

(** ** Replacing the limits of an exercise *)

Section Replace.
Context (fault : nat -> bool) (collation : relation string) `{!RelDecision collation} (platform : Limits).

(** A row of the page, for a layer of overrides. *)
Definition page_row (m : gmap Z LimitOverrides) (language : allowedLanguage) : LanguageLimits :=
  language_limits platform [mk_layer (layer_of m (al_id language)) LimitSourceExercise]
    (layer_of m (al_id language)) language.

Definition exercise_page (ex : Z) (t : Tables) : list LanguageLimits :=
  page_row (overrides_of ex (t_exercise_limits t)) <$> allowed_languages collation ex t.

Lemma ListExerciseLanguageLimits_runs ex claims t t' out :
  runs (ListExerciseLanguageLimits fault collation platform ex claims) t t' (Ok out) ->
  t' = t /\ out = exercise_page ex t.
Proof.
  unfold ListExerciseLanguageLimits. intros H.
  apply runs_bind in H as [(? & _ & [=])|(t1 & acc & Ha & H)].
  apply requireExerciseAuthor_ok in Ha as (-> & _).
  apply runs_bind in H as [(? & _ & [=])|(t1 & langs & Hl & H)].
  apply runs_query in Hl as [-> [[=]|[= ->]]].
  apply runs_bind in H as [(? & _ & [=])|(t1 & ov & Ho & H)].
  apply runs_query in Ho as [-> [[=]|[= ->]]].
  by apply runs_ret in H as [-> [= ->]].
Qed.

Lemma ReplaceExerciseLanguageLimits_runs ex entries claims t t' out r :
  t_exercises t !! ex = Some r ->
  runs (ReplaceExerciseLanguageLimits fault collation platform ex entries claims) t t' (Ok out) ->
  let a := owning_exercise ex r in
  may_author t ex claims /\ well_formed (allowed_languages collation a t) entries /\
  (exists m, t' = t <| t_exercise_limits := m |>) /\
  (forall l, layer_of (overrides_of a (t_exercise_limits t')) l = layer_of (given entries) l) /\
  (forall o l, o <> a -> t_exercise_limits t' !! (o, l) = t_exercise_limits t !! (o, l)) /\
  out = exercise_page ex t'.
Proof.
  intros Er H a. unfold ReplaceExerciseLanguageLimits in H.
  apply runs_bind in H as [(? & _ & [=])|(t1 & acc & Ha & H)].
  apply requireExerciseAuthor_ok in Ha as (-> & Hauth & r' & Er' & Ea).
  rewrite Er in Er'. injection Er' as <-. cbv zeta in H. rewrite Ea in H. fold a in H.
  apply runs_bind in H as [(? & _ & [=])|(t1 & langs & Hl & H)].
  apply runs_query in Hl as [-> [[=]|[= ->]]].
  destruct (validateLanguageLimits_spec (allowed_languages collation a t) entries) as [Hv _].
  destruct (validateLanguageLimits _ _) as [e|]; [by apply runs_fail in H as [_ [=]]|].
  destruct Hv as [Hv _]. specialize (Hv eq_refl).
  apply runs_bind in H as [(? & _ & [=])|(t1 & [] & Ht & H)].
  apply runs_transaction in Ht as [[_ (? & [=])]|(u & [= <-] & Ht)].
  apply runs_bind in Ht as [(? & _ & [=])|(t2 & [] & Hd & Ht)].
  apply runs_exec in Hd as [[_ [=]]|[[= <-] _]].
  apply InsertExerciseLanguageLimits_writes in Ht as (m & -> & Hg & Hm); [|by destruct Hv|].
  2:{ intros l _. cbn. by rewrite delete_overrides_lookup, decide_True. }
  apply ListExerciseLanguageLimits_runs in H as [-> ->]. cbn in Hm |- *.
  split; [done|]. split; [done|]. split; [by exists m|]. split; [|split; [|done]].
  - intros l. destruct (decide (l ∈ ll_id <$> entries)) as [Hl|Hl]; [by apply Hg|].
    unfold layer_of. rewrite overrides_of_lookup, Hm by done.
    by rewrite delete_overrides_lookup, decide_True, given_None.
  - intros o l Ho. rewrite Hm by done. by rewrite delete_overrides_lookup, decide_False.
Qed.

(** Replacing the limits of an exercise answers with what it stored: for every
    language the exercise allows the page shows the overrides the request gave it,
    inherits the platform's value where the request gave none, and no other
    exercise's limits change. Only an author gets that far, and only with a set in
    which every language is allowed and named once, every CPU time is positive and
    no byte limit is negative. *)
Theorem replaced_limits_read_back ex entries claims t t' out r
  (Hr : t_exercises t !! ex = Some r) (Hg : ex_ghost r = false)
  (H : runs (ReplaceExerciseLanguageLimits fault collation platform ex entries claims) t t' (Ok out)) :
  may_author t ex claims /\ well_formed (allowed_languages collation ex t) entries /\
  out = page_row (given entries) <$> allowed_languages collation ex t /\
  (exists m, t' = t <| t_exercise_limits := m |>) /\
  (forall o l, o <> ex -> t_exercise_limits t' !! (o, l) = t_exercise_limits t !! (o, l)).
Proof.
  apply (ReplaceExerciseLanguageLimits_runs _ _ _ _ _ _ r Hr) in H as (Ha & Hw & (m & ->) & Hgiven & Ho & ->).
  unfold owning_exercise in *. rewrite Hg in *. split; [done|]. split; [done|].
  split; [|split; [by exists m|done]]. unfold exercise_page. apply list_fmap_ext. intros i language _. unfold page_row. by rewrite Hgiven.
Qed.

(** Through a ghost exercise the request is stored for the exercise that owns
    the cases, which is what the snapshots of submissions read, but the answer is
    the page of the ghost itself: exactly the page as it was before the request,
    whatever the request said. *)
Theorem ghost_answer_ignores_request ex real entries claims t t' out r
  (Hr : t_exercises t !! ex = Some r) (Hg : ex_ghost r = true) (Hreal : ex_real r = Some real)
  (Hne : real <> ex)
  (H : runs (ReplaceExerciseLanguageLimits fault collation platform ex entries claims) t t' (Ok out)) :
  (forall l, layer_of (overrides_of real (t_exercise_limits t')) l = layer_of (given entries) l) /\
  out = exercise_page ex t.
Proof.
  apply (ReplaceExerciseLanguageLimits_runs _ _ _ _ _ _ r Hr) in H as (_ & _ & (m & ->) & Hgiven & Ho & ->).
  unfold owning_exercise in *. rewrite Hg, Hreal in *. cbn in *. split; [done|].
  unfold exercise_page. apply list_fmap_ext. intros i language _. unfold page_row, layer_of.
  rewrite !overrides_of_lookup. cbn. by rewrite Ho by done.
Qed.
End Replace.

(** ** The snapshot of a submission *)

Lemma snapshot_rows_lookup platform t ids c tc :
  snapshot_rows platform t ids !! (c, tc) = if decide (c ∈ ids) then snapshot_limits platform t c tc else None.
Proof.
  unfold snapshot_rows. set (l := ids ≫= _).
  assert (forall c tc x, ((c, tc), x) ∈ l <-> c ∈ ids /\ snapshot_limits platform t c tc = Some x) as Hl.
  { clear c tc. intros c tc x. unfold l. rewrite list_elem_of_bind. split.
    - intros (c' & Hin & Hc'). apply list_elem_of_omap in Hin as ([tc' row] & Hrow & Hin).
      destruct (snapshot_limits platform t c' tc') as [x'|] eqn:Ex; [|done]. by injection Hin as -> -> ->.
    - intros [Hc Hx]. exists c. split; [|done]. apply list_elem_of_omap.
      destruct (t_cases t !! tc) as [row|] eqn:Erow.
      + exists (tc, row). rewrite elem_of_map_to_list, Hx. done.
      + exfalso. revert Hx. unfold snapshot_limits. destruct (t_commits t !! c) as [su|]; [|done]. cbn.
        destruct (t_exercises t !! _); [|done]. cbn. by rewrite Erow. }
  destruct (decide (c ∈ ids)) as [Hc|Hc].
  - destruct (snapshot_limits platform t c tc) as [x|] eqn:Ex.
    + apply elem_of_list_to_map_1'; [|by apply Hl].
      intros y [_ Hy]%Hl. congruence.
    + apply not_elem_of_list_to_map_1. intros ([[c' tc'] x] & [= <- <-] & [_ Hx]%Hl)%list_elem_of_fmap. congruence.
  - apply not_elem_of_list_to_map_1. intros ([[c' tc'] x] & [= <- <-] & [Hx _]%Hl)%list_elem_of_fmap. done.
Qed.

Lemma SnapshotCommitLimits_runs fault platform ids t t' :
  runs (SnapshotCommitLimits fault platform ids) t t' (Ok tt) ->
  t' = t <| t_snapshot := t_snapshot t ∪ snapshot_rows platform t ids |>.
Proof.
  destruct ids as [|c ids]; intros H.
  - apply runs_ret in H as [-> _]. destruct t. unfold rset. cbn. f_equal. by rewrite map_union_empty.
  - apply runs_exec in H as [[_ [=]]|[H _]]. destruct (limits_fit platform); [by injection H as <-|done].
Qed.

(** A row that is there stays; a commit and case without one get what the query
    selects. *)
Lemma snapshot_lookup fault platform ids t t' c tc :
  runs (SnapshotCommitLimits fault platform ids) t t' (Ok tt) ->
  t_snapshot t' !! (c, tc) =
  match t_snapshot t !! (c, tc) with
  | Some x => Some x
  | None => if decide (c ∈ ids) then snapshot_limits platform t c tc else None
  end.
Proof.
  intros ->%SnapshotCommitLimits_runs. cbn. rewrite lookup_union, snapshot_rows_lookup.
  by destruct (t_snapshot t !! (c, tc)), (decide (c ∈ ids)), (snapshot_limits platform t c tc).
Qed.

(** The loops that fill a map: the last write to a key wins, and here every write to
    a key writes the same. *)
Lemma fill_lookup {A} (f : Z -> option A) (ids : list Z) (m : gmap Z A) c :
  fold_left (fun m c => match f c with Some x => <[c := x]> m | None => m end) ids m !! c =
  match f c with Some x => if decide (c ∈ ids) then Some x else m !! c | None => m !! c end.
Proof.
  revert m. induction ids as [|y ids IH]; intros m; cbn [fold_left].
  - destruct (f c); [|done]. rewrite decide_False; [done|apply not_elem_of_nil].
  - rewrite IH. destruct (decide (c = y)) as [->|Hy].
    + destruct (f y) as [x|]; [|done]. rewrite lookup_insert_eq.
      destruct (decide (y ∈ y :: ids)) as [_|[]]; [by case_decide|by left].
    + destruct (f c) as [x|].
      * assert ((c ∈ y :: ids) <-> c ∈ ids) as Hiff by (rewrite elem_of_cons; naive_solver).
        rewrite (decide_ext _ _ _ _ Hiff). case_decide; [done|].
        destruct (f y); [by rewrite lookup_insert_ne|done].
      * destruct (f y); [by rewrite lookup_insert_ne|done].
Qed.

Lemma loadCaseOverrides_runs fault ids t t' cov :
  runs (loadCaseOverrides fault ids) t t' (Ok cov) ->
  t' = t /\ forall c, c ∈ ids -> default ∅ (cov !! c) = overrides_of c (t_case_limits t).
Proof.
  unfold loadCaseOverrides. intros H. destruct ids as [|c0 ids0].
  { apply runs_ret in H as [-> _]. split; [done|]. by intros c ?%elem_of_nil. }
  apply runs_query in H as [-> [[=]|[= ->]]]. split; [done|]. intros c Hc.
  set (f := fun c => if decide (overrides_of c (t_case_limits t) = ∅) then None
                     else Some (overrides_of c (t_case_limits t))).
  replace (fold_left _ _ _) with
    (fold_left (fun (m : gmap Z (gmap Z LimitOverrides)) c =>
       match f c with Some x => <[c := x]> m | None => m end) (c0 :: ids0) ∅).
  - rewrite fill_lookup. unfold f. case_decide as Hd; [by rewrite Hd|]. by rewrite decide_True.
  - cbn [fold_left]. replace (match f c0 with Some x => _ | None => _ end) with
      (if decide (overrides_of c0 (t_case_limits t) = ∅) then ∅
       else <[c0 := overrides_of c0 (t_case_limits t)]> (∅ : gmap Z (gmap Z LimitOverrides)))
      by (unfold f; by case_decide).
    generalize ids0 as l. match goal with |- forall l, fold_left _ _ ?i = _ => generalize i as m end.
    intros m l. revert m.
    induction l as [|x l IH]; intros m; [done|]. cbn [fold_left]. rewrite IH. f_equal. unfold f. by case_decide.
Qed.

(** The page of a case. *)
Lemma TestCaseLanguageLimits_runs fault collation `{!RelDecision collation} platform ex ids t t' page :
  runs (TestCaseLanguageLimits fault collation platform ex ids) t t' (Ok page) ->
  t' = t /\ forall c, c ∈ ids -> page !! c = Some
    (case_language_limits platform (overrides_of ex (t_exercise_limits t)) (overrides_of c (t_case_limits t))
       <$> allowed_languages collation ex t).
Proof.
  unfold TestCaseLanguageLimits. intros H.
  apply runs_bind in H as [(? & _ & [=])|(t1 & langs & Hl & H)].
  apply runs_query in Hl as [-> [[=]|[= ->]]].
  apply runs_bind in H as [(? & _ & [=])|(t1 & ov & Ho & H)].
  apply runs_query in Ho as [-> [[=]|[= ->]]].
  apply runs_bind in H as [(? & _ & [=])|(t1 & cov & Hc & H)].
  apply loadCaseOverrides_runs in Hc as [-> Hcov].
  apply runs_ret in H as [-> [= ->]]. split; [done|]. intros c Hc.
  set (f := fun c => Some (case_language_limits platform (overrides_of ex (t_exercise_limits t))
                             (default ∅ (cov !! c)) <$> allowed_languages collation ex t)).
  pose proof (fill_lookup f ids ∅ c) as Hf. cbn in Hf. rewrite decide_True, Hcov in Hf by done. exact Hf.
Qed.

(** What a professor reads next to a test case is what a submission is graded
    under: for a commit in one of the languages the exercise allows, the row the
    snapshot writes for a case is, limit by limit, the effective value the
    authoring page computes for that case and language — although one is a SQL
    [COALESCE] over two outer joins and the other a loop over layers in Go. *)
Theorem snapshot_matches_page fault collation `{!RelDecision collation} platform ids cases t t' page
    c su e tc row language
  (Hc : c ∈ ids) (Hsu : t_commits t !! c = Some su) (He : t_exercises t !! su_exercise su = Some e)
  (Hrow : t_cases t !! tc = Some row) (Howner : ca_exercise row = owning_exercise (su_exercise su) e)
  (Hl : language ∈ allowed_languages collation (ca_exercise row) t)
  (Hlang : su_language su = Some (al_id language))
  (Hnew : t_snapshot t !! (c, tc) = None) (Htc : tc ∈ cases)
  (Hs : runs (SnapshotCommitLimits fault platform ids) t t' (Ok tt))
  (Hp : runs (TestCaseLanguageLimits fault collation platform (ca_exercise row) cases) t t (Ok page)) :
  exists rows entry, page !! tc = Some rows /\ entry ∈ rows /\ ll_id entry = al_id language /\
    t_snapshot t' !! (c, tc) = Some (ll_limits entry).
Proof.
  apply TestCaseLanguageLimits_runs in Hp as [_ Hp]. specialize (Hp tc Htc).
  eexists _, _. split; [exact Hp|]. split; [by apply list_elem_of_fmap_2|].
  unfold case_language_limits, language_limits. split; [done|].
  rewrite (snapshot_lookup _ _ _ _ _ _ _ Hs), Hnew, decide_True by done.
  unfold snapshot_limits. rewrite Hsu. cbn [mbind option_bind]. rewrite He. cbn [mbind option_bind].
  rewrite Hrow. cbn [mbind option_bind]. rewrite decide_True by done. rewrite Hlang. cbn [mbind option_bind].
  f_equal. unfold layer_of. rewrite !overrides_of_lookup.
  destruct (t_case_limits t !! (tc, al_id language)) as [[[?|] [?|] [?|] [?|]]|],
    (t_exercise_limits t !! (ca_exercise row, al_id language)) as [[[?|] [?|] [?|] [?|]]|]; reflexivity.
Qed.

(** ** Every stored limit is usable *)

Definition usable_limits (l : Limits) : Prop :=
  1 <= li_cpu l /\ 0 <= li_mem l /\ 0 <= li_stack l /\ 0 <= li_file l.

Definition limits_wf (t : Tables) : Prop :=
  (forall k o, t_exercise_limits t !! k = Some o -> usable o) /\
  (forall k o, t_case_limits t !! k = Some o -> usable o) /\
  (forall k l, t_snapshot t !! k = Some l -> usable_limits l).

Lemma no_overrides_usable : usable no_overrides.
Proof. repeat split; by intros ? [=]. Qed.

Lemma coalesce_above low a b p : above low a -> above low b -> low <= p -> low <= coalesce a b p.
Proof. intros Ha Hb Hp. destruct a as [x|]; cbn; [by apply Ha|]. destruct b as [x|]; cbn; [by apply Hb|done]. Qed.

Lemma snapshot_limits_usable platform t c tc l :
  limits_wf t -> usable_limits platform -> snapshot_limits platform t c tc = Some l -> usable_limits l.
Proof.
  intros (He & Hc & _) (P1 & P2 & P3 & P4). unfold snapshot_limits.
  destruct (t_commits t !! c) as [su|]; [|done]. cbn [mbind option_bind].
  destruct (t_exercises t !! _) as [e|]; [|done]. cbn [mbind option_bind].
  destruct (t_cases t !! tc) as [row|]; [|done]. cbn [mbind option_bind].
  destruct (decide _); [|done]. intros [= <-].
  assert (forall low (f : LimitOverrides -> option Z) (o : option LimitOverrides) (u : forall x, o = Some x -> above low (f x)),
            above low (o ≫= f)) as Hf.
  { intros low f [x|] u; [by apply u|by intros ? [=]]. }
  unfold usable_limits. cbn [li_cpu li_mem li_stack li_file].
  assert (forall o, (su_language su ≫= fun l => t_case_limits t !! (tc, l)) = Some o -> usable o) as U1.
  { intros o Ho. destruct (su_language su); [by eapply Hc|done]. }
  assert (forall o, (su_language su ≫= fun l => t_exercise_limits t !! (ca_exercise row, l)) = Some o -> usable o) as U2.
  { intros o Ho. destruct (su_language su); [by eapply He|done]. }
  split_and!; apply coalesce_above; try done; apply Hf; intros x Hx; (apply U1 in Hx || apply U2 in Hx); apply Hx.
Qed.

Lemma insert_usable k o m m' langs owner owned (P : LimitOverrides -> Prop) :
  insert_override owner k o owned langs m = Some m' -> P o -> (forall k o, m !! k = Some o -> P o) ->
  forall k o, m' !! k = Some o -> P o.
Proof.
  intros ->%insert_override_Some Ho Hm k' o'. rewrite lookup_insert_Some. intros [[_ <-]|[_ H]]; [done|by eapply Hm].
Qed.

Lemma delete_usable owner m (P : LimitOverrides -> Prop) :
  (forall k o, m !! k = Some o -> P o) -> forall k o, delete_overrides owner m !! k = Some o -> P o.
Proof. intros Hm [a l] o. rewrite delete_overrides_lookup. case_decide; [done|apply Hm]. Qed.

(** A loop of statements keeps what each of them keeps. *)
Lemma runs_each {T E A} (I : T -> Prop) (f : A -> eff (conn T) E unit) (l : list A) :
  (forall x t t' r, x ∈ l -> I t -> runs (f x) t t' r -> I t') ->
  forall t t' r, I t -> runs (each f l) t t' r -> I t'.
Proof.
  induction l as [|x l IH]; intros Hf t t' r Ht H; cbn [each] in H; [by apply runs_ret in H as [-> _]|].
  apply runs_bind in H as [(e & H & _)|(t1 & a & H1 & H)]; [eapply Hf; [|done|done]; by left|].
  eapply IH; [|eapply Hf; [|done|exact H1]; by left|exact H]. intros y ? ? ? Hy. apply Hf. by right.
Qed.

Lemma InsertExerciseLanguageLimits_wf fault ex entries t t' r :
  Forall (fun e => usable (ll_overrides e)) entries -> limits_wf t ->
  runs (InsertExerciseLanguageLimits fault ex entries) t t' r -> limits_wf t'.
Proof.
  intros Hu. apply (runs_each limits_wf). intros e u u' r' He (W1 & W2 & W3) H.
  rewrite Forall_forall in Hu. specialize (Hu e He). destruct (Empty _); [by apply runs_ret in H as [-> _]|].
  apply runs_exec in H as [[-> _]|[H _]]; [done|].
  destruct (insert_override _ _ _ _ _ _) as [m|] eqn:Em; [|done]. injection H as <-.
  split; [|done]. by eapply insert_usable.
Qed.

Lemma InsertTestCaseLanguageLimits_wf fault tc entries t t' r :
  Forall (fun e => usable (ll_overrides e)) entries -> limits_wf t ->
  runs (InsertTestCaseLanguageLimits fault tc entries) t t' r -> limits_wf t'.
Proof.
  intros Hu. apply (runs_each limits_wf). intros e u u' r' He (W1 & W2 & W3) H.
  rewrite Forall_forall in Hu. specialize (Hu e He). destruct (Empty _); [by apply runs_ret in H as [-> _]|].
  apply runs_exec in H as [[-> _]|[H _]]; [done|].
  destruct (insert_override _ _ _ _ _ _) as [m|] eqn:Em; [|done]. injection H as <-.
  split; [done|]. split; [|done]. by eapply insert_usable.
Qed.

Lemma well_formed_usable languages entries :
  well_formed languages entries -> Forall (fun e => usable (ll_overrides e)) entries.
Proof. intros [_ H]. eapply Forall_impl; [exact H|]. by intros e [_ ?]. Qed.

Lemma ReplaceTestCaseLanguageLimits_wf fault collation `{!RelDecision collation} tc ex entries t t' r :
  limits_wf t -> runs (ReplaceTestCaseLanguageLimits fault collation tc ex entries) t t' r -> limits_wf t'.
Proof.
  intros W H. unfold ReplaceTestCaseLanguageLimits in H.
  apply runs_bind in H as [(e & H & _)|(t1 & langs & Hl & H)]; [by apply runs_query in H as [-> _]|].
  apply runs_query in Hl as [-> _].
  destruct (validateLanguageLimits_spec langs entries) as [Hv _].
  destruct (validateLanguageLimits _ _) as [e|]; [by apply runs_fail in H as [-> _]|].
  destruct Hv as [Hv _]. specialize (Hv eq_refl). apply well_formed_usable in Hv.
  apply runs_bind in H as [(e & H & _)|(t2 & [] & Hd & H)].
  - apply runs_exec in H as [[-> _]|[[= <-] [=]]]; done.
  - apply runs_exec in Hd as [[_ [=]]|[[= <-] _]]. eapply InsertTestCaseLanguageLimits_wf; [done| |exact H].
    destruct W as (W1 & W2 & W3). split; [done|]. split; [|done]. by apply delete_usable.
Qed.

Lemma requireExerciseAuthor_reads fault ex claims t t' r :
  runs (requireExerciseAuthor fault ex claims) t t' r -> t' = t.
Proof.
  intros (n & n' & H). revert H. unfold requireExerciseAuthor, loadExerciseAccessForClaims, loadExerciseAccess.
  unfold mbind, eff_bind, lift, query, statement.
  destruct (claimsUserID claims) as [[user role]|e]; [|by intros [= -> _]]. cbn.
  destruct (fault n); [by intros [= -> _]|]. destruct (access_row _ _ _ _) as [acc|]; [|by intros [= -> _]].
  cbn. destruct (ac_canAuthor acc); by intros [= -> _].
Qed.

Lemma ListExerciseLanguageLimits_reads fault collation `{!RelDecision collation} platform ex claims t t' r :
  runs (ListExerciseLanguageLimits fault collation platform ex claims) t t' r -> t' = t.
Proof.
  intros H. unfold ListExerciseLanguageLimits in H.
  apply runs_bind in H as [(e & H & _)|(t2 & acc & Ha & H)]; [by eapply requireExerciseAuthor_reads|].
  apply requireExerciseAuthor_reads in Ha as ->.
  apply runs_bind in H as [(e & H & _)|(t3 & l3 & H3 & H)]; [by apply runs_query in H as [-> _]|].
  apply runs_query in H3 as [-> _].
  apply runs_bind in H as [(e & H & _)|(t3 & l4 & H3 & H)]; [by apply runs_query in H as [-> _]|].
  apply runs_query in H3 as [-> _]. by apply runs_ret in H as [-> _].
Qed.

Lemma ReplaceExerciseLanguageLimits_wf fault collation `{!RelDecision collation} platform ex entries claims t t' r :
  limits_wf t -> runs (ReplaceExerciseLanguageLimits fault collation platform ex entries claims) t t' r ->
  limits_wf t'.
Proof.
  intros W H. unfold ReplaceExerciseLanguageLimits in H.
  apply runs_bind in H as [(e & H & _)|(t1 & acc & Ha & H)]; [by apply requireExerciseAuthor_reads in H as ->|].
  apply requireExerciseAuthor_reads in Ha as ->.
  apply runs_bind in H as [(e & H & _)|(t1 & langs & Hl & H)]; [by apply runs_query in H as [-> _]|].
  apply runs_query in Hl as [-> _].
  destruct (validateLanguageLimits_spec langs entries) as [Hv _].
  destruct (validateLanguageLimits _ _) as [e|]; [by apply runs_fail in H as [-> _]|].
  destruct Hv as [Hv _]. specialize (Hv eq_refl). apply well_formed_usable in Hv.
  apply runs_bind in H as [(e & H & _)|(t1 & [] & Ht & H)]; [by apply runs_transaction_err in H as ->|].
  apply ListExerciseLanguageLimits_reads in H as ->.
  apply runs_transaction in Ht as [[-> _]|(a & _ & Hs)]; [done|].
  apply runs_bind in Hs as [(? & _ & [=])|(t2 & [] & Hd & Hs)].
  apply runs_exec in Hd as [[_ [=]]|[[= <-] _]].
  eapply InsertExerciseLanguageLimits_wf; [done| |exact Hs].
  destruct W as (W1 & W2 & W3). split; [by apply delete_usable|done].
Qed.

Lemma SnapshotCommitLimits_wf fault platform ids t t' r :
  usable_limits platform -> limits_wf t -> runs (SnapshotCommitLimits fault platform ids) t t' r -> limits_wf t'.
Proof.
  intros Hp W H. destruct r as [[]|e].
  - pose proof (SnapshotCommitLimits_runs _ _ _ _ _ H) as Et. pose proof W as (W1 & W2 & W3).
    split; [by rewrite Et|]. split; [by rewrite Et|]. intros [c tc] l.
    rewrite (snapshot_lookup _ _ _ _ _ _ _ H). destruct (t_snapshot t !! (c, tc)) eqn:Ex.
    + intros [= <-]. by eapply W3.
    + case_decide; [|done]. by apply snapshot_limits_usable.
  - destruct ids as [|c ids]; [by apply runs_ret in H as [_ [=]]|].
    by apply runs_exec in H as [[-> _]|[_ [=]]].
Qed.

(** Whatever a professor sends and whichever statement fails, the tables keep
    only limits a run can be graded under — a positive CPU time, no negative byte
    limit, in the overrides of exercises and cases and in the snapshots — as long as
    the platform's own defaults are. *)
Theorem stored_limits_usable fault collation `{!RelDecision collation} platform t t'
  (Hp : usable_limits platform) (W : limits_wf t) :
  (forall ex entries claims r, runs (ReplaceExerciseLanguageLimits fault collation platform ex entries claims) t t' r ->
     limits_wf t') /\
  (forall tc ex entries r, runs (ReplaceTestCaseLanguageLimits fault collation tc ex entries) t t' r -> limits_wf t') /\
  (forall ids r, runs (SnapshotCommitLimits fault platform ids) t t' r -> limits_wf t').
Proof.
  split_and!; intros *; [by apply ReplaceExerciseLanguageLimits_wf|by apply ReplaceTestCaseLanguageLimits_wf|].
  by apply SnapshotCommitLimits_wf.
Qed.

(** ** A class with one exercise, its ghost, one case and one submission *)

Definition sample : Tables :=
  mk_tables {[1 := mk_offering (Some 7) 0 "" None None true]} ∅
    {[10 := mk_exercise 1 500 100 false false false None "" ""; 11 := mk_exercise 1 500 100 false false true (Some 10) "" ""]}
    {[1 := mk_language "C" "c" true]} {[(10, 1); (11, 1)]}
    {[100 := mk_case_row 10 "1" "text" true "2" "text" true false]} ∅
    {[(10, 1) := mk_overrides (Some 2) None None None]}
    {[(100, 1) := mk_overrides None (Some 0) None None]}
    {[5 := mk_submission 9 11 "queued" (Some "k/main.c") (Some 1) 0]} ∅ ∅ ∅ ∅.

Definition defaults : Limits := mk_limits 10 268435456 0 1048576.
Definition teacher : Claims := mk_claims (Some 7) "professor".
Definition byte_order (a b : string) : Prop := String.ltb a b = true.
#[export] Instance byte_order_dec : RelDecision byte_order.
Proof. intros a b. unfold byte_order. apply _. Defined.
Definition never : nat -> bool := fun _ => false.
Definition three_seconds : list LanguageLimits :=
  [mk_language_limits 1 "C" "c" (mk_overrides (Some 3) None None None) defaults
     (mk_sources LimitSourcePlatform LimitSourcePlatform LimitSourcePlatform LimitSourcePlatform)].

Lemma replaced_limits_read_back_witness :
  exists (t' : Tables) out, (exists m, t' = sample <| t_exercise_limits := m |>) /\ may_author sample 10 teacher /\
    out = page_row defaults (given three_seconds) <$> allowed_languages byte_order 10 sample.
Proof.
  eexists _, _.
  assert (H : runs (ReplaceExerciseLanguageLimits never byte_order defaults 10 three_seconds teacher)
                sample _ (Ok _)) by (eexists 0%nat, _; vm_compute; reflexivity).
  assert (Hr : t_exercises sample !! 10 = Some (mk_exercise 1 500 100 false false false None "" "")) by reflexivity.
  destruct (replaced_limits_read_back never byte_order defaults 10 three_seconds teacher _ _ _ _ Hr eq_refl H)
    as (Ha & _ & Ho & Hm & _).
  split; [exact Hm|]. split; [exact Ha|exact Ho].
Defined.

Lemma ghost_answer_ignores_request_witness :
  exists t' out, (forall l, layer_of (overrides_of 10 (t_exercise_limits t')) l = layer_of (given three_seconds) l) /\
    out = exercise_page byte_order defaults 11 sample.
Proof.
  eexists _, _.
  assert (H : runs (ReplaceExerciseLanguageLimits never byte_order defaults 11 three_seconds teacher)
                sample _ (Ok _)) by (eexists 0%nat, _; vm_compute; reflexivity).
  assert (Hr : t_exercises sample !! 11 = Some (mk_exercise 1 500 100 false false true (Some 10) "" "")) by reflexivity.
  apply (ghost_answer_ignores_request never byte_order defaults 11 10 three_seconds teacher _ _ _ _ Hr eq_refl eq_refl);
    [discriminate|exact H].
Defined.

Lemma snapshot_matches_page_witness :
  exists t' (rows : list LanguageLimits) entry, entry ∈ rows /\ t_snapshot t' !! (5, 100) = Some (ll_limits entry).
Proof.
  assert (Hs : exists t', runs (SnapshotCommitLimits never defaults [5]) sample t' (Ok tt))
    by (eexists _, 0%nat, _; vm_compute; reflexivity).
  destruct Hs as [t' Hs].
  assert (Hp : exists page, runs (TestCaseLanguageLimits never byte_order defaults 10 [100]) sample sample (Ok page))
    by (eexists _, 0%nat, _; vm_compute; reflexivity).
  destruct Hp as [page Hp].
  destruct (snapshot_matches_page never byte_order defaults [5] [100] sample t' page 5
    (mk_submission 9 11 "queued" (Some "k/main.c") (Some 1) 0)
    (mk_exercise 1 500 100 false false true (Some 10) "" "") 100
    (mk_case_row 10 "1" "text" true "2" "text" true false) (mk_allowed 1 "C" "c"))
    as (rows & entry & _ & He & _ & Hl).
  - by left.
  - reflexivity.
  - reflexivity.
  - reflexivity.
  - reflexivity.
  - assert (E1 : allowed_languages byte_order 10 sample = [mk_allowed 1 "C" "c"]) by (vm_compute; reflexivity).
    cbn [ca_exercise]. rewrite E1. by left.
  - reflexivity.
  - reflexivity.
  - by left.
  - exact Hs.
  - exact Hp.
  - by exists t', rows, entry.
Defined.

Lemma sample_wf : limits_wf sample /\ usable_limits defaults.
Proof.
  split; [|by vm_compute].
  assert (forall v low, low <= v -> above low (Some v)) as Ha by by intros v low Hv x [= <-].
  assert (forall low, above low None) as Hn by by intros low x.
  unfold sample, limits_wf. cbn [t_exercise_limits t_case_limits t_snapshot].
  split; [|split].
  - intros k o [_ <-]%lookup_singleton_Some. split_and!; [apply Ha; lia|apply Hn..].
  - intros k o [_ <-]%lookup_singleton_Some. split_and!; [apply Hn|apply Ha; lia|apply Hn..].
  - intros k l H. by rewrite lookup_empty in H.
Qed.

Lemma stored_limits_usable_witness :
  exists t', t_snapshot t' !! (5, 100) = Some (mk_limits 2 0 0 1048576) /\ limits_wf t'.
Proof.
  assert (Hs : exists t', t_snapshot t' !! (5, 100) = Some (mk_limits 2 0 0 1048576) /\
                 runs (SnapshotCommitLimits never defaults [5]) sample t' (Ok tt)).
  { eexists. split; [|eexists 0%nat, _; vm_compute; reflexivity]. vm_compute. reflexivity. }
  destruct Hs as (t' & E1 & Hs). exists t'. split; [exact E1|]. destruct sample_wf as [W Hp].
  exact (proj2 (proj2 (stored_limits_usable never byte_order defaults sample t' Hp W)) _ _ Hs).
Defined.
