(* ===== verification/TestCases.v ===== *)
(** * The test cases of a submission

    What the judge runs a submission against and what the backend later believes it
    ran: [Store.FetchTestCases] of [src/judge/internal/store/store.go], and the ids,
    hidden and interrupted cases the backend reads of the same tables
    ([commit-artifacts-service.go], [submissions-history.go]). The order in which
    PostgreSQL returns unordered rows is an argument. *)

From S2P Require Import Prelude Effects GoStrings Sql Catalog Limits JudgeModel.
Local Open Scope Z_scope.

Inductive fetch_error := EFetch | ENoSnapshot (missing : Z).

(** The exercise whose cases a commit runs against. *)
Definition commit_exercise (t : Tables) (commitID : Z) : option Z :=
  c ← t_commits t !! commitID;
  e ← t_exercises t !! su_exercise c;
  Some (owning_exercise (su_exercise c) e).

(** The rows of the exercise's cases that the commit's snapshot names. *)
Definition snapshot_case (t : Tables) (commitID exerciseID : Z) (x : Z * CaseRow) : Prop :=
  ca_exercise x.2 = exerciseID /\ is_Some (t_snapshot t !! (commitID, x.1)).
#[export] Instance snapshot_case_dec t c e x : Decision (snapshot_case t c e x) := _.

Section Fetch.
Context (fault : nat -> bool) (scan : list (Z * (Z * string)) -> list (Z * (Z * string))).

(** A row as it is scanned: no number and no files yet. *)
Definition scan_case (t : Tables) (commitID : Z) (x : Z * CaseRow) : option TestCase :=
  l ← t_snapshot t !! (commitID, x.1);
  Some (mk_case x.1 (ca_exercise x.2) 0 (ca_input_type x.2) (ca_input x.2) (ca_expected_type x.2)
          (ca_expected x.2) (ca_show_input x.2) (ca_show_expected x.2) (ca_show_output x.2)
          (li_cpu l) (li_mem l) (li_stack l) (li_file l) []).

Definition case_rows (commitID exerciseID : Z) (t : Tables) : list TestCase :=
  omap (scan_case t commitID) (sorted_keys (snapshot_case t commitID exerciseID) (t_cases t)).

Definition number_cases (cases : list TestCase) : list TestCase :=
  imap (fun i tc => tc <| tc_Number := Z.of_nat i + 1 |>) cases.

Definition unsnapshotted (commitID exerciseID : Z) (t : Tables) : Z :=
  Z.of_nat (length (filter (fun x : Z * CaseRow =>
    ca_exercise x.2 = exerciseID /\ t_snapshot t !! (commitID, x.1) = None) (map_to_list (t_cases t)))).

(** [byID]: the paths appended in the order the rows arrive. *)
Definition files_by_id (ids : list Z) (t : Tables) : gmap Z (list string) :=
  fold_left (fun m '(_, (id, path)) => <[id := default [] (m !! id) ++ [path]]> m)
    (scan (filter (fun x : Z * (Z * string) => x.2.1 ∈ ids) (map_to_list (t_case_files t)))) ∅.

Definition FetchTestCases (commitID exerciseID : Z) : eff (conn Tables) fetch_error (list TestCase) :=
  rows ← query fault EFetch (case_rows commitID exerciseID);
  let cases := number_cases rows in
  match cases with
  | [] =>
      missing ← query fault EFetch (unsnapshotted commitID exerciseID);
      if 0 <? missing then fail (ENoSnapshot missing) else mret cases
  | _ =>
      byID ← query fault EFetch (files_by_id (tc_ID <$> cases));
      mret ((fun tc => tc <| tc_Files := default [] (byID !! tc_ID tc) |>) <$> cases)
  end.

(** ** The backend's view of the same rows *)

Definition commit_case_ids (commitID : Z) (t : Tables) : list Z :=
  match commit_exercise t commitID with
  | None => []
  | Some e => (sorted_keys (snapshot_case t commitID e) (t_cases t)).*1
  end.

Definition CommitTestCaseIDs (commitID : Z) : svc (list Z) :=
  query fault ErrServer (commit_case_ids commitID).

Definition hidden_cases (commitID : Z) (t : Tables) : gset Z :=
  match commit_exercise t commitID with
  | None => ∅
  | Some e => list_to_set (omap (fun '(id, r) =>
      if decide (ca_exercise r = e /\ ca_show_output r = false) then Some id else None) (map_to_list (t_cases t)))
  end.

Definition HiddenTestCaseIDs (commitID : Z) : svc (gset Z) := query fault ErrServer (hidden_cases commitID).

Definition InterruptedTestCaseIDs (commitID : Z) : svc (gset Z) :=
  query fault ErrServer (fun t =>
    list_to_set (omap (fun '((c, id), status) =>
      if decide (c = commitID /\ status = "killed_with_signal") then Some id else None) (map_to_list (t_results t)))).

(** [validateTestCases]: an exercise must have a case to be submitted to. *)
Definition exercise_cases (exerciseID : Z) (t : Tables) : Z :=
  match t_exercises t !! exerciseID with
  | None => 0
  | Some e => Z.of_nat (length (filter (fun x : Z * CaseRow => ca_exercise x.2 = owning_exercise exerciseID e)
                                  (map_to_list (t_cases t))))
  end.

Definition validateTestCases (exerciseID : Z) : svc unit :=
  count ← query fault ErrServer (exercise_cases exerciseID);
  if count =? 0 then fail ErrNoTestCases else mret tt.
End Fetch.

(** ** Lemmas *)

Lemma case_rows_ids t c e : tc_ID <$> case_rows c e t = (sorted_keys (snapshot_case t c e) (t_cases t)).*1.
Proof.
  unfold case_rows. assert (Forall (snapshot_case t c e) (sorted_keys (snapshot_case t c e) (t_cases t))) as H.
  { apply Forall_forall. intros [k r] Hx. by apply elem_of_sorted_keys in Hx as [_ ?]. }
  induction H as [|x l [_ [li Hx]] _ IH]; [done|]. cbn. unfold scan_case at 1. rewrite Hx. cbn. by rewrite IH.
Qed.

Lemma number_cases_ids cases : tc_ID <$> number_cases cases = tc_ID <$> cases.
Proof.
  unfold number_cases. rewrite fmap_imap. apply list_eq. intros i. rewrite list_lookup_imap, list_lookup_fmap.
  by destruct (cases !! i).
Qed.

(** What a fetch returned. *)
Lemma FetchTestCases_runs fault scan c e t t' cases :
  runs (FetchTestCases fault scan c e) t t' (Ok cases) ->
  t' = t /\ cases =
    (fun tc => tc <| tc_Files := default [] (files_by_id scan (tc_ID <$> case_rows c e t) t !! tc_ID tc) |>)
      <$> number_cases (case_rows c e t).
Proof.
  unfold FetchTestCases. intros H. apply runs_bind in H as [(? & _ & [=])|(t1 & rows & Hq & H)].
  apply runs_query in Hq as [-> [[=]|[= ->]]].
  destruct (number_cases (case_rows c e t)) as [|tc l] eqn:El.
  - apply runs_bind in H as [(? & _ & [=])|(t1 & m & Hq & H)].
    apply runs_query in Hq as [-> [[=]|[= ->]]].
    destruct (0 <? _); [by apply runs_fail in H as [_ [=]]|]. by apply runs_ret in H as [-> [= ->]].
  - apply runs_bind in H as [(? & _ & [=])|(t1 & m & Hq & H)].
    apply runs_query in Hq as [-> [[=]|[= ->]]]. apply runs_ret in H as [-> [= ->]]. split; [done|].
    assert (tc_ID <$> case_rows c e t = tc_ID <$> (tc :: l)) as -> by by rewrite <- El, number_cases_ids.
    done.
Qed.

(** [byID], one path at a time. *)
Lemma files_fold (l : list (Z * (Z * string))) (m : gmap Z (list string)) id :
  default [] (fold_left (fun m '(_, (id, path)) => <[id := default [] (m !! id) ++ [path]]> m) l m !! id) =
  default [] (m !! id) ++ omap (fun '(_, (i, p)) => if decide (i = id) then Some p else None) l.
Proof.
  revert m. induction l as [|[k [i p]] l IH]; intros m; cbn [fold_left omap list_omap]; [by rewrite app_nil_r|].
  rewrite IH. destruct (decide (i = id)) as [->|Hi].
  - rewrite lookup_insert_eq. cbn [from_option Datatypes.id]. by rewrite <- List.app_assoc.
  - by rewrite lookup_insert_ne.
Qed.

Lemma files_by_id_elem scan ids t id p :
  (forall l, scan l ≡ₚ l) -> id ∈ ids ->
  p ∈ default [] (files_by_id scan ids t !! id) <-> exists k, t_case_files t !! k = Some (id, p).
Proof.
  intros Hscan Hid. unfold files_by_id. rewrite files_fold, lookup_empty. cbn [default app].
  rewrite list_elem_of_omap. setoid_rewrite Hscan. setoid_rewrite list_elem_of_filter. split.
  - intros ([k [i q]] & [_ Hk] & H). case_decide as Hi; [|done]. injection H as ->. subst i.
    exists k. by apply elem_of_map_to_list in Hk.
  - intros [k Hk]. exists (k, (id, p)). rewrite elem_of_map_to_list. cbn. by rewrite decide_True.
Qed.

Definition fetched (files : gmap Z (list string)) (c e : Z) (t : Tables) : list TestCase :=
  (fun tc => tc <| tc_Files := default [] (files !! tc_ID tc) |>) <$> number_cases (case_rows c e t).

Lemma fetched_ids files c e t : tc_ID <$> fetched files c e t = (sorted_keys (snapshot_case t c e) (t_cases t)).*1.
Proof.
  unfold fetched. rewrite <- list_fmap_compose. change (tc_ID ∘ _) with tc_ID. by rewrite number_cases_ids, case_rows_ids.
Qed.

Lemma elem_of_fetched_ids files c e t id :
  id ∈ tc_ID <$> fetched files c e t <->
  exists row, t_cases t !! id = Some row /\ ca_exercise row = e /\ is_Some (t_snapshot t !! (c, id)).
Proof.
  rewrite fetched_ids, list_elem_of_fmap. split.
  - intros ([k row] & -> & [Hk [He Hs]]%elem_of_sorted_keys). by exists row.
  - intros (row & Hk & He & Hs). exists (id, row). split; [done|]. by apply elem_of_sorted_keys.
Qed.

(** A fetched case is its row, with its number, its frozen limits and its files. *)
Lemma fetched_lookup files c e t i tc :
  fetched files c e t !! i = Some tc ->
  tc_ID tc ∈ tc_ID <$> case_rows c e t /\ tc_Number tc = Z.of_nat i + 1 /\ tc_Files tc = default [] (files !! tc_ID tc) /\
  exists row l, t_cases t !! tc_ID tc = Some row /\ t_snapshot t !! (c, tc_ID tc) = Some l /\
    tc_CPUTimeLimit tc = li_cpu l /\ tc_MemUsageLimit tc = li_mem l /\ tc_StackLimit tc = li_stack l /\
    tc_FileSizeLimit tc = li_file l /\ tc_ShowUserOutput tc = ca_show_output row.
Proof.
  unfold fetched, number_cases. rewrite list_lookup_fmap, list_lookup_imap.
  destruct (case_rows c e t !! i) as [r|] eqn:Er; [|done]. intros [= <-]. cbn.
  apply list_elem_of_lookup_2 in Er. split; [by apply (list_elem_of_fmap_2 tc_ID)|]. split; [done|]. split; [done|].
  unfold case_rows in Er. apply list_elem_of_omap in Er as ([k row] & [Hk [He Hs]]%elem_of_sorted_keys & Hr).
  unfold scan_case in Hr. cbn in Hr, He, Hs. destruct (t_snapshot t !! (c, k)) as [l|] eqn:El; [|done].
  cbn in Hr. injection Hr as <-. exists row, l. done.
Qed.

(** The cases the judge grades a submission against are the cases of its
    exercise that its limits snapshot names, each once, in the order of their ids
    and numbered from 1 in that order; a case carries the limits frozen in the
    snapshot — not the ones an author may have set since — and exactly the files
    attached to it. A fetch changes nothing. *)
Theorem fetched_cases_are_the_snapshot fault scan c e t t' cases (Hscan : forall l, scan l ≡ₚ l)
  (H : runs (FetchTestCases fault scan c e) t t' (Ok cases)) :
  t' = t /\ StronglySorted Z.lt (tc_ID <$> cases) /\
  (forall id, id ∈ tc_ID <$> cases <->
     exists row, t_cases t !! id = Some row /\ ca_exercise row = e /\ is_Some (t_snapshot t !! (c, id))) /\
  (forall i tc, cases !! i = Some tc -> tc_Number tc = Z.of_nat i + 1 /\
     exists row l, t_cases t !! tc_ID tc = Some row /\ t_snapshot t !! (c, tc_ID tc) = Some l /\
       tc_CPUTimeLimit tc = li_cpu l /\ tc_MemUsageLimit tc = li_mem l /\ tc_StackLimit tc = li_stack l /\
       tc_FileSizeLimit tc = li_file l /\ tc_ShowUserOutput tc = ca_show_output row /\
       forall p, p ∈ tc_Files tc <-> exists k, t_case_files t !! k = Some (tc_ID tc, p)).
Proof.
  apply FetchTestCases_runs in H as [-> ->]. set (files := files_by_id _ _ _). fold (fetched files c e t).
  split; [done|]. split; [rewrite fetched_ids; apply sorted_keys_lt|]. split; [intros id; apply elem_of_fetched_ids|].
  intros i tc (Hid & Hn & Hf & row & l & H1 & H2 & H3 & H4 & H5 & H6 & H7)%fetched_lookup. split; [done|].
  exists row, l. repeat (split; [done|]). intros p. rewrite Hf. by apply files_by_id_elem.
Qed.

(** The hidden cases are those of the commit's exercise whose output is not shown. *)
Lemma elem_of_hidden_cases c t id :
  id ∈ hidden_cases c t <->
  exists row, t_cases t !! id = Some row /\ commit_exercise t c = Some (ca_exercise row) /\ ca_show_output row = false.
Proof.
  unfold hidden_cases. destruct (commit_exercise t c) as [e|].
  2:{ split; [by intros ?%not_elem_of_empty|]. by intros (row & _ & [=] & _). }
  rewrite elem_of_list_to_set, list_elem_of_omap. split.
  - intros ([id' row] & Hin%elem_of_map_to_list & Hd). case_decide as Hc; [|done]. injection Hd as ->.
    destruct Hc as [<- ?]. by exists row.
  - intros (row & Hrow & [= ->] & Hs). exists (id, row). by rewrite elem_of_map_to_list, decide_True.
Qed.

(** The ids in the order of the numbers are the ones the backend computes. *)
Lemma fetched_ids_agree fault fault' scan c e t t' u cases ids :
  commit_exercise t c = Some e ->
  runs (FetchTestCases fault scan c e) t t' (Ok cases) ->
  runs (CommitTestCaseIDs fault' c) t u (Ok ids) -> ids = tc_ID <$> cases.
Proof.
  intros He [_ ->]%FetchTestCases_runs [_ [[=]|[= ->]]]%runs_query.
  unfold commit_case_ids. rewrite He, <- list_fmap_compose.
  change (tc_ID ∘ _) with tc_ID. by rewrite number_cases_ids, case_rows_ids.
Qed.
