(* ===== verification/Visibility.v ===== *)
(** * Who sees what a submission printed and wrote

    The author of a test case may keep the program's output to themselves. The judge
    does not upload a hidden case's files ([Outputs.v]); the backend filters the
    files it serves ([output-visibility.go], [visibleOutputFiles] of
    [submissions-handler.go], [keys.go] and [ListOutputFiles] of
    [src/backend/storage]), and blanks the output in the snapshot a stream starts
    with ([RedactSnapshotOutput], [StreamSubmissionEvents]). Files are stored under
    the number of the case, the rules are about its id: the theorems are about the
    translation between the two. *)

From S2P Require Import Prelude Effects GoStrings GoPath Sql Catalog Limits TestCases JudgeModel JudgeConfig Outputs.
Local Open Scope Z_scope.

(** ** Keys of the outputfiles bucket *)

(** [S3.UploadGeneratedFile] of the judge. *)
Definition UploadGeneratedFile_key (commitID : Z) (rel : string) : option string :=
  let clean := path_clean rel in
  if String.eqb clean "." || String.eqb clean ".." || has_prefix "../" clean then None
  else Some (fmt_int commitID +:+ "/" +:+ clean).

Definition OutputPrefix (commitID : Z) : string := fmt_int commitID +:+ "/".

Definition OutputFileKey (commitID : Z) (filePath : string) : string := fmt_int commitID +:+ "/" +:+ filePath.

Definition OutputPathValid (rel : string) : bool :=
  if String.eqb rel "" || String.eqb rel "." || has_prefix "/" rel then false
  else
    let clean := path_clean rel in
    if negb (String.eqb clean rel) then false
    else negb (String.eqb clean "..") && negb (has_prefix "../" clean).

Record OutputFile := mk_output { ot_Path : string; ot_Size : Z }.

Definition by_path (x y : OutputFile) : Prop := String.ltb (ot_Path y) (ot_Path x) = false.
#[export] Instance by_path_dec : RelDecision by_path.
Proof. intros x y. unfold by_path. apply _. Defined.

(** The bucket maps a key to the size of its object. *)
Definition ListOutputFiles (bucket : gmap string Z) (commitID : Z) : list OutputFile :=
  merge_sort by_path
    (omap (fun '(key, size) =>
       if has_prefix (OutputPrefix commitID) key then
         let rel := trim_prefix (OutputPrefix commitID) key in
         if OutputPathValid rel then Some (mk_output rel size) else None
       else None) (map_to_list bucket)).

(** ** The rule *)

Definition outputCasePrefix := "test_".

Definition OutputFileCaseNumber (filePath : string) : Z :=
  match cut_byte "/" filePath with
  | None => 0
  | Some (prefix, _) =>
      if negb (has_prefix outputCasePrefix prefix) then 0
      else match parse_int (trim_prefix outputCasePrefix prefix) with
      | None => 0
      | Some number => if number <=? 0 then 0 else number
      end
  end.

Definition ResolveOutputFileTestCaseID (filePath : string) (caseIDs : list Z) : Z * bool :=
  let number := OutputFileCaseNumber filePath in
  if number =? 0 then (0, true)
  else
    let index := number - 1 in
    if (index <? 0) || (Z.of_nat (length caseIDs) <=? index) then (0, false)
    else (nth (Z.to_nat index) caseIDs 0, true).

Definition OutputFileVisibleForCases (filePath : string) (hidden : gset Z) (caseIDs : list Z) : bool :=
  match ResolveOutputFileTestCaseID filePath caseIDs with
  | (_, false) => false
  | (caseID, true) => if caseID =? 0 then true else negb (bool_decide (caseID ∈ hidden))
  end.

Definition VisibleOutputFilesForCases (files : list OutputFile) (hidden : gset Z) (caseIDs : list Z)
  : list OutputFile :=
  filter (fun f => OutputFileVisibleForCases (ot_Path f) hidden caseIDs = true) files.

Definition MergeCaseIDs (sets : list (gset Z)) : gset Z := ⋃ sets.

(** ** The pages *)

Record SnapshotResult := mk_snapshot_result {
  sr_case : Z; sr_status : string; sr_user_output : option string; sr_error_message : option string
}.

Definition RedactSnapshotOutput (results : list SnapshotResult) (hidden : gset Z) : list SnapshotResult :=
  (fun r => if bool_decide (sr_case r ∈ hidden)
            then mk_snapshot_result (sr_case r) (sr_status r) None None else r) <$> results.

Record SubmissionArtifact := mk_artifact {
  sa_Kind : string; sa_TestCaseID : option Z; sa_State : string; sa_Reason : string; sa_LimitBytes : option Z
}.

(** [terminal]: [judge.IsTerminalStatus] of the commit's status. *)
Definition SettlePendingArtifacts (terminal : bool) (artifacts : list SubmissionArtifact) : list SubmissionArtifact :=
  if negb terminal then artifacts
  else (fun a => if String.eqb (sa_State a) "pending"
                 then mk_artifact (sa_Kind a) (sa_TestCaseID a) "failed" "upload_interrupted" (sa_LimitBytes a)
                 else a) <$> artifacts.

Section Pages.
Context (fault : nat -> bool).

Definition UnavailableGeneratedFileCases (commitID : Z) : svc (gset Z) :=
  hidden ← HiddenTestCaseIDs fault commitID;
  interrupted ← InterruptedTestCaseIDs fault commitID;
  mret (MergeCaseIDs [hidden; interrupted]).

(** [visibleOutputFiles]; the bucket may fail to answer. *)
Definition visibleOutputFiles (bucket : option (gmap string Z)) (commitID : Z) : svc (list OutputFile) :=
  match bucket with
  | None => fail ErrServer
  | Some b =>
      let files := ListOutputFiles b commitID in
      unavailable ← UnavailableGeneratedFileCases commitID;
      caseIDs ← CommitTestCaseIDs fault commitID;
      mret (VisibleOutputFilesForCases files unavailable caseIDs)
  end.

(** [GetSubmissionOutputFile] up to the object it streams: its size, or nothing. *)
Inductive file_answer := FileBadPath | FileNotFound | FileServed (size : Z).

Definition GetSubmissionOutputFile (bucket : gmap string Z) (commitID : Z) (filePath : string) : svc file_answer :=
  if negb (OutputPathValid filePath) then mret FileBadPath
  else
    unavailable ← UnavailableGeneratedFileCases commitID;
    caseIDs ← CommitTestCaseIDs fault commitID;
    if negb (OutputFileVisibleForCases filePath unavailable caseIDs) then mret FileNotFound
    else mret (match bucket !! OutputFileKey commitID filePath with
               | Some size => FileServed size | None => FileNotFound end).

(** An authorization check some of whose errors are a refusal. *)
Definition refused_on (caught : svc_error -> bool) (m : svc bool) : svc bool := fun s =>
  match m s with (s, Err e) => (s, if caught e then Ok false else Err e) | r => r end.

(** What [StreamSubmissionEvents] sends first: whether the viewer is the owner or
    staff of the class, and the results they get. [None] is a refused viewer. *)
Definition stream_snapshot (commitID : Z) (results : list SnapshotResult) (claims : Claims)
  : svc (option (bool * bool * list SnapshotResult)) :=
  match cl_id claims with
  | None => mret None
  | Some userID =>
      commit ← query fault ErrServer (fun t => t_commits t !! commitID);
      match commit with
      | None => fail ErrCommitNotFound
      | Some c =>
          let owned := su_user c =? userID in
          staff ← (if negb owned then
                     refused_on (fun e => bool_decide (e = ErrExerciseNotFound))
                       (CanAuthorExercise fault (su_exercise c) claims)
                   else if isPrivilegedRole (cl_role claims) then
                     refused_on (fun _ => true) (CanAuthorExercise fault (su_exercise c) claims)
                   else mret false);
          if negb owned && negb staff then mret None
          else if staff then mret (Some (owned, staff, results))
          else
            hidden ← HiddenTestCaseIDs fault commitID;
            mret (Some (owned, staff, RedactSnapshotOutput results hidden))
      end
  end.
End Pages.

(** ** Names *)

(** The name a case's file is stored under. *)
Definition case_object (tc : TestCase) (names : list string) : string :=
  caseOutputPrefix tc +:+ "/" +:+ join_comps names.

Lemma object_join prefix names : names <> [] -> prefix +:+ "/" +:+ join_comps names = join_comps (prefix :: names).
Proof. by destruct names. Qed.

Lemma test_prefix_safe tc : safe (caseOutputPrefix tc).
Proof. unfold caseOutputPrefix. by apply (safe_prefix_int "t" "est_"). Qed.

Lemma valid_object l : l <> [] -> Forall safe l -> OutputPathValid (join_comps l) = true.
Proof.
  intros Hne H. unfold OutputPathValid. rewrite clean_rel, String.eqb_refl by done.
  rewrite (proj2 (String.eqb_neq _ _) (join_comps_ne _ Hne H)).
  pose proof (rooted_join l H) as Hr. unfold rooted in Hr. rewrite Hr.
  assert (forall s, s = "." \/ s = ".." -> join_comps l <> s) as Hdots.
  { intros s Hs E1. destruct H as [|e l (_ & H1 & H2 & H3) Hl]; [done|].
    destruct l as [|e' l]; [destruct Hs; subst; done|].
    assert (count_byte "/" s = 0%nat) as Hc by (destruct Hs; subst; done).
    rewrite <- E1 in Hc. change (join_comps (e :: e' :: l)) with (e +:+ String "/" (join_comps (e' :: l))) in Hc.
    rewrite count_byte_app in Hc. cbn in Hc. lia. }
  rewrite !(proj2 (String.eqb_neq _ _) (Hdots _ (or_introl eq_refl))), !(proj2 (String.eqb_neq _ _) (Hdots _ (or_intror eq_refl))).
  cbn. destruct (has_prefix "../" (join_comps l)) eqn:Ep; [|done]. exfalso.
  apply has_prefix_spec in Ep as [r Er]. pose proof (split_join l Hne (safe_no_slash l H)) as Hs.
  rewrite Er in Hs. change ("../" +:+ r) with (".." +:+ String "/" r) in Hs.
  rewrite split_byte_app in Hs by done. destruct l as [|e l]; [done|]. injection Hs as He _.
  inversion H as [|? ? (_ & _ & H3 & _) _]; subst. by apply H3.
Qed.

(** What the judge stores, the backend lists under the same name. *)
Lemma upload_key c l : l <> [] -> Forall safe l ->
  UploadGeneratedFile_key c (join_comps l) = Some (OutputFileKey c (join_comps l)).
Proof.
  intros Hne H. unfold UploadGeneratedFile_key, OutputFileKey. rewrite clean_rel by done.
  pose proof (valid_object l Hne H) as Hv. unfold OutputPathValid in Hv.
  rewrite clean_rel, String.eqb_refl in Hv by done.
  destruct (_ || _ || has_prefix "/" _) eqn:Ed; [done|].
  apply orb_false_iff in Ed as [[_ Ed]%orb_false_iff _]. rewrite Ed. cbn in Hv.
  apply andb_true_iff in Hv as [H1%negb_true_iff H2%negb_true_iff]. by rewrite H1, H2.
Qed.

Lemma case_object_number tc names :
  0 < tc_Number tc -> int64 (tc_Number tc) -> OutputFileCaseNumber (case_object tc names) = tc_Number tc.
Proof.
  intros H0 H64. unfold OutputFileCaseNumber, case_object.
  change (caseOutputPrefix tc +:+ "/" +:+ join_comps names)
    with (caseOutputPrefix tc +:+ String "/" (join_comps names)).
  destruct (caseOutputPrefix_plain tc) as [_ Hns]. rewrite cut_byte_app by done.
  unfold caseOutputPrefix. rewrite (proj2 (Z.leb_gt _ _)) by lia.
  rewrite has_prefix_app, trim_prefix_app, parse_int_fmt_int by done. cbn.
  by rewrite (proj2 (Z.leb_gt _ _)) by lia.
Qed.

Lemma root_object_number names : OutputFileCaseNumber ("outputfiles/" +:+ join_comps names) = 0.
Proof.
  unfold OutputFileCaseNumber. change ("outputfiles/" +:+ join_comps names) with ("outputfiles" +:+ String "/" (join_comps names)).
  by rewrite cut_byte_app.
Qed.

(** ** Numbers and ids *)

(** Cases as [FetchTestCases] numbers them. *)
Definition numbered (cases : list TestCase) : Prop :=
  forall i tc, cases !! i = Some tc -> tc_Number tc = Z.of_nat i + 1.

Lemma numbered_fetch fault scan c e t t' cases :
  runs (FetchTestCases fault scan c e) t t' (Ok cases) -> numbered cases.
Proof.
  intros [_ ->]%FetchTestCases_runs i tc. rewrite list_lookup_fmap. unfold number_cases. rewrite list_lookup_imap.
  destruct (_ !! i) as [r|]; [|done]. by intros [= <-].
Qed.

Lemma resolve_case_object cases tc names :
  numbered cases -> Z.of_nat (length cases) < 2 ^ 63 -> tc ∈ cases ->
  ResolveOutputFileTestCaseID (case_object tc names) (tc_ID <$> cases) = (tc_ID tc, true).
Proof.
  intros Hn Hlen [i Hi]%list_elem_of_lookup. pose proof (Hn i tc Hi) as En.
  pose proof (lookup_lt_Some _ _ _ Hi) as Hlt.
  assert (int64 (tc_Number tc)) as H64 by (unfold int64, min_int64, max_int64 in *; lia).
  unfold ResolveOutputFileTestCaseID. rewrite case_object_number by (done || lia).
  rewrite (proj2 (Z.eqb_neq _ _)) by lia.
  rewrite (proj2 (Z.ltb_ge _ _)) by lia. rewrite length_fmap, (proj2 (Z.leb_gt _ _)) by lia. cbn [orb].
  f_equal. replace (Z.to_nat (tc_Number tc - 1)) with i by lia.
  rewrite nth_lookup, list_lookup_fmap, Hi. done.
Qed.

(** What the judge may have stored for a commit: files of its cases, under their
    numbers, and files of the output directory itself. *)
Definition judge_wrote (commitID : Z) (cases : list TestCase) (key : string) : Prop :=
  exists prefix names, names <> [] /\ Forall safe names /\
    UploadGeneratedFile_key commitID (join_comps (prefix :: names)) = Some key /\
    (prefix = "outputfiles" \/ exists tc, tc ∈ cases /\ prefix = caseOutputPrefix tc).

(** The author released the case's output, and its run was not interrupted. *)
Definition released (t : Tables) (commitID caseID : Z) : Prop :=
  exists row, t_cases t !! caseID = Some row /\ ca_show_output row = true /\
    t_results t !! (commitID, caseID) <> Some "killed_with_signal".

Lemma elem_of_ListOutputFiles bucket c f :
  f ∈ ListOutputFiles bucket c <->
  bucket !! OutputFileKey c (ot_Path f) = Some (ot_Size f) /\ OutputPathValid (ot_Path f) = true.
Proof.
  unfold ListOutputFiles. rewrite merge_sort_Permutation, list_elem_of_omap. split.
  - intros ([key size] & Hk%elem_of_map_to_list & H). destruct (has_prefix _ key) eqn:Ep; [|done].
    apply has_prefix_spec in Ep as [r ->]. rewrite trim_prefix_app in H.
    destruct (OutputPathValid r) eqn:Ev; [|done]. injection H as <-. cbn. split; [|done].
    unfold OutputPrefix in Hk. by rewrite app_assoc_s in Hk.
  - intros [Hk Hv]. exists (OutputFileKey c (ot_Path f), ot_Size f). split; [by apply elem_of_map_to_list|].
    unfold OutputFileKey. change ("/" +:+ ot_Path f) with (String "/" "" +:+ ot_Path f).
    rewrite <- app_assoc_s. fold (OutputPrefix c). rewrite has_prefix_app, trim_prefix_app, Hv. by destruct f.
Qed.

(** The sets the rules are about, by the rows they come from. *)
Lemma unavailable_runs fault c t t' un e :
  commit_exercise t c = Some e ->
  runs (UnavailableGeneratedFileCases fault c) t t' (Ok un) ->
  t' = t /\ forall id row, t_cases t !! id = Some row -> ca_exercise row = e -> (id ∉ un <-> released t c id).
Proof.
  intros He H. unfold UnavailableGeneratedFileCases in H.
  apply runs_bind in H as [(? & _ & [=])|(t1 & hid & Hh & H)].
  apply runs_query in Hh as [-> [[=]|[= ->]]].
  apply runs_bind in H as [(? & _ & [=])|(t1 & int & Hi & H)].
  apply runs_query in Hi as [-> [[=]|[= ->]]]. apply runs_ret in H as [-> [= ->]].
  split; [done|]. intros id row Hrow Hex. unfold MergeCaseIDs, released. cbn.
  rewrite !elem_of_union, elem_of_hidden_cases, elem_of_list_to_set, list_elem_of_omap. split.
  - intros Hn. exists row. split; [done|]. split.
    + destruct (ca_show_output row) eqn:Es; [done|]. exfalso. apply Hn. left. exists row. by rewrite He, Hex.
    + intros Hk. apply Hn. right. left. exists ((c, id), "killed_with_signal").
      rewrite elem_of_map_to_list. split; [done|]. by rewrite decide_True.
  - intros (row' & Hrow' & Hs & Hk). rewrite Hrow in Hrow'. injection Hrow' as <-.
    intros [(r' & Hr' & _ & Hs')|[([[c' id'] s] & Hin%elem_of_map_to_list & Hd)|Hd]].
    + congruence.
    + case_decide as Hc; [|done]. injection Hd as ->. by destruct Hc as [-> ->].
    + by apply not_elem_of_empty in Hd.
Qed.

(** A student is never served a file of a hidden or interrupted case. As long as
    the cases the snapshot names are the ones the judge numbered, every file the
    page of generated files lists was written either outside any case or by a case
    whose output the author released and whose run was not interrupted — although
    files are named after numbers, the judge numbered them from its own reading of
    the tables, and the rules are about ids. And every file of a released case is
    listed. *)
Theorem only_released_files_are_listed fault fault' scan t t1 t2 t' c e cases bucket files
  (Hfetch : runs (FetchTestCases fault scan c e) t t1 (Ok cases))
  (Hsame : commit_case_ids c t2 = tc_ID <$> cases)
  (He : commit_exercise t2 c = Some e)
  (Hpos : forall id row, t_cases t2 !! id = Some row -> 0 < id)
  (Hlen : Z.of_nat (length cases) < 2 ^ 63)
  (Hjudge : forall path size, bucket !! OutputFileKey c path = Some size -> judge_wrote c cases (OutputFileKey c path))
  (H : runs (visibleOutputFiles fault' (Some bucket) c) t2 t' (Ok files)) :
  (forall f, f ∈ files -> exists names, names <> [] /\
     (ot_Path f = "outputfiles/" +:+ join_comps names \/
      exists tc, tc ∈ cases /\ ot_Path f = case_object tc names /\ released t2 c (tc_ID tc))) /\
  (forall tc names size, tc ∈ cases -> released t2 c (tc_ID tc) -> names <> [] -> Forall safe names ->
     bucket !! OutputFileKey c (case_object tc names) = Some size -> mk_output (case_object tc names) size ∈ files).
Proof.
  apply numbered_fetch in Hfetch as Hn. unfold visibleOutputFiles in H.
  apply runs_bind in H as [(? & _ & [=])|(u & un & Hu & H)].
  apply (unavailable_runs _ _ _ _ _ _ He) in Hu as [-> Hun].
  apply runs_bind in H as [(? & _ & [=])|(u & ids & Hi & H)].
  apply runs_query in Hi as [-> [[=]|[= ->]]]. apply runs_ret in H as [-> [= ->]]. rewrite Hsame.
  assert (forall tc names, tc ∈ cases ->
    OutputFileVisibleForCases (case_object tc names) un (tc_ID <$> cases) = true <-> released t2 c (tc_ID tc)) as Hvis.
  { intros tc names Htc. unfold OutputFileVisibleForCases. rewrite resolve_case_object by done.
    assert (tc_ID tc ∈ commit_case_ids c t2) as Hid by (rewrite Hsame; by apply list_elem_of_fmap_2).
    unfold commit_case_ids in Hid. rewrite He in Hid.
    apply list_elem_of_fmap in Hid as ([id row] & Eid & [Hrow [Hex _]]%elem_of_sorted_keys). cbn in Eid, Hex. subst id.
    rewrite (proj2 (Z.eqb_neq _ _)) by (pose proof (Hpos _ _ Hrow); lia).
    rewrite negb_true_iff, bool_decide_eq_false. by eapply Hun. }
  unfold VisibleOutputFilesForCases. split.
  - intros f [Hv [Hb Hp]%elem_of_ListOutputFiles]%list_elem_of_filter.
    destruct (Hjudge _ _ Hb) as (prefix & names & Hne & Hsafe & Hkey & Hpre). exists names. split; [done|].
    assert (ot_Path f = join_comps (prefix :: names)) as Ep.
    { rewrite upload_key in Hkey; [|done|].
      - injection Hkey as Hkey. unfold OutputFileKey in Hkey.
        apply (f_equal (trim_prefix (fmt_int c +:+ "/"))) in Hkey.
        rewrite <- !(app_assoc_s (fmt_int c) "/"), !trim_prefix_app in Hkey. done.
      - constructor; [|done]. destruct Hpre as [->|(tc & _ & ->)]; [by repeat split|apply test_prefix_safe]. }
    rewrite <- object_join in Ep by done. destruct Hpre as [->|(tc & Htc & ->)]; [by left|right].
    exists tc. split; [done|]. split; [done|]. apply (Hvis tc names Htc).
    unfold case_object. by rewrite <- Ep.
  - intros tc names size Htc Hrel Hne Hsafe Hb. apply list_elem_of_filter. split; [by apply Hvis|].
    apply elem_of_ListOutputFiles. split; [done|]. change (OutputPathValid (case_object tc names) = true).
    unfold case_object. rewrite object_join by done.
    apply valid_object; [done|]. constructor; [apply test_prefix_safe|done].
Qed.

(** ** The stream's first event *)

Lemma refused_on_runs fault ex claims caught t t' b :
  runs (refused_on caught (CanAuthorExercise fault ex claims)) t t' (Ok b) ->
  t' = t /\ (b = true -> may_author t ex claims).
Proof.
  intros (n & n' & H). unfold refused_on in H.
  destruct (CanAuthorExercise fault ex claims (mk_conn t n)) as [[u n2] r] eqn:E1.
  assert (runs (CanAuthorExercise fault ex claims) t u r) as Hr by by exists n, n2.
  apply CanAuthorExercise_runs in Hr as [-> Ha]. destruct r as [a|e].
  - injection H as -> _ <-. split; [done|]. intros ->. by apply Ha.
  - destruct (caught e); [|done]. injection H as -> _ <-. by split.
Qed.

(** The printed text of a case is in the result. *)
Definition tells_output (r : SnapshotResult) : Prop := sr_user_output r <> None \/ sr_error_message r <> None.


(** ** A commit of three cases, the second hidden *)

Definition shown_case (show : bool) : CaseRow := mk_case_row 10 "1" "text" true "2" "text" true show.
Definition ten_seconds : Limits := mk_limits 10 0 0 0.

Definition graded : Tables :=
  mk_tables {[1 := mk_offering (Some 7) 0 "" None None true]} ∅
    {[10 := mk_exercise 1 500 100 false false false None "" ""]}
    {[1 := mk_language "C" "c" true]} {[(10, 1)]}
    {[100 := shown_case true; 200 := shown_case false; 300 := shown_case true]} ∅ ∅ ∅
    {[5 := mk_submission 9 10 "completed" (Some "k/main.c") (Some 1) 0]}
    {[(5, 100) := ten_seconds; (5, 200) := ten_seconds; (5, 300) := ten_seconds]}
    {[(5, 100) := "correct"; (5, 200) := "correct"; (5, 300) := "correct"]} ∅ ∅.

Definition graded_bucket : gmap string Z := {["5/test_2/out.txt" := 3; "5/test_3/out.txt" := 4]}.
Definition no_faults : nat -> bool := fun _ => false.
Definition as_stored (l : list (Z * (Z * string))) : list (Z * (Z * string)) := l.

(** Deleting a test case makes the backend serve a hidden case's files. The judge
    named the files after the position of the case among the commit's cases; the
    deletion takes the snapshot rows of the case with it, so every later case moves
    up and the rules of the next case are applied to its files: here the file of the
    hidden case 200 is not listed, and after case 100 is deleted it is. *)
Theorem deletion_reveals_hidden_file :
  runs (visibleOutputFiles no_faults (Some graded_bucket) 5) graded graded
    (Ok [mk_output "test_3/out.txt" 4]) /\
  ca_show_output <$> t_cases (delete_case 100 graded) !! 200 = Some false /\
  runs (visibleOutputFiles no_faults (Some graded_bucket) 5) (delete_case 100 graded) (delete_case 100 graded)
    (Ok [mk_output "test_2/out.txt" 3]).
Proof.
  split; [|split].
  - exists 0%nat, 3%nat. vm_compute. reflexivity.
  - vm_compute. reflexivity.
  - exists 0%nat, 3%nat. vm_compute. reflexivity.
Qed.

Lemma fetched_graded : exists cases,
  runs (FetchTestCases no_faults as_stored 5 10) graded graded (Ok cases) /\ tc_ID <$> cases = [100; 200; 300] /\
  caseOutputPrefix <$> cases = ["test_1"; "test_2"; "test_3"].
Proof. eexists. split; [exists 0%nat, 2%nat; vm_compute; reflexivity|]. split; vm_compute; reflexivity. Qed.

Lemma graded_bucket_written cases :
  caseOutputPrefix <$> cases = ["test_1"; "test_2"; "test_3"] ->
  forall path size, graded_bucket !! OutputFileKey 5 path = Some size -> judge_wrote 5 cases (OutputFileKey 5 path).
Proof.
  intros Hc path size H. destruct cases as [|c1 [|c2 [|c3 [|]]]]; try done.
  assert (OutputFileKey 5 path = "5/test_2/out.txt" \/ OutputFileKey 5 path = "5/test_3/out.txt") as [->| ->].
  { unfold graded_bucket in H. apply lookup_insert_Some in H as [[<- _]|[_ H]]; [by left|].
    apply lookup_singleton_Some in H as [<- _]. by right. }
  - exists "test_2", ["out.txt"]. split; [done|]. split; [constructor; [by repeat split|constructor]|]. split; [by vm_compute|].
    right. exists c2. split; [right; by left|exact (eq_sym (f_equal (fun l => nth 1 l "") Hc))].
  - exists "test_3", ["out.txt"]. split; [done|]. split; [constructor; [by repeat split|constructor]|]. split; [by vm_compute|].
    right. exists c3. split; [right; right; by left|exact (eq_sym (f_equal (fun l => nth 2 l "") Hc))].
Qed.

Lemma only_released_files_are_listed_witness :
  exists cases : list TestCase, forall f, f ∈ [mk_output "test_3/out.txt" 4] -> exists names, names <> [] /\
     (ot_Path f = "outputfiles/" +:+ join_comps names \/
      exists tc, tc ∈ cases /\ ot_Path f = case_object tc names /\ released graded 5 (tc_ID tc)).
Proof.
  destruct fetched_graded as (cases & Hf & Hids & Hp). exists cases.
  apply (proj1 (only_released_files_are_listed no_faults no_faults as_stored graded graded graded graded 5 10 cases
    graded_bucket [mk_output "test_3/out.txt" 4] Hf
    (eq_trans (eq_refl : commit_case_ids 5 graded = [100; 200; 300]) (eq_sym Hids))
    (eq_refl : commit_exercise graded 5 = Some 10)
    ltac:(intros id row H; unfold graded in H; cbn [t_cases] in H; apply lookup_insert_Some in H as [[<- _]|[_ H]]; [reflexivity|];
          apply lookup_insert_Some in H as [[<- _]|[_ H]]; [reflexivity|];
          apply lookup_singleton_Some in H as [<- _]; reflexivity)
    ltac:(rewrite <- (length_fmap tc_ID), Hids; reflexivity)
    (graded_bucket_written cases Hp)
    ltac:(exists 0%nat, 3%nat; vm_compute; reflexivity))).
Defined.


Lemma fetched_cases_are_the_snapshot_witness :
  exists cases, length cases = 3%nat /\ StronglySorted Z.lt (tc_ID <$> cases).
Proof.
  destruct fetched_graded as (cases & Hf & Hids & _). exists cases.
  split; [rewrite <- (length_fmap tc_ID), Hids; reflexivity|].
  exact (proj1 (proj2 (fetched_cases_are_the_snapshot no_faults as_stored 5 10 graded graded cases
    (fun l => reflexivity l) Hf))).
Defined.
