(* ===== verification/Objects.v ===== *)
(** * Tables and objects together

    The services that keep rows in PostgreSQL and objects in an S3 store: the calls
    of [src/backend/storage/storage.go] they make, [database/sql] transactions with
    their deferred roll-back, and [src/backend/storage/object-replacer.go]. Any
    request to either service may fail; they are counted together, and [fault] says
    which fail. A request that fails changes nothing: an S3 write is atomic, and a
    [COMMIT] that reports an error is taken not to have happened. *)

From S2P Require Import Prelude Effects GoStrings Sql Catalog.
Local Open Scope Z_scope.

Record object := mk_object { ob_data : string; ob_type : string }.
#[export] Instance object_eq_dec : EqDecision object.
Proof. solve_decision. Defined.

(** Bucket and key. *)
Abbreviation objects := (gmap (string * string) object).

(** [w_saved]: the tables a roll-back returns to, inside a transaction. [w_next]: the
    next value of each table's identity sequence, which a roll-back does not take
    back; a fresh sequence starts at 1 and ends at the largest [int]. *)
Record world := mk_world {
  w_conn : conn Tables; w_saved : option Tables; w_objects : objects; w_next : gmap string Z
}.
#[export] Instance world_eta : Settable world := fun w =>
  mk_world (w_conn w) (w_saved w) (w_objects w) (w_next w).

Definition w_tables (w : world) : Tables := cn_db (w_conn w).
Definition w_sent (w : world) : nat := cn_sent (w_conn w).

Abbreviation act A := (eff world svc_error A).

Section Objects.
Context (fault : nat -> bool).

(** A statement outside or inside the open transaction. *)
Definition on_db {A} (m : svc A) : act A := fun w =>
  let '(c, r) := m (w_conn w) in (w <| w_conn := c |>, r).

Definition sent (w : world) : world := w <| w_conn := mk_conn (w_tables w) (S (w_sent w)) |>.

(** A request to the object store; [None] is an answer that is an error. *)
Definition call {A} (f : objects -> option (objects * A)) : act A := fun w =>
  if fault (w_sent w) then (sent w, Err ErrServer)
  else match f (w_objects w) with
  | None => (sent w, Err ErrServer)
  | Some (o, a) => (sent w <| w_objects := o |>, Ok a)
  end.

Definition typed (o : object) : object :=
  if String.eqb (ob_type o) "" then mk_object (ob_data o) "application/octet-stream" else o.
Definition put_object (bucket key : string) (o : object) : act unit :=
  call (fun os => Some (<[(bucket, key) := typed o]> os, tt)).
Definition delete_object (bucket key : string) : act unit :=
  call (fun os => Some (delete (bucket, key) os, tt)).
Definition copyObject (bucket src dst : string) : act unit :=
  call (fun os => o ← os !! (bucket, src); Some (<[(bucket, dst) := o]> os, tt)).
Definition objectExists (bucket key : string) : act bool :=
  call (fun os => Some (os, bool_decide (is_Some (os !! (bucket, key))))).
Definition getObject (bucket key : string) : act (option object) :=
  call (fun os => Some (os, os !! (bucket, key))).

(** An error that is only logged. *)
Definition best_effort (m : act unit) : act unit := fun w => (fst (m w), Ok tt).

(** [if err := m; err != nil { cleanup; return err }]. *)
Definition or_else {A} (m : act A) (cleanup : act unit) : act A := fun w =>
  match m w with (w, Err e) => (fst (cleanup w), Err e) | r => r end.

(** [BeginTx], [Commit] and [Rollback], which does nothing after a commit. *)
Definition begin_tx : act unit := fun w =>
  if fault (w_sent w) then (sent w, Err ErrServer) else (sent w <| w_saved := Some (w_tables w) |>, Ok tt).

Definition rollback : act unit := fun w =>
  (match w_saved w with
   | None => w
   | Some t => w <| w_conn := mk_conn t (w_sent w) |> <| w_saved := None |>
   end, Ok tt).

Definition commit_tx : act unit := fun w =>
  if fault (w_sent w) then (fst (rollback (sent w)), Err ErrServer) else (sent w <| w_saved := None |>, Ok tt).

Definition with_tx {A} (m : act A) : act A := _ ← begin_tx; finally m rollback.

(** The next identity. *)
Definition next_value (w : world) (table : string) : Z := default 1 (w_next w !! table).
Definition next_id (table : string) : act Z := fun w =>
  let id := next_value w table in
  if id <? 2 ^ 31 then (w <| w_next := <[table := id + 1]> (w_next w) |>, Ok id) else (w, Err ErrServer).

(** ** Replacing objects in place *)

(** [None] is an empty backup key: there was no object. *)
Record replacedObject := mk_replaced { ro_key : string; ro_backup : option string }.

Context (token : nat -> string) (bucket : string).

Definition backupKeyFor (w : world) (key : string) : string := key +:+ ".backup-" +:+ token (w_sent w).

Definition remove (key : option string) : act unit :=
  match key with None => mret tt | Some k => best_effort (delete_object bucket k) end.

(** The replacer's items after the call. *)
Definition Replace (items : list replacedObject) (key : string) (o : object) : act (list replacedObject) :=
  exists_ ← objectExists bucket key;
  backup ← (if exists_ : bool
            then k ← gets (fun w => backupKeyFor w key); _ ← copyObject bucket key k; mret (Some k)
            else mret None);
  _ ← or_else (put_object bucket key o) (remove backup);
  mret (items ++ [mk_replaced key backup]).

Definition Restore (items : list replacedObject) : act unit :=
  each (fun i =>
    match ro_backup i with
    | None => remove (Some (ro_key i))
    | Some k => _ ← best_effort (copyObject bucket k (ro_key i)); remove (Some k)
    end) items.

Definition Discard (items : list replacedObject) : act unit := each (fun i => remove (ro_backup i)) items.
End Objects.

(** ** Reasoning *)

Definition set_tables (t : Tables) (w : world) : world := w <| w_conn := mk_conn t (w_sent w) |>.

Lemma world_surj w : w = mk_world (mk_conn (w_tables w) (w_sent w)) (w_saved w) (w_objects w) (w_next w).
Proof. by destruct w as [[]]. Qed.

Section Wp.
Context (fault : nat -> bool).

Lemma wp_on_db {A} (m : svc A) (Q : A -> world -> Prop) R w :
  (forall t n r, runs m (w_tables w) t r ->
     match r with Ok a => Q a (w <| w_conn := mk_conn t n |>) | Err e => R e (w <| w_conn := mk_conn t n |>) end) ->
  wp (on_db m) Q R w.
Proof.
  unfold wp, on_db. intros H. destruct (m (w_conn w)) as [[t n] r] eqn:E.
  destruct w as [[t0 n0] sv os nx]. cbn in *. specialize (H t n r). cbn in H.
  destruct r; apply H; by exists n0, n.
Qed.

Lemma wp_statement {A} (f : Tables -> option (Tables * A)) (Q : A -> world -> Prop) R w :
  (fault (w_sent w) = true -> R ErrServer (sent w)) ->
  match f (w_tables w) with None => R ErrServer (sent w) | Some (t, a) => Q a (set_tables t (sent w)) end ->
  wp (on_db (statement fault ErrServer f)) Q R w.
Proof.
  unfold wp, on_db, statement, sent, set_tables, w_tables, w_sent. intros H1 H2. destruct w as [[t0 n0] sv os nx]. cbn in *.
  destruct (fault n0); [by apply H1|]. by destruct (f t0) as [[t a]|].
Qed.

Lemma wp_exec (f : Tables -> option Tables) (Q : unit -> world -> Prop) R w :
  (fault (w_sent w) = true -> R ErrServer (sent w)) ->
  match f (w_tables w) with None => R ErrServer (sent w) | Some t => Q tt (set_tables t (sent w)) end ->
  wp (on_db (exec fault ErrServer f)) Q R w.
Proof. intros H1 H2. apply wp_statement; [done|]. by destruct (f (w_tables w)). Qed.

Lemma wp_call {A} (f : objects -> option (objects * A)) (Q : A -> world -> Prop) R w :
  (fault (w_sent w) = true -> R ErrServer (sent w)) ->
  match f (w_objects w) with None => R ErrServer (sent w) | Some (o, a) => Q a (sent w <| w_objects := o |>) end ->
  wp (call fault f) Q R w.
Proof.
  unfold wp, call. intros H1 H2. destruct (fault (w_sent w)); [by apply H1|]. by destruct (f (w_objects w)) as [[o a]|].
Qed.

Lemma wp_best_effort m (Q : unit -> world -> Prop) R w :
  wp m (fun _ w' => Q tt w') (fun _ w' => Q tt w') w -> wp (best_effort m) Q R w.
Proof. unfold wp, best_effort. by destruct (m w) as [w' [[]|e]]. Qed.

Lemma wp_or_else {A} (m : act A) c (Q : A -> world -> Prop) R w :
  wp m Q (fun e w' => wp c (fun _ w'' => R e w'') (fun _ w'' => R e w'') w') w -> wp (or_else m c) Q R w.
Proof. unfold wp, or_else. destruct (m w) as [w' [a|e]]; [done|]. by destruct (c w') as [w'' [[]|e']]. Qed.

Definition rolled_back (w : world) : world := fst (rollback w).

Lemma wp_with_tx {A} (m : act A) (Q : A -> world -> Prop) R w :
  (fault (w_sent w) = true -> R ErrServer (sent w)) ->
  wp m (fun a w' => Q a (rolled_back w')) (fun e w' => R e (rolled_back w')) (sent w <| w_saved := Some (w_tables w) |>) ->
  wp (with_tx fault m) Q R w.
Proof.
  intros H1 H2. unfold with_tx. apply wp_bind. unfold wp at 1, begin_tx.
  destruct (fault (w_sent w)); [by apply H1|]. by apply wp_finally.
Qed.

Lemma wp_commit (Q : unit -> world -> Prop) R w :
  (fault (w_sent w) = true -> R ErrServer (rolled_back (sent w))) -> Q tt (sent w <| w_saved := None |>) ->
  wp (commit_tx fault) Q R w.
Proof. unfold wp, commit_tx. intros H1 H2. destruct (fault (w_sent w)); [by apply H1|done]. Qed.

Lemma wp_next_id table (Q : Z -> world -> Prop) R w :
  (next_value w table < 2 ^ 31 ->
   Q (next_value w table) (w <| w_next := <[table := next_value w table + 1]> (w_next w) |>)) ->
  R ErrServer w -> wp (next_id table) Q R w.
Proof. unfold wp, next_id. intros HQ HR. destruct (next_value w table <? 2 ^ 31) eqn:E; [apply HQ; lia|done]. Qed.

(** A loop with an invariant that no element can fail. *)
Lemma wp_each {A} (f : A -> act unit) (I : list A -> world -> Prop) R l w :
  (forall x l w, I (x :: l) w -> wp (f x) (fun _ w' => I l w') R w) ->
  I l w -> wp (each f l) (fun _ w' => I [] w') R w.
Proof.
  intros Hf. revert w. induction l as [|x l IH]; intros w Hw; cbn [each]; [done|].
  apply wp_bind. eapply wp_mono; [by apply Hf| |done]. intros [] w' Hw'. by apply IH.
Qed.

(** Deleting objects, whatever fails, touches nothing but objects under these keys. *)
Lemma wp_deletes bucket keys (I : world -> Prop) (Q : unit -> world -> Prop) R w :
  (forall w k, I w -> k ∈ keys -> I (sent w) /\ I (sent w <| w_objects := delete (bucket, k) (w_objects w) |>)) ->
  I w -> (forall w', I w' -> Q tt w') ->
  wp (each (fun key => best_effort (delete_object fault bucket key)) keys) Q R w.
Proof.
  intros Hd Hw HQ. eapply wp_mono.
  - apply (wp_each _ (fun l w => (forall k, k ∈ l -> k ∈ keys) /\ I w) R); [|split; [done|exact Hw]].
    intros k l w' [Hk Hw']. apply wp_best_effort, wp_call.
    + intros _. split; [set_solver|]. by apply (Hd w' k); [|apply Hk; left].
    + split; [set_solver|]. by apply (Hd w' k); [|apply Hk; left].
  - intros [] w' [_ ?]. auto.
  - done.
Qed.
End Wp.
