(* ===== verification/Authoring.v ===== *)
(** * Authoring test cases

    [src/backend/services/test-cases-service.go] and [test-case-repository.go]: what a
    request means for a case, and the operations that keep its row, its files' rows,
    its limits and its objects together. Handlers parse the request; here it is a
    [TestCaseInput]. *)

From S2P Require Import Prelude Effects GoStrings Sql Catalog Limits Objects.
From S2P Require CommitDb.
Local Open Scope Z_scope.

(** ** Keys: [src/backend/storage/keys.go] *)

Definition FileBasename (name : string) : string :=
  let base := path_base (replace_byte "\" "/" (trim_space name)) in
  if String.eqb base "" || String.eqb base "." || String.eqb base ".." || String.eqb base "/" then "file" else base.

Definition cases_bucket := "cases".
Definition CaseInputKey (caseID : Z) : string := fmt_int caseID +:+ "/in".
Definition CaseOutputKey (caseID : Z) : string := fmt_int caseID +:+ "/out".
Definition CaseFileKey (caseID : Z) (filename : string) : string :=
  fmt_int caseID +:+ "/files/" +:+ FileBasename filename.

(** ** Requests *)

Definition IOTypeText := "text".
Definition IOTypeFile := "file".

Record UploadedFile := mk_uploaded { uf_Filename : string; uf_ContentType : string; uf_Data : string }.

(** A nil pointer is [None]: not part of the request. *)
Record TestCaseInput := mk_input {
  in_InputType : option string; in_ExpectedOutputType : option string;
  in_Input : option string; in_ExpectedOutput : option string;
  in_ShowInput : option bool; in_ShowExpectedOutput : option bool; in_ShowUserOutput : option bool;
  in_LanguageLimits : list LanguageLimits; in_LanguageLimitsProvided : bool;
  in_InputFile : option UploadedFile; in_ExpectedOutputFile : option UploadedFile;
  in_Files : list UploadedFile; in_FilesProvided : bool
}.

(** The columns of the case, which are [ca_*] without the exercise, and what to
    upload. *)
Record resolvedTestCase := mk_resolved {
  re_Input : string; re_InputType : string; re_ExpectedOutput : string; re_ExpectedOutputType : string;
  re_ShowInput : bool; re_ShowExpectedOutput : bool; re_ShowUserOutput : bool;
  re_InputObject : option UploadedFile; re_OutputObject : option UploadedFile;
  re_Files : list UploadedFile; re_FilesChanged : bool
}.

Definition textObject (text : string) : UploadedFile := mk_uploaded "" "text/plain; charset=utf-8" text.

Definition validateIOType (value : string) : bool := String.eqb value IOTypeText || String.eqb value IOTypeFile.

(** One side of a case, input or expected output: its type as requested, its text
    and file as requested, its text and type as stored. The new text or file name,
    and the object to upload. *)
Definition resolve_side (ty : string) (text : option string) (file : option UploadedFile)
    (old : option (string * string)) (cur : string) : option (string * option UploadedFile) :=
  if String.eqb ty IOTypeText then
    match text with
    | Some t => Some (t, Some (textObject t))
    | None => if bool_decide (snd <$> old = Some IOTypeText) then Some (cur, None) else None
    end
  else
    match file with
    | Some f => Some (FileBasename (uf_Filename f), Some f)
    | None => if bool_decide (snd <$> old = Some IOTypeFile) then Some (cur, None) else None
    end.

(** The files under their base names, the first of each name. *)
Fixpoint resolve_files (seen : gset string) (files : list UploadedFile) : list UploadedFile :=
  match files with
  | [] => []
  | f :: rest =>
      let name := FileBasename (uf_Filename f) in
      if bool_decide (name ∈ seen) then resolve_files seen rest
      else mk_uploaded name (uf_ContentType f) (uf_Data f) :: resolve_files ({[name]} ∪ seen) rest
  end.

Definition ResolveTestCaseInput (inp : TestCaseInput) (existing : option CaseRow) : res svc_error resolvedTestCase :=
  let old {A} (f : CaseRow -> A) (d : A) := from_option f d existing in
  let inputType := default (old ca_input_type "") (in_InputType inp) in
  if negb (validateIOType inputType) then Err ErrInvalidTestCase
  else
    let outputType := default (old ca_expected_type "") (in_ExpectedOutputType inp) in
    if negb (validateIOType outputType) then Err ErrInvalidTestCase
    else match resolve_side inputType (in_Input inp) (in_InputFile inp)
                 ((fun r => (ca_input r, ca_input_type r)) <$> existing) (old ca_input "") with
    | None => Err ErrInvalidTestCase
    | Some (input, inputObject) =>
        match resolve_side outputType (in_ExpectedOutput inp) (in_ExpectedOutputFile inp)
                ((fun r => (ca_expected r, ca_expected_type r)) <$> existing) (old ca_expected "") with
        | None => Err ErrInvalidTestCase
        | Some (output, outputObject) =>
            Ok (mk_resolved input inputType output outputType
                  (default (old ca_show_input true) (in_ShowInput inp))
                  (default (old ca_show_expected true) (in_ShowExpectedOutput inp))
                  (default (old ca_show_output true) (in_ShowUserOutput inp))
                  inputObject outputObject
                  (if in_FilesProvided inp then resolve_files ∅ (in_Files inp) else [])
                  (in_FilesProvided inp))
        end
    end.

(** ** Statements *)

(** [models.TestCase]. *)
Record AuthoredCase := mk_authored {
  at_ID : Z; at_row : CaseRow; at_Limits : list LanguageLimits; at_Files : list (Z * string)
}.

Definition case_row (exerciseID : Z) (r : resolvedTestCase) : CaseRow :=
  mk_case_row exerciseID (re_Input r) (re_InputType r) (re_ShowInput r) (re_ExpectedOutput r)
    (re_ExpectedOutputType r) (re_ShowExpectedOutput r) (re_ShowUserOutput r).

(** The columns take the row: texts PostgreSQL stores. *)
Definition row_fits (r : CaseRow) : bool := CommitDb.pg_text (ca_input r) && CommitDb.pg_text (ca_expected r).

Definition insert_case (id : Z) (row : CaseRow) (t : Tables) : option Tables :=
  if bool_decide (is_Some (t_exercises t !! ca_exercise row)) && row_fits row &&
     bool_decide (t_cases t !! id = None)
  then Some (t <| t_cases := <[id := row]> (t_cases t) |>) else None.

(** Zero rows match when the case is not of the exercise. *)
Definition update_case (id : Z) (row : CaseRow) (t : Tables) : option Tables :=
  match t_cases t !! id with
  | Some old =>
      if bool_decide (ca_exercise old = ca_exercise row) then
        if row_fits row then Some (t <| t_cases := <[id := row]> (t_cases t) |>) else None
      else Some t
  | None => Some t
  end.

Definition insert_case_file (fileID caseID : Z) (path : string) (t : Tables) : option Tables :=
  if bool_decide (is_Some (t_cases t !! caseID)) && CommitDb.pg_text path &&
     bool_decide (t_case_files t !! fileID = None)
  then Some (t <| t_case_files := <[fileID := (caseID, path)]> (t_case_files t) |>) else None.

Definition clear_case_files (caseID : Z) (t : Tables) : Tables :=
  t <| t_case_files := filter (fun x : Z * (Z * string) => x.2.1 <> caseID) (t_case_files t) |>.

(** The rows of a case's files, in the order of their ids. *)
Definition files_of_case (caseID : Z) (t : Tables) : list (Z * string) :=
  (fun x => (x.1, x.2.2)) <$> sorted_keys (fun x : Z * (Z * string) => x.2.1 = caseID) (t_case_files t).

(** ** The operations *)

Section Authoring.
Context (fault : nat -> bool) (collation : relation string) `{!RelDecision collation} (platform : Limits).
Context (token : nat -> string).

Local Abbreviation Replace := (Replace fault token cases_bucket).
Local Abbreviation Restore := (Restore fault cases_bucket).
Local Abbreviation Discard := (Discard fault cases_bucket).

Definition deleteCaseObjectsBestEffort (keys : list string) : act unit :=
  each (fun key => best_effort (delete_object fault cases_bucket key)) keys.

Definition as_object (f : UploadedFile) : object := mk_object (uf_Data f) (uf_ContentType f).

Definition loadTestCase (caseID exerciseID : Z) : svc CaseRow :=
  row ← query fault ErrServer (fun t =>
    r ← t_cases t !! caseID; if decide (ca_exercise r = exerciseID) then Some r else None);
  match row with None => fail ErrTestCaseNotFound | Some r => mret r end.

Definition loadTestCaseFiles (caseID : Z) : svc (list (Z * string)) :=
  query fault ErrServer (files_of_case caseID).

(** Fill the limits of a response. *)
Definition attachResolvedLimits (exerciseID : Z) (tc : AuthoredCase) : svc AuthoredCase :=
  limits ← TestCaseLanguageLimits fault collation platform exerciseID [at_ID tc];
  mret (mk_authored (at_ID tc) (at_row tc) (default (at_Limits tc) (limits !! at_ID tc)) (at_Files tc)).

(** [upload] of [CreateTestCase]: the keys uploaded so far, removed on failure. *)
Definition upload (uploaded : list string) (key : string) (f : UploadedFile) : act (list string) :=
  _ ← or_else (put_object fault cases_bucket key (as_object f)) (deleteCaseObjectsBestEffort uploaded);
  mret (uploaded ++ [key]).

Definition insert_file_row (caseID : Z) (path : string) : act Z :=
  fileID ← next_id "exercises_test_cases_files";
  _ ← on_db (exec fault ErrServer (insert_case_file fileID caseID path));
  mret fileID.

Fixpoint upload_files (caseID : Z) (uploaded : list string) (rows : list (Z * string)) (files : list UploadedFile)
  : act (list string * list (Z * string)) :=
  match files with
  | [] => mret (uploaded, rows)
  | f :: rest =>
      uploaded ← upload uploaded (CaseFileKey caseID (uf_Filename f)) f;
      fileID ← or_else (insert_file_row caseID (uf_Filename f)) (deleteCaseObjectsBestEffort uploaded);
      upload_files caseID uploaded (rows ++ [(fileID, uf_Filename f)]) rest
  end.

(** A created case has both objects: [ResolveTestCaseInput] without an existing case
    never returns a nil one. *)
Definition upload_side (uploaded : list string) (key : string) (o : option UploadedFile) : act (list string) :=
  match o with Some f => upload uploaded key f | None => mret uploaded end.

Definition insert_case_row (row : CaseRow) : act Z :=
  caseID ← next_id "exercises_test_cases";
  _ ← on_db (exec fault ErrServer (insert_case caseID row));
  mret caseID.

Definition create_rows (authoringID : Z) (r : resolvedTestCase) (limits : list LanguageLimits)
  : act (Z * list (Z * string)) :=
  caseID ← insert_case_row (case_row authoringID r);
  _ ← on_db (ReplaceTestCaseLanguageLimits fault collation caseID authoringID limits);
  uploaded ← upload_side [] (CaseInputKey caseID) (re_InputObject r);
  uploaded ← upload_side uploaded (CaseOutputKey caseID) (re_OutputObject r);
  '(uploaded, files) ← upload_files caseID uploaded [] (re_Files r);
  _ ← or_else (commit_tx fault) (deleteCaseObjectsBestEffort uploaded);
  mret (caseID, files).

Definition CreateTestCase (exerciseID : Z) (inp : TestCaseInput) (claims : Claims) : act AuthoredCase :=
  acc ← on_db (requireExerciseAuthor fault exerciseID claims);
  let authoringID := authoringExerciseID acc in
  r ← lift (ResolveTestCaseInput inp None);
  '(caseID, files) ← with_tx fault (create_rows authoringID r (in_LanguageLimits inp));
  on_db (attachResolvedLimits authoringID (mk_authored caseID (case_row authoringID r) [] files)).

(** ** Update *)

(** [Replace] with the restoration of what was replaced before when it fails. *)
Definition replace_or_restore (items : list replacedObject) (key : string) (f : UploadedFile)
  : act (list replacedObject) := or_else (Replace items key (as_object f)) (Restore items).

Definition replace_side (items : list replacedObject) (key : string) (o : option UploadedFile)
  : act (list replacedObject) :=
  match o with Some f => replace_or_restore items key f | None => mret items end.

Fixpoint replace_files (caseID : Z) (items : list replacedObject) (rows : list (Z * string)) (files : list UploadedFile)
  : act (list replacedObject * list (Z * string)) :=
  match files with
  | [] => mret (items, rows)
  | f :: rest =>
      items ← replace_or_restore items (CaseFileKey caseID (uf_Filename f)) f;
      fileID ← or_else (insert_file_row caseID (uf_Filename f)) (Restore items);
      replace_files caseID items (rows ++ [(fileID, uf_Filename f)]) rest
  end.

Definition update_rows (authoringID caseID : Z) (r : resolvedTestCase) (inp : TestCaseInput)
    (oldFiles : list (Z * string)) : act (list replacedObject * list (Z * string)) :=
  _ ← on_db (exec fault ErrServer (update_case caseID (case_row authoringID r)));
  _ ← (if in_LanguageLimitsProvided inp
       then on_db (ReplaceTestCaseLanguageLimits fault collation caseID authoringID (in_LanguageLimits inp))
       else mret tt);
  items ← replace_side [] (CaseInputKey caseID) (re_InputObject r);
  items ← replace_side items (CaseOutputKey caseID) (re_OutputObject r);
  '(items, files) ←
    (if re_FilesChanged r then
       _ ← or_else (on_db (exec fault ErrServer (fun t => Some (clear_case_files caseID t)))) (Restore items);
       replace_files caseID items [] (re_Files r)
     else mret (items, oldFiles));
  _ ← or_else (commit_tx fault) (Restore items);
  mret (items, files).

(** The objects of the files that are gone: names no new file has. *)
Definition dropped_keys (caseID : Z) (old new : list (Z * string)) : list string :=
  CaseFileKey caseID <$> filter (fun path => path ∉ new.*2) old.*2.

Definition UpdateTestCase (exerciseID caseID : Z) (inp : TestCaseInput) (claims : Claims) : act AuthoredCase :=
  acc ← on_db (requireExerciseAuthor fault exerciseID claims);
  let authoringID := authoringExerciseID acc in
  existing ← on_db (loadTestCase caseID authoringID);
  r ← lift (ResolveTestCaseInput inp (Some existing));
  oldFiles ← on_db (loadTestCaseFiles caseID);
  '(items, files) ← with_tx fault (update_rows authoringID caseID r inp oldFiles);
  _ ← Discard items;
  _ ← (if re_FilesChanged r then deleteCaseObjectsBestEffort (dropped_keys caseID oldFiles files) else mret tt);
  on_db (attachResolvedLimits authoringID (mk_authored caseID (case_row authoringID r) [] files)).

(** ** Deletion *)

Definition delete_own_case (caseID exerciseID : Z) (t : Tables) : Tables * bool :=
  match t_cases t !! caseID with
  | Some r => if decide (ca_exercise r = exerciseID) then (delete_case caseID t, true) else (t, false)
  | None => (t, false)
  end.

Definition DeleteTestCase (exerciseID caseID : Z) (claims : Claims) : act unit :=
  acc ← on_db (requireExerciseAuthor fault exerciseID claims);
  let authoringID := authoringExerciseID acc in
  files ← on_db (loadTestCaseFiles caseID);
  deleted ← on_db (statement fault ErrServer (fun t => Some (delete_own_case caseID authoringID t)));
  if deleted : bool
  then deleteCaseObjectsBestEffort
         ([CaseInputKey caseID; CaseOutputKey caseID] ++ (CaseFileKey caseID <$> files.*2))
  else fail ErrTestCaseNotFound.

(** ** Listing *)

(** What a caller who may not author the exercise sees of a case. *)
Definition hide_case (tc : AuthoredCase) : AuthoredCase :=
  let r := at_row tc in
  mk_authored (at_ID tc)
    (r <| ca_input := if ca_show_input r then ca_input r else "" |>
       <| ca_expected := if ca_show_expected r then ca_expected r else "" |>) (at_Limits tc) (at_Files tc).

Definition rows_of_exercise (exerciseID : Z) (t : Tables) : list (Z * CaseRow) :=
  sorted_keys (fun x : Z * CaseRow => ca_exercise x.2 = exerciseID) (t_cases t).

Definition ListTestCases (now exerciseID : Z) (claims : Claims) : svc (list AuthoredCase) :=
  '(userID, role) ← lift (claimsUserID claims);
  acc ← loadExerciseAccess fault exerciseID userID role;
  if negb (ac_canAuthor acc) && negb (ac_isEnrolled acc) then fail ErrNotEnrolled
  else if negb (ac_canAuthor acc) && negb (exerciseVisible (ac_exercise acc) now) then fail ErrExerciseNotFound
  else
    let authoringID := authoringExerciseID acc in
    rows ← query fault ErrServer (rows_of_exercise authoringID);
    files ← (match rows with
             | [] => mret (fun _ => [])
             | _ => query fault ErrServer (fun t id => files_of_case id t)
             end);
    limits ← TestCaseLanguageLimits fault collation platform authoringID rows.*1;
    let cases := (fun '(id, r) => mk_authored id r (default [] (limits !! id)) (files id)) <$> rows in
    mret (if ac_canAuthor acc then cases else hide_case <$> cases).
End Authoring.
