(* ===== verification/AuthoringProofs.v ===== *)
(** * A case's row and its objects stay together

    [mirrored]: every case of the tables has the objects the judge will fetch for it,
    with the texts its row shows. Creating and deleting a case keep it whatever
    fails; an update is all or nothing as long as at most one request fails. *)

From S2P Require Import Prelude Effects GoStrings GoPath Sql Catalog Limits LimitsProofs Objects Authoring.
From S2P Require CommitDb.
Local Open Scope Z_scope.

(** ** Keys *)

(** The case a key belongs to. *)
Definition owned (id : Z) (k : string) : Prop := exists r, cut_byte "/" k = Some (fmt_int id, r).

Lemma owned_key id r : owned id (fmt_int id +:+ String "/" r).
Proof. exists r. apply cut_byte_app, fmt_int_no_byte. reflexivity. Qed.

Lemma owned_inj id1 id2 k : int64 id1 -> int64 id2 -> owned id1 k -> owned id2 k -> id1 = id2.
Proof. intros H1 H2 [r1 E1] [r2 E2]. rewrite E1 in E2. injection E2 as E _. by apply fmt_int_inj. Qed.

Lemma owned_input id : owned id (CaseInputKey id).
Proof. apply owned_key. Qed.
Lemma owned_output id : owned id (CaseOutputKey id).
Proof. apply owned_key. Qed.
Lemma owned_file id name : owned id (CaseFileKey id name).
Proof. apply (owned_key id ("files/" +:+ FileBasename name)). Qed.
#[local] Hint Resolve owned_input owned_output owned_file : core.

Lemma key_inj id r1 r2 : fmt_int id +:+ r1 = fmt_int id +:+ r2 -> r1 = r2.
Proof. intros E. apply (f_equal (drop_bytes (String.length (fmt_int id)))) in E. by rewrite !drop_bytes_app in E. Qed.

Lemma input_output_key id : CaseInputKey id <> CaseOutputKey id.
Proof. by intros E%key_inj. Qed.
Lemma input_file_key id name : CaseInputKey id <> CaseFileKey id name.
Proof. by intros E%key_inj. Qed.
Lemma output_file_key id name : CaseOutputKey id <> CaseFileKey id name.
Proof. by intros E%key_inj. Qed.
Lemma file_key_inj id n1 n2 : CaseFileKey id n1 = CaseFileKey id n2 -> FileBasename n1 = FileBasename n2.
Proof. intros E%key_inj. by injection E. Qed.

(** ** The invariant *)

(** One side of a case: the object exists, and is the row's text when it is text. *)
Definition side_ok (os : objects) (key ty text : string) : Prop :=
  exists o, os !! (cases_bucket, key) = Some o /\ (ty = IOTypeText -> ob_data o = text).

Record mirrored (t : Tables) (os : objects) : Prop := {
  mi_input : forall id r, t_cases t !! id = Some r -> side_ok os (CaseInputKey id) (ca_input_type r) (ca_input r);
  mi_output : forall id r, t_cases t !! id = Some r ->
    side_ok os (CaseOutputKey id) (ca_expected_type r) (ca_expected r);
  mi_files : forall f id p, t_case_files t !! f = Some (id, p) -> is_Some (os !! (cases_bucket, CaseFileKey id p))
}.

(** The sequences are ahead of the rows, and ids are those of an [int] column. *)
Record numbered (w : world) : Prop := {
  nu_case : forall id r, t_cases (w_tables w) !! id = Some r ->
    0 < id < next_value w "exercises_test_cases";
  nu_next : 0 < next_value w "exercises_test_cases" <= 2 ^ 31;
  nu_file : forall f x, t_case_files (w_tables w) !! f = Some x -> f < next_value w "exercises_test_cases_files";
  nu_owner : forall f id p, t_case_files (w_tables w) !! f = Some (id, p) -> is_Some (t_cases (w_tables w) !! id)
}.

(** Objects outside some keys are as they were: those of [id]. *)
Definition only_keys (P : string -> Prop) (o o' : objects) : Prop :=
  forall k, ~ P k -> o' !! (cases_bucket, k) = o !! (cases_bucket, k).
Definition only_case (id : Z) : objects -> objects -> Prop := only_keys (owned id).

Lemma only_case_refl id o : only_case id o o.
Proof. done. Qed.
Lemma only_case_trans id o1 o2 o3 : only_case id o1 o2 -> only_case id o2 o3 -> only_case id o1 o3.
Proof. intros H1 H2 k Hk. rewrite (H2 k Hk). by apply H1. Qed.
Lemma only_case_insert id k v o o' : owned id k -> only_case id o o' -> only_case id o (<[(cases_bucket, k) := v]> o').
Proof. intros Hk H k' Hk'. rewrite lookup_insert_ne by congruence. by apply H. Qed.
Lemma only_case_delete id k o o' : owned id k -> only_case id o o' -> only_case id o (delete (cases_bucket, k) o').
Proof. intros Hk H k' Hk'. rewrite lookup_delete_ne by congruence. by apply H. Qed.
#[local] Hint Resolve only_case_refl only_case_insert only_case_delete : core.

(** A case that is not there may have any objects. *)
Lemma mirrored_frame t o o' id :
  int64 id -> (forall id' r, t_cases t !! id' = Some r -> int64 id') ->
  (forall f id' p, t_case_files t !! f = Some (id', p) -> is_Some (t_cases t !! id')) ->
  t_cases t !! id = None -> only_case id o o' -> mirrored t o -> mirrored t o'.
Proof.
  intros Hid Hids Hfk Hn Ho [Hi Hu Hf].
  assert (Hkey : forall id' r k, t_cases t !! id' = Some r -> owned id' k ->
    o' !! (cases_bucket, k) = o !! (cases_bucket, k)).
  { intros id' r k Hr Hk. apply Ho. intros Hk'. rewrite (owned_inj id id' k) in Hn; eauto. congruence. }
  split.
  - intros id' r Hr. destruct (Hi id' r Hr) as (ob & Hob & ?). exists ob. by rewrite (Hkey id' r).
  - intros id' r Hr. destruct (Hu id' r Hr) as (ob & Hob & ?). exists ob. by rewrite (Hkey id' r).
  - intros f id' p Hp. destruct (Hfk _ _ _ Hp) as [r Hr]. rewrite (Hkey id' r); eauto.
Qed.

(** ** Creating a case *)

Definition cases_seq := "exercises_test_cases".
Definition files_seq := "exercises_test_cases_files".

(** The tables a roll-back would leave. *)
Definition base_tables (w : world) : Tables := default (w_tables w) (w_saved w).

Lemma rolled_back_tables w : w_tables (rolled_back w) = base_tables w.
Proof. unfold rolled_back, rollback, base_tables. by destruct (w_saved w). Qed.
Lemma rolled_back_objects w : w_objects (rolled_back w) = w_objects w.
Proof. unfold rolled_back, rollback. by destruct (w_saved w). Qed.
Lemma rolled_back_value w s : next_value (rolled_back w) s = next_value w s.
Proof. unfold rolled_back, rollback, next_value. by destruct (w_saved w). Qed.
Lemma rolled_back_sent w : w_sent (rolled_back w) = w_sent w.
Proof. unfold rolled_back, rollback. by destruct (w_saved w). Qed.
Lemma rolled_back_saved w : w_saved (rolled_back w) = None.
Proof. unfold rolled_back, rollback. destruct (w_saved w) eqn:E; [done|exact E]. Qed.

(** What every way out of a creation other than success leaves: at most objects under
    the keys [P] of new cases. *)
Record undone (w0 : world) (P : string -> Prop) (w : world) : Prop := {
  un_tables : base_tables w = w_tables w0;
  un_objects : only_keys P (w_objects w0) (w_objects w);
  un_cases : next_value w0 cases_seq <= next_value w cases_seq <= 2 ^ 31;
  un_files : next_value w0 files_seq <= next_value w files_seq
}.

(** [w0] is a world inside the transaction that began in [ws]. *)
Record since (ws : world) (P : string -> Prop) (w0 : world) : Prop := {
  si_objects : only_keys P (w_objects ws) (w_objects w0);
  si_cases : next_value ws cases_seq <= next_value w0 cases_seq;
  si_files : next_value ws files_seq <= next_value w0 files_seq
}.

Lemma since_refl w P : since w P w.
Proof. by split. Qed.

(** Inside the transaction: the row is there, and the files' rows [fs]. *)
Record extended (t0 : Tables) (id : Z) (row : CaseRow) (fs : list (Z * string)) (t : Tables) : Prop := {
  xt_tables : t = t0 <| t_cases := <[id := row]> (t_cases t0) |> <| t_case_files := t_case_files t |>
                     <| t_case_limits := t_case_limits t |>;
  xt_files : forall f x, t_case_files t !! f = Some x <->
    (x.1 = id /\ (f, x.2) ∈ fs) \/ t_case_files t0 !! f = Some x
}.

Record building (ws w0 : world) (id : Z) (row : CaseRow) (fs : list (Z * string)) (w : world) : Prop := {
  bu_saved : w_saved w = Some (w_tables ws);
  bu_objects : only_case id (w_objects w0) (w_objects w);
  bu_tables : extended (w_tables w0) id row fs (w_tables w);
  bu_cases : next_value w cases_seq = id + 1;
  bu_files : next_value w0 files_seq <= next_value w files_seq;
  bu_ids : Forall (fun x => x.1 < next_value w files_seq) fs;
  bu_range : id < 2 ^ 31
}.

Lemma extended_insert t id row t' :
  insert_case id row t = Some t' -> extended t id row [] t'.
Proof.
  unfold insert_case. destruct (_ && _) eqn:E; [|done].
  apply andb_true_iff in E as [E Hn%bool_decide_eq_true].
  intros [= <-]. split; [by destruct t|].
  intros f x. cbn. split; [by right|]. by intros [[_ H%elem_of_nil]|?].
Qed.

Section Create.
Context (fault : nat -> bool) (collation : relation string) `{!RelDecision collation} (platform : Limits).

(** The case [id] is created in [w0], inside the transaction that began in [ws]. *)
Context (ws w0 : world) (P : string -> Prop) (id : Z).
Context (Hid : id = next_value w0 cases_seq) (HP : forall k, owned id k -> P k) (Hsi : since ws P w0).

Local Abbreviation building := (building ws w0 id).
Local Abbreviation undone := (undone ws P).

Lemma building_undone row fs w : building row fs w -> undone w.
Proof using Hid HP Hsi.
  clear fault. destruct Hsi. intros []. split.
  - unfold base_tables. by rewrite bu_saved0.
  - intros k Hk. rewrite (bu_objects0 k) by auto. by apply si_objects0.
  - lia.
  - lia.
Qed.

(** Requests that change one object of the case. *)
Lemma building_sent row fs w : building row fs w -> building row fs (sent w).
Proof. by intros []. Qed.
Lemma building_put row fs w k v :
  owned id k -> building row fs w ->
  building row fs (sent w <| w_objects := <[(cases_bucket, k) := v]> (w_objects w) |>).
Proof. intros Hk []. split; try done. by apply only_case_insert. Qed.
Lemma undone_sent w : undone w -> undone (sent w).
Proof. intros []. split; try done. Qed.
Lemma undone_delete w k : P k -> undone w -> undone (sent w <| w_objects := delete (cases_bucket, k) (w_objects w) |>).
Proof.
  intros Hk []. split; try done. intros k' Hk'. cbn. rewrite lookup_delete_ne by congruence. by apply un_objects0.
Qed.

Lemma wp_cleanup keys (Q : unit -> world -> Prop) R w :
  Forall P keys -> undone w -> (forall w', undone w' -> Q tt w') -> wp (deleteCaseObjectsBestEffort fault keys) Q R w.
Proof.
  intros Hk. rewrite Forall_forall in Hk. apply wp_deletes. intros w' k Hw Hin.
  split; [by apply undone_sent|by apply undone_delete; [apply Hk|]].
Qed.

Lemma wp_guarded {A} (m : act A) keys (Q : A -> world -> Prop) w :
  Forall P keys -> wp m Q (fun _ w' => undone w') w ->
  wp (or_else m (deleteCaseObjectsBestEffort fault keys)) Q (fun _ w' => undone w') w.
Proof.
  intros Hk H. apply wp_or_else. eapply wp_mono; [exact H|done|].
  intros e w' Hw. by apply wp_cleanup.
Qed.

(** [has os key data]: an object with these bytes. *)
Definition has (os : objects) (key data : string) : Prop :=
  exists o, os !! (cases_bucket, key) = Some o /\ ob_data o = data.

Lemma has_put os k f : has (<[(cases_bucket, k) := typed (as_object f)]> os) k (uf_Data f).
Proof.
  exists (typed (as_object f)). rewrite lookup_insert_eq. split; [done|].
  unfold typed, as_object. cbn. by destruct (String.eqb _ _).
Qed.

Lemma has_other os k k' v data : k <> k' -> has os k data -> has (<[(cases_bucket, k') := v]> os) k data.
Proof. intros Hk (o & Ho & ?). exists o. by rewrite lookup_insert_ne by congruence. Qed.

Lemma wp_upload row fs keys k f (Q : list string -> world -> Prop) w :
  Forall P keys -> owned id k -> building row fs w ->
  (building row fs (sent w <| w_objects := <[(cases_bucket, k) := typed (as_object f)]> (w_objects w) |>) ->
   Q (keys ++ [k]) (sent w <| w_objects := <[(cases_bucket, k) := typed (as_object f)]> (w_objects w) |>)) ->
  wp (upload fault keys k f) Q (fun _ w' => undone w') w.
Proof using Hid HP Hsi.
  intros Hks Hk Hb HQ. unfold upload. apply wp_bind, wp_guarded; [done|]. apply wp_call.
  - intros _. by eapply undone_sent, building_undone.
  - apply wp_ret, HQ. by apply building_put.
Qed.

Lemma extended_file t0 row fs t f path t' :
  extended t0 id row fs t -> insert_case_file f id path t = Some t' -> extended t0 id row (fs ++ [(f, path)]) t'.
Proof.
  intros [Ht Hf] H. unfold insert_case_file in H. destruct (_ && _) eqn:E; [|done].
  apply andb_true_iff in E as [_ E%bool_decide_eq_true]. injection H as <-. split.
  - rewrite Ht at 1. cbn. by destruct t0.
  - intros g x. cbn [t_case_files rset]. cbn. rewrite lookup_insert. rewrite elem_of_app, list_elem_of_singleton.
    destruct (decide (f = g)) as [->|Hg].
    + split; [intros [= <-]; left; auto|].
      assert (~ ((x.1 = id /\ (g, x.2) ∈ fs) \/ t_case_files t0 !! g = Some x)) as Hn by (rewrite <- Hf; congruence).
      intros [[Hx [H|[= Hp]]]|H]; [tauto| |tauto]. destruct x. cbn in *. congruence.
    + rewrite Hf. split; [intros [[? ?]|?]; auto|]. intros [[Hx [H|[= Hp Hq]]]|H]; auto. congruence.
Qed.

Lemma wp_insert_file_row row fs path (Q : Z -> world -> Prop) w :
  building row fs w ->
  (forall f w', building row (fs ++ [(f, path)]) w' -> w_objects w' = w_objects w ->
     t_case_limits (w_tables w') = t_case_limits (w_tables w) -> Q f w') ->
  wp (insert_file_row fault id path) Q (fun _ w' => undone w') w.
Proof using Hid HP Hsi.
  intros Hb HQ. unfold insert_file_row. apply wp_bind, wp_next_id; [intros _|by eapply building_undone].
  apply wp_bind.
  set (w1 := w <| w_next := _ |>).
  assert (Hn : next_value w1 cases_seq = next_value w cases_seq).
  { unfold next_value, w1. cbn. by rewrite lookup_insert_ne. }
  assert (Hn' : next_value w1 files_seq = next_value w files_seq + 1).
  { unfold next_value at 1, w1. cbn. by rewrite lookup_insert_eq. }
  assert (Hb1 : building row fs w1).
  { destruct Hb. split; try done; [by rewrite Hn|lia|]. rewrite Hn'. eapply Forall_impl; [done|]. cbn. lia. }
  apply wp_exec.
  - intros _. by eapply undone_sent, building_undone.
  - destruct (insert_case_file _ _ _ _) as [t|] eqn:E; [|by eapply undone_sent, building_undone].
    apply wp_ret, HQ; [|done|]. 2:{ unfold insert_case_file in E. destruct (_ && _); [|done]. by injection E as <-. }
    destruct Hb1. split; try done.
    + by eapply extended_file.
    + apply Forall_app. split; [done|]. constructor; [|done]. 
      change (next_value w files_seq < next_value w1 files_seq). lia.
Qed.

(** The objects of the case [id] with the input [i], the expected output [o] and the
    files [fs]. *)
Definition stored (i o : string) (fs : list (Z * string)) (os : objects) : Prop :=
  has os (CaseInputKey id) i /\ has os (CaseOutputKey id) o /\
  forall p, p ∈ fs.*2 -> is_Some (os !! (cases_bucket, CaseFileKey id p)).

Lemma stored_file i o fs f p v os :
  stored i o fs os -> stored i o (fs ++ [(f, p)]) (<[(cases_bucket, CaseFileKey id p) := v]> os).
Proof.
  intros (Hi & Ho & Hf). split; [|split].
  - apply has_other; [|done]. apply input_file_key.
  - apply has_other; [|done]. apply output_file_key.
  - intros q. rewrite fmap_app, elem_of_app. intros Hq. apply lookup_insert_is_Some'.
    destruct Hq as [Hq|Hq]; [right; by apply Hf|]. apply list_elem_of_singleton in Hq as ->. by left.
Qed.

Lemma wp_upload_files row i o files : forall fs keys (Q : list string * list (Z * string) -> world -> Prop) w,
  Forall P keys -> building row fs w -> stored i o fs (w_objects w) ->
  (forall keys' fs' w', Forall P keys' -> fs'.*2 = fs.*2 ++ (uf_Filename <$> files) ->
     building row fs' w' -> stored i o fs' (w_objects w') -> Q (keys', fs') w') ->
  wp (upload_files fault id keys fs files) Q (fun _ w' => undone w') w.
Proof using Hid HP Hsi.
  induction files as [|f files IH]; intros fs keys Q w Hks Hb Hst HQ; cbn [upload_files].
  { apply wp_ret, HQ; try done. cbn. by rewrite app_nil_r. }
  apply wp_bind. eapply wp_upload; [done|apply owned_file|exact Hb|]. intros Hb1.
  assert (Hks1 : Forall P (keys ++ [CaseFileKey id (uf_Filename f)])).
  { apply Forall_app. split; [done|]. constructor; [apply HP, owned_file|done]. }
  apply wp_bind, wp_guarded; [done|]. eapply wp_insert_file_row; [exact Hb1|]. intros g w' Hb2 Ho _.
  apply IH; try done.
  - rewrite Ho. by apply stored_file.
  - intros keys' fs' w'' Hk' Hfs' Hb' Hst'. apply HQ; try done. rewrite Hfs', fmap_app. cbn. by rewrite <- app_assoc.
Qed.

(** The row is inserted under the next identity. *)
Lemma wp_insert_row row (Q : Z -> world -> Prop) w :
  w_saved w = Some (w_tables ws) -> w_tables w = w_tables w0 -> w_objects w = w_objects w0 -> w_next w = w_next w0 ->
  id <= 2 ^ 31 -> (forall w', building row [] w' -> w_objects w' = w_objects w0 ->
    t_case_limits (w_tables w') = t_case_limits (w_tables w0) -> Q id w') ->
  wp (insert_case_row fault row) Q (fun _ w' => undone w') w.
Proof using Hid HP Hsi.
  intros Hs Ht Ho Hn Hmax HQ. unfold insert_case_row.
  assert (Ec : next_value w "exercises_test_cases" = id) by (unfold next_value; by rewrite Hn).
  assert (Hu : undone w).
  { destruct Hsi. split; [unfold base_tables; by rewrite Hs|by rewrite Ho| |unfold next_value in *; by rewrite Hn].
    unfold cases_seq in *. lia. }
  apply wp_bind, wp_next_id; [|done]. intros Hrange. rewrite Ec in Hrange. rewrite Ec.
  set (w1 := w <| w_next := _ |>).
  assert (Hc1 : next_value w1 cases_seq = id + 1) by (unfold next_value at 1, w1; cbn; by rewrite lookup_insert_eq).
  assert (Hf1 : next_value w1 files_seq = next_value w0 files_seq).
  { unfold next_value, w1. cbn. rewrite lookup_insert_ne by done. by rewrite Hn. }
  assert (Hu1 : undone w1).
  { destruct Hu. split; [unfold base_tables; cbn; by rewrite Hs|by cbn; rewrite Ho in *|rewrite Hc1; unfold cases_seq in *; lia|].
    rewrite Hf1. by destruct Hsi. }
  apply wp_bind, wp_exec; [intros _; by apply undone_sent|]. change (w_tables w1) with (w_tables w). rewrite Ht.
  destruct (insert_case _ _ _) as [t|] eqn:Ei; [|by apply undone_sent].
  apply wp_ret, HQ; [|by cbn; rewrite Ho|unfold insert_case in Ei; destruct (_ && _); [by injection Ei as <-|done]].
  split; try done; [by cbn; rewrite Ho| |by apply Z.eq_le_incl]. by eapply extended_insert.
Qed.
End Create.

(** ** What a request resolves to *)

(** What is uploaded for a text side is its text; when nothing is uploaded the side
    keeps its text and type. *)
Definition side_kept (text_of type_of : CaseRow -> string) (existing : option CaseRow) (v ty : string)
    (f : option UploadedFile) : Prop :=
  match f with
  | Some u => ty = IOTypeText -> uf_Data u = v
  | None => exists r, existing = Some r /\ text_of r = v /\ type_of r = ty
  end.

Lemma resolve_side_spec text_of type_of ty text file existing v f :
  validateIOType ty = true ->
  resolve_side ty text file ((fun r => (text_of r, type_of r)) <$> existing) (from_option text_of "" existing) = Some (v, f) ->
  side_kept text_of type_of existing v ty f.
Proof.
  unfold resolve_side, validateIOType. intros Hty.
  destruct (String.eqb_spec ty IOTypeText) as [->|Hne].
  - destruct text as [t|]; [by intros [= <- <-]|]. case_bool_decide as Hb; [|done]. intros [= <- <-].
    destruct existing as [r|]; [|done]. injection Hb as E. by exists r.
  - destruct (String.eqb_spec ty IOTypeFile) as [->|Hne']; [|done].
    destruct file as [u|]; [by intros [= <- <-]|]. case_bool_decide as Hb; [|done]. intros [= <- <-].
    destruct existing as [r|]; [|done]. injection Hb as E. by exists r.
Qed.

Lemma ResolveTestCaseInput_spec inp existing r :
  ResolveTestCaseInput inp existing = Ok r ->
  side_kept ca_input ca_input_type existing (re_Input r) (re_InputType r) (re_InputObject r) /\
  side_kept ca_expected ca_expected_type existing (re_ExpectedOutput r) (re_ExpectedOutputType r) (re_OutputObject r) /\
  re_FilesChanged r = in_FilesProvided inp /\
  re_Files r = if in_FilesProvided inp then resolve_files ∅ (in_Files inp) else [].
Proof.
  unfold ResolveTestCaseInput. intros H.
  destruct (validateIOType _) eqn:V1 in H; [|done]. cbn [negb] in H.
  destruct (validateIOType _) eqn:V2 in H; [|done]. cbn [negb] in H.
  destruct (resolve_side _ _ _ _ _) as [[i fi]|] eqn:S1 in H; [|done].
  destruct (resolve_side _ _ _ _ _) as [[o fo]|] eqn:S2 in H; [|done].
  injection H as <-. split; [by eapply resolve_side_spec|]. split; [by eapply resolve_side_spec|done].
Qed.

Lemma resolve_files_names seen files :
  NoDup (uf_Filename <$> resolve_files seen files) /\
  forall n, n ∈ uf_Filename <$> resolve_files seen files -> n ∉ seen /\ n ∈ (fun f => FileBasename (uf_Filename f)) <$> files.
Proof.
  revert seen. induction files as [|f files IH]; intros seen; cbn [resolve_files].
  { split; [constructor|]. intros n H. by apply elem_of_nil in H. }
  case_bool_decide as Hs.
  - destruct (IH seen) as [H1 H2]. split; [done|]. intros n Hn. destruct (H2 n Hn). split; [done|]. by right.
  - destruct (IH ({[FileBasename (uf_Filename f)]} ∪ seen)) as [H1 H2]. cbn. split.
    + constructor; [|done]. intros Hin. apply H2 in Hin. set_solver.
    + intros n [->|Hn]%elem_of_cons; [split; [done|by left]|]. destruct (H2 n Hn). split; [set_solver|by right].
Qed.

(** ** The limits of the case, in the same transaction *)

Definition limits_only (t t' : Tables) : Prop := t' = t <| t_case_limits := t_case_limits t' |>.

Lemma limits_only_refl t : limits_only t t.
Proof. unfold limits_only. by destruct t. Qed.

Lemma limits_only_exec fault (f : Tables -> option Tables) t u u' r :
  (forall u v, f u = Some v -> exists m, v = u <| t_case_limits := m |>) ->
  limits_only t u -> runs (exec fault ErrServer f) u u' r -> limits_only t u'.
Proof.
  intros Hf Hu [[-> _]|[Hs _]]%runs_exec; [done|]. destruct (Hf _ _ Hs) as [m ->].
  unfold limits_only in *. rewrite Hu. by destruct t, u.
Qed.

Lemma InsertTestCaseLanguageLimits_only fault c entries t u u' r :
  limits_only t u -> runs (InsertTestCaseLanguageLimits fault c entries) u u' r -> limits_only t u'.
Proof.
  apply (runs_each (limits_only t)). intros x v v' r' _ Hv H.
  destruct (Empty _); [by apply runs_ret in H as [-> _]|]. eapply limits_only_exec; [|exact Hv|exact H].
  intros u1 v1 E1. cbv beta in E1. destruct (insert_override _ _ _ _ _ _); [|done]. injection E1 as <-. by eexists.
Qed.

Lemma ReplaceTestCaseLanguageLimits_only fault collation `{!RelDecision collation} c e entries t t' r :
  runs (ReplaceTestCaseLanguageLimits fault collation c e entries) t t' r -> limits_only t t'.
Proof.
  pose proof (limits_only_refl t) as Hr. unfold ReplaceTestCaseLanguageLimits, loadAllowedLanguages. intros H.
  apply runs_bind in H as [(? & H & _)|(t1 & langs & Hq & H)]; [by apply runs_query in H as [-> _]|].
  apply runs_query in Hq as [-> _]. destruct (validateLanguageLimits _ _); [by apply runs_fail in H as [-> _]|].
  apply runs_bind in H as [(? & H & _)|(t1 & [] & Hq & H)].
  - eapply limits_only_exec; [|done|exact H]. intros u v [= <-]. by eexists.
  - eapply InsertTestCaseLanguageLimits_only; [|exact H]. eapply limits_only_exec; [|done|exact Hq]. intros u v [= <-]. by eexists.
Qed.

Lemma extended_limits t0 id row fs t t' : extended t0 id row fs t -> limits_only t t' -> extended t0 id row fs t'.
Proof.
  intros [Ht Hf] Hl. unfold limits_only in Hl. split.
  - rewrite Hl. cbn. rewrite Ht at 1. done.
  - intros f x. rewrite Hl. cbn. apply Hf.
Qed.

(** The rows of a created case, from the world before its transaction. *)
Record created (w0 : world) (id : Z) (row : CaseRow) (fs : list (Z * string)) (w : world) : Prop := {
  cr_saved : w_saved w = None;
  cr_objects : only_case id (w_objects w0) (w_objects w);
  cr_tables : extended (w_tables w0) id row fs (w_tables w);
  cr_cases : next_value w cases_seq = id + 1;
  cr_files : next_value w0 files_seq <= next_value w files_seq;
  cr_ids : Forall (fun x => x.1 < next_value w files_seq) fs;
  cr_range : id < 2 ^ 31
}.

Section CreateCase.
Context (fault : nat -> bool) (collation : relation string) `{!RelDecision collation} (platform : Limits).

Lemma wp_create_rows w0 id authoringID r inp (Q : Z * list (Z * string) -> world -> Prop) w :
  ResolveTestCaseInput inp None = Ok r -> id = next_value w0 cases_seq -> id <= 2 ^ 31 ->
  w_saved w = Some (w_tables w0) -> w_tables w = w_tables w0 -> w_objects w = w_objects w0 -> w_next w = w_next w0 ->
  (forall fs i o w', fs.*2 = uf_Filename <$> re_Files r ->
     (re_InputType r = IOTypeText -> i = re_Input r) -> (re_ExpectedOutputType r = IOTypeText -> o = re_ExpectedOutput r) ->
     created w0 id (case_row authoringID r) fs w' -> stored id i o fs (w_objects w') -> Q (id, fs) w') ->
  wp (create_rows fault collation authoringID r (in_LanguageLimits inp)) Q (fun _ w' => undone w0 (owned id) w') w.
Proof.
  intros Hr Hid Hmax Hs Ht Ho Hn HQ. apply ResolveTestCaseInput_spec in Hr as (Hi & He & _).
  destruct (re_InputObject r) as [fi|] eqn:Efi; [|by destruct Hi as (? & ? & _)].
  destruct (re_OutputObject r) as [fo|] eqn:Efo; [|by destruct He as (? & ? & _)]. cbn in Hi, He.
  pose proof (since_refl w0 (owned id)) as Hsi. unfold create_rows.
  apply wp_bind. eapply wp_insert_row; try done. intros w1 Hb Ho1 _.
  apply wp_bind, wp_on_db. intros t' n res Hres%ReplaceTestCaseLanguageLimits_only.
  set (w2 := _ <| w_conn := mk_conn t' n |>).
  assert (Hb2 : building w0 w0 id (case_row authoringID r) [] w2).
  { destruct Hb. split; try done. by eapply extended_limits. }
  destruct res as [[]|e]; [|by eapply building_undone].
  apply wp_bind. rewrite Efi. cbn [upload_side]. eapply wp_upload; [done..|apply owned_input|exact Hb2|]. intros Hb3.
  set (w3 := sent w2 <| w_objects := _ |>) in *.
  apply wp_bind. rewrite Efo. cbn [upload_side app]. eapply wp_upload; [done..| |apply owned_output|exact Hb3|].
  { constructor; [apply owned_input|done]. }
  intros Hb4. set (w4 := sent w3 <| w_objects := _ |>) in *.
  apply wp_bind. eapply (wp_upload_files fault w0 w0 (owned id) id Hid ltac:(done) Hsi _ (uf_Data fi) (uf_Data fo)); [|exact Hb4| |].
  { repeat constructor; [apply owned_input|apply owned_output]. }
  { split; [|split]; [|apply has_put|by intros p H%elem_of_nil].
    apply has_other; [apply input_output_key|]. apply has_put. }
  intros keys fs w5 Hk Hfs Hb5 Hst. cbn iota beta. apply wp_bind, wp_guarded; [done|].
  apply wp_commit.
  - intros _. destruct (building_undone w0 w0 (owned id) id Hid ltac:(done) Hsi _ _ _ Hb5). split.
    + unfold base_tables. rewrite rolled_back_saved. change (w_tables (rolled_back (sent w5)) = w_tables w0).
      by rewrite rolled_back_tables.
    + by rewrite rolled_back_objects.
    + by rewrite rolled_back_value.
    + by rewrite rolled_back_value.
  - apply wp_ret, (HQ fs (uf_Data fi) (uf_Data fo)); try done. destruct Hb5. by split.
Qed.
End CreateCase.

Lemma int64_id id : 0 < id <= 2 ^ 31 -> int64 id.
Proof. unfold int64, min_int64, max_int64. lia. Qed.

(** The text of a side whose bytes were uploaded. *)
Lemma has_side os key ty v data : has os key data -> (ty = IOTypeText -> data = v) -> side_ok os key ty v.
Proof. intros (o & Ho & Hd) Hv. exists o. split; [done|]. intros Hty. rewrite Hd. by apply Hv. Qed.

Lemma created_mirrored w0 (id : Z) row fs i o w :
  numbered w0 -> id = next_value w0 cases_seq -> mirrored (w_tables w0) (w_objects w0) ->
  (ca_input_type row = IOTypeText -> i = ca_input row) -> (ca_expected_type row = IOTypeText -> o = ca_expected row) ->
  created w0 id row fs w -> stored id i o fs (w_objects w) -> mirrored (w_tables w) (w_objects w).
Proof.
  intros Hn Hid Hm Hi Ho [] (Si & So & Sf). destruct Hn.
  assert (Hid64 : int64 id) by (apply int64_id; unfold cases_seq in *; lia).
  assert (Hnone : t_cases (w_tables w0) !! id = None).
  { destruct (t_cases (w_tables w0) !! id) as [r|] eqn:E; [|done]. apply nu_case0 in E. unfold cases_seq in *. lia. }
  assert (Hm' : mirrored (w_tables w0) (w_objects w)).
  { eapply mirrored_frame; try done. intros id' r Hr. apply int64_id. apply nu_case0 in Hr. lia. }
  destruct cr_tables0 as [Ht Hf].
  assert (Ec : forall id', t_cases (w_tables w) !! id' = if decide (id' = id) then Some row else t_cases (w_tables w0) !! id').
  { intros id'. rewrite Ht. cbn. rewrite lookup_insert. destruct (decide (id = id')), (decide (id' = id)); congruence. }
  split.
  - intros id' r. rewrite Ec. case_decide as Hd; [intros [= <-]; subst id'|by apply Hm']. by eapply has_side.
  - intros id' r. rewrite Ec. case_decide as Hd; [intros [= <-]; subst id'|by apply Hm']. by eapply has_side.
  - intros f id' p. rewrite (Hf f). cbn. intros [[-> Hp]|Hp]; [|by eapply Hm'].
    apply Sf. by apply (list_elem_of_fmap_2 snd _ (f, p)).
Qed.

Lemma created_numbered w0 id row fs w :
  numbered w0 -> id = next_value w0 cases_seq -> created w0 id row fs w -> numbered w.
Proof.
  intros [] Hid []. destruct cr_tables0 as [Ht Hf]. fold cases_seq files_seq in *.
  assert (Ec : forall id', t_cases (w_tables w) !! id' = if decide (id' = id) then Some row else t_cases (w_tables w0) !! id').
  { intros id'. rewrite Ht. cbn. rewrite lookup_insert. destruct (decide (id = id')), (decide (id' = id)); congruence. }
  split; fold cases_seq files_seq.
  - intros id' r. rewrite Ec, cr_cases0. case_decide as Hd; [intros _; lia|]. intros Hr%nu_case0. lia.
  - lia.
  - intros f x. rewrite Hf. intros [[_ Hin]|Hx%nu_file0]; [|lia].
    rewrite Forall_forall in cr_ids0. by apply cr_ids0 in Hin.
  - intros f id' p. rewrite Hf, Ec. intros [[Hid' _]|Hx%nu_owner0]; cbn in *; [by rewrite decide_True|].
    case_decide; [done|exact Hx].
Qed.

Lemma undone_numbered w0 w :
  numbered w0 -> w_tables w = w_tables w0 -> next_value w0 cases_seq <= next_value w cases_seq <= 2 ^ 31 ->
  next_value w0 files_seq <= next_value w files_seq -> numbered w.
Proof.
  intros [] Ht Hc Hf. fold cases_seq files_seq in *. split; fold cases_seq files_seq; rewrite ?Ht.
  - intros id' r Hr%nu_case0. lia.
  - lia.
  - intros f x Hx%nu_file0. lia.
  - done.
Qed.

Lemma TestCaseLanguageLimits_reads fault collation `{!RelDecision collation} platform ex ids t t' r :
  runs (TestCaseLanguageLimits fault collation platform ex ids) t t' r -> t' = t.
Proof.
  unfold TestCaseLanguageLimits, loadAllowedLanguages, loadExerciseOverrides, loadCaseOverrides. intros H.
  apply runs_bind in H as [(? & H & _)|(? & ? & Hq & H)]; [by apply runs_query in H as [-> _]|].
  apply runs_query in Hq as [-> _].
  apply runs_bind in H as [(? & H & _)|(? & ? & Hq & H)]; [by apply runs_query in H as [-> _]|].
  apply runs_query in Hq as [-> _].
  apply runs_bind in H as [(? & H & _)|(? & ? & Hq & H)].
  - destruct ids; [by apply runs_ret in H as [-> _]|by apply runs_query in H as [-> _]].
  - apply runs_ret in H as [-> _]. destruct ids; [by apply runs_ret in Hq as [-> _]|by apply runs_query in Hq as [-> _]].
Qed.

Lemma attachResolvedLimits_runs fault collation `{!RelDecision collation} platform ex tc t t' r :
  runs (attachResolvedLimits fault collation platform ex tc) t t' r ->
  t' = t /\ forall tc', r = Ok tc' -> at_ID tc' = at_ID tc /\ at_row tc' = at_row tc /\ at_Files tc' = at_Files tc.
Proof.
  unfold attachResolvedLimits. intros H. apply runs_bind in H as [(? & H & ->)|(? & ? & Hq & H)].
  - split; [by eapply TestCaseLanguageLimits_reads|done].
  - apply TestCaseLanguageLimits_reads in Hq as ->. apply runs_ret in H as [-> ->]. split; [done|]. by intros tc' [= <-].
Qed.

Section CreateTheorem.
Context (fault : nat -> bool) (collation : relation string) `{!RelDecision collation} (platform : Limits).

(** What an author is told, and what is there afterwards. *)
Definition case_created (w : world) (ex : Z) (inp : TestCaseInput) (claims : Claims) (w' : world)
    (r : res svc_error AuthoredCase) : Prop :=
  exists a res fs, may_author (w_tables w) ex claims /\ ResolveTestCaseInput inp None = Ok res /\
    fs.*2 = uf_Filename <$> re_Files res /\
    extended (w_tables w) (next_value w cases_seq) (case_row a res) fs (w_tables w') /\
    forall tc, r = Ok tc -> at_ID tc = next_value w cases_seq /\ at_row tc = case_row a res /\ at_Files tc = fs.

Lemma wp_CreateTestCase ex inp claims w :
  numbered w -> mirrored (w_tables w) (w_objects w) -> w_saved w = None ->
  let ok w' := numbered w' /\ mirrored (w_tables w') (w_objects w') /\ w_saved w' = None in
  wp (CreateTestCase fault collation platform ex inp claims)
    (fun tc w' => ok w' /\ case_created w ex inp claims w' (Ok tc))
    (fun e w' => ok w' /\ (w_tables w' = w_tables w \/ case_created w ex inp claims w' (Err e))) w.
Proof.
  intros Hn Hm Hs ok. unfold CreateTestCase.
  assert (Hok : forall n, ok (w <| w_conn := mk_conn (w_tables w) n |>)) by (intros n; split_and!; [by destruct Hn|done|done]).
  apply wp_bind, wp_on_db. intros t n r Hr. destruct r as [acc|e].
  2:{ apply requireExerciseAuthor_reads in Hr as ->. split; [apply Hok|by left]. }
  apply requireExerciseAuthor_ok in Hr as (-> & Ha & _). set (w1 := w <| w_conn := _ |>).
  apply wp_bind, wp_lift. destruct (ResolveTestCaseInput inp None) as [res|e] eqn:Hres; [|split; [apply Hok|by left]].
  apply wp_bind, wp_with_tx; [intros _; split; [apply Hok|by left]|].
  set (w2 := sent w1 <| w_saved := _ |>). set (id := next_value w cases_seq).
  assert (Hid : 0 < id <= 2 ^ 31) by apply Hn.
  eapply wp_mono; [apply (wp_create_rows fault collation w id (authoringExerciseID acc) res inp
    (fun p w' => p.1 = id /\ p.2.*2 = uf_Filename <$> re_Files res /\
       created w id (case_row (authoringExerciseID acc) res) p.2 w' /\ mirrored (w_tables w') (w_objects w'))); try done; [apply Hid|]| |].
  - intros fs i o w' Hfs Hi Ho Hc Hst. split_and!; try done.
    exact (created_mirrored w id (case_row (authoringExerciseID acc) res) fs i o w' Hn eq_refl Hm Hi Ho Hc Hst).
  - intros [id' fs] w' (Eid & Hfs & Hc & Hm'). cbn in Eid, Hfs, Hc. rewrite Eid. clear Eid id'.
    assert (rolled_back w' = w') as -> by (unfold rolled_back, rollback; by rewrite (cr_saved _ _ _ _ _ Hc)).
    cbn iota beta. apply wp_on_db. intros t' n' r [-> Hr]%attachResolvedLimits_runs.
    set (w3 := w' <| w_conn := _ |>).
    assert (Hok3 : ok w3).
    { split_and!; [|done|apply Hc]. by eapply created_numbered; [exact Hn|reflexivity|destruct Hc; split]. }
    assert (Hcr : forall r', (forall tc, r' = Ok tc -> at_ID tc = id /\ at_row tc = case_row (authoringExerciseID acc) res /\ at_Files tc = fs) ->
      case_created w ex inp claims w3 r').
    { intros r' Hr'. exists (authoringExerciseID acc), res, fs. split_and!; try done. apply Hc. }
    destruct r as [tc|e]; [split; [done|apply Hcr; by intros tc' [= <-]; apply Hr]|].
    split; [done|right; by apply Hcr].
  - intros e w' Hu. destruct (Hu).
    assert (Ht : w_tables (rolled_back w') = w_tables w) by by rewrite rolled_back_tables.
    split; [|by left]. split_and!; [| |apply rolled_back_saved].
    + apply (undone_numbered w); try done; by rewrite rolled_back_value.
    + rewrite Ht, rolled_back_objects. eapply (mirrored_frame _ (w_objects w) _ id); try done.
      * by apply int64_id.
      * intros id' r Hr. apply int64_id. apply (nu_case _ Hn) in Hr. unfold id, cases_seq in Hid. lia.
      * apply Hn.
      * destruct (t_cases (w_tables w) !! id) as [r|] eqn:E; [|done]. apply (nu_case _ Hn) in E.
        unfold id, cases_seq in E. lia.
Qed.

End CreateTheorem.


(** ** Deleting a case *)

Lemma delete_case_mirrored t os id : mirrored t os -> mirrored (delete_case id t) os.
Proof.
  intros []. split; cbn.
  - intros id' r [_ Hr]%lookup_delete_Some. by apply mi_input0.
  - intros id' r [_ Hr]%lookup_delete_Some. by apply mi_output0.
  - intros f id' p [Hf _]%map_lookup_filter_Some. by eapply mi_files0.
Qed.

Lemma delete_case_numbered w id n :
  numbered w -> numbered (w <| w_conn := mk_conn (delete_case id (w_tables w)) n |>).
Proof.
  intros []. split; cbn.
  - intros id' r [_ Hr]%lookup_delete_Some. by eapply nu_case0.
  - done.
  - intros f x [Hf _]%map_lookup_filter_Some. by eapply nu_file0.
  - intros f id' p [Hf Hp]%map_lookup_filter_Some. cbn in Hp. rewrite lookup_delete_ne by congruence. by eapply nu_owner0.
Qed.

(** Deleting a test case removes its row, and with it the rows of its files,
    its limits, its place in the snapshots and its results, or changes no table; it
    removes a case only of the exercise the caller may author. Whatever fails, the
    other cases keep their rows and their objects, and no object a remaining row
    needs is lost. *)
Theorem delete_removes_one_case fault ex id claims w w' r
  (Hn : numbered w) (Hm : mirrored (w_tables w) (w_objects w))
  (H : DeleteTestCase fault ex id claims w = (w', r)) :
  mirrored (w_tables w') (w_objects w') /\ numbered w' /\ only_case id (w_objects w) (w_objects w') /\
  match r with
  | Ok _ => w_tables w' = delete_case id (w_tables w) /\ may_author (w_tables w) ex claims /\
            exists e row, t_exercises (w_tables w) !! ex = Some e /\ t_cases (w_tables w) !! id = Some row /\
              ca_exercise row = owning_exercise ex e
  | Err _ => w_tables w' = w_tables w /\ w_objects w' = w_objects w
  end.
Proof.
  assert (Hwp : wp (DeleteTestCase fault ex id claims)
    (fun _ w' => mirrored (w_tables w') (w_objects w') /\ numbered w' /\ only_case id (w_objects w) (w_objects w') /\
       w_tables w' = delete_case id (w_tables w) /\ may_author (w_tables w) ex claims /\
            exists e row, t_exercises (w_tables w) !! ex = Some e /\ t_cases (w_tables w) !! id = Some row /\
              ca_exercise row = owning_exercise ex e)
    (fun _ w' => exists n, w' = w <| w_conn := mk_conn (w_tables w) n |>) w).
  { unfold DeleteTestCase. apply wp_bind, wp_on_db. intros t n [acc|e] Hr.
    2:{ apply requireExerciseAuthor_reads in Hr as ->. by eexists. }
    apply requireExerciseAuthor_ok in Hr as (-> & Ha & e & He & Hauth).
    apply wp_bind, wp_on_db. intros t n1 [files|er] [-> _]%runs_query; [|by eexists].
    apply wp_bind, wp_statement; [intros _; by eexists|]. unfold delete_own_case. cbn [w_tables w_conn cn_db rset].
    change (w_tables (w <| w_conn := mk_conn (w_tables w) n |> <| w_conn := mk_conn (w_tables w) n1 |>)) with (w_tables w).
    destruct (t_cases (w_tables w) !! id) as [row|] eqn:Erow; [case_decide as Hex|].
    2,3: apply wp_fail; by eexists.
    set (w1 := set_tables _ _).
    apply (wp_deletes fault cases_bucket _ (fun w' => w_tables w' = delete_case id (w_tables w) /\
      w_saved w' = w_saved w /\ w_next w' = w_next w /\ only_case id (w_objects w) (w_objects w'))).
    - intros w2 k (Hc & Hsv & Hnx & Ho) Hk. split; [done|].
      split_and!; try done. apply only_case_delete; [|done].
      apply elem_of_app in Hk as [[->|[->|[]%elem_of_nil]%elem_of_cons]%elem_of_cons|Hk]; try apply owned_input; try apply owned_output.
      apply list_elem_of_fmap in Hk as (p & -> & _). apply owned_file.
    - done.
    - intros w2 (Ht & Hsv & Hnx & Ho).
      assert (Hn2 : numbered w2).
      { destruct (delete_case_numbered w id 0 Hn). unfold next_value in *. split; unfold next_value; rewrite ?Ht, ?Hnx; done. }
      split_and!; try done; [|by exists e, row; rewrite Hex].
      rewrite Ht. eapply (mirrored_frame _ (w_objects w) _ id); try done.
      + apply int64_id. apply (nu_case _ Hn) in Erow. pose proof (nu_next _ Hn). lia.
      + intros id' r' Hr. cbn in Hr. apply lookup_delete_Some in Hr as [_ Hr]. apply int64_id. apply (nu_case _ Hn) in Hr. pose proof (nu_next _ Hn). lia.
      + rewrite <- Ht. apply Hn2.
      + cbn. apply lookup_delete_eq.
      + by apply delete_case_mirrored. }
  unfold wp in Hwp. rewrite H in Hwp. destruct r as [[]|er]; [done|]. destruct Hwp as [n ->].
  split; [done|]. split; [by destruct Hn|]. done.
Qed.
