(* ===== verification/AuthoringUpdate.v ===== *)
(** * Updating a test case

    [UpdateTestCase] overwrites objects in place, inside a transaction, with a backup
    of each. [swapped] is what the replacer knows between two replacements; from it
    [Restore] gets back exactly the objects there were, if it is spared. *)

From S2P Require Import Prelude Effects GoStrings GoPath Sql Catalog Limits LimitsProofs Objects Authoring AuthoringProofs.
From S2P Require CommitDb.
Local Open Scope Z_scope.

(** At most one request fails, to whichever service. *)
Definition one_fault (fault : nat -> bool) : Prop := forall n m, fault n = true -> fault m = true -> n = m.

(** No request fails from here on. *)
Definition quiet (fault : nat -> bool) (w : world) : Prop := forall n, (w_sent w <= n)%nat -> fault n = false.

Lemma fault_quiet fault w : one_fault fault -> fault (w_sent w) = true -> quiet fault (sent w).
Proof.
  intros H1 H n Hn. destruct (fault n) eqn:E; [|done]. specialize (H1 n _ E H).
  change (S (w_sent w) <= n)%nat in Hn. lia.
Qed.

Lemma quiet_sent fault w w' : quiet fault w -> (w_sent w <= w_sent w')%nat -> quiet fault w'.
Proof. intros H Hle n Hn. apply H. lia. Qed.

Section Backups.
Context (token : nat -> string).

Definition backup_form (k : string) : Prop := exists base n, k = base +:+ ".backup-" +:+ token n.

Lemma backup_dot k : backup_form k -> ~ no_byte "." k.
Proof. intros (base & n & ->) H. apply no_byte_app in H as [_ H]. by apply no_byte_cons in H as [? _]. Qed.

Lemma no_dot_plain k : no_byte "." k -> ~ backup_form k.
Proof. intros H Hb. by apply (backup_dot k). Qed.

Lemma input_plain id : ~ backup_form (CaseInputKey id).
Proof. apply no_dot_plain, no_byte_app. split; [by apply fmt_int_no_byte|done]. Qed.
Lemma output_plain id : ~ backup_form (CaseOutputKey id).
Proof. apply no_dot_plain, no_byte_app. split; [by apply fmt_int_no_byte|done]. Qed.

Lemma app_inj_length s1 s2 r1 r2 :
  String.length r1 = String.length r2 -> s1 +:+ r1 = s2 +:+ r2 -> s1 = s2.
Proof.
  intros Hl E. assert (String.length s1 = String.length s2) as Hs.
  { apply (f_equal String.length) in E. rewrite !length_app_s in E. lia. }
  apply (f_equal (take_bytes (String.length s1))) in E. rewrite take_bytes_app in E.
  by rewrite Hs, take_bytes_app in E.
Qed.

(** The objects [o0] with the replacements of [items] made; [written] is what was put
    under each key. *)
Record swapped (o0 : objects) (items : list replacedObject) (written : list object) (o : objects) : Prop := {
  sw_keys : NoDup (ro_key <$> items);
  sw_plain : forall i, i ∈ items -> ~ backup_form (ro_key i);
  sw_backups : NoDup (omap ro_backup items);
  sw_new : forall i, i ∈ items -> ro_backup i = None -> o0 !! (cases_bucket, ro_key i) = None;
  sw_old : forall i k, i ∈ items -> ro_backup i = Some k ->
    (exists n, k = ro_key i +:+ ".backup-" +:+ token n) /\ o0 !! (cases_bucket, k) = None /\
    is_Some (o0 !! (cases_bucket, ro_key i)) /\ o !! (cases_bucket, k) = o0 !! (cases_bucket, ro_key i);
  sw_written : Forall2 (fun i v => o !! (cases_bucket, ro_key i) = Some v) items written;
  sw_same : forall b k, (b = cases_bucket -> k ∉ ro_key <$> items /\ k ∉ omap ro_backup items) -> o !! (b, k) = o0 !! (b, k)
}.

Lemma swapped_nil o : swapped o [] [] o.
Proof. split; try done; try (by intros ? ?%elem_of_nil); try by intros ? ? ?%elem_of_nil. all: constructor. Qed.

Lemma omap_backup_form o0 items written o k : swapped o0 items written o -> k ∈ omap ro_backup items -> backup_form k.
Proof.
  intros Hs (i & Hi & Hk)%list_elem_of_omap. destruct (sw_old _ _ _ _ Hs i k Hi Hk) as ((n & ->) & _). by eexists _, _.
Qed.
End Backups.

(** Everything but the objects and the number of requests. *)
Definition same_state (w w' : world) : Prop :=
  w_tables w' = w_tables w /\ w_saved w' = w_saved w /\ w_next w' = w_next w /\ (w_sent w <= w_sent w')%nat.

Lemma same_state_refl w : same_state w w.
Proof. done. Qed.

Lemma same_state_sent w w' : same_state w w' -> same_state w (sent w').
Proof. intros (? & ? & ? & Hs). split_and!; try done. change (w_sent w <= S (w_sent w'))%nat. lia. Qed.

Lemma same_state_call w w' o : same_state w w' -> same_state w (sent (w' <| w_objects := o |>)).
Proof. exact (same_state_sent w w'). Qed.

Lemma same_state_trans w1 w2 w3 : same_state w1 w2 -> same_state w2 w3 -> same_state w1 w3.
Proof. intros (? & ? & ? & ?) (? & ? & ? & ?). split_and!; try congruence. lia. Qed.

Section Restore.
Context (fault : nat -> bool) (token : nat -> string).

Local Abbreviation swapped := (swapped token).

(** One request that cannot fail. *)
Lemma wp_call_quiet {A} (f : objects -> option (objects * A)) (Q : A -> world -> Prop) R w o a :
  quiet fault w -> f (w_objects w) = Some (o, a) -> Q a (sent w <| w_objects := o |>) -> wp (call fault f) Q R w.
Proof.
  intros Hq Hf HQ. apply wp_call; [|by rewrite Hf]. intros H. rewrite (Hq (w_sent w)) in H; [done|lia].
Qed.

(** Undoing the first replacement. *)
Lemma swapped_undo_new o0 i items v written o :
  ro_backup i = None -> swapped o0 (i :: items) (v :: written) o ->
  swapped o0 items written (delete (cases_bucket, ro_key i) o).
Proof.
  intros Hi H. assert (Hb := fun k => omap_backup_form token o0 _ _ o k H). destruct H.
  cbn in sw_keys0. apply NoDup_cons in sw_keys0 as [Hk Hks]. cbn in sw_backups0. rewrite Hi in sw_backups0.
  assert (Hpl : ~ backup_form token (ro_key i)) by (apply sw_plain0; by left).
  split; try done.
  - intros j Hj. apply sw_plain0. by right.
  - intros j Hj. apply sw_new0. by right.
  - intros j k Hj Hjk. destruct (sw_old0 j k) as (Hn & H1 & H2 & H3); [by right|done|]. split_and!; try done.
    rewrite lookup_delete_ne; [done|]. intros [= <-]. destruct Hn as [n Hn]. apply Hpl. by exists (ro_key j), n.
  - inversion sw_written0 as [|? ? ? ? _ Hw]; subst. rewrite Forall2_same_length_lookup in Hw |- *.
    destruct Hw as [Hl Hw]. split; [done|]. intros n j u Hj Hu. rewrite lookup_delete_ne; [by eapply Hw|].
    intros [= E]. apply Hk. rewrite E. apply list_elem_of_fmap_2. by eapply list_elem_of_lookup_2.
  - intros b k Hbk. destruct (decide ((b, k) = (cases_bucket, ro_key i))) as [[= -> ->]|Hne].
    + rewrite lookup_delete_eq. symmetry. apply sw_new0; [by left|done].
    + rewrite lookup_delete_ne by congruence. apply sw_same0. intros ->. destruct (Hbk eq_refl) as [H1 H2].
      cbn. rewrite Hi. split; [|done]. rewrite not_elem_of_cons. split; [congruence|done].
Qed.

Lemma swapped_undo_old o0 i k items v written o ob :
  ro_backup i = Some k -> swapped o0 (i :: items) (v :: written) o -> o !! (cases_bucket, k) = Some ob ->
  swapped o0 items written (delete (cases_bucket, k) (<[(cases_bucket, ro_key i) := ob]> o)).
Proof.
  intros Hi H Hob. assert (Hb := fun k => omap_backup_form token o0 _ _ o k H). destruct H.
  cbn in sw_keys0. apply NoDup_cons in sw_keys0 as [Hk Hks]. cbn in sw_backups0. rewrite Hi in sw_backups0.
  apply NoDup_cons in sw_backups0 as [Hkb Hbs].
  assert (Hpl : ~ backup_form token (ro_key i)) by (apply sw_plain0; by left).
  destruct (sw_old0 i k) as ([n Hkn] & Hk0 & _ & Hkv); [by left|done|].
  assert (Hne : forall j, ro_key j = k -> j ∉ items).
  { intros j Hj Hin. apply (sw_plain0 j); [by right|]. rewrite Hj, Hkn. by exists (ro_key i), n. }
  split; try done.
  - intros j Hj. apply sw_plain0. by right.
  - intros j Hj. apply sw_new0. by right.
  - intros j k' Hj Hjk. destruct (sw_old0 j k') as (Hn & H1 & H2 & H3); [by right|done|]. split_and!; try done.
    rewrite lookup_delete_ne, lookup_insert_ne; [done| |].
    + intros [= <-]. destruct Hn as [m Hn]. apply Hpl. by exists (ro_key j), m.
    + intros [= <-]. apply Hkb. apply list_elem_of_omap. by exists j.
  - inversion sw_written0 as [|? ? ? ? _ Hw]; subst. rewrite Forall2_same_length_lookup in Hw |- *.
    destruct Hw as [Hl Hw]. split; [done|]. intros m j u Hj Hu. apply list_elem_of_lookup_2 in Hj as Hin.
    rewrite lookup_delete_ne, lookup_insert_ne; [by eapply Hw| |].
    + intros [= E]. apply Hk. rewrite E. by apply list_elem_of_fmap_2.
    + intros [= E]. by apply (Hne j).
  - intros b k' Hbk. destruct (decide ((b, k') = (cases_bucket, k))) as [[= -> ->]|Hnk].
    { by rewrite lookup_delete_eq. }
    rewrite lookup_delete_ne by congruence.
    destruct (decide ((b, k') = (cases_bucket, ro_key i))) as [[= -> ->]|Hni].
    { by rewrite lookup_insert_eq, <- Hkv. }
    rewrite lookup_insert_ne by congruence. apply sw_same0. intros ->. destruct (Hbk eq_refl) as [H1 H2].
    cbn. rewrite Hi. rewrite !not_elem_of_cons. split; (split; [congruence|done]).
Qed.

Lemma wp_Restore o0 items written (Q : unit -> world -> Prop) R w :
  quiet fault w -> swapped o0 items written (w_objects w) ->
  (forall w', same_state w w' -> w_objects w' = o0 -> Q tt w') ->
  wp (Restore fault cases_bucket items) Q R w.
Proof.
  intros Hq Hs HQ.
  eapply wp_mono; [apply (wp_each _ (fun l w' => same_state w w' /\ exists written, swapped o0 l written (w_objects w')) R)| |done].
  - intros i l w' [Hst [[|v ws] Hsw]]; [by apply sw_written, Forall2_nil_inv_r in Hsw|].
    assert (Hq' : forall w'', same_state w w'' -> quiet fault w'') by (intros w'' (_ & _ & _ & ?); by eapply quiet_sent).
    destruct (ro_backup i) as [k|] eqn:Hi.
    + destruct (sw_old _ _ _ _ _ Hsw i k) as (_ & _ & [ob Hob] & Hk); [by left|done|]. rewrite Hob in Hk.
      apply wp_bind, wp_best_effort. eapply wp_call_quiet; [by apply Hq'|by rewrite Hk|].
      apply wp_best_effort. eapply wp_call_quiet; [by apply Hq', same_state_sent|done|].
      split; [by apply same_state_sent, same_state_sent|]. exists ws. by eapply swapped_undo_old.
    + apply wp_best_effort. eapply wp_call_quiet; [by apply Hq'|done|].
      split; [by apply same_state_sent|]. exists ws. by eapply swapped_undo_new.
  - split; [apply same_state_refl|]. by exists written.
  - intros [] w' [Hst [ws Hsw]]. apply HQ; [done|]. apply map_eq. intros [b k]. apply (sw_same _ _ _ _ _ Hsw).
    intros _. split; apply not_elem_of_nil.
Qed.

(** ** Replacing *)

Context (same_length : forall n m, String.length (token n) = String.length (token m)).

(** No object has a name a backup could get. *)
Definition no_backups (o0 : objects) : Prop :=
  forall k, backup_form token k -> o0 !! (cases_bucket, k) = None.

Definition backup_of (key : string) (n : nat) : string := key +:+ ".backup-" +:+ token n.

Lemma backup_unused o0 items written o key n :
  swapped o0 items written o -> key ∉ ro_key <$> items -> backup_of key n ∉ omap ro_backup items.
Proof.
  intros H Hk (i & Hi & E)%list_elem_of_omap. destruct (sw_old _ _ _ _ _ H i _ Hi E) as ((m & Em) & _).
  apply Hk. apply list_elem_of_fmap. exists i. split; [|done].
  unfold backup_of in Em. eapply app_inj_length; [|exact Em]. rewrite !length_app_s. by rewrite (same_length n m).
Qed.

Lemma backup_fresh o0 items written o key n :
  no_backups o0 -> swapped o0 items written o -> key ∉ ro_key <$> items -> o !! (cases_bucket, backup_of key n) = None.
Proof.
  intros Hno H Hk. rewrite (sw_same _ _ _ _ _ H).
  - apply Hno. by exists key, n.
  - intros _. split; [|by eapply backup_unused].
    intros (i & E & Hi)%list_elem_of_fmap. apply (sw_plain _ _ _ _ _ H i Hi). rewrite <- E. by exists key, n.
Qed.

(** A new object, and one with a backup. *)
Lemma swapped_put o0 items written o key v :
  swapped o0 items written o -> key ∉ ro_key <$> items -> ~ backup_form token key ->
  o0 !! (cases_bucket, key) = None ->
  swapped o0 (items ++ [mk_replaced key None]) (written ++ [v]) (<[(cases_bucket, key) := v]> o).
Proof.
  intros H Hk Hp Hnone. assert (Hb := fun k => omap_backup_form token o0 _ _ o k H). destruct H.
  assert (Eo : omap ro_backup (items ++ [mk_replaced key None]) = omap ro_backup items)
    by (rewrite omap_app; cbn; by rewrite app_nil_r).
  split; rewrite ?Eo, ?fmap_app; cbn; try done.
  - apply NoDup_app. split; [done|]. split; [by intros x Hx Hx'%list_elem_of_singleton; subst x|by repeat constructor; intros ?%elem_of_nil].
  - intros i [Hi|Hi%list_elem_of_singleton]%elem_of_app; [|subst i]; [by apply sw_plain0|done].
  - intros i [Hi|Hi%list_elem_of_singleton]%elem_of_app; [|subst i]; [by apply sw_new0|done].
  - intros i k [Hi|Hi%list_elem_of_singleton]%elem_of_app Hik; [|by subst i].
    destruct (sw_old0 i k Hi Hik) as ((n & Hn) & ? & ? & ?). split_and!; try done; [by exists n|].
    rewrite lookup_insert_ne; [done|]. intros [= <-]. apply Hp. rewrite Hn. by exists (ro_key i), n.
  - apply Forall2_app; [|constructor; [apply lookup_insert_eq|constructor]].
    eapply Forall2_impl; [|intros i u E; exact E]. rewrite Forall2_same_length_lookup in sw_written0 |- *.
    destruct sw_written0 as [Hl Hw]. split; [done|]. intros n i u Hi Hu. rewrite lookup_insert_ne; [by eapply Hw|].
    intros [= E]. apply Hk. rewrite E. apply list_elem_of_fmap_2. by eapply list_elem_of_lookup_2.
  - intros b k Hbk. rewrite lookup_insert_ne.
    + apply sw_same0. intros ->. destruct (Hbk eq_refl) as [H1 H2]. split; [set_solver|done].
    + intros [= <- <-]. destruct (Hbk eq_refl) as [H1 _]. apply H1. set_solver.
Qed.

Lemma swapped_backup o0 items written o key n old v :
  no_backups o0 -> swapped o0 items written o -> key ∉ ro_key <$> items -> ~ backup_form token key ->
  o !! (cases_bucket, key) = Some old -> o0 !! (cases_bucket, key) = Some old ->
  swapped o0 (items ++ [mk_replaced key (Some (backup_of key n))]) (written ++ [v])
    (<[(cases_bucket, key) := v]> (<[(cases_bucket, backup_of key n) := old]> o)).
Proof.
  intros Hno H Hk Hp Hold Hold0. assert (Hfr := backup_unused _ _ _ _ key n H Hk).
  assert (Hb := fun k => omap_backup_form token o0 _ _ o k H). destruct H.
  assert (Hbf : backup_form token (backup_of key n)) by by exists key, n.
  assert (Eo : omap ro_backup (items ++ [mk_replaced key (Some (backup_of key n))]) = omap ro_backup items ++ [backup_of key n])
    by (by rewrite omap_app).
  assert (Hkn : key <> backup_of key n) by (intros E; rewrite E in Hp; done).
  assert (Hik : forall i, i ∈ items -> ro_key i <> key /\ ro_key i <> backup_of key n).
  { intros i Hi. split; intros E; [apply Hk; rewrite <- E; by apply list_elem_of_fmap_2|]. apply (sw_plain0 i Hi). by rewrite E. }
  split; rewrite ?Eo, ?fmap_app; cbn; try done.
  - apply NoDup_app. split; [done|]. split; [by intros x Hx Hx'%list_elem_of_singleton; subst x|by repeat constructor; intros ?%elem_of_nil].
  - intros i [Hi|Hi%list_elem_of_singleton]%elem_of_app; [|subst i]; [by apply sw_plain0|done].
  - apply NoDup_app. split; [done|]. split; [by intros x Hx Hx'%list_elem_of_singleton; subst x|by repeat constructor; intros ?%elem_of_nil].
  - intros i [Hi|Hi%list_elem_of_singleton]%elem_of_app; [|subst i]; [by apply sw_new0|done].
  - intros i k [Hi|Hi%list_elem_of_singleton]%elem_of_app Hi'; [|subst i].
    + destruct (sw_old0 i k Hi Hi') as ((m & Hm) & ? & ? & ?). split_and!; try done; [by exists m|].
      rewrite !lookup_insert_ne; [done| |].
      * intros [= <-]. apply Hfr. apply list_elem_of_omap. by exists i.
      * intros [= <-]. apply Hp. rewrite Hm. by exists (ro_key i), m.
    + injection Hi' as <-. cbn. split_and!; [by exists n|by apply Hno|by rewrite Hold0|].
      rewrite lookup_insert_ne by congruence. by rewrite lookup_insert_eq.
  - apply Forall2_app; [|constructor; [apply lookup_insert_eq|constructor]].
    rewrite Forall2_same_length_lookup in sw_written0 |- *.
    destruct sw_written0 as [Hl Hw]. split; [done|]. intros m i u Hi Hu. apply list_elem_of_lookup_2 in Hi as Hin.
    destruct (Hik i Hin). rewrite !lookup_insert_ne by congruence. by eapply Hw.
  - intros b k Hbk. destruct (decide (b = cases_bucket)) as [->|Hbne].
    + destruct (Hbk eq_refl) as [H1 H2]. rewrite !lookup_insert_ne by set_solver. apply sw_same0. set_solver.
    + rewrite !lookup_insert_ne by congruence. by apply sw_same0.
Qed.

Context (one : one_fault fault).

Local Abbreviation Replace := (Replace fault token cases_bucket).
Local Abbreviation Restore := (Restore fault cases_bucket).

(** What a failed replacement leaves: what was replaced before, and no more faults. *)
Definition stopped (w0 : world) (o0 : objects) (items : list replacedObject) (written : list object) (w : world) : Prop :=
  same_state w0 w /\ quiet fault w /\ swapped o0 items written (w_objects w).

Lemma wp_Replace o0 items written key ob (Q : list replacedObject -> world -> Prop) w :
  no_backups o0 -> swapped o0 items written (w_objects w) -> key ∉ ro_key <$> items -> ~ backup_form token key ->
  (forall items' w', same_state w w' -> ro_key <$> items' = (ro_key <$> items) ++ [key] ->
     swapped o0 items' (written ++ [typed ob]) (w_objects w') -> Q items' w') ->
  wp (Replace items key ob) Q (fun _ w' => stopped w o0 items written w') w.
Proof.
  intros Hno Hsw Hk Hp HQ. unfold Objects.Replace.
  assert (Hkey : w_objects w !! (cases_bucket, key) = o0 !! (cases_bucket, key)).
  { apply (sw_same _ _ _ _ _ Hsw). intros _. split; [done|]. intros Hin. apply Hp. by eapply omap_backup_form. }
  assert (Hfail : forall w', same_state w w' -> w_objects w' = w_objects w -> fault (w_sent w') = true ->
    stopped w o0 items written (sent w')).
  { intros w' Hst Ho Hf. split; [by apply same_state_sent|]. split; [by apply fault_quiet|]. change (w_objects (sent w')) with (w_objects w').
    by rewrite Ho. }
  apply wp_bind, wp_call; [intros Hf; apply Hfail; [apply same_state_refl|done|done]|].
  set (w1 := sent w <| w_objects := _ |>). assert (Hst1 : same_state w w1) by apply same_state_call, same_state_refl.
  apply wp_bind. case_bool_decide as Hex.
  - destruct Hex as [old Hold]. apply wp_bind, wp_gets. change (backupKeyFor token w1 key) with (backup_of key (w_sent w1)).
    apply wp_bind, wp_call; [intros Hf; by apply Hfail|]. change (w_objects w1) with (w_objects w). rewrite Hold. cbn [mbind option_bind].
    set (w2 := sent w1 <| w_objects := _ |>). assert (Hst2 : same_state w w2) by by apply same_state_call.
    apply wp_ret, wp_bind, wp_or_else, wp_call.
    + intros Hf. apply wp_best_effort. assert (Hq := fault_quiet fault w2 one Hf).
      eapply wp_call_quiet; [exact Hq|done|]. split; [by apply same_state_call, same_state_sent|].
      split; [eapply quiet_sent; [exact Hq|]; change (w_sent (sent w2) <= S (w_sent (sent w2)))%nat; lia|].
      cbn. change (w_objects (sent w2)) with (<[(cases_bucket, backup_of key (w_sent w1)) := old]> (w_objects w)).
      rewrite delete_insert_id; [done|]. by eapply backup_fresh.
    + apply wp_ret, HQ; [by apply same_state_call|by rewrite fmap_app|].
      change (swapped o0 (items ++ [mk_replaced key (Some (backup_of key (w_sent w1)))]) (written ++ [typed ob])
        (<[(cases_bucket, key) := typed ob]> (<[(cases_bucket, backup_of key (w_sent w1)) := old]> (w_objects w)))).
      apply swapped_backup; try done. by rewrite <- Hkey.
  - apply wp_ret, wp_bind, wp_or_else, wp_call.
    + intros Hf. by apply Hfail.
    + apply wp_ret, HQ; [by apply same_state_call|by rewrite fmap_app|].
      change (swapped o0 (items ++ [mk_replaced key None]) (written ++ [typed ob]) (<[(cases_bucket, key) := typed ob]> (w_objects w))).
      apply swapped_put; try done. rewrite <- Hkey. by apply eq_None_not_Some.
Qed.
End Restore.

(** ** The rows of an update *)

Record updated (t0 : Tables) (id : Z) (row : CaseRow) (fs : list (Z * string)) (t : Tables) : Prop := {
  up_tables : t = t0 <| t_cases := <[id := row]> (t_cases t0) |> <| t_case_files := t_case_files t |>
                     <| t_case_limits := t_case_limits t |>;
  up_files : forall f x, t_case_files t !! f = Some x <->
    (x.1 = id /\ (f, x.2) ∈ fs) \/ (x.1 <> id /\ t_case_files t0 !! f = Some x)
}.

Lemma files_of_case_elem id t f p : (f, p) ∈ files_of_case id t <-> t_case_files t !! f = Some (id, p).
Proof.
  unfold files_of_case. rewrite list_elem_of_fmap. split.
  - intros ([g [i q]] & [= -> ->] & H%elem_of_sorted_keys). destruct H as [H Hi]. cbn in Hi. by subst i.
  - intros H. exists (f, (id, p)). split; [done|]. by apply elem_of_sorted_keys.
Qed.

Lemma updated_row t id row old t' :
  t_cases t !! id = Some old -> ca_exercise old = ca_exercise row -> update_case id row t = Some t' ->
  updated t id row (files_of_case id t) t'.
Proof.
  unfold update_case. intros -> He. rewrite bool_decide_eq_true_2 by done. destruct (row_fits row); [|done].
  intros [= <-]. split; [by destruct t|]. intros f [i p]. cbn. rewrite files_of_case_elem.
  destruct (decide (i = id)) as [->|Hi]; naive_solver.
Qed.

Lemma updated_limits t0 id row fs t t' : updated t0 id row fs t -> limits_only t t' -> updated t0 id row fs t'.
Proof.
  intros [Ht Hf] Hl. unfold limits_only in Hl. split.
  - rewrite Hl. cbn. rewrite Ht at 1. done.
  - intros f x. rewrite Hl. cbn. apply Hf.
Qed.

Lemma updated_cleared t0 id row fs t : updated t0 id row fs t -> updated t0 id row [] (clear_case_files id t).
Proof.
  intros [Ht Hf]. split.
  - cbn. rewrite Ht at 1. done.
  - intros f x. cbn. rewrite map_lookup_filter_Some, Hf. cbn. split; [naive_solver|].
    intros [[_ H%elem_of_nil]|?]; [done|naive_solver].
Qed.

Lemma updated_file t0 id row fs t f path t' :
  updated t0 id row fs t -> insert_case_file f id path t = Some t' -> updated t0 id row (fs ++ [(f, path)]) t'.
Proof.
  intros [Ht Hf] H. unfold insert_case_file in H. destruct (_ && _) eqn:E; [|done].
  apply andb_true_iff in E as [_ E%bool_decide_eq_true]. injection H as <-. split.
  - rewrite Ht at 1. cbn. by destruct t0.
  - intros g x. cbn. rewrite lookup_insert. rewrite elem_of_app, list_elem_of_singleton.
    destruct (decide (f = g)) as [->|Hg].
    + split; [intros [= <-]; left; auto|].
      assert (~ ((x.1 = id /\ (g, x.2) ∈ fs) \/ (x.1 <> id /\ t_case_files t0 !! g = Some x))) as Hn by (rewrite <- Hf; congruence).
      intros [[Hx [H|[= Hp]]]|H]; [tauto| |tauto]. destruct x. cbn in *. congruence.
    + rewrite Hf. split; [intros [[? ?]|?]; auto|]. intros [[Hx [H|[= Hp Hq]]]|H]; auto. congruence.
Qed.

Lemma insert_case_file_some f id path t :
  is_Some (t_cases t !! id) -> CommitDb.pg_text path = true -> t_case_files t !! f = None ->
  is_Some (insert_case_file f id path t).
Proof. intros H1 H2 H3. unfold insert_case_file. rewrite H2, H3. by rewrite !bool_decide_eq_true_2. Qed.

Section UpdateBody.
Context (fault : nat -> bool) (one : one_fault fault).
Context (collation : relation string) `{!RelDecision collation} (platform : Limits).
Context (token : nat -> string) (same_length : forall n m, String.length (token n) = String.length (token m)).

Local Abbreviation swapped := (swapped token).

(** Inside the transaction, after some replacements. *)
Record running (w0 : world) (id : Z) (row : CaseRow) (fs : list (Z * string)) (items : list replacedObject)
    (written : list object) (w : world) : Prop := {
  ru_saved : w_saved w = Some (w_tables w0);
  ru_cases : next_value w cases_seq = next_value w0 cases_seq;
  ru_files : next_value w0 files_seq <= next_value w files_seq;
  ru_rows : updated (w_tables w0) id row fs (w_tables w);
  ru_ids : Forall (fun x => x.1 < next_value w files_seq) fs;
  ru_objects : swapped (w_objects w0) items written (w_objects w)
}.

(** What a failed update leaves before its roll-back. *)
Record reverted (w0 w : world) : Prop := {
  rv_tables : base_tables w = w_tables w0;
  rv_objects : w_objects w = w_objects w0;
  rv_cases : next_value w cases_seq = next_value w0 cases_seq;
  rv_files : next_value w0 files_seq <= next_value w files_seq
}.

Lemma running_state w0 id row fs items written w w' :
  running w0 id row fs items written w -> same_state w w' -> w_objects w' = w_objects w0 -> reverted w0 w'.
Proof.
  intros [] (Ht & Hs & Hx & _) Ho. split; [|done|..].
  - unfold base_tables. by rewrite Hs, ru_saved0.
  - unfold next_value in *. by rewrite Hx.
  - unfold next_value in *. by rewrite Hx.
Qed.

Lemma running_replaced w0 id row fs items items' written written' w w' :
  running w0 id row fs items written w -> same_state w w' -> swapped (w_objects w0) items' written' (w_objects w') ->
  running w0 id row fs items' written' w'.
Proof.
  intros [] (Ht & Hs & Hx & _) Hsw. split; unfold next_value in *; rewrite ?Ht, ?Hs, ?Hx; done.
Qed.

(** A failure with no more faults: [Restore] brings the objects back. *)
Lemma wp_guarded_update {A} (m : act A) w0 id row fs items written (Q : A -> world -> Prop) w :
  wp m Q (fun _ w' => quiet fault w' /\ running w0 id row fs items written w') w ->
  wp (or_else m (Restore fault cases_bucket items)) Q (fun _ w' => reverted w0 w') w.
Proof.
  intros H. apply wp_or_else. eapply wp_mono; [exact H|done|]. intros _ w' (Hq & Hr).
  eapply wp_Restore; [done|apply Hr|]. intros w'' Hst Ho. by eapply running_state.
Qed.

Lemma wp_replace_or_restore w0 id row fs items written key f (Q : list replacedObject -> world -> Prop) w :
  no_backups token (w_objects w0) -> running w0 id row fs items written w -> key ∉ ro_key <$> items ->
  ~ backup_form token key ->
  (forall items' w', ro_key <$> items' = (ro_key <$> items) ++ [key] -> next_value w' files_seq = next_value w files_seq ->
     running w0 id row fs items' (written ++ [typed (as_object f)]) w' -> Q items' w') ->
  wp (replace_or_restore fault token items key f) Q (fun _ w' => reverted w0 w') w.
Proof.
  intros Hno Hr Hk Hp HQ. apply (wp_guarded_update _ w0 id row fs items written).
  eapply wp_mono; [eapply (wp_Replace fault token same_length one (w_objects w0) items written key (as_object f)
    (fun items' w' => Q items' w')); try done; [apply Hr|]|done|].
  - intros items' w' Hst Hks Hsw. apply HQ; [done| |by eapply running_replaced].
    destruct Hst as (_ & _ & Hx & _). unfold next_value. by rewrite Hx.
  - intros _ w' (Hst & Hq & Hsw). split; [done|]. by eapply running_replaced.
Qed.

Lemma wp_file_row w0 id row fs items written path (Q : Z -> world -> Prop) w :
  numbered w0 -> is_Some (t_cases (w_tables w0) !! id) -> CommitDb.pg_text path = true -> next_value w files_seq < 2 ^ 31 ->
  running w0 id row fs items written w ->
  (forall f w', next_value w' files_seq = next_value w files_seq + 1 ->
     running w0 id row (fs ++ [(f, path)]) items written w' -> Q f w') ->
  wp (insert_file_row fault id path) Q (fun _ w' => quiet fault w' /\ running w0 id row fs items written w') w.
Proof.
  intros Hn Hid Hpg Hroom Hr HQ. unfold insert_file_row. apply wp_bind. unfold wp at 1, next_id.
  change (next_value w "exercises_test_cases_files") with (next_value w files_seq).
  rewrite (proj2 (Z.ltb_lt _ _) Hroom). set (f := next_value w files_seq).
  assert (Hf : t_case_files (w_tables w) !! f = None).
  { destruct Hr. destruct (t_case_files (w_tables w) !! f) as [x|] eqn:E; [|done]. apply ru_rows0 in E as [[_ Hin]|[_ Hx]].
    - rewrite Forall_forall in ru_ids0. apply ru_ids0 in Hin. cbn in Hin. unfold f in Hin. lia.
    - apply (nu_file _ Hn) in Hx. unfold f, files_seq in *. lia. }
  assert (Hc : is_Some (t_cases (w_tables w) !! id)).
  { destruct Hr. rewrite (up_tables _ _ _ _ _ ru_rows0). cbn. rewrite lookup_insert_eq. by eexists. }
  set (w1 := w <| w_next := _ |>).
  assert (Hf1 : next_value w1 files_seq = f + 1) by (unfold next_value, w1; cbn; by rewrite lookup_insert_eq).
  assert (Hc1 : next_value w1 cases_seq = next_value w cases_seq) by (unfold next_value, w1; cbn; by rewrite lookup_insert_ne).
  assert (Hr1 : running w0 id row fs items written w1).
  { destruct Hr. split; try done; [by rewrite Hc1|rewrite Hf1; unfold f; lia|].
    rewrite Hf1. eapply Forall_impl; [exact ru_ids0|]. cbn. unfold f. lia. }
  apply wp_bind, wp_exec.
  - intros Hfault. split; [by apply fault_quiet|]. by destruct Hr1.
  - change (w_tables w1) with (w_tables w).
    destruct (insert_case_file_some f id path (w_tables w) Hc Hpg Hf) as [t Ht]. rewrite Ht.
    apply wp_ret, HQ; [exact Hf1|]. destruct Hr1. split; try done.
    + by eapply updated_file.
    + apply Forall_app. split; [done|]. constructor; [|done]. change (f < next_value w1 files_seq). lia.
Qed.

Lemma wp_replace_files w0 id row files : forall fs items written (Q : list replacedObject * list (Z * string) -> world -> Prop) w,
  numbered w0 -> is_Some (t_cases (w_tables w0) !! id) -> no_backups token (w_objects w0) ->
  Forall (fun f => CommitDb.pg_text (uf_Filename f) = true /\ ~ backup_form token (CaseFileKey id (uf_Filename f))) files ->
  NoDup ((ro_key <$> items) ++ ((fun f => CaseFileKey id (uf_Filename f)) <$> files)) ->
  next_value w files_seq + Z.of_nat (length files) <= 2 ^ 31 -> running w0 id row fs items written w ->
  (forall items' fs' w', fs'.*2 = fs.*2 ++ (uf_Filename <$> files) ->
     ro_key <$> items' = (ro_key <$> items) ++ ((fun f => CaseFileKey id (uf_Filename f)) <$> files) ->
     running w0 id row fs' items' (written ++ ((fun f => typed (as_object f)) <$> files)) w' -> Q (items', fs') w') ->
  wp (replace_files fault token id items fs files) Q (fun _ w' => reverted w0 w') w.
Proof.
  induction files as [|f files IH]; intros fs items written Q w Hn Hid Hno Hfs Hnd Hroom Hr HQ; cbn [replace_files].
  { apply wp_ret, (HQ items fs); cbn; rewrite ?app_nil_r; done. }
  apply Forall_cons in Hfs as [[Hpg Hp] Hfs]. cbn [length] in Hroom.
  assert (Hk : CaseFileKey id (uf_Filename f) ∉ ro_key <$> items).
  { intros Hin. rewrite fmap_cons in Hnd. apply NoDup_app in Hnd as (_ & Hd & _). apply (Hd _ Hin). by left. }
  apply wp_bind. eapply wp_replace_or_restore; try done. intros items1 w1 Hk1 Hx1 Hr1.
  apply wp_bind, (wp_guarded_update _ w0 id row fs items1 (written ++ [typed (as_object f)])).
  eapply wp_file_row; try done; [lia|]. intros g w2 Hx2 Hr2. apply (IH _ _ (written ++ [typed (as_object f)])); try done.
  - rewrite Hk1, <- List.app_assoc. done.
  - lia.
  - intros items' fs' w' Hfs' Hks Hr'. apply HQ.
    + rewrite Hfs', fmap_app, <- List.app_assoc. done.
    + rewrite Hks, Hk1, <- List.app_assoc. done.
    + rewrite <- List.app_assoc in Hr'. done.
Qed.

(** The objects an update writes, in order. *)
Definition put_list (id : Z) (r : resolvedTestCase) : list (string * object) :=
  option_list ((fun u => (CaseInputKey id, typed (as_object u))) <$> re_InputObject r) ++
  option_list ((fun u => (CaseOutputKey id, typed (as_object u))) <$> re_OutputObject r) ++
  ((fun f => (CaseFileKey id (uf_Filename f), typed (as_object f))) <$> re_Files r).

Lemma wp_replace_side w0 id row fs items written key o (Q : list replacedObject -> world -> Prop) w :
  no_backups token (w_objects w0) -> running w0 id row fs items written w -> key ∉ ro_key <$> items ->
  ~ backup_form token key ->
  (forall items' w', ro_key <$> items' = (ro_key <$> items) ++ option_list ((fun _ => key) <$> o) ->
     next_value w' files_seq = next_value w files_seq ->
     running w0 id row fs items' (written ++ option_list ((fun u => typed (as_object u)) <$> o)) w' -> Q items' w') ->
  wp (replace_side fault token items key o) Q (fun _ w' => reverted w0 w') w.
Proof.
  intros Hno Hr Hk Hp HQ. destruct o as [u|]; cbn [replace_side].
  - by eapply wp_replace_or_restore.
  - apply wp_ret, HQ; cbn; rewrite ?app_nil_r; done.
Qed.

(** What a committed update leaves. *)
Record finished_update (w0 : world) (id : Z) (row : CaseRow) (fs : list (Z * string)) (items : list replacedObject)
    (puts : list (string * object)) (w : world) : Prop := {
  fu_saved : w_saved w = None;
  fu_cases : next_value w cases_seq = next_value w0 cases_seq;
  fu_files : next_value w0 files_seq <= next_value w files_seq;
  fu_ids : Forall (fun x => x.1 < next_value w files_seq) fs;
  fu_rows : updated (w_tables w0) id row fs (w_tables w);
  fu_keys : ro_key <$> items = puts.*1;
  fu_objects : swapped (w_objects w0) items puts.*2 (w_objects w)
}.

Context (w0 : world) (id : Z) (authoringID : Z) (existing : CaseRow) (inp : TestCaseInput) (r : resolvedTestCase).
Context (Hn : numbered w0) (Hno : no_backups token (w_objects w0)).
Context (Hex : t_cases (w_tables w0) !! id = Some existing) (Hauth : ca_exercise existing = authoringID).
Context (Hres : ResolveTestCaseInput inp (Some existing) = Ok r).

(** The new files have names PostgreSQL stores, that a second normalization keeps and
    that are not names of backups, and the sequence has room for them. *)
Record good_files : Prop := {
  gf_text : Forall (fun f => CommitDb.pg_text (uf_Filename f) = true) (re_Files r);
  gf_stable : Forall (fun f => FileBasename (uf_Filename f) = uf_Filename f) (re_Files r);
  gf_plain : Forall (fun f => ~ backup_form token (CaseFileKey id (uf_Filename f))) (re_Files r);
  gf_room : next_value w0 files_seq + Z.of_nat (length (re_Files r)) <= 2 ^ 31
}.
Context (Hgood : good_files).

Lemma file_names_distinct : NoDup (uf_Filename <$> re_Files r).
Proof using Hres.
  apply ResolveTestCaseInput_spec in Hres as (_ & _ & _ & ->).
  destruct (in_FilesProvided inp); [apply resolve_files_names|constructor].
Qed.

Lemma put_keys_distinct : NoDup (put_list id r).*1.
Proof using Hres Hgood.
  unfold put_list. rewrite !fmap_app, <- !list_fmap_compose. cbn.
  assert (Hf : NoDup ((fun f => CaseFileKey id (uf_Filename f)) <$> re_Files r)).
  { assert (Hd := file_names_distinct). destruct Hgood as [_ Hst _ _]. induction Hst as [|f l Hfs Hst IH]; [constructor|].
    rewrite fmap_cons in Hd. apply NoDup_cons in Hd as [Hf Hd]. rewrite fmap_cons. constructor; [|by apply IH].
    intros (g & E & Hg)%list_elem_of_fmap. apply file_key_inj in E. apply Hf. rewrite Forall_forall in Hst.
    rewrite Hfs, (Hst g Hg) in E. rewrite E. by apply list_elem_of_fmap_2. }
  assert (Hin : CaseInputKey id ∉ (fun f => CaseFileKey id (uf_Filename f)) <$> re_Files r).
  { intros (g & E & _)%list_elem_of_fmap. by apply input_file_key in E. }
  assert (Hout : CaseOutputKey id ∉ (fun f => CaseFileKey id (uf_Filename f)) <$> re_Files r).
  { intros (g & E & _)%list_elem_of_fmap. by apply output_file_key in E. }
  destruct (re_InputObject r), (re_OutputObject r); cbn; rewrite ?NoDup_cons, ?not_elem_of_cons; split_and?; try done;
    apply input_output_key.
Qed.

Lemma wp_update_rows (Q : list replacedObject * list (Z * string) -> world -> Prop) w :
  w_saved w = Some (w_tables w0) -> w_tables w = w_tables w0 -> w_objects w = w_objects w0 -> w_next w = w_next w0 ->
  (forall items fs w', (re_FilesChanged r = false -> fs = files_of_case id (w_tables w0)) ->
     (re_FilesChanged r = true -> fs.*2 = uf_Filename <$> re_Files r) ->
     finished_update w0 id (case_row authoringID r) fs items (put_list id r) w' -> Q (items, fs) w') ->
  wp (update_rows fault collation token authoringID id r inp (files_of_case id (w_tables w0))) Q
    (fun _ w' => reverted w0 w') w.
Proof using All.
  intros Hs Ht Ho Hnx HQ. unfold update_rows.
  assert (Hrev : reverted w0 (sent w)).
  { split; try done; [unfold base_tables; cbn; by rewrite Hs|..]; unfold next_value; cbn; by rewrite Hnx. }
  apply wp_bind, wp_exec; [done|]. rewrite Ht.
  destruct (update_case id _ _) as [t|] eqn:Eu; [|done].
  apply (updated_row _ _ _ existing) in Eu; [|done|done].
  set (row := case_row authoringID r) in *. set (old := files_of_case id (w_tables w0)) in *.
  set (w1 := set_tables t (sent w)).
  assert (Hold : Forall (fun x => x.1 < next_value w0 files_seq) old).
  { apply Forall_forall. intros [f p] Hf%files_of_case_elem. by apply (nu_file _ Hn) in Hf. }
  assert (Hr1 : running w0 id row old [] [] w1).
  { assert (Hv : forall s, next_value w1 s = next_value w0 s) by (intros s; unfold next_value; cbn; by rewrite Hnx).
    split; rewrite ?Hv; try done. cbn. rewrite Ho. apply swapped_nil. }
  assert (Hv1 : next_value w1 files_seq = next_value w0 files_seq) by (unfold next_value; cbn; by rewrite Hnx).
  clearbody w1. apply wp_bind.
  eapply (wp_mono _ _ (fun _ w' => running w0 id row old [] [] w' /\ next_value w' files_seq = next_value w0 files_seq) _ (fun _ w' => reverted w0 w')).
  { destruct (in_LanguageLimitsProvided inp); [|by apply wp_ret].
    apply wp_on_db. intros t' n res Hl%ReplaceTestCaseLanguageLimits_only.
    assert (Hr2 : running w0 id row old [] [] (w1 <| w_conn := mk_conn t' n |>)).
    { destruct Hr1. split; try done. by eapply updated_limits. }
    destruct res as [[]|e]; [by split|]. destruct Hr2. split; try done; [unfold base_tables; by rewrite ru_saved0|].
    apply map_eq. intros [b k]. apply (sw_same _ _ _ _ _ ru_objects0). intros _. split; apply not_elem_of_nil. }
  2: done.
  intros [] w2 [Hr2 Hv2]. clear w1 Hr1 Hv1.
  apply wp_bind. eapply wp_replace_side; [done|exact Hr2|apply not_elem_of_nil|apply input_plain|].
  intros items1 w3 Hk1 Hv3 Hr3. cbn [app] in Hk1, Hr3. apply wp_bind.
  eapply wp_replace_side; [done|exact Hr3| |apply output_plain|].
  { rewrite Hk1. destruct (re_InputObject r); cbn; [|apply not_elem_of_nil]. intros H%list_elem_of_singleton.
    symmetry in H. by apply input_output_key in H. }
  intros items2 w4 Hk2 Hv4 Hr4. rewrite Hk1 in Hk2. apply wp_bind.
  set (keys := (_ ++ _ : list string)) in Hk2. set (vals := (_ ++ _ : list object)) in Hr4.
  assert (Ek : (put_list id r).*1 = keys ++ ((fun f => CaseFileKey id (uf_Filename f)) <$> re_Files r)).
  { unfold put_list, keys. rewrite !fmap_app, <- !list_fmap_compose, <- List.app_assoc.
    by destruct (re_InputObject r), (re_OutputObject r). }
  assert (Ev : (put_list id r).*2 = vals ++ ((fun f => typed (as_object f)) <$> re_Files r)).
  { unfold put_list, vals. rewrite !fmap_app, <- !list_fmap_compose, <- List.app_assoc.
    by destruct (re_InputObject r), (re_OutputObject r). }
  eapply (wp_mono _ _ (fun '(items, fs) w' => (re_FilesChanged r = false -> fs = old) /\
     (re_FilesChanged r = true -> fs.*2 = uf_Filename <$> re_Files r) /\ ro_key <$> items = (put_list id r).*1 /\
     running w0 id row fs items (put_list id r).*2 w') _ (fun _ w' => reverted w0 w')); [| |done].
  - destruct (re_FilesChanged r) eqn:Efc.
    + apply wp_bind, (wp_guarded_update _ w0 id row old items2 vals), wp_exec.
      { intros Hf. split; [by apply fault_quiet|]. by destruct Hr4. }
      assert (Hr5 : running w0 id row [] items2 vals (set_tables (clear_case_files id (w_tables w4)) (sent w4))).
      { destruct Hr4. split; try done. by eapply updated_cleared. }
      destruct Hgood as [G1 G2 G3 G4].
      eapply (wp_replace_files w0 id row (re_Files r) [] items2 vals); [done|by rewrite Hex|done| | | |exact Hr5|].
      * apply Forall_and. by split.
      * rewrite Hk2, <- Ek. apply put_keys_distinct.
      * change (next_value w4 files_seq + Z.of_nat (length (re_Files r)) <= 2 ^ 31). lia.
      * intros items' fs' w' Hfs Hks Hr'. rewrite Ek, Ev. rewrite Hk2 in Hks. done.
    + apply wp_ret. assert (re_Files r = []) as Ef.
      { apply ResolveTestCaseInput_spec in Hres as (_ & _ & Hc & ->). by rewrite <- Hc, Efc. }
      rewrite Ek, Ev, Ef. cbn. by rewrite !app_nil_r.
  - intros [items fs] w5 (H1 & H2 & Hks & Hr5). cbn iota beta.
    apply wp_bind, wp_or_else, wp_commit.
    + intros Hf. eapply wp_Restore; [| |intros w' (Ht' & Hs' & Hx' & _) Ho'; split].
      * apply fault_quiet in Hf; [|done]. eapply quiet_sent; [exact Hf|]. by rewrite rolled_back_sent.
      * rewrite rolled_back_objects. apply Hr5.
      * unfold base_tables. rewrite Hs', rolled_back_saved. cbn. rewrite Ht', rolled_back_tables.
        unfold base_tables. cbn. by rewrite (ru_saved _ _ _ _ _ _ _ Hr5).
      * done.
      * unfold next_value at 1. rewrite Hx'. change (next_value (rolled_back (sent w5)) cases_seq = next_value w0 cases_seq).
        rewrite rolled_back_value. apply Hr5.
      * unfold next_value at 2. rewrite Hx'. change (next_value w0 files_seq <= next_value (rolled_back (sent w5)) files_seq).
        rewrite rolled_back_value. apply Hr5.
    + apply wp_ret, HQ; try done. destruct Hr5. by split.
Qed.
End UpdateBody.

(** ** The objects after an update *)

Lemma cut_byte_app_some c k a r s : cut_byte c k = Some (a, r) -> cut_byte c (k +:+ s) = Some (a, r +:+ s).
Proof.
  revert a. induction k as [|x k IH]; cbn; intros a; [done|]. destruct (Ascii.eqb x c); [by intros [= <- <-]|].
  destruct (cut_byte c k) as [[u v]|]; [|done]. intros [= <- <-]. by rewrite (IH u eq_refl).
Qed.

Lemma owned_app id k s : owned id k -> owned id (k +:+ s).
Proof. intros [r Hr]. exists (r +:+ s). by apply cut_byte_app_some. Qed.

Section Settled.
Context (token : nat -> string) (w0 w1 : world) (id authoringID : Z) (existing : CaseRow) (inp : TestCaseInput).
Context (r : resolvedTestCase) (fs : list (Z * string)) (items : list replacedObject) (o : objects).
Context (Hn : numbered w0) (Hm : mirrored (w_tables w0) (w_objects w0)) (Hno : no_backups token (w_objects w0)).
Context (Hex : t_cases (w_tables w0) !! id = Some existing).
Context (Hres : ResolveTestCaseInput inp (Some existing) = Ok r) (Hgood : good_files token w0 id r).
Context (Hold : forall f p, t_case_files (w_tables w0) !! f = Some (id, p) -> FileBasename p = p).
Context (Hkept : re_FilesChanged r = false -> fs = files_of_case id (w_tables w0)).
Context (Hnew : re_FilesChanged r = true -> fs.*2 = uf_Filename <$> re_Files r).
Context (Hfin : finished_update token w0 id (case_row authoringID r) fs items (put_list id r) w1).

(** The keys removed afterwards. *)
Definition removable : list string :=
  omap ro_backup items ++ (if re_FilesChanged r then dropped_keys id (files_of_case id (w_tables w0)) fs else []).
Context (Ho : forall b k, (b = cases_bucket -> k ∉ removable) -> o !! (b, k) = w_objects w1 !! (b, k)).

Lemma put_owned k v : (k, v) ∈ put_list id r -> owned id k.
Proof using.
  unfold put_list. rewrite !elem_of_app, list_elem_of_fmap. intros [H|[H|(f & [= -> _] & _)]].
  - destruct (re_InputObject r); cbn in H; [|by apply elem_of_nil in H]. apply list_elem_of_singleton in H as [= -> _]. apply owned_input.
  - destruct (re_OutputObject r); cbn in H; [|by apply elem_of_nil in H]. apply list_elem_of_singleton in H as [= -> _]. apply owned_output.
  - apply owned_file.
Qed.

Lemma item_owned i : i ∈ items -> owned id (ro_key i).
Proof.
  intros Hi. assert (ro_key i ∈ (put_list id r).*1) as ([k v] & -> & Hk)%list_elem_of_fmap.
  { rewrite <- (fu_keys _ _ _ _ _ _ _ _ Hfin). by apply list_elem_of_fmap_2. }
  by eapply put_owned.
Qed.

Lemma removable_cases k : k ∈ removable ->
  owned id k /\ (backup_form token k \/
    re_FilesChanged r = true /\ exists p, k = CaseFileKey id p /\ p ∈ (files_of_case id (w_tables w0)).*2 /\ p ∉ fs.*2).
Proof.
  unfold removable. intros [Hk|Hk]%elem_of_app.
  - split; [|left; by eapply omap_backup_form; [apply Hfin|]]. apply list_elem_of_omap in Hk as (i & Hi & Hk).
    destruct (sw_old _ _ _ _ _ (fu_objects _ _ _ _ _ _ _ _ Hfin) i k Hi Hk) as ((n & ->) & _).
    by apply owned_app, item_owned.
  - destruct (re_FilesChanged r); [|by apply elem_of_nil in Hk].
    apply list_elem_of_fmap in Hk as (p & -> & [Hp Hin]%list_elem_of_filter). split; [apply owned_file|]. right. split; [done|]. by exists p.
Qed.

Lemma settled_only : only_case id (w_objects w0) o.
Proof.
  intros k Hk. rewrite Ho.
  - apply (sw_same _ _ _ _ _ (fu_objects _ _ _ _ _ _ _ _ Hfin)). intros _. split.
    + intros (i & -> & Hi)%list_elem_of_fmap. by apply Hk, item_owned.
    + intros (i & Hi & Hb)%list_elem_of_omap.
      destruct (sw_old _ _ _ _ _ (fu_objects _ _ _ _ _ _ _ _ Hfin) i k Hi Hb) as ((n & ->) & _).
      by apply Hk, owned_app, item_owned.
  - intros _ [Hr _]%removable_cases. by apply Hk.
Qed.

(** A key of the case that is neither a backup nor a dropped file: what was put
    there, or what was there. *)
Lemma settled_put k v : (k, v) ∈ put_list id r -> k ∉ removable -> o !! (cases_bucket, k) = Some v.
Proof.
  intros Hin Hk. rewrite Ho by done. apply list_elem_of_lookup in Hin as [n Hn'].
  destruct Hfin as [_ _ _ _ _ Hks Hsw]. apply sw_written in Hsw.
  assert (Hi : exists i, items !! n = Some i /\ ro_key i = k).
  { assert ((ro_key <$> items) !! n = Some k) as Hl by by rewrite Hks, list_lookup_fmap, Hn'.
    rewrite list_lookup_fmap in Hl. destruct (items !! n) as [i|]; [|done]. injection Hl as <-. by exists i. }
  destruct Hi as (i & Hi & <-). eapply (Forall2_lookup_lr _ _ _ n i v) in Hsw; [done|done|].
  by rewrite list_lookup_fmap, Hn'.
Qed.

Lemma settled_kept k : k ∉ (put_list id r).*1 -> ~ backup_form token k -> k ∉ removable ->
  o !! (cases_bucket, k) = w_objects w0 !! (cases_bucket, k).
Proof.
  intros H1 H2 H3. rewrite Ho by done. apply (sw_same _ _ _ _ _ (fu_objects _ _ _ _ _ _ _ _ Hfin)). intros _. split.
  - by rewrite (fu_keys _ _ _ _ _ _ _ _ Hfin).
  - intros H. apply H2. by eapply omap_backup_form; [apply Hfin|].
Qed.

Lemma id_range : int64 id.
Proof. apply int64_id. pose proof (nu_case _ Hn id existing Hex). pose proof (nu_next _ Hn). lia. Qed.

(** One side of the updated case. *)
Lemma settled_side key text_of type_of v ty f :
  (forall u, f = Some u -> (key, typed (as_object u)) ∈ put_list id r) ->
  (f = None -> key ∉ (put_list id r).*1) -> ~ backup_form token key -> key ∉ removable ->
  side_ok (w_objects w0) key (type_of existing) (text_of existing) ->
  side_kept text_of type_of (Some existing) v ty f -> side_ok o key ty v.
Proof.
  intros Hput Hnone Hp Hk Hold' Hside. destruct f as [u|]; cbn in Hside.
  - exists (typed (as_object u)). split; [by apply settled_put, Hk; apply Hput|].
    intros Hty. rewrite <- (Hside Hty). unfold typed, as_object. cbn. by destruct (String.eqb _ _).
  - destruct Hside as (e & [= <-] & <- & <-). destruct Hold' as (ob & Hob & Htext). exists ob.
    split; [|done]. rewrite settled_kept; [done|by apply Hnone|done|done].
Qed.

Lemma plain_side_removable key : ~ backup_form token key -> (forall p, key <> CaseFileKey id p) -> key ∉ removable.
Proof. intros Hp Hf [_ [Hb|(_ & p & -> & _)]]%removable_cases; [done|by eapply Hf]. Qed.

Lemma put_input u : re_InputObject r = Some u -> (CaseInputKey id, typed (as_object u)) ∈ put_list id r.
Proof. intros E. unfold put_list. rewrite E. by left. Qed.
Lemma put_output u : re_OutputObject r = Some u -> (CaseOutputKey id, typed (as_object u)) ∈ put_list id r.
Proof. intros E. unfold put_list. rewrite E. apply elem_of_app. right. by left. Qed.

Lemma put_no_input : re_InputObject r = None -> CaseInputKey id ∉ (put_list id r).*1.
Proof.
  intros E. unfold put_list. rewrite E. cbn. rewrite fmap_app, <- list_fmap_compose. intros [H|H]%elem_of_app.
  - destruct (re_OutputObject r); cbn in H; [|by apply elem_of_nil in H]. apply list_elem_of_singleton in H. by apply input_output_key in H.
  - apply list_elem_of_fmap in H as (f & H & _). by apply input_file_key in H.
Qed.
Lemma put_no_output : re_OutputObject r = None -> CaseOutputKey id ∉ (put_list id r).*1.
Proof.
  intros E. unfold put_list. rewrite E. cbn. rewrite fmap_app, <- list_fmap_compose. intros [H|H]%elem_of_app.
  - destruct (re_InputObject r); cbn in H; [|by apply elem_of_nil in H]. apply list_elem_of_singleton in H.
    symmetry in H. by apply input_output_key in H.
  - apply list_elem_of_fmap in H as (f & H & _). by apply output_file_key in H.
Qed.

Lemma settled_file f p : (f, p) ∈ fs -> is_Some (o !! (cases_bucket, CaseFileKey id p)).
Proof.
  intros Hfp. assert (Hp : p ∈ fs.*2) by by apply (list_elem_of_fmap_2 snd _ (f, p)).
  destruct (decide (re_FilesChanged r = true)) as [Ec|Ec%not_true_is_false].
  - rewrite (Hnew Ec) in Hp. apply list_elem_of_fmap in Hp as (u & -> & Hu).
    destruct Hgood as [_ Hst Hpl _]. rewrite Forall_forall in Hst, Hpl.
    exists (typed (as_object u)). apply settled_put.
    + unfold put_list. rewrite !elem_of_app. right. right. apply list_elem_of_fmap. by exists u.
    + intros [_ [Hb|(_ & q & E & Hq & Hq')]]%removable_cases; [by apply (Hpl u Hu)|].
      apply file_key_inj in E. rewrite (Hst u Hu) in E.
      apply list_elem_of_fmap in Hq as ([g q'] & -> & Hg%files_of_case_elem). cbn in *. rewrite (Hold g q' Hg) in E.
      apply Hq'. rewrite <- E, (Hnew Ec). by apply list_elem_of_fmap_2.
  - rewrite (Hkept Ec) in Hfp. apply files_of_case_elem in Hfp. pose proof (mi_files _ _ Hm _ _ _ Hfp) as [ob Hob].
    assert (Hpl : ~ backup_form token (CaseFileKey id p)) by (intros Hb; by rewrite (Hno _ Hb) in Hob).
    rewrite settled_kept; [by exists ob| |done|].
    + apply ResolveTestCaseInput_spec in Hres as (_ & _ & Hc & Hf). rewrite <- Hc, Ec in Hf.
      unfold put_list. rewrite Hf. cbn. rewrite app_nil_r, fmap_app. intros [H|H]%elem_of_app.
      * destruct (re_InputObject r); cbn in H; [|by apply elem_of_nil in H]. apply list_elem_of_singleton in H.
        symmetry in H. by apply input_file_key in H.
      * destruct (re_OutputObject r); cbn in H; [|by apply elem_of_nil in H]. apply list_elem_of_singleton in H.
        symmetry in H. by apply output_file_key in H.
    + intros [_ [Hb|(Hc & _)]]%removable_cases; [done|congruence].
Qed.

Lemma settled_mirrored : mirrored (w_tables w1) o.
Proof.
  pose proof (fu_rows _ _ _ _ _ _ _ _ Hfin) as [Ht Hf].
  pose proof (ResolveTestCaseInput_spec _ _ _ Hres) as (Hi & He & _).
  assert (Ec : forall id', t_cases (w_tables w1) !! id' = if decide (id' = id) then Some (case_row authoringID r) else t_cases (w_tables w0) !! id').
  { intros id'. rewrite Ht. cbn. rewrite lookup_insert. destruct (decide (id = id')), (decide (id' = id)); congruence. }
  assert (Hother : forall id' row k, t_cases (w_tables w0) !! id' = Some row -> id' <> id -> owned id' k ->
    o !! (cases_bucket, k) = w_objects w0 !! (cases_bucket, k)).
  { intros id' row k Hrow Hne Hk. apply settled_only. intros Hk'. apply Hne. eapply owned_inj; [|apply id_range|exact Hk|exact Hk'].
    apply int64_id. pose proof (nu_case _ Hn _ _ Hrow). pose proof (nu_next _ Hn). lia. }
  split.
  - intros id' row. rewrite Ec. case_decide as Hd.
    + intros [= <-]. subst id'. eapply (settled_side _ ca_input ca_input_type); [apply put_input|apply put_no_input|apply input_plain| |by apply Hm|exact Hi].
      apply plain_side_removable; [apply input_plain|apply input_file_key].
    + intros Hrow. destruct (mi_input _ _ Hm id' row Hrow) as (ob & Hob & ?). exists ob. by rewrite (Hother id' row); [|..|apply owned_input].
  - intros id' row. rewrite Ec. case_decide as Hd.
    + intros [= <-]. subst id'. eapply (settled_side _ ca_expected ca_expected_type); [apply put_output|apply put_no_output|apply output_plain| |by apply Hm|exact He].
      apply plain_side_removable; [apply output_plain|apply output_file_key].
    + intros Hrow. destruct (mi_output _ _ Hm id' row Hrow) as (ob & Hob & ?). exists ob. by rewrite (Hother id' row); [|..|apply owned_output].
  - intros f id' p Hp%Hf. cbn in Hp. destruct Hp as [[-> Hp]|[Hne Hp]]; [by eapply settled_file|].
    destruct (nu_owner _ Hn _ _ _ Hp) as [row Hrow]. rewrite (Hother id' row); [by eapply Hm|done|done|apply owned_file].
Qed.

Lemma settled_numbered : numbered w1.
Proof.
  pose proof (fu_rows _ _ _ _ _ _ _ _ Hfin) as [Ht Hf].
  pose proof Hfin as [? Hc0 Hf0 Hi0 _ _ _]. pose proof Hn as [Nc Nn Nf No].
  assert (Ec : forall id', t_cases (w_tables w1) !! id' = if decide (id' = id) then Some (case_row authoringID r) else t_cases (w_tables w0) !! id').
  { intros id'. rewrite Ht. cbn. rewrite lookup_insert. destruct (decide (id = id')), (decide (id' = id)); congruence. }
  split; fold cases_seq files_seq; rewrite ?Hc0.
  - intros id' row. rewrite Ec. case_decide as Hd; [intros _; subst id'; by eapply Nc|apply Nc].
  - done.
  - intros f x [[_ Hx]|[_ Hx%Nf]]%Hf; [|fold files_seq in Hx; lia]. rewrite Forall_forall in Hi0. by apply Hi0 in Hx.
  - intros f id' p Hp%Hf. cbn in Hp. rewrite Ec. case_decide as Hd; [done|].
    destruct Hp as [[? _]|[_ Hp]]; [done|]. by eapply No.
Qed.
End Settled.

(** ** The whole operation *)

Lemma resolve_files_length seen files : (length (resolve_files seen files) <= length files)%nat.
Proof.
  revert seen. induction files as [|f l IH]; intros seen; cbn [resolve_files length]; [lia|].
  case_bool_decide; cbn [length]; [specialize (IH seen)|specialize (IH ({[FileBasename (uf_Filename f)]} ∪ seen))]; lia.
Qed.

(** Names an upload may have: PostgreSQL stores them, normalizing them twice is
    normalizing them once, and they are not the names of backups. *)
Definition good_name (token : nat -> string) (id : Z) (f : UploadedFile) : Prop :=
  let p := FileBasename (uf_Filename f) in
  CommitDb.pg_text p = true /\ FileBasename p = p /\ ~ backup_form token (CaseFileKey id p).

Record update_ready (token : nat -> string) (w : world) (id : Z) (inp : TestCaseInput) : Prop := {
  ur_backups : no_backups token (w_objects w);
  ur_old : forall f p, t_case_files (w_tables w) !! f = Some (id, p) -> FileBasename p = p;
  ur_new : Forall (good_name token id) (in_Files inp);
  ur_room : next_value w files_seq + Z.of_nat (length (in_Files inp)) <= 2 ^ 31
}.

Lemma ready_good token w id inp existing r :
  update_ready token w id inp -> next_value w files_seq <= 2 ^ 31 -> ResolveTestCaseInput inp existing = Ok r ->
  good_files token w id r.
Proof.
  intros [_ _ Hnew Hroom] Hle Hres. apply ResolveTestCaseInput_spec in Hres as (_ & _ & _ & Hf).
  assert (Hin : forall f, f ∈ re_Files r -> exists g, g ∈ in_Files inp /\ uf_Filename f = FileBasename (uf_Filename g)).
  { intros f Hin. rewrite Hf in Hin. destruct (in_FilesProvided inp); [|by apply elem_of_nil in Hin].
    assert (uf_Filename f ∈ uf_Filename <$> resolve_files ∅ (in_Files inp)) as Hn by by apply list_elem_of_fmap_2.
    apply resolve_files_names in Hn as [_ (g & -> & Hg)%list_elem_of_fmap]. by exists g. }
  rewrite Forall_forall in Hnew.
  split; try (apply Forall_forall; intros f Hfr; destruct (Hin f Hfr) as (g & Hg & ->); by destruct (Hnew g Hg) as (? & ? & ?)).
  rewrite Hf. destruct (in_FilesProvided inp); [|cbn [length]; lia]. pose proof (resolve_files_length ∅ (in_Files inp)). lia.
Qed.

Section Operation.
Context (fault : nat -> bool) (one : one_fault fault).
Context (collation : relation string) `{!RelDecision collation} (platform : Limits).
Context (token : nat -> string) (same_length : forall n m, String.length (token n) = String.length (token m)).

(** Deletions that may fail: the objects are the same but for some of these keys. *)
Definition lost (keys : list string) (w w' : world) : Prop :=
  same_state w w' /\ forall b k, (b = cases_bucket -> k ∉ keys) -> w_objects w' !! (b, k) = w_objects w !! (b, k).

Lemma lost_refl keys w : lost keys w w.
Proof. done. Qed.

Lemma lost_delete keys k w w' :
  k ∈ keys -> lost keys w w' ->
  lost keys w (sent w') /\ lost keys w (sent w' <| w_objects := delete (cases_bucket, k) (w_objects w') |>).
Proof.
  intros Hk [Hs Ho]. split; [split; [by apply same_state_sent|done]|].
  split; [by apply same_state_call|]. intros b k' Hk'. cbn. rewrite lookup_delete_ne; [by apply Ho|].
  intros [= <- <-]. by apply (Hk' eq_refl).
Qed.

Lemma wp_Discard items keys (Q : unit -> world -> Prop) R w0 w :
  (forall k, k ∈ omap ro_backup items -> k ∈ keys) -> lost keys w0 w -> (forall w', lost keys w0 w' -> Q tt w') ->
  wp (Discard fault cases_bucket items) Q R w.
Proof.
  intros Hk Hl HQ. eapply wp_mono; [apply (wp_each _ (fun l w' => (forall k, k ∈ omap ro_backup l -> k ∈ keys) /\ lost keys w0 w') R)| |done].
  - intros i l w' [Hk' Hl']. assert (Hl'' : forall k, k ∈ omap ro_backup l -> k ∈ keys).
    { intros k (j & Hj & Hjk)%list_elem_of_omap. apply Hk', list_elem_of_omap. exists j. split; [by right|done]. }
    destruct (ro_backup i) as [k|] eqn:Ei; cbn [remove]; [|by apply wp_ret].
    assert (Hin : k ∈ keys) by (apply Hk', list_elem_of_omap; exists i; split; [by left|done]).
    apply wp_best_effort, wp_call; [intros _|]; (split; [done|]); by apply (lost_delete keys k).
  - by split.
  - intros [] w' [_ Hl']. by apply HQ.
Qed.

Lemma wp_drop keys' keys (Q : unit -> world -> Prop) R w0 w :
  (forall k, k ∈ keys' -> k ∈ keys) -> lost keys w0 w -> (forall w', lost keys w0 w' -> Q tt w') ->
  wp (deleteCaseObjectsBestEffort fault keys') Q R w.
Proof.
  intros Hk Hl HQ. apply (wp_deletes fault cases_bucket keys' (lost keys w0)); [|done|done].
  intros w' k Hw Hin. by apply lost_delete; [apply Hk|].
Qed.

(** The case was updated to what the request means. *)
Definition case_updated (w : world) (ex id : Z) (inp : TestCaseInput) (claims : Claims) (w' : world)
    (r : res svc_error AuthoredCase) : Prop :=
  exists e existing res fs, may_author (w_tables w) ex claims /\ t_exercises (w_tables w) !! ex = Some e /\
    t_cases (w_tables w) !! id = Some existing /\ ca_exercise existing = owning_exercise ex e /\
    ResolveTestCaseInput inp (Some existing) = Ok res /\
    (re_FilesChanged res = false -> fs = files_of_case id (w_tables w)) /\
    (re_FilesChanged res = true -> fs.*2 = uf_Filename <$> re_Files res) /\
    updated (w_tables w) id (case_row (ca_exercise existing) res) fs (w_tables w') /\
    forall tc, r = Ok tc -> at_ID tc = id /\ at_row tc = case_row (ca_exercise existing) res /\ at_Files tc = fs.

Lemma loadTestCase_runs id ex t t' row :
  runs (loadTestCase fault id ex) t t' (Ok row) -> t' = t /\ t_cases t !! id = Some row /\ ca_exercise row = ex.
Proof.
  unfold loadTestCase. intros H. apply runs_bind in H as [(? & _ & [=])|(t1 & o & Hq & H)].
  apply runs_query in Hq as [-> [[=]|[= ->]]]. destruct (t_cases t !! id) as [r|] eqn:E; cbn in H.
  - case_decide; [|by apply runs_fail in H as [_ [=]]]. by apply runs_ret in H as [-> [= ->]].
  - by apply runs_fail in H as [_ [=]].
Qed.

Lemma loadTestCase_reads id ex t t' r : runs (loadTestCase fault id ex) t t' r -> t' = t.
Proof.
  unfold loadTestCase. intros H. apply runs_bind in H as [(? & H & _)|(t1 & o & Hq & H)].
  - by apply runs_query in H as [-> _].
  - apply runs_query in Hq as [-> _]. destruct o; [by apply runs_ret in H as [-> _]|by apply runs_fail in H as [-> _]].
Qed.

Lemma wp_UpdateTestCase ex id inp claims w :
  numbered w -> mirrored (w_tables w) (w_objects w) -> w_saved w = None -> next_value w files_seq <= 2 ^ 31 ->
  update_ready token w id inp ->
  let ok w' := numbered w' /\ mirrored (w_tables w') (w_objects w') /\ w_saved w' = None in
  wp (UpdateTestCase fault collation platform token ex id inp claims)
    (fun tc w' => ok w' /\ case_updated w ex id inp claims w' (Ok tc))
    (fun e w' => ok w' /\ ((w_tables w' = w_tables w /\ w_objects w' = w_objects w) \/ case_updated w ex id inp claims w' (Err e))) w.
Proof.
  intros Hn Hm Hs Hle Hready ok. unfold UpdateTestCase.
  assert (Hok : forall n, ok (w <| w_conn := mk_conn (w_tables w) n |>)) by (intros n; split_and!; [by destruct Hn|done|done]).
  apply wp_bind, wp_on_db. intros t n r Hr. destruct r as [acc|e].
  2:{ apply requireExerciseAuthor_reads in Hr as ->. split; [apply Hok|by left]. }
  apply requireExerciseAuthor_ok in Hr as (-> & Ha & e & He & Hauth).
  apply wp_bind, wp_on_db. intros t n1 r Hr. destruct r as [existing|er].
  2:{ apply loadTestCase_reads in Hr as ->. split; [apply Hok|by left]. }
  apply loadTestCase_runs in Hr as (-> & Hex & Hown). change (t_cases (w_tables w) !! id = Some existing) in Hex.
  apply wp_bind, wp_lift. destruct (ResolveTestCaseInput inp (Some existing)) as [res|er] eqn:Hres; [|split; [apply Hok|by left]].
  apply wp_bind, wp_on_db. intros t n2 r [-> Hr]%runs_query. destruct r as [old|er]; [|split; [apply Hok|by left]].
  destruct Hr as [[=]|[= ->]].
  apply wp_bind, wp_with_tx; [intros _; split; [apply Hok|by left]|].
  assert (Hgood := ready_good _ _ _ _ _ _ Hready Hle Hres). destruct Hready as [Hno Hold Hnew Hroom].
  eapply wp_mono.
  - eapply (wp_update_rows fault one collation platform token same_length w id (authoringExerciseID acc) existing inp res Hn Hno Hex Hown Hres Hgood
      (fun p w' => (re_FilesChanged res = false -> p.2 = files_of_case id (w_tables w)) /\
         (re_FilesChanged res = true -> p.2.*2 = uf_Filename <$> re_Files res) /\
         finished_update token w id (case_row (authoringExerciseID acc) res) p.2 p.1 (put_list id res) w')); done.
  - intros [items fs] w1 (Hkept & Hchg & Hfin). cbn [fst snd] in *.
    assert (rolled_back w1 = w1) as -> by (unfold rolled_back, rollback; by rewrite (fu_saved _ _ _ _ _ _ _ _ Hfin)).
    cbn iota beta. set (keys := removable w id res fs items).
    apply wp_bind. eapply (wp_Discard _ keys _ _ w1); [intros k Hk; apply elem_of_app; by left|apply lost_refl|]. intros w2 Hl2.
    apply wp_bind. eapply (wp_mono _ _ (fun _ w' => lost keys w1 w') _ (fun _ _ => False)); [| |done].
    { destruct (re_FilesChanged res) eqn:Ec; [|by apply wp_ret].
      eapply (wp_drop _ keys _ _ w1); [|exact Hl2|done]. intros k Hk. apply elem_of_app. right. by rewrite Ec. }
    intros [] w3 [(Ht3 & Hs3 & Hx3 & _) Ho3]. apply wp_on_db. intros t3 n3 r [-> Hr]%attachResolvedLimits_runs.
    assert (Hok3 : ok (w3 <| w_conn := mk_conn (w_tables w3) n3 |>)).
    { split_and!.
      - destruct (settled_numbered token w w1 id (authoringExerciseID acc) existing res fs items Hn Hex Hfin).
        split; unfold next_value in *; cbn; rewrite ?Ht3, ?Hx3; done.
      - cbn. rewrite Ht3. by eapply (settled_mirrored token w w1 id (authoringExerciseID acc) existing inp res fs items).
      - cbn. rewrite Hs3. apply Hfin. }
    assert (Hup : forall r', (forall tc, r' = Ok tc -> at_ID tc = id /\ at_row tc = case_row (authoringExerciseID acc) res /\ at_Files tc = fs) ->
      case_updated w ex id inp claims (w3 <| w_conn := mk_conn (w_tables w3) n3 |>) r').
    { intros r' Hr'. exists e, existing, res, fs. rewrite Hown. split_and!; try done. cbn. rewrite Ht3. apply Hfin. }
    destruct r as [tc|er]; [split; [done|apply Hup; by intros tc' [= <-]; apply Hr]|].
    split; [done|right; by apply Hup].
  - intros er w' [Hv1 Hv2 Hv3 Hv4].
    assert (Ht : w_tables (rolled_back w') = w_tables w) by by rewrite rolled_back_tables.
    split; [|left; by rewrite rolled_back_objects]. split_and!; [| |apply rolled_back_saved].
    + apply (undone_numbered w); try done; rewrite rolled_back_value; [|done]. rewrite Hv3. pose proof (nu_next _ Hn). unfold cases_seq. lia.
    + by rewrite Ht, rolled_back_objects, Hv2.
Qed.
End Operation.


(** ** A class *)

Definition sample_world : world :=
  mk_world (mk_conn sample 0) None
    {[(cases_bucket, "100/in") := mk_object "1" "text/plain"; (cases_bucket, "100/out") := mk_object "2" "text/plain"]}
    {[cases_seq := 101]}.

Definition sample_token (n : nat) : string := "5f".

Definition new_case : TestCaseInput :=
  mk_input (Some "text") (Some "text") (Some "3") (Some "4") None None None [] false None None
    [mk_uploaded "data.txt" "" "abc"] true.
Definition new_texts : TestCaseInput :=
  mk_input None None (Some "9") (Some "10") None None None [] false None None [] false.

Definition out {A} (r : world * res svc_error A) : res svc_error A := snd r.

Lemma sample_numbered : numbered sample_world.
Proof.
  split; cbn.
  - intros id r H. apply lookup_singleton_Some in H as [<- _]. by vm_compute.
  - by vm_compute.
  - intros f x H. by rewrite lookup_empty in H.
  - intros f id p H. by rewrite lookup_empty in H.
Qed.

Lemma sample_mirrored : mirrored (w_tables sample_world) (w_objects sample_world).
Proof.
  split; cbn.
  - intros id r H. apply lookup_singleton_Some in H as [<- <-]. exists (mk_object "1" "text/plain"). by split; [vm_compute|].
  - intros id r H. apply lookup_singleton_Some in H as [<- <-]. exists (mk_object "2" "text/plain"). by split; [vm_compute|].
  - intros f id p H. by rewrite lookup_empty in H.
Qed.

Lemma plain_no_backup (token : nat -> string) (k : string) (v : object) (o : objects) :
  no_backups token o -> no_byte "." k -> no_backups token (<[(cases_bucket, k) := v]> o).
Proof.
  intros H Hk k' Hb. rewrite lookup_insert_ne; [by apply H|]. intros [= <-]. by apply (backup_dot token k).
Qed.

Lemma sample_ready : update_ready sample_token sample_world 100 new_texts.
Proof.
  split; cbn.
  - apply plain_no_backup; [|done]. apply plain_no_backup; [|done]. intros k _. apply lookup_empty.
  - intros f p H. by rewrite lookup_empty in H.
  - constructor.
  - by vm_compute.
Qed.



Lemma delete_removes_one_case_witness :
  exists w', DeleteTestCase never 10 100 teacher sample_world = (w', Ok tt) /\
    w_tables w' = delete_case 100 sample /\ mirrored (w_tables w') (w_objects w').
Proof.
  destruct (DeleteTestCase never 10 100 teacher sample_world) as [w' r] eqn:E.
  pose proof (delete_removes_one_case never 10 100 teacher sample_world w' r sample_numbered sample_mirrored E) as (Hm & _ & _ & H).
  assert (Hr : r = Ok tt) by (apply (f_equal snd) in E; cbn in E; rewrite <- E; by vm_compute).
  subst r. exists w'. split; [done|]. split; [apply H|exact Hm].
Defined.

(** ** What two failures do *)

(** A failed restoration destroys what it was to restore. When writing the new
    expected output fails and copying the input's backup back fails too, [Restore]
    removes the backup all the same: the row keeps the old text, the object holds
    the new one, no copy of the old one is left, and the author is told only of a
    server error. Students are then graded with an input the page does not show. *)
Theorem failed_restore_loses_object :
  let fault n := (n =? 9)%nat || (n =? 10)%nat in
  let '(w', r) := UpdateTestCase fault byte_order defaults sample_token 10 100 new_texts teacher sample_world in
  r = Err ErrServer /\ w_tables w' = sample /\ (ca_input <$> t_cases sample !! 100) = Some "1" /\
  w_objects w' = {[(cases_bucket, "100/in") := mk_object "9" "text/plain; charset=utf-8";
                   (cases_bucket, "100/out") := mk_object "2" "text/plain"]}.
Proof. vm_compute. by split_and!. Qed.

(** The file " a" was uploaded as "x/ a"; [FileBasename] keeps the space the second
    time it is not there to trim: the row's name is " a", the key's name "a". *)
Definition spaced_world : world :=
  mk_world (mk_conn (sample <| t_case_files := {[1 := (100, " a")]} |>) 0) None
    (<[(cases_bucket, CaseFileKey 100 " a") := mk_object "old" "text/plain"]> (w_objects sample_world))
    {[cases_seq := 101; files_seq := 2]}.

Definition renamed_file : TestCaseInput :=
  mk_input None None None None None None None [] false None None [mk_uploaded "a" "text/plain" "new"] true.

(** Replacing a case's file can delete the new one. [FileBasename] trims before it
    takes the base name, so it keeps a space that follows a slash and drops it when it
    is applied again, to the stored name, to form the key: the files " a" and "a" are
    two rows and one object. Replacing the first by the second uploads the object
    and then deletes it as the object of a file that is gone. Nothing fails, the author
    sees the file listed, and the judge will find no object for it. *)
Theorem replaced_file_can_vanish :
  let '(w', r) := UpdateTestCase never byte_order defaults sample_token 10 100 renamed_file teacher spaced_world in
  is_ok r = true /\ t_case_files (w_tables w') !! 2 = Some (100, "a") /\
  FileBasename "x/ a" = " a" /\ FileBasename " a" = "a" /\
  w_objects w' !! (cases_bucket, CaseFileKey 100 "a") = None.
Proof. vm_compute. by split_and!. Qed.

(** An error does not mean nothing was done: the limits of the answer are read
    after the commit, and if that statement fails the author is told of a server error
    although the case exists. Trying again creates the case twice. *)
Theorem create_error_after_commit :
  let '(w', r) := CreateTestCase (Nat.eqb 12) byte_order defaults 10 new_case teacher sample_world in
  r = Err ErrServer /\ (ca_input <$> t_cases (w_tables w') !! 101) = Some "3".
Proof. vm_compute. by split_and!. Qed.
