(* ===== verification/History.v ===== *)
(** * A student's submissions

    [src/backend/services/submissions-history.go]: the numbers and the list of a
    user's submissions to an exercise, and the source of one of them, with the
    handlers of [src/backend/handlers/submissions-handler.go] that serve them. A
    summary's score and count of correct cases are read by the consumer's tables
    ([CommitDb.v]) and are not columns here. *)

From S2P Require Import Prelude Effects GoStrings Sql Catalog Objects.
Local Open Scope Z_scope.

(** ** Responses *)

(** [models.Error] with a service error's text, or with a text of the handler. *)
Inductive body := BNone | BService (e : svc_error) | BMessage (s : string).

Record response (A : Type) := mk_response { rp_status : Z; rp_retry : option string; rp_body : body + A }.
Arguments mk_response {A} _ _ _.
Arguments rp_status {A} _.
Arguments rp_retry {A} _.
Arguments rp_body {A} _.

Definition refuse {A} (status : Z) (b : body) : response A := mk_response status None (inl b).

(** [writeServiceError], on the errors of the services modelled. *)
Definition writeServiceError {A} (e : svc_error) : response A :=
  match e with
  | ErrNotOwner | ErrNotEnrolled => refuse 403 (BService e)
  | ErrExerciseNotFound | ErrTestCaseNotFound => refuse 404 (BService e)
  | ErrInvalidFileType | ErrInvalidTestCase | ErrInvalidLimits => refuse 400 (BService e)
  | ErrJudgeUnavailable => refuse 503 (BService e)
  | _ => refuse 500 (BService ErrServer)
  end.

(** ** Numbers *)

(** [(created_at, id) <= (created_at, id)] of SQL. *)
Definition older (x y : Z * SubmissionRow) : Prop :=
  su_created x.2 < su_created y.2 \/ (su_created x.2 = su_created y.2 /\ x.1 <= y.1).
#[export] Instance older_dec : RelDecision older := fun x y => _.

Definition of_user (userID exerciseID : Z) (x : Z * SubmissionRow) : Prop :=
  su_user x.2 = userID /\ su_exercise x.2 = exerciseID.
#[export] Instance of_user_dec u e x : Decision (of_user u e x) := _.

Definition submission_number (commitID : Z) (t : Tables) : Z :=
  match t_commits t !! commitID with
  | None => 0
  | Some target =>
      Z.of_nat (length (filter (fun x => of_user (su_user target) (su_exercise target) x /\ older x (commitID, target))
                          (map_to_list (t_commits t))))
  end.

Record SubmissionSummary := mk_summary {
  sm_ID : Z; sm_Number : Z; sm_Status : string; sm_CreatedAt : Z; sm_Filename : string
}.

Definition has_key (r : SubmissionRow) : Prop := su_s3_key r <> None /\ su_s3_key r <> Some "".
#[export] Instance has_key_dec r : Decision (has_key r) := _.

(** [ROW_NUMBER() OVER (ORDER BY created_at, id)]. *)
Definition ranked (userID exerciseID : Z) (t : Tables) : list (Z * (Z * SubmissionRow)) :=
  imap (fun i x => (Z.of_nat i + 1, x))
    (merge_sort older (filter (of_user userID exerciseID) (map_to_list (t_commits t)))).

Definition summary (x : Z * (Z * SubmissionRow)) : SubmissionSummary :=
  let '(number, (id, r)) := x in
  mk_summary id number (su_status r) (su_created r) (path_base (default "" (su_s3_key r))).

Definition SubmissionHistoryLimit : nat := 50.

Definition history (userID exerciseID : Z) (t : Tables) : list SubmissionSummary :=
  summary <$> take SubmissionHistoryLimit (reverse (filter (fun x => has_key x.2.2) (ranked userID exerciseID t))).

(** ** The services *)

Section History.
Context {UT : UnicodeTables} (fault : nat -> bool) (mime_type : string -> string).

Definition SubmissionNumber (commitID : Z) : svc Z := query fault ErrServer (submission_number commitID).

Definition ListMyExerciseSubmissions (exerciseID userID : Z) : svc (list SubmissionSummary) :=
  query fault ErrServer (history userID exerciseID).

Definition own_commit (commitID userID : Z) (t : Tables) : option SubmissionRow :=
  r ← t_commits t !! commitID; if decide (su_user r = userID) then Some r else None.

Definition VerifyMyCommit (commitID userID : Z) : svc unit :=
  row ← query fault ErrServer (own_commit commitID userID);
  match row with None => fail ErrCommitNotFound | Some _ => mret tt end.

Record CommitSource := mk_source { cs_Filename : string; cs_ContentType : string; cs_Body : string }.

Definition GetMySubmissionSource (commitID userID : Z) : act CommitSource :=
  row ← on_db (query fault ErrServer (own_commit commitID userID));
  match row with
  | None => fail ErrCommitNotFound
  | Some r =>
      if decide (has_key r) then
        let key := default "" (su_s3_key r) in
        found ← getObject fault "commits" key;
        match found with
        | None => fail ErrCommitSourceNotFound
        | Some o =>
            mret (mk_source (path_base key)
              (if String.eqb (ob_type o) "" then "application/octet-stream" else ob_type o) (ob_data o))
        end
      else fail ErrCommitNotFound
  end.

(** ** The handlers *)

(** [user] is [None] without a usable token; [id] is the path parameter. *)
Definition ListSubmissionHistory (user : option Z) (id : string) : conn Tables -> response (list SubmissionSummary) :=
  fun c =>
    match user with
    | None => refuse 401 BNone
    | Some userID =>
        match parse_int id with
        | Some exerciseID =>
            if exerciseID <=? 0 then refuse 400 (BMessage "invalid exercise id")
            else match ListMyExerciseSubmissions exerciseID userID c with
            | (_, Err e) => writeServiceError e
            | (_, Ok l) => mk_response 200 None (inr l)
            end
        | None => refuse 400 (BMessage "invalid exercise id")
        end
    end.

Definition source_type (filename contentType : string) : string :=
  let contentType :=
    if String.eqb contentType "" || String.eqb contentType "application/octet-stream" then
      let inferred := mime_type (to_lower (path_ext filename)) in
      if String.eqb inferred "" then contentType else inferred
    else contentType in
  if String.eqb contentType "" then "text/plain; charset=utf-8" else contentType.

(** The headers' type and name with the body. *)
Definition GetSubmissionSource (user : option Z) (id : string) : world -> response CommitSource := fun w =>
  match user with
  | None => refuse 401 BNone
  | Some userID =>
      match parse_int id with
      | Some commitID =>
          if commitID <=? 0 then refuse 400 (BMessage "invalid commit id")
          else match GetMySubmissionSource commitID userID w with
          | (_, Err ErrCommitNotFound) => refuse 404 (BService ErrCommitNotFound)
          | (_, Err ErrCommitSourceNotFound) => refuse 404 (BService ErrCommitSourceNotFound)
          | (_, Err e) => writeServiceError e
          | (_, Ok s) => mk_response 200 None (inr (mk_source (cs_Filename s)
                           (source_type (cs_Filename s) (cs_ContentType s)) (cs_Body s)))
          end
      | None => refuse 400 (BMessage "invalid commit id")
      end
  end.

(** The [{id}] of a route about one of the caller's submissions. *)
Definition ownedCommitID (user : option Z) (id : string) : conn Tables -> response Empty_set + Z := fun c =>
  match user with
  | None => inl (refuse 401 BNone)
  | Some userID =>
      match parse_int id with
      | Some commitID =>
          if commitID <=? 0 then inl (refuse 400 (BMessage "invalid commit id"))
          else match VerifyMyCommit commitID userID c with
          | (_, Ok _) => inr commitID
          | (_, Err ErrCommitNotFound) => inl (refuse 404 (BService ErrCommitNotFound))
          | (_, Err e) => inl (writeServiceError e)
          end
      | None => inl (refuse 400 (BMessage "invalid commit id"))
      end
  end.
End History.
