(* ===== verification/Submission.v ===== *)
(** * Submitting a program

    [src/backend/services/submissions-service.go] and [submissions-validation.go]: who
    may submit what, when, and how a submission becomes a queued commit with its
    source object and its frozen limits, and [CreateSubmission] of
    [src/backend/handlers/submissions-handler.go]. The judge's readiness
    and the two clocks (PostgreSQL's [now()] and the
    process's) are arguments; a wake-up's answer is only
    logged. What the judge would find in the database when it is woken is recorded
    with the call. *)

From S2P Require Import Prelude Effects GoStrings Sql Catalog Limits TestCases Objects History.
From S2P Require CommitDb.
Local Open Scope Z_scope.

(** ** The file *)

Record allowedFileType := mk_file_type { ft_id : Z; ft_extension : string }.

Section FileTypes.
Context {UT : UnicodeTables}.

Definition filenameMatchesExtension (filename extension : string) : bool :=
  let name := to_lower (trim_space filename) in
  let ext := to_lower (trim_space extension) in
  if String.eqb ext "" then false else String.eqb name ext || has_suffix ("." +:+ ext) name.

(** [c] is a better match than [b]: longer, or as long with a smaller id. *)
Definition more_specific (c b : allowedFileType) : Prop :=
  (String.length (ft_extension b) < String.length (ft_extension c))%nat \/
  (String.length (ft_extension b) = String.length (ft_extension c) /\ ft_id c < ft_id b).
#[export] Instance more_specific_dec : RelDecision more_specific := fun c b => _.

Definition best_type (filename : string) (allowed : list allowedFileType) : option allowedFileType :=
  fold_left (keep_least more_specific)
    (filter (fun c => filenameMatchesExtension filename (ft_extension c)) allowed) None.

Definition bestFileTypeMatch (filename : string) (allowed : list allowedFileType) : option Z :=
  ft_id <$> best_type filename allowed.
End FileTypes.

Definition safe_rune (r : Z) : bool :=
  in_range 97 122 r || in_range 65 90 r || in_range 48 57 r || (r =? 46) || (r =? 95) || (r =? 45).

(** Every other rune, a broken byte included, becomes an underscore. *)
Definition sanitizeFilename (filename : string) : string :=
  let base := path_base (replace_byte "\" "/" (trim_space filename)) in
  let base := if String.eqb base "" || String.eqb base "." || String.eqb base ".." || String.eqb base "/"
              then "submission" else base in
  let b := String.concat "" ((fun t => if safe_rune (rune_val t) then encode_rune (rune_val t) else "_") <$> runes base) in
  let sanitized := trim_right_bytes "." (trim_left_bytes "." b) in
  if String.eqb sanitized "" then "submission" else sanitized.

(** ** Requests *)

Record SubmissionInput := mk_submission_input {
  si_UserID : Z; si_ExerciseID : Z; si_Filename : string; si_File : string; si_ContentType : string
}.

Definition MaxSubmissionBytes : Z := Z.shiftl 10 20.
Definition MaxPendingSubmissionsPerUser : Z := 2.

(** A call the judge receives. A wake-up comes with the row of that commit other
    connections read at that moment. *)
Inductive judge_call := JReady | JWake (commitID : Z) (row : option SubmissionRow) | JConsume (commitID : Z).

Record site := mk_site { st_world : world; st_calls : list judge_call }.
#[export] Instance site_eta : Settable site := fun s => mk_site (st_world s) (st_calls s).

(** What other connections read: not the writes of an open transaction. *)
Definition visible (w : world) : Tables := default (w_tables w) (w_saved w).

Abbreviation serve A := (eff site svc_error A).

Definition on_world {A} (m : act A) : serve A := fun s =>
  let '(w, r) := m (st_world s) in (s <| st_world := w |>, r).
Definition call_judge (c : world -> judge_call) : serve unit :=
  modify (fun s => s <| st_calls := st_calls s ++ [c (st_world s)] |>).


Definition pendingStatuses : list string := ["pending"; "queued"; "compiling"; "running"].

(** The row [validateExercise] scans: expired, enrolled, is_owner, enroll_role,
    open_date, show_before. *)
Record submit_access := mk_submit_access {
  sa_expired : bool; sa_enrolled : bool; sa_isOwner : bool; sa_role : string; sa_open : Z; sa_showBefore : bool
}.

Definition submit_row (db_now exerciseID userID : Z) (t : Tables) : option submit_access :=
  e ← t_exercises t !! exerciseID;
  if ex_removed e then None
  else
    o ← t_offerings t !! ex_offering e;
    let en := en ← enrollment_of t (ex_offering e) userID; if en_banned en then None else Some en in
    Some (mk_submit_access (bool_decide (ex_deadline e < db_now)) (bool_decide (is_Some en))
            (bool_decide (of_owner o = Some userID)) (from_option en_role "" en) (ex_open_date e) (ex_show_before e)).

Definition sa_staff (a : submit_access) : bool := sa_isOwner a || String.eqb (sa_role a) EnrollmentRoleProfessor.

Definition pending_of (userID : Z) (t : Tables) : Z :=
  Z.of_nat (length (filter (fun x : Z * SubmissionRow => su_user x.2 = userID /\ su_status x.2 ∈ pendingStatuses)
                      (map_to_list (t_commits t)))).
Definition queued_rows (t : Tables) : Z :=
  Z.of_nat (length (filter (fun x : Z * SubmissionRow => su_status x.2 = "queued") (map_to_list (t_commits t)))).

(** The exercise's own allowed types that are available, in no particular order. *)
Definition allowed_types (exerciseID : Z) (t : Tables) : list allowedFileType :=
  omap (fun '(ex, l) =>
    if decide (ex = exerciseID) then
      la ← t_languages t !! l; if la_available la then Some (mk_file_type l (la_extension la)) else None
    else None) (elements (t_allowed t)).

Definition commits_bucket := "commits".

Definition insert_commit (id : Z) (row : SubmissionRow) (t : Tables) : option Tables :=
  if bool_decide (is_Some (t_exercises t !! su_exercise row)) &&
     from_option (fun l => bool_decide (is_Some (t_languages t !! l))) true (su_language row) &&
     CommitDb.pg_text (default "" (su_s3_key row)) && bool_decide (t_commits t !! id = None)
  then Some (t <| t_commits := <[id := row]> (t_commits t) |>) else None.

Section Submission.
Context {UT : UnicodeTables} (fault : nat -> bool) (platform : Limits) (uuid : nat -> string).
Context (order : list allowedFileType -> list allowedFileType).
Context (db_now now MaxQueueDepth : Z) (ready : bool).

Local Abbreviation db m := (on_world (on_db m)).

Definition buildCommitKey (w : world) (filename : string) : string :=
  uuid (w_sent w) +:+ "/" +:+ sanitizeFilename filename.

(** Parameters out of the range of the [int] columns are an error. *)
Definition validateExercise (exerciseID userID : Z) : svc unit :=
  row ← statement fault ErrServer (fun t =>
    if CommitDb.int4 exerciseID && CommitDb.int4 userID then Some (t, submit_row db_now exerciseID userID t) else None);
  match row with
  | None => fail ErrExerciseNotFound
  | Some a =>
      if negb (sa_enrolled a) && negb (sa_isOwner a) then fail ErrNotEnrolled
      else if negb (sa_staff a) && negb (sa_showBefore a) && (now <? sa_open a) then fail ErrExerciseNotFound
      else if sa_expired a && negb (sa_staff a) then fail ErrDeadlinePassed
      else mret tt
  end.

(** [None]: any file is accepted, and the commit has no language. *)
Definition resolveFileType (exerciseID : Z) (filename : string) : svc (option Z) :=
  allowed ← query fault ErrServer (fun t => order (allowed_types exerciseID t));
  match allowed with
  | [] => mret None
  | _ => match bestFileTypeMatch filename allowed with Some id => mret (Some id) | None => fail ErrInvalidFileType end
  end.

Definition checkSubmissionAdmission (userID : Z) : svc unit :=
  pending ← query fault ErrServer (pending_of userID);
  if MaxPendingSubmissionsPerUser <=? pending then fail ErrSubmissionLimit
  else
    queued ← query fault ErrServer queued_rows;
    if MaxQueueDepth <=? queued then fail ErrQueueFull else mret tt.

Definition deleteSourceBestEffort (key : string) : act unit := best_effort (delete_object fault commits_bucket key).

(** The statements between [BeginTx] and [Commit]. *)
Definition register_commit (inp : SubmissionInput) (key : string) (fileType : option Z) : act Z :=
  commitID ← or_else
    (id ← next_id "commits";
     _ ← on_db (exec fault ErrServer (insert_commit id
           (mk_submission (si_UserID inp) (si_ExerciseID inp) "queued" (Some key) fileType db_now)));
     mret id) (deleteSourceBestEffort key);
  _ ← or_else (on_db (SnapshotCommitLimits fault platform [commitID])) (deleteSourceBestEffort key);
  _ ← or_else (commit_tx fault) (deleteSourceBestEffort key);
  mret commitID.

Definition CreateSubmission (inp : SubmissionInput) : serve Z :=
  _ ← db (validateExercise (si_ExerciseID inp) (si_UserID inp));
  _ ← db (validateTestCases fault (si_ExerciseID inp));
  fileType ← db (resolveFileType (si_ExerciseID inp) (si_Filename inp));
  _ ← db (checkSubmissionAdmission (si_UserID inp));
  _ ← call_judge (fun _ => JReady);
  if negb ready then fail ErrJudgeUnavailable
  else
    key ← on_world (gets (fun w => buildCommitKey w (si_Filename inp)));
    _ ← on_world (put_object fault commits_bucket key (mk_object (si_File inp) (si_ContentType inp)));
    _ ← on_world (or_else (begin_tx fault) (deleteSourceBestEffort key));
    commitID ← on_world (finally (register_commit inp key fileType) rollback);
    _ ← call_judge (fun w => JWake commitID (t_commits (visible w) !! commitID));
    _ ← call_judge (fun _ => JConsume commitID);
    mret commitID.

(** ** The handler *)

(** What [ParseMultipartForm] and [FormFile] make of the body; a file has a name, a
    content type and its bytes. *)
Inductive form := FormTooLarge | FormInvalid | FormRead (exercise_id : string) (file : option (string * string * string)).

Record created := mk_created { cr_CommitID : Z; cr_Number : Z; cr_Status : string; cr_EventsURL : string }.

(** The handler's answer to each error of the service. *)
Definition submission_error {A} (e : svc_error) : response A :=
  match e with
  | ErrExerciseNotFound => refuse 404 (BService e)
  | ErrNotEnrolled => refuse 403 (BService e)
  | ErrDeadlinePassed | ErrNoTestCases => refuse 422 (BService e)
  | ErrInvalidFileType => refuse 400 (BService e)
  | ErrSubmissionLimit => mk_response 429 (Some "30") (inl (BService e))
  | ErrQueueFull => mk_response 503 (Some "30") (inl (BService e))
  | ErrJudgeUnavailable => refuse 503 (BService e)
  | _ => refuse 500 (BService ErrServer)
  end.

(** A number that cannot be read is 0. *)
Definition handle_submission (user : option Z) (f : form) (s : site) : site * response created :=
  match user with
  | None => (s, refuse 401 BNone)
  | Some userID =>
      match f with
      | FormTooLarge => (s, refuse 413 (BMessage "submission file is too large"))
      | FormInvalid => (s, refuse 400 (BMessage "invalid submission payload"))
      | FormRead exercise file =>
          match parse_int exercise with
          | Some exerciseID =>
              if exerciseID <=? 0 then (s, refuse 400 (BMessage "invalid exercise_id"))
              else match file with
              | None => (s, refuse 400 (BMessage "file is required"))
              | Some (name, ty, data) =>
                  if MaxSubmissionBytes <? Z.of_nat (String.length data)
                  then (s, refuse 413 (BMessage "submission file is too large"))
                  else match CreateSubmission (mk_submission_input userID exerciseID name data ty) s with
                  | (s', Err e) => (s', submission_error e)
                  | (s', Ok commitID) =>
                      let '(s'', number) := on_world (on_db (SubmissionNumber fault commitID)) s' in
                      (s'', mk_response 201 None (inr (mk_created commitID
                              match number with Ok n => n | Err _ => 0 end "queued"
                              ("/api/v1/submissions/" +:+ fmt_int commitID +:+ "/events"))))
                  end
              end
          | None => (s, refuse 400 (BMessage "invalid exercise_id"))
          end
      end
  end.
End Submission.
