(* ===== verification/SubmissionProofs.v ===== *)
(** * What a submission promises

    The stored name is safe and is the one the judge reads back; a submission is
    registered completely or not at all, and the judge is woken only for a commit it
    can see; with healthy services it is accepted exactly when [admissible] says. *)

From S2P Require Import Prelude Effects GoStrings GoPath Sql Catalog Limits LimitsProofs TestCases Objects History Submission.
From S2P Require CommitDb.
Local Open Scope Z_scope.

(** ** The stored name *)

Definition safe_byte (a : ascii) : bool := safe_rune (b2z a).

Lemma encode_safe r : safe_rune r = true -> all_bytes safe_byte (encode_rune r) = true.
Proof.
  intros H. assert (0 <= r < 128) as Hr.
  { unfold safe_rune, in_range in H. lia. }
  unfold encode_rune. replace (r <? 128) with true by lia. cbn. unfold safe_byte.
  replace (b2z (z2b r)) with r; [by rewrite H|]. unfold b2z, z2b. rewrite N_ascii_embedding by lia. lia.
Qed.

Lemma all_bytes_concat p l : Forall (fun s => all_bytes p s = true) l -> all_bytes p (String.concat "" l) = true.
Proof.
  induction 1 as [|s l Hs _ IH]; [done|]. destruct l as [|s' l]; [done|].
  change (String.concat "" (s :: s' :: l)) with (s +:+ "" +:+ String.concat "" (s' :: l)).
  by rewrite all_bytes_app, Hs.
Qed.

Lemma trim_left_all p c s : all_bytes p s = true -> all_bytes p (trim_left_bytes c s) = true.
Proof.
  induction s as [|a s IH]; cbn; [done|]. intros [Ha Hs]%andb_true_iff.
  destruct (Ascii.eqb a c); [by apply IH|]. cbn. by rewrite Ha.
Qed.

Lemma trim_right_all p c s : all_bytes p s = true -> all_bytes p (trim_right_bytes c s) = true.
Proof.
  induction s as [|a s IH]; cbn; [done|]. intros [Ha Hs]%andb_true_iff.
  destruct (_ && _); [done|]. cbn. by rewrite Ha, IH.
Qed.

Definition starts_with (c : ascii) (s : string) : Prop := exists r, s = String c r.
Definition ends_with (c : ascii) (s : string) : Prop := exists r, s = r +:+ str1 c.

Lemma trim_left_start c s : ~ starts_with c (trim_left_bytes c s).
Proof.
  induction s as [|a s IH]; cbn; [by intros [? [=]]|].
  destruct (Ascii.eqb_spec a c); [done|]. by intros [? [= ? ?]].
Qed.

Lemma trim_right_end c s : ~ ends_with c (trim_right_bytes c s).
Proof.
  induction s as [|a s IH]; cbn; [by intros [[] [=]]|].
  destruct (Ascii.eqb_spec a c) as [->|Hn]; cbn.
  - destruct (String.eqb_spec (trim_right_bytes c s) "") as [E|E]; [by intros [[] [=]]|].
    intros [[|b r] [=]]; [by destruct E|]. apply IH. by exists r.
  - intros [[|b r] [=]]; [done|]. apply IH. by exists r.
Qed.

Lemma trim_right_start c d s : starts_with c (trim_right_bytes d s) -> starts_with c s.
Proof.
  destruct s as [|a s]; cbn; [done|]. destruct (_ && _); [by intros [? [=]]|].
  intros [r [= -> _]]. by exists s.
Qed.

Lemma trim_left_id c s : ~ starts_with c s -> trim_left_bytes c s = s.
Proof. destruct s as [|a s]; [done|]. intros H. cbn. destruct (Ascii.eqb_spec a c) as [->|]; [|done]. destruct H. by exists s. Qed.

Lemma trim_right_id c s : ~ ends_with c s -> trim_right_bytes c s = s.
Proof.
  induction s as [|a s IH]; [done|]. intros H. cbn. rewrite IH.
  - destruct (Ascii.eqb_spec a c) as [->|]; [|done]. cbn. destruct (String.eqb_spec s "") as [->|]; [|done].
    destruct H. by exists "".
  - intros [r ->]. apply H. by exists (String a r).
Qed.

(** A base name of letters, digits, dots, underscores and dashes that neither starts
    nor ends with a dot. *)
Definition good_name (s : string) : Prop :=
  s <> "" /\ all_bytes safe_byte s = true /\ ~ starts_with "." s /\ ~ ends_with "." s.

Lemma good_name_submission : good_name "submission".
Proof. split_and!; [done|done|by intros [? [=]]|]. intros [r H%(f_equal (count_byte "."))]. rewrite count_byte_app in H. cbn in H. lia. Qed.

(** Whatever the client calls its file. *)
Lemma sanitizeFilename_good filename : good_name (sanitizeFilename filename).
Proof.
  unfold sanitizeFilename. set (b := String.concat "" _).
  assert (all_bytes safe_byte b = true) as Hb.
  { unfold b. apply all_bytes_concat, Forall_fmap, Forall_true. intros t. cbn.
    destruct (safe_rune (rune_val t)) eqn:E; [by apply encode_safe|done]. }
  destruct (String.eqb_spec (trim_right_bytes "." (trim_left_bytes "." b)) "") as [E|E]; [apply good_name_submission|].
  split_and!; [done|by apply trim_right_all, trim_left_all| |apply trim_right_end].
  intros H%trim_right_start. by apply trim_left_start in H.
Qed.

Lemma safe_byte_runes s : all_bytes safe_byte s = true ->
  String.concat "" ((fun t => if safe_rune (rune_val t) then encode_rune (rune_val t) else "_") <$> runes s) = s.
Proof.
  induction s as [|a s IH]; [done|]. cbn [all_bytes]. intros [Ha Hs]%andb_true_iff. specialize (IH Hs).
  unfold safe_byte in Ha. assert (0 <= b2z a < 128) as Hr by (unfold safe_rune, in_range in Ha; lia).
  cbn [runes]. replace (b2z a <? 128) with true by lia. cbn [fmap list_fmap rune_val]. rewrite Ha.
  unfold encode_rune at 1. replace (b2z a <? 128) with true by lia.
  assert (z2b (b2z a) = a) as ->. { unfold z2b, b2z. rewrite N2Z.id. apply ascii_N_embedding. }
  destruct (runes s) as [|t ts] eqn:E; [cbn in *; by rewrite <- IH|]. cbn in *. by rewrite IH.
Qed.

Lemma safe_plain s : all_bytes safe_byte s = true -> plain s.
Proof. apply all_bytes_impl. intros [[][][][][][][][]]; vm_compute; congruence. Qed.

Lemma replace_byte_none c r s : no_byte c s -> replace_byte c r s = s.
Proof. induction s as [|a s IH]; [done|]. intros [Ha Hs]%no_byte_cons. cbn. rewrite IH by done. by destruct (Ascii.eqb_spec a c). Qed.

Lemma path_base_none s : s <> "" -> no_byte "/" s -> path_base s = s.
Proof.
  intros He Hs. unfold path_base. destruct (String.eqb_spec s ""); [done|].
  rewrite trim_right_id; [|intros [r E]; rewrite E in Hs; by apply no_byte_app in Hs as [_ [? _]%no_byte_cons]].
  rewrite last_component_none by done. by destruct (String.eqb_spec s "").
Qed.

(** A good name is stored as it is. *)
Lemma sanitizeFilename_id s : good_name s -> sanitizeFilename s = s.
Proof.
  intros (He & Hs & Hb & Hl). unfold sanitizeFilename.
  rewrite trim_space_plain by by apply safe_plain.
  rewrite replace_byte_none by by apply (all_bytes_no_byte safe_byte).
  rewrite path_base_none; [|done|by apply (all_bytes_no_byte safe_byte)].
  assert (forall r, s <> String "." r) as Hd by (intros r ->; apply Hb; by exists r).
  destruct (String.eqb_spec s ""); [done|]. destruct (String.eqb_spec s "."); [by destruct (Hd "")|].
  destruct (String.eqb_spec s ".."); [by destruct (Hd ".")|].
  destruct (String.eqb_spec s "/") as [->|]; [done|]. cbn [orb].
  rewrite safe_byte_runes, trim_left_id, trim_right_id by done. by destruct (String.eqb_spec s "").
Qed.

(** The judge reads back the name the backend stored. *)
Lemma stored_filename uuid name : good_name name -> JudgeModel.baseName (uuid +:+ "/" +:+ name) = name.
Proof. intros (_ & Hs & _). apply last_component_app. by apply (all_bytes_no_byte safe_byte). Qed.

(** ** What happens on the way *)

(** The request changes nothing but the count of what was sent. *)
Definition still (w0 w : world) : Prop :=
  w_tables w = w_tables w0 /\ w_objects w = w_objects w0 /\ w_saved w = w_saved w0 /\ w_next w = w_next w0.

Lemma still_refl w : still w w.
Proof. done. Qed.

Lemma still_sent w0 w : still w0 w -> still w0 (sent w).
Proof. by intros (? & ? & ? & ?). Qed.

Lemma still_read w0 w : still w0 w -> still w0 (set_tables (w_tables w) (sent w)).
Proof. by intros (? & ? & ? & ?). Qed.
#[local] Hint Resolve still_refl still_sent still_read : core.

Lemma wp_on_world {A} (m : act A) (Q : A -> site -> Prop) R s :
  wp m (fun a w => Q a (s <| st_world := w |>)) (fun e w => R e (s <| st_world := w |>)) (st_world s) ->
  wp (on_world m) Q R s.
Proof. unfold wp, on_world. by destruct (m (st_world s)) as [w [a|e]]. Qed.

Lemma wp_on_db_bind {A B} (m : svc A) (k : A -> svc B) (Q : B -> world -> Prop) R w :
  wp (on_db m) (fun a => wp (on_db (k a)) Q R) R w -> wp (on_db (m ≫= k)) Q R w.
Proof.
  unfold wp, on_db, mbind, eff_bind. destruct w as [c sv os nx]. cbn. destruct (m c) as [c' [a|e]]; [|done].
  cbn. by destruct (k a c') as [c'' [?|?]].
Qed.

Lemma wp_on_db_ret {A} (a : A) (Q : A -> world -> Prop) R w : Q a w -> wp (on_db (mret a)) Q R w.
Proof. by destruct w. Qed.

Lemma wp_on_db_fail {A} e (Q : A -> world -> Prop) R w : R e w -> wp (on_db (fail e)) Q R w.
Proof. by destruct w. Qed.

Lemma wp_begin (fault : nat -> bool) (Q : unit -> world -> Prop) R w :
  (fault (w_sent w) = true -> R ErrServer (sent w)) -> Q tt (sent w <| w_saved := Some (w_tables w) |>) ->
  wp (begin_tx fault) Q R w.
Proof. unfold wp, begin_tx. intros H1 H2. destruct (fault (w_sent w)); [by apply H1|done]. Qed.

(** A query, with the cause of its failure. *)
Lemma wp_ask {A} (fault : nat -> bool) w0 (f : Tables -> A) (Q : A -> world -> Prop) R w :
  still w0 w -> (forall w', still w0 w' -> (exists n, fault n = true) -> R ErrServer w') ->
  (forall w', still w0 w' -> Q (f (w_tables w0)) w') -> wp (on_db (query fault ErrServer f)) Q R w.
Proof.
  intros Hw HR HQ. pose proof Hw as (Et & _). apply wp_statement; [intros Hf; apply HR; eauto|].
  rewrite Et. apply HQ. rewrite <- Et. by apply still_read.
Qed.

(** ** Who may submit what *)

Section Rules.
Context {UT : UnicodeTables} (db_now now MaxQueueDepth : Z) (ready : bool) (t : Tables) (inp : SubmissionInput).

Definition class_of (e : ExerciseRow) (o : OfferingRow) : Prop :=
  t_exercises t !! si_ExerciseID inp = Some e /\ ex_removed e = false /\ t_offerings t !! ex_offering e = Some o.
Definition owns (o : OfferingRow) : Prop := of_owner o = Some (si_UserID inp).
Definition member (e : ExerciseRow) (role : string) : Prop :=
  exists en, enrollment_of t (ex_offering e) (si_UserID inp) = Some en /\ en_banned en = false /\ en_role en = role.
Definition staff (e : ExerciseRow) (o : OfferingRow) : Prop := owns o \/ member e EnrollmentRoleProfessor.
Definition belongs (e : ExerciseRow) (o : OfferingRow) : Prop := owns o \/ exists role, member e role.
Definition has_case (e : ExerciseRow) : Prop :=
  exists tc row, t_cases t !! tc = Some row /\ ca_exercise row = owning_exercise (si_ExerciseID inp) e.
Definition matches (c : allowedFileType) : Prop := filenameMatchesExtension (si_Filename inp) (ft_extension c) = true.

(** The longest allowed extension the name has. *)
Definition chosen_type (language : option Z) : Prop :=
  (allowed_types (si_ExerciseID inp) t = [] /\ language = None) \/
  exists c, c ∈ allowed_types (si_ExerciseID inp) t /\ matches c /\ language = Some (ft_id c) /\
    forall c', c' ∈ allowed_types (si_ExerciseID inp) t -> matches c' -> ~ more_specific c' c.

Definition admissible (language : option Z) : Prop :=
  (exists e o, class_of e o /\ belongs e o /\ has_case e /\
     (staff e o \/ ((ex_show_before e = true \/ ex_open_date e <= now) /\ db_now <= ex_deadline e))) /\
  chosen_type language /\ pending_of (si_UserID inp) t < MaxPendingSubmissionsPerUser /\
  queued_rows t < MaxQueueDepth /\ ready = true.

Inductive refusal : svc_error -> Prop :=
| no_exercise : (forall e o, ~ class_of e o) -> refusal ErrExerciseNotFound
| stranger e o : class_of e o -> ~ belongs e o -> refusal ErrNotEnrolled
| not_open e o : class_of e o -> ~ staff e o -> ex_show_before e = false -> now < ex_open_date e ->
    refusal ErrExerciseNotFound
| late e o : class_of e o -> ~ staff e o -> ex_deadline e < db_now -> refusal ErrDeadlinePassed
| no_cases e o : class_of e o -> ~ has_case e -> refusal ErrNoTestCases
| wrong_type : allowed_types (si_ExerciseID inp) t <> [] ->
    (forall c, c ∈ allowed_types (si_ExerciseID inp) t -> ~ matches c) -> refusal ErrInvalidFileType
| too_many : MaxPendingSubmissionsPerUser <= pending_of (si_UserID inp) t -> refusal ErrSubmissionLimit
| queue_full : MaxQueueDepth <= queued_rows t -> refusal ErrQueueFull
| judge_down : ready = false -> refusal ErrJudgeUnavailable.

Lemma class_of_unique e o e' o' : class_of e o -> class_of e' o' -> e' = e /\ o' = o.
Proof. unfold class_of. intros (H1 & _ & H2) (H3 & _ & H4). by simplify_eq. Qed.

Lemma refusal_excludes er language : refusal er -> ~ admissible language.
Proof.
  intros H ((e & o & Hc & Hb & Hcase & Hopen) & Ht & Hp & Hq & Hr).
  destruct H as [H|e' o' Hc' H|e' o' Hc' Hs H1 H2|e' o' Hc' Hs H1|e' o' Hc' H|H1 H2|H|H|H]; try lia.
  - by eapply H.
  - by destruct (class_of_unique _ _ _ _ Hc Hc') as [-> ->].
  - destruct (class_of_unique _ _ _ _ Hc Hc') as [-> ->]. destruct Hopen as [?|[[?|?] _]]; [done|congruence|lia].
  - destruct (class_of_unique _ _ _ _ Hc Hc') as [-> ->]. destruct Hopen as [?|[_ ?]]; [done|lia].
  - by destruct (class_of_unique _ _ _ _ Hc Hc') as [-> ->].
  - destruct Ht as [[? _]|(c & ? & ? & _)]; [done|by eapply H2].
  - congruence.
Qed.
End Rules.

Lemma best_type_spec {UT : UnicodeTables} filename l :
  match best_type filename l with
  | None => forall c, c ∈ l -> filenameMatchesExtension filename (ft_extension c) = false
  | Some p => p ∈ l /\ filenameMatchesExtension filename (ft_extension p) = true /\
      forall c, c ∈ l -> filenameMatchesExtension filename (ft_extension c) = true -> ~ more_specific c p
  end.
Proof.
  unfold best_type. induction l as [|x l IH] using rev_ind; [set_solver|].
  rewrite filter_app, filter_cons, filter_nil, fold_left_app. destruct (fold_left _ (filter _ l) None) as [p|].
  - destruct IH as (Hp & Hm & Hl). case_decide as Hx; cbn [fold_left keep_least].
    + apply Is_true_true in Hx. case_decide as Hs; (split_and!; [set_solver|done|]).
      * intros c [Hc| ->%list_elem_of_singleton]%elem_of_app Hcm; [|unfold more_specific; lia].
        specialize (Hl c Hc Hcm). unfold more_specific in *. lia.
      * intros c [Hc| ->%list_elem_of_singleton]%elem_of_app Hcm; [by apply Hl|done].
    + split_and!; [set_solver|done|]. intros c [Hc| ->%list_elem_of_singleton]%elem_of_app Hcm; [by apply Hl|].
      by rewrite Hcm in Hx.
  - case_decide as Hx; cbn [fold_left keep_least].
    + apply Is_true_true in Hx. split_and!; [set_solver|done|].
      intros c [Hc| ->%list_elem_of_singleton]%elem_of_app Hcm; [|unfold more_specific; lia].
      rewrite (IH c Hc) in Hcm. done.
    + intros c [Hc| ->%list_elem_of_singleton]%elem_of_app; [by apply IH|]. by destruct (filenameMatchesExtension _ _).
Qed.

(** ** The steps before anything is written *)

Section Steps.
Context {UT : UnicodeTables} (fault : nat -> bool) (platform : Limits) (uuid : nat -> string).
Context (order : list allowedFileType -> list allowedFileType) (db_now now MaxQueueDepth : Z) (ready : bool).
Context (Horder : forall l, order l ≡ₚ l).
Context (w0 : world) (inp : SubmissionInput).

Let t := w_tables w0.
Let refusal := refusal db_now now MaxQueueDepth ready t inp.

(** Nothing else stands in the way: the services answer, and every value has a place
    in its column. *)
Definition healthy : Prop :=
  (forall n, fault n = false) /\ CommitDb.int4 (si_ExerciseID inp) = true /\ CommitDb.int4 (si_UserID inp) = true /\
  next_value w0 "commits" < 2 ^ 31 /\ t_commits t !! next_value w0 "commits" = None /\ limits_fit platform = true /\
  forall n, CommitDb.pg_text (uuid n) = true.

Definition refused (er : svc_error) : Prop := (er = ErrServer /\ ~ healthy) \/ refusal er.

Lemma refused_fault : (exists n, fault n = true) -> refused ErrServer.
Proof. intros [n Hn]. left. split; [done|]. intros [Hf _]. congruence. Qed.
#[local] Hint Resolve refused_fault : core.

Definition allowed_in (e : ExerciseRow) (o : OfferingRow) : Prop :=
  class_of t inp e o /\ belongs t inp e o /\
  (staff t inp e o \/ ((ex_show_before e = true \/ ex_open_date e <= now) /\ db_now <= ex_deadline e)).

(** The row the access query selects, in the words of the rules. *)
Lemma submit_row_spec :
  match submit_row db_now (si_ExerciseID inp) (si_UserID inp) t with
  | None => forall e o, ~ class_of t inp e o
  | Some a => exists e o, class_of t inp e o /\
      (sa_enrolled a || sa_isOwner a = true <-> belongs t inp e o) /\ (sa_staff a = true <-> staff t inp e o) /\
      sa_open a = ex_open_date e /\ sa_showBefore a = ex_show_before e /\
      sa_expired a = bool_decide (ex_deadline e < db_now)
  end.
Proof.
  unfold submit_row, class_of. destruct (t_exercises t !! si_ExerciseID inp) as [e|] eqn:Ee; cbn; [|by intros e o ([=] & _)].
  destruct (ex_removed e) eqn:Er; [intros e' o' ([= <-] & ? & _); congruence|].
  destruct (t_offerings t !! ex_offering e) as [o|] eqn:Eo; cbn; [|intros e' o' ([= <-] & _ & ?); congruence].
  exists e, o. cbn. split; [done|]. unfold belongs, sa_staff, staff, member, owns. cbn.
  rewrite !orb_true_iff, !bool_decide_eq_true.
  destruct (enrollment_of t (ex_offering e) (si_UserID inp)) as [en|]; cbn; [destruct (en_banned en) eqn:Eb; cbn|];
    rewrite ?String.eqb_eq; (split_and!; [| |done..]).
  - split; [intros [H|H]; [destruct H; discriminate|by left]|intros [H|(r & en' & [= <-] & H & _)]; [by right|congruence]].
  - split; [intros [H|[=]]; by left|intros [H|(en' & [= <-] & H & _)]; [by left|congruence]].
  - split; [intros [H|H]; [right; by eexists _, en|by left]|intros [H|H]; [by right|left; done]].
  - split; [intros [H|H]; [by left|right; by exists en]|intros [H|(en' & [= <-] & _ & H)]; [by left|by right]].
  - split; [intros [H|H]; [destruct H; discriminate|by left]|intros [H|(r & en' & [=] & _)]; by right].
  - split; [intros [H|[=]]; by left|intros [H|(en' & [=] & _)]; by left].
Qed.

Lemma wp_validateExercise (Q : unit -> world -> Prop) R w :
  still w0 w -> (forall er w', still w0 w' -> refused er -> R er w') ->
  (forall e o w', still w0 w' -> allowed_in e o -> Q tt w') ->
  wp (on_db (validateExercise fault db_now now (si_ExerciseID inp) (si_UserID inp))) Q R w.
Proof.
  intros Hw HR HQ. unfold validateExercise. apply wp_on_db_bind, wp_statement; [intros Hf; apply HR; eauto|].
  destruct (_ && _) eqn:Ei; cbn match.
  2:{ apply HR; [auto|]. left. split; [done|]. intros (_ & H1 & H2 & _). by rewrite H1, H2 in Ei. }
  pose proof Hw as (Et & _). rewrite Et. fold t. pose proof submit_row_spec as Hrow.
  assert (still w0 (set_tables t (sent w))) as Hs by (unfold t; rewrite <- Et; auto).
  destruct (submit_row _ _ _ t) as [a|]; [|apply wp_on_db_fail, HR; [done|right; by constructor]].
  destruct Hrow as (e & o & Hc & Hb & Hst & Eo & Esh & Eex).
  destruct (negb (sa_enrolled a) && negb (sa_isOwner a)) eqn:E1.
  { apply wp_on_db_fail, HR; [done|right]. eapply stranger; [done|]. intros [?|?]%Hb%orb_true_iff; by destruct (sa_enrolled a), (sa_isOwner a). }
  assert (belongs t inp e o) as Hbel by (apply Hb; by destruct (sa_enrolled a), (sa_isOwner a)).
  destruct (negb (sa_staff a) && negb (sa_showBefore a) && (now <? sa_open a)) eqn:E2.
  { apply wp_on_db_fail, HR; [done|right]. apply andb_true_iff in E2 as [[E2 E2']%andb_true_iff E2''].
    eapply (not_open _ _ _ _ _ _ e o); [done|intros H%Hst; by rewrite H in E2| |lia].
    rewrite <- Esh. by destruct (sa_showBefore a). }
  destruct (sa_expired a && negb (sa_staff a)) eqn:E3.
  { apply wp_on_db_fail, HR; [done|right]. apply andb_true_iff in E3 as [E3 E4]. rewrite Eex in E3.
    apply bool_decide_eq_true in E3. eapply (late _ _ _ _ _ _ e o); [done|intros H%Hst|done]. by rewrite H in E4. }
  apply wp_on_db_ret, (HQ e o); [done|]. split; [done|]. split; [done|].
  destruct (sa_staff a) eqn:E4; [left; by apply Hst|right]. rewrite andb_true_r, Eex in E3.
  apply bool_decide_eq_false in E3. split; [|lia]. rewrite <- Esh, <- Eo. destruct (sa_showBefore a); [by left|right].
  cbn in E2. lia.
Qed.

Lemma exercise_cases_pos e o : class_of t inp e o -> 0 <> exercise_cases (si_ExerciseID inp) t <-> has_case t inp e.
Proof.
  intros (He & _). unfold exercise_cases, has_case. rewrite He. split.
  - intros H. destruct (filter _ _) as [|[tc row] l] eqn:El; [cbn in H; lia|]. exists tc, row.
    assert ((tc, row) ∈ (tc, row) :: l) as Hin by left. rewrite <- El in Hin.
    apply list_elem_of_filter in Hin as [? Hin%elem_of_map_to_list]. done.
  - intros (tc & row & H1 & H2).
    assert ((tc, row) ∈ filter (fun x : Z * CaseRow => ca_exercise x.2 = owning_exercise (si_ExerciseID inp) e)
              (map_to_list (t_cases t))) as Hin by by apply list_elem_of_filter; rewrite elem_of_map_to_list.
    destruct (filter _ _); [by apply elem_of_nil in Hin|cbn; lia].
Qed.

Lemma wp_validateTestCases e o (Q : unit -> world -> Prop) R w :
  still w0 w -> allowed_in e o -> (forall er w', still w0 w' -> refused er -> R er w') ->
  (forall w', still w0 w' -> has_case t inp e -> Q tt w') ->
  wp (on_db (validateTestCases fault (si_ExerciseID inp))) Q R w.
Proof.
  intros Hw (Hc & _) HR HQ. apply wp_on_db_bind, (wp_ask _ w0); [done|intros; apply HR; auto|]. intros w' Hw'. fold t.
  destruct (exercise_cases _ t =? 0) eqn:E.
  - apply wp_on_db_fail, HR; [done|right]. eapply no_cases; [done|]. intros H%(exercise_cases_pos _ _ Hc). lia.
  - apply wp_on_db_ret, HQ; [done|]. apply (exercise_cases_pos _ _ Hc). lia.
Qed.

Lemma wp_resolveFileType (Q : option Z -> world -> Prop) R w :
  still w0 w -> (forall er w', still w0 w' -> refused er -> R er w') ->
  (forall l w', still w0 w' -> chosen_type t inp l -> Q l w') ->
  wp (on_db (resolveFileType fault order (si_ExerciseID inp) (si_Filename inp))) Q R w.
Proof.
  intros Hw HR HQ. apply wp_on_db_bind, (wp_ask _ w0); [done|intros; apply HR; auto|]. intros w' Hw'. fold t.
  pose proof (Horder (allowed_types (si_ExerciseID inp) t)) as Hp.
  destruct (order (allowed_types (si_ExerciseID inp) t)) as [|c l].
  - apply wp_on_db_ret, HQ; [done|]. left. by apply Permutation_nil in Hp.
  - unfold bestFileTypeMatch. pose proof (best_type_spec (si_Filename inp) (c :: l)) as Hb.
    destruct (best_type _ _) as [p|]; cbn [fmap option_fmap option_map].
    + destruct Hb as (Hin & Hm & Hb). apply wp_on_db_ret, HQ; [done|]. right. exists p. unfold matches.
      setoid_rewrite <- Hp. done.
    + apply wp_on_db_fail, HR; [done|right]. apply wrong_type.
      * intros E. rewrite E in Hp. by apply Permutation_nil_r in Hp.
      * unfold matches. setoid_rewrite <- Hp. intros c' Hc'. by rewrite (Hb c' Hc').
Qed.

Lemma wp_checkSubmissionAdmission (Q : unit -> world -> Prop) R w :
  still w0 w -> (forall er w', still w0 w' -> refused er -> R er w') ->
  (forall w', still w0 w' -> pending_of (si_UserID inp) t < MaxPendingSubmissionsPerUser ->
     queued_rows t < MaxQueueDepth -> Q tt w') ->
  wp (on_db (checkSubmissionAdmission fault MaxQueueDepth (si_UserID inp))) Q R w.
Proof.
  intros Hw HR HQ. apply wp_on_db_bind, (wp_ask _ w0); [done|intros; apply HR; auto|]. intros w1 Hw1. fold t.
  destruct (_ <=? _) eqn:E; [apply wp_on_db_fail, HR; [done|right; apply too_many; lia]|].
  apply wp_on_db_bind, (wp_ask _ w0); [done|intros; apply HR; auto|]. intros w2 Hw2. fold t.
  destruct (MaxQueueDepth <=? _) eqn:E2; [apply wp_on_db_fail, HR; [done|right; apply queue_full; lia]|].
  apply wp_on_db_ret, HQ; [done|lia..].
Qed.

(** ** Registering the commit *)

Definition commit_row (key : string) (language : option Z) : SubmissionRow :=
  mk_submission (si_UserID inp) (si_ExerciseID inp) "queued" (Some key) language db_now.
Definition with_row (id : Z) (key : string) (language : option Z) : Tables :=
  t <| t_commits := <[id := commit_row key language]> (t_commits t) |>.

(** The tables once the commit is there with its frozen limits. *)
Definition registered (id : Z) (key : string) (language : option Z) : Tables :=
  (with_row id key language)
    <| t_snapshot := t_snapshot t ∪ snapshot_rows platform (with_row id key language) [id] |>.

Definition source : object := typed (mk_object (si_File inp) (si_ContentType inp)).
Definition uploaded (key : string) : objects := <[(commits_bucket, key) := source]> (w_objects w0).

(** Nothing is left, but for an object no row names. *)
Definition undone (key : string) (w : world) : Prop :=
  w_tables w = t /\ w_saved w = None /\ (w_objects w = w_objects w0 \/ w_objects w = uploaded key).

Record in_tx (key : string) (w : world) : Prop := {
  tx_saved : w_saved w = Some t; tx_objects : w_objects w = uploaded key
}.

Lemma wp_drop_source key (P : world -> Prop) w :
  w_objects w0 !! (commits_bucket, key) = None -> w_objects w = uploaded key ->
  (forall w', w_tables w' = w_tables w -> w_saved w' = w_saved w ->
     (w_objects w' = w_objects w0 \/ w_objects w' = uploaded key) -> P w') ->
  wp (deleteSourceBestEffort fault key) (fun _ => P) (fun _ => P) w.
Proof.
  intros Hk Ho HP. apply wp_best_effort, wp_call.
  - intros _. apply HP; [done..|by right].
  - apply HP; [done..|left]. cbn. rewrite Ho. unfold uploaded. by rewrite delete_insert_id.
Qed.

Lemma insert_commit_healthy id key language e o :
  class_of t inp e o -> chosen_type t inp language -> id = next_value w0 "commits" ->
  CommitDb.pg_text key = true -> healthy ->
  insert_commit id (commit_row key language) t = Some (with_row id key language).
Proof.
  intros (He & _) Hl -> Hk (_ & _ & _ & _ & Hid & _). unfold insert_commit, commit_row. cbn.
  rewrite He, Hid, Hk, !bool_decide_true by done. cbn.
  destruct Hl as [[_ ->]|(c & Hc & _ & -> & _)]; [done|]. cbn. rewrite bool_decide_true; [done|].
  unfold allowed_types in Hc. apply list_elem_of_omap in Hc as ([ex l] & _ & Hc).
  case_decide; [|done]. destruct (t_languages t !! l) as [la|] eqn:El; [|done]. cbn in Hc.
  destruct (la_available la); [|done]. injection Hc as <-. cbn. rewrite El. done.
Qed.

Lemma insert_commit_some id row u : insert_commit id row t = Some u ->
  u = t <| t_commits := <[id := row]> (t_commits t) |> /\ t_commits t !! id = None.
Proof.
  unfold insert_commit. destruct (_ && _) eqn:E; [|done]. intros [= <-]. split; [done|].
  apply andb_true_iff in E as [_ E]. by apply bool_decide_eq_true in E.
Qed.

Let id0 := next_value w0 "commits".

Lemma wp_register_commit key language e o (Q : Z -> world -> Prop) R w :
  in_tx key w -> w_tables w = t -> w_next w = w_next w0 ->
  w_objects w0 !! (commits_bucket, key) = None -> class_of t inp e o -> chosen_type t inp language ->
  (healthy -> CommitDb.pg_text key = true) ->
  (forall er w', w_saved w' = Some t \/ w_tables w' = t /\ w_saved w' = None ->
     (w_objects w' = w_objects w0 \/ w_objects w' = uploaded key) -> refused er -> R er w') ->
  (forall w', w_tables w' = registered id0 key language -> w_objects w' = uploaded key -> w_saved w' = None ->
     t_commits t !! id0 = None -> Q id0 w') ->
  wp (register_commit fault platform db_now inp key language) Q R w.
Proof.
  intros [Hsv Ho] Ht Hnx Hfree Hc Hl Hpg HR HQ. unfold register_commit.
  assert (forall er w', w_saved w' = Some t \/ w_tables w' = t /\ w_saved w' = None ->
    w_objects w' = uploaded key -> refused er ->
    wp (deleteSourceBestEffort fault key) (fun _ => R er) (fun _ => R er) w') as Hdrop.
  { intros er w' Hsv' Ho' Hr. apply (wp_drop_source key (R er)); [done..|]. intros w'' E1 E2 Ho''. apply HR; [|done|done]. by rewrite E1, E2. }
  apply wp_bind, wp_or_else, wp_bind. unfold wp at 1, next_id, next_value. rewrite Hnx.
  change (default 1 (w_next w0 !! "commits")) with id0. destruct (id0 <? 2 ^ 31) eqn:Eid.
  2:{ apply Hdrop; [by left|done|]. left. split; [done|]. intros (_ & _ & _ & ? & _). unfold id0 in Eid. lia. }
  apply wp_bind, wp_exec.
  { intros Hf. apply Hdrop; [by left|done|]. apply refused_fault. by eexists. }
  change (w_tables (w <| w_next := _ |>)) with (w_tables w). rewrite Ht. fold (commit_row key language).
  destruct (insert_commit id0 (commit_row key language) t) as [u|] eqn:Ei.
  2:{ apply Hdrop; [by left|done|]. left. split; [done|]. intros Hh.
      by rewrite (insert_commit_healthy id0 key language e o) in Ei by auto. }
  apply insert_commit_some in Ei as [-> Hnone]. fold (with_row id0 key language).
  apply wp_ret, wp_bind, wp_or_else, wp_exec.
  { intros Hf. apply Hdrop; [by left|done|]. apply refused_fault. by eexists. }
  cbn beta. destruct (limits_fit platform) eqn:Efit.
  2:{ apply Hdrop; [by left|done|]. left. split; [done|]. intros (_ & _ & _ & _ & _ & Hfit & _). congruence. }
  apply wp_bind, wp_or_else, wp_commit.
  { intros Hf. set (w1 := sent _). assert (w_saved w1 = Some t) as E1 by exact Hsv.
    apply Hdrop; [right|by unfold rolled_back, rollback; rewrite E1|apply refused_fault; by eexists].
    unfold rolled_back, rollback. by rewrite E1. }
  apply wp_ret, HQ; [|exact Ho|done|done]. unfold registered. by cbn.
Qed.

(** ** The whole request *)

Definition stored_key (n : nat) : string := uuid n +:+ "/" +:+ sanitizeFilename (si_Filename inp).

(** The commit, its source and its frozen limits are there, and the judge was woken
    for a row it can see. *)
Record accepted (calls : list judge_call) (n : nat) (language : option Z) (s' : site) : Prop := {
  ac_rules : admissible db_now now MaxQueueDepth ready t inp language;
  ac_fresh : t_commits t !! id0 = None;
  ac_tables : w_tables (st_world s') = registered id0 (stored_key n) language;
  ac_objects : w_objects (st_world s') = uploaded (stored_key n);
  ac_saved : w_saved (st_world s') = None;
  ac_calls : st_calls s' =
    calls ++ [JReady; JWake id0 (Some (commit_row (stored_key n) language)); JConsume id0]
}.

(** Nothing happened, but for an object no row names. *)
Definition turned_down (calls : list judge_call) (s' : site) : Prop :=
  (exists n, undone (stored_key n) (st_world s')) /\ exists l, l `prefix_of` [JReady] /\ st_calls s' = calls ++ l.

Lemma safe_text s : all_bytes safe_byte s = true -> CommitDb.pg_text s = true.
Proof.
  intros H. unfold CommitDb.pg_text. pose proof (all_bytes_no_byte safe_byte NUL s eq_refl H) as ->.
  rewrite andb_true_r. induction s as [|a s IH]; [done|]. cbn in H. apply andb_true_iff in H as [Ha Hs].
  unfold utf8_valid. cbn [runes]. unfold safe_byte, safe_rune, in_range in Ha. replace (b2z a <? 128) with true by lia.
  by apply IH.
Qed.

Lemma stored_key_text n : healthy -> CommitDb.pg_text (stored_key n) = true.
Proof.
  intros (_ & _ & _ & _ & _ & _ & Hu). specialize (Hu n). unfold stored_key, CommitDb.pg_text in *.
  apply andb_true_iff in Hu as [Hv Hz%Nat.eqb_eq]. apply andb_true_iff. rewrite utf8_valid_app by done.
  destruct (sanitizeFilename_good (si_Filename inp)) as (_ & Hs & _).
  assert (CommitDb.pg_text ("/" +:+ sanitizeFilename (si_Filename inp)) = true) as [H1 H2%Nat.eqb_eq]%andb_true_iff.
  { unfold CommitDb.pg_text. apply andb_true_iff. apply safe_text, andb_true_iff in Hs as [H1 H2%Nat.eqb_eq].
    rewrite utf8_valid_app by done. split; [done|]. apply Nat.eqb_eq. by rewrite count_byte_app, H2. }
  split; [done|]. apply Nat.eqb_eq. by rewrite count_byte_app, Hz, H2.
Qed.

Lemma wp_CreateSubmission s :
  st_world s = w0 -> w_saved w0 = None -> (forall n name, w_objects w0 !! (commits_bucket, uuid n +:+ "/" +:+ name) = None) ->
  wp (CreateSubmission fault platform uuid order db_now now MaxQueueDepth ready inp)
    (fun id s' => id = id0 /\ exists n language, accepted (st_calls s) n language s')
    (fun er s' => refused er /\ turned_down (st_calls s) s') s.
Proof.
  intros Es Hsv Hfree. unfold CreateSubmission. set (R := fun er s' => refused er /\ turned_down (st_calls s) s').
  assert (forall er w, still w0 w -> refused er -> forall c l, l `prefix_of` [JReady] -> c = st_calls s ++ l ->
    R er (mk_site w c)) as Hno.
  { intros er w (E1 & E2 & E3 & _) Hr c l Hl ->. split; [done|]. split; [|by exists l].
    exists 0%nat. split_and!; cbn; [done|by rewrite E3|by left]. }
  assert (st_calls s = st_calls s ++ []) as Hnil by by rewrite app_nil_r.
  apply wp_bind, wp_on_world. rewrite Es. apply wp_validateExercise; [done|intros; eapply (Hno _ _ ltac:(done)); [done|apply prefix_nil|done]|].
  intros e o w1 Hw1 Hin. pose proof Hin as (Hc & Hbel & Hopen).
  apply wp_bind, wp_on_world, (wp_validateTestCases e o); [done|done|intros; eapply (Hno _ _ ltac:(done)); [done|apply prefix_nil|done]|].
  intros w2 Hw2 Hcase. apply wp_bind, wp_on_world, wp_resolveFileType; [done|intros; eapply (Hno _ _ ltac:(done)); [done|apply prefix_nil|done]|].
  intros language w3 Hw3 Hl.
  apply wp_bind, wp_on_world, wp_checkSubmissionAdmission; [done|intros; eapply (Hno _ _ ltac:(done)); [done|apply prefix_nil|done]|].
  intros w4 Hw4 Hp Hq. apply wp_bind. unfold call_judge at 1. apply wp_modify. cbn [st_calls st_world].
  destruct (negb ready) eqn:Er.
  { apply negb_true_iff in Er. apply wp_fail. eapply (Hno _ _ Hw4); [right; by constructor|reflexivity|done]. }
  apply negb_false_iff in Er. assert (admissible db_now now MaxQueueDepth ready t inp language) as Hadm.
  { unfold admissible. split_and!; [by exists e, o|done..]. }
  match goal with |- wp _ _ _ ?x => change x with (mk_site w4 (st_calls s ++ [JReady])) end.
  apply wp_bind, wp_on_world, wp_gets. cbn [st_world]. set (key := buildCommitKey uuid w4 (si_Filename inp)).
  assert (key = stored_key (w_sent w4)) as Ek by done. clearbody key.
  pose proof Hw4 as (Et & Eo & Esv & Enx).
  assert (w_objects w0 !! (commits_bucket, key) = None) as Hk by (rewrite Ek; apply Hfree).
  assert (forall er w, w_saved w = None -> w_tables w = t -> (w_objects w = w_objects w0 \/ w_objects w = uploaded key) ->
    refused er -> forall c, c = st_calls s ++ [JReady] -> R er (mk_site w c)) as Hleft.
  { intros er w H1 H2 H3 Hr c ->. split; [done|]. split; [|by exists [JReady]]. exists (w_sent w4). by rewrite <- Ek. }
  match goal with |- wp _ _ _ ?x => change x with (mk_site w4 (st_calls s ++ [JReady])) end.
  apply wp_bind, wp_on_world, wp_call; cbn [st_world].
  { intros Hf. apply (Hleft _ (sent w4) ltac:(by rewrite <- Hsv)); [done|by left|apply refused_fault; by eexists|done]. }
  set (w5 := sent w4 <| w_objects := <[(commits_bucket, key) := source]> (w_objects w4) |>).
  match goal with |- wp _ _ _ ?x => change x with (mk_site w5 (st_calls s ++ [JReady])) end.
  assert (w_objects w5 = uploaded key) as Eo5 by (unfold w5, uploaded; cbn; by rewrite <- Eo).
  apply wp_bind, wp_on_world, wp_or_else, wp_begin; cbn [st_world].
  { intros Hf. apply (wp_drop_source key (fun w => R ErrServer (mk_site w (st_calls s ++ [JReady])))); [done|exact Eo5|].
    intros w' E1 E2 E3. eapply Hleft; [by rewrite E2, <- Hsv|by rewrite E1|done|apply refused_fault; by eexists|done]. }
  cbn [st_world]. apply wp_bind, wp_on_world, wp_finally. cbn [st_world].
  apply (wp_register_commit key language e o); try done.
  { split; [cbn; f_equal; exact Et|exact Eo5]. }
  { rewrite Ek. apply stored_key_text. }
  { intros er w' Hw' Ho' Hr. unfold wp, rollback. cbn. destruct (w_saved w') eqn:E1.
    - eapply Hleft; [done| |exact Ho'|exact Hr|done]. destruct Hw' as [[= ->]|[_ [=]]]. done.
    - eapply Hleft; [done| |exact Ho'|exact Hr|done]. by destruct Hw' as [[=]|[? _]]. }
  intros w' Et' Eo' Es' Hfresh. unfold wp, rollback. rewrite Es'. cbn.
  split; [done|]. exists (w_sent w4), language. split; rewrite <- ?Ek; try done.
  unfold visible. cbn. rewrite Es', Et'. cbn. unfold registered. cbn. rewrite lookup_insert_eq, <- !app_assoc. done.
Qed.
End Steps.
(** C11: A submission is all or nothing, whichever statement, object write or clean-up
    fails. If it is accepted, the rules allowed it, its commit is there under a fresh
    id, queued, with the source exactly as sent and the limits of every case frozen,
    nothing else changed, and the judge was asked whether it is ready before anything
    was written and woken when it could already see the row, once. If it is refused,
    the tables are as they were, nobody was woken, and at most an object that no row
    names is left. *)
Theorem submission_all_or_nothing {UT : UnicodeTables} fault platform uuid order db_now now depth ready inp s s' r
  (Horder : forall l, order l ≡ₚ l) (Hsv : w_saved (st_world s) = None)
  (Hfree : forall n name, w_objects (st_world s) !! (commits_bucket, uuid n +:+ "/" +:+ name) = None)
  (H : CreateSubmission fault platform uuid order db_now now depth ready inp s = (s', r)) :
  match r with
  | Ok id => id = next_value (st_world s) "commits" /\ exists n language,
      accepted platform uuid db_now now depth ready (st_world s) inp (st_calls s) n language s'
  | Err _ => turned_down uuid (st_world s) inp (st_calls s) s'
  end.
Proof.
  pose proof (wp_CreateSubmission fault platform uuid order db_now now depth ready Horder (st_world s) inp s eq_refl Hsv Hfree) as Hwp.
  unfold wp in Hwp. rewrite H in Hwp. by destruct r as [id|er]; [|destruct Hwp].
Qed.

(** C34: With healthy services a submission is accepted exactly when the rules allow
    it, and a refusal names a rule that is broken: the exercise is not there or not
    open yet, the caller is a stranger or banned, the deadline passed for someone who
    is not staff, there are no cases, the file has no allowed extension, the caller
    has two unfinished runs, the queue is full, or the judge is down. *)
Theorem submission_accepted_iff {UT : UnicodeTables} fault platform uuid order db_now now depth ready inp s s' r
  (Horder : forall l, order l ≡ₚ l) (Hsv : w_saved (st_world s) = None)
  (Hfree : forall n name, w_objects (st_world s) !! (commits_bucket, uuid n +:+ "/" +:+ name) = None)
  (Hok : healthy fault platform uuid (st_world s) inp)
  (H : CreateSubmission fault platform uuid order db_now now depth ready inp s = (s', r)) :
  (is_ok r = true <-> exists language, admissible db_now now depth ready (w_tables (st_world s)) inp language) /\
  forall er, r = Err er -> refusal db_now now depth ready (w_tables (st_world s)) inp er.
Proof.
  pose proof (wp_CreateSubmission fault platform uuid order db_now now depth ready Horder (st_world s) inp s eq_refl Hsv Hfree) as Hwp.
  unfold wp in Hwp. rewrite H in Hwp. destruct r as [id|er].
  - destruct Hwp as (_ & n & language & Ha). split; [|done]. split; [intros _|done]. exists language. apply Ha.
  - destruct Hwp as [[[_ Hr]|Hr] _]; [done|]. split; [|by intros er' [= <-]]. split; [done|].
    intros [language Ha]. by apply (refusal_excludes _ _ _ _ _ _ _ _ Hr) in Ha.
Qed.

Lemma snapshot_of_registered platform db_now w0 inp id key language tc :
  t_commits (w_tables w0) !! id = None -> (forall tc, t_snapshot (w_tables w0) !! (id, tc) = None) ->
  t_snapshot (registered platform db_now w0 inp id key language) !! (id, tc) =
  snapshot_limits platform (registered platform db_now w0 inp id key language) id tc.
Proof.
  intros Hid Hsn. change (t_snapshot (registered platform db_now w0 inp id key language)) with
    (t_snapshot (w_tables w0) ∪ snapshot_rows platform (with_row db_now w0 inp id key language) [id]).
  rewrite lookup_union, Hsn, snapshot_rows_lookup, decide_True by by left.
  unfold snapshot_limits. cbn. rewrite lookup_insert_eq. cbn. destruct (t_exercises _ !! _); [|done]. cbn.
  destruct (t_cases _ !! tc); [|done]. cbn. by destruct (decide _).
Qed.

(** ** A submission by the owner of a class *)

Definition sample_site : site := mk_site (mk_world (mk_conn sample 0) None ∅ {["commits" := 6]}) [].
Definition sample_submission : SubmissionInput := mk_submission_input 7 10 "main.c" "int main;" "text/plain".
Definition sample_uuid (n : nat) : string := "5f".

Definition submit_sample (fault : nat -> bool) : site * res svc_error Z :=
  CreateSubmission (UT := ascii_tables) fault defaults sample_uuid (fun l => l) 600 600 50 true sample_submission sample_site.

Lemma sample_fresh n name : w_objects (st_world sample_site) !! (commits_bucket, sample_uuid n +:+ "/" +:+ name) = None.
Proof. apply lookup_empty. Qed.

Lemma submission_all_or_nothing_witness :
  exists s', submit_sample (Nat.eqb 9) = (s', Err ErrServer) /\ w_tables (st_world s') = sample /\
    exists l, l `prefix_of` [JReady] /\ st_calls s' = l.
Proof.
  destruct (submit_sample (Nat.eqb 9)) as [s' r] eqn:E. exists s'.
  pose proof (submission_all_or_nothing (UT := ascii_tables) (Nat.eqb 9) defaults sample_uuid (fun l => l) 600 600 50 true
    sample_submission sample_site s' r (fun l => Permutation_refl l) eq_refl sample_fresh E) as H.
  assert (r = Err ErrServer) as -> by (apply (f_equal snd) in E; cbn [snd] in E; rewrite <- E; by vm_compute).
  destruct H as [(n & Ht & _) H]. split; [done|]. split; [exact Ht|exact H].
Defined.

Lemma submission_accepted_iff_witness :
  exists s' id, submit_sample never = (s', Ok id) /\
    exists language, admissible (UT := ascii_tables) 600 600 50 true sample sample_submission language.
Proof.
  destruct (submit_sample never) as [s' r] eqn:E.
  assert (healthy never defaults sample_uuid (st_world sample_site) sample_submission) as Hh by (split_and!; by try vm_compute).
  destruct (submission_accepted_iff (UT := ascii_tables) never defaults sample_uuid (fun l => l) 600 600 50 true
    sample_submission sample_site s' r (fun l => Permutation_refl l) eq_refl sample_fresh Hh E) as [[H _] _].
  assert (is_ok r = true) as Hr by (apply (f_equal snd) in E; cbn [snd] in E; rewrite <- E; by vm_compute).
  destruct r as [id|er]; [|discriminate Hr]. exists s', id. split; [done|]. exact (H eq_refl).
Defined.
