(* ===== verification/HistoryProofs.v ===== *)
(** * What a student's history promises

    The number a submission is listed under is the one its own page shows; it changes
    only when a commit with an earlier instant becomes visible later; and a student
    gets back the file they sent, nobody else's. *)

From S2P Require Import Prelude Effects GoStrings GoPath Sql Catalog Limits LimitsProofs TestCases Objects History Submission SubmissionProofs.
Local Open Scope Z_scope.

(** ** Numbers *)

#[local] Instance older_trans : Transitive older.
Proof. intros x y z. unfold older. lia. Qed.
#[local] Instance older_total : Total older.
Proof. intros x y. unfold older. lia. Qed.

Lemma older_antisym x y : older x y -> older y x -> x.1 = y.1.
Proof. unfold older. lia. Qed.

Lemma filter_none {A} (P : A -> Prop) `{forall x, Decision (P x)} (l : list A) : (forall x, x ∈ l -> ~ P x) -> filter P l = [].
Proof. intros Hn. induction l as [|x l IH]; [done|]. rewrite filter_cons_False by set_solver. apply IH. set_solver. Qed.

(** In a sorted list of distinct ids, the rows up to [x] are those before it and it. *)
Lemma older_position l i x :
  StronglySorted older l -> NoDup l.*1 -> l !! i = Some x ->
  length (filter (fun y => older y x) l) = S i.
Proof.
  intros Hs Hnd Hi. rewrite <- (take_drop_middle l i x Hi) in Hs, Hnd |- *.
  set (l1 := take i l) in *. set (l2 := drop (S i) l) in *.
  rewrite filter_app, filter_cons_True by (unfold older; lia).
  assert (filter (fun y => older y x) l1 = l1) as ->.
  { apply filter_all, Forall_forall. intros y Hy. revert Hs Hy. clear. induction l1 as [|z l1 IH]; [set_solver|].
    cbn. intros Hs [->|Hy]%elem_of_cons; apply StronglySorted_inv in Hs as [Hs Hz]; [|by apply IH].
    rewrite Forall_forall in Hz. apply Hz. set_solver. }
  rewrite filter_none; [rewrite length_app; cbn|].
  - unfold l1. rewrite length_take_le; [lia|]. apply Nat.lt_le_incl. by eapply lookup_lt_Some.
  - intros y Hy Hyx. apply sorted_app_r in Hs. apply StronglySorted_inv in Hs as [_ Hx]. rewrite Forall_forall in Hx.
    pose proof (older_antisym _ _ Hyx (Hx y Hy)) as E. rewrite fmap_app in Hnd. cbn in Hnd.
    apply NoDup_app in Hnd as (_ & _ & [Hnd _]%NoDup_cons). apply Hnd. rewrite <- E. by apply list_elem_of_fmap_2.
Qed.

Definition my_rows (userID exerciseID : Z) (t : Tables) : list (Z * SubmissionRow) :=
  merge_sort older (filter (of_user userID exerciseID) (map_to_list (t_commits t))).

Lemma elem_of_my_rows u e t id r : (id, r) ∈ my_rows u e t <-> t_commits t !! id = Some r /\ of_user u e (id, r).
Proof. unfold my_rows. rewrite merge_sort_Permutation, list_elem_of_filter, elem_of_map_to_list. tauto. Qed.

Lemma my_rows_NoDup u e t : NoDup (my_rows u e t).*1.
Proof.
  unfold my_rows. rewrite merge_sort_Permutation.
  apply (NoDup_fmap_fst (filter _ (map_to_list (t_commits t)))); [|apply NoDup_filter, NoDup_map_to_list].
  intros k x y [_ Hx]%list_elem_of_filter [_ Hy]%list_elem_of_filter. apply elem_of_map_to_list in Hx, Hy. congruence.
Qed.

Lemma filter_filter_and {A} (P Q : A -> Prop) `{forall x, Decision (P x), forall x, Decision (Q x)} (l : list A) :
  filter (fun x => P x /\ Q x) l = filter Q (filter P l).
Proof.
  induction l as [|x l IH]; [done|]. rewrite !filter_cons. destruct (decide (P x)); rewrite ?filter_cons;
    repeat case_decide; rewrite ?IH; naive_solver.
Qed.

(** A row's position among its owner's rows is its number. *)
Lemma number_of_position u e t i id r :
  my_rows u e t !! i = Some (id, r) -> submission_number id t = Z.of_nat i + 1.
Proof.
  intros Hi. pose proof (list_elem_of_lookup_2 _ _ _ Hi) as Hin. apply elem_of_my_rows in Hin as [Hr [<- <-]].
  cbn in *. unfold submission_number. rewrite Hr, filter_filter_and.
  rewrite <- (merge_sort_Permutation older (filter (of_user _ _) _)).
  change (merge_sort older _) with (my_rows (su_user r) (su_exercise r) t).
  rewrite (older_position _ i); [lia| |apply my_rows_NoDup|done]. apply StronglySorted_merge_sort; apply _.
Qed.

Lemma ranked_lookup u e t j x : ranked u e t !! j = Some x ->
  exists id r, x = (Z.of_nat j + 1, (id, r)) /\ my_rows u e t !! j = Some (id, r).
Proof.
  unfold ranked. rewrite list_lookup_imap. fold (my_rows u e t).
  destruct (my_rows u e t !! j) as [[id r]|]; [|done]. intros [= <-]. by exists id, r.
Qed.

(** The rows of a history, latest first. *)
Definition listed (u e : Z) (t : Tables) : list (Z * (Z * SubmissionRow)) :=
  take SubmissionHistoryLimit (reverse (filter (fun x => has_key x.2.2) (ranked u e t))).

Lemma elem_of_listed u e t x : x ∈ listed u e t ->
  exists id r, x = (submission_number id t, (id, r)) /\ t_commits t !! id = Some r /\ of_user u e (id, r) /\ has_key r.
Proof.
  intros Hx. apply list_elem_of_lookup in Hx as [i Hx]. unfold listed in Hx.
  apply lookup_take_Some in Hx as [Hx _]. apply list_elem_of_lookup_2, elem_of_reverse, list_elem_of_filter in Hx as [Hk Hx].
  apply list_elem_of_lookup in Hx as [j Hx]. apply ranked_lookup in Hx as (id & r & -> & Hj).
  exists id, r. rewrite (number_of_position u e t j id r Hj). split; [done|].
  apply list_elem_of_lookup_2, elem_of_my_rows in Hj as [? ?]. done.
Qed.

Lemma ranked_increasing u e t : StronglySorted (fun x y : Z * (Z * SubmissionRow) => x.1 < y.1) (ranked u e t).
Proof.
  unfold ranked. fold (my_rows u e t). generalize (my_rows u e t). intros l.
  assert (forall k, StronglySorted (fun x y : Z * (Z * SubmissionRow) => x.1 < y.1)
    (imap (fun i x => (Z.of_nat (k + i) + 1, x)) l)) as H; [|apply (H 0%nat)].
  induction l as [|x l IH]; intros k; cbn; [constructor|]. constructor.
  - specialize (IH (S k)). erewrite imap_ext; [exact IH|]. intros i y _. cbn. do 2 f_equal. lia.
  - apply Forall_forall. intros y (i & z & -> & _)%elem_of_lookup_imap. cbn. lia.
Qed.

(** What the history lists is a student's own submissions to that exercise, the
    latest first and at most fifty, each under the number the page of that submission
    shows, although one comes from a window function over all rows and the other from
    counting the earlier ones; numbers start at 1 and no two are the same. *)
Theorem listed_numbers fault exerciseID userID t t' l
  (H : runs (ListMyExerciseSubmissions fault exerciseID userID) t t' (Ok l)) :
  t' = t /\ (length l <= 50)%nat /\ StronglySorted Z.gt (sm_Number <$> l) /\
  forall s, s ∈ l -> 1 <= sm_Number s /\
    (forall fault' u n, runs (SubmissionNumber fault' (sm_ID s)) t u (Ok n) -> n = sm_Number s) /\
    exists r key, t_commits t !! sm_ID s = Some r /\ su_user r = userID /\ su_exercise r = exerciseID /\
      su_s3_key r = Some key /\ sm_Filename s = path_base key.
Proof.
  apply runs_query in H as [-> [[=]|[= ->]]]. unfold history. fold (listed userID exerciseID t).
  split; [done|]. split.
  { rewrite length_fmap. unfold listed, SubmissionHistoryLimit. rewrite length_take. lia. }
  split.
  { rewrite <- list_fmap_compose.
    assert (StronglySorted (fun x y : Z * (Z * SubmissionRow) => x.1 > y.1) (listed userID exerciseID t)) as Hs.
    { unfold listed. eapply sorted_sublist; [apply sublist_take|]. pose proof (ranked_increasing userID exerciseID t) as Hs.
      eapply (sorted_sublist _ (filter (fun x => has_key x.2.2) (ranked userID exerciseID t))) in Hs; [|apply sublist_filter].
      induction Hs as [|x k Hs IH Hx]; [constructor|]. rewrite reverse_cons. apply sorted_snoc; [done|].
      apply Forall_reverse. eapply Forall_impl; [exact Hx|]. cbn. lia. }
    induction Hs as [|[n [id r]] k Hs IH Hx]; cbn; constructor; [done|]. apply Forall_fmap. eapply Forall_impl; [exact Hx|].
    intros [n' [id' r']]. cbn. done. }
  intros s (x & -> & (id & r & -> & Hr & [Hu He] & Hk)%elem_of_listed)%list_elem_of_fmap. cbn. split; [|split].
  - unfold submission_number. rewrite Hr.
    assert ((id, r) ∈ filter (fun x => of_user (su_user r) (su_exercise r) x /\ older x (id, r)) (map_to_list (t_commits t))) as Hin.
    { apply list_elem_of_filter. rewrite elem_of_map_to_list. unfold of_user, older. cbn. split_and!; try done. right. lia. }
    destruct (filter _ _); [by apply elem_of_nil in Hin|cbn; lia].
  - intros fault' u n [_ [[=]|[= ->]]]%runs_query. done.
  - destruct Hk as [Hk _]. destruct (su_s3_key r) as [key|] eqn:Ek; [|done]. by exists r, key.
Qed.

(** A number moves only because of a commit that appears with an earlier instant:
    inserting a commit adds one to the number of the submissions of the same user to
    the same exercise that it precedes in the order of instants and ids, and changes no
    other number. [created_at] is the start of the inserting transaction, not its
    commit, so two submissions sent together can become visible in the other order,
    and the number already shown for one of them moves. *)
Theorem numbers_after_insert t new row id r
  (Hnew : t_commits t !! new = None) (Hr : t_commits t !! id = Some r) :
  let t' := t <| t_commits := <[new := row]> (t_commits t) |> in
  submission_number id t' = submission_number id t +
    (if decide (of_user (su_user r) (su_exercise r) (new, row) /\ older (new, row) (id, r)) then 1 else 0).
Proof.
  cbn zeta. unfold submission_number. cbn [t_commits rset]. cbn -[older of_user].
  rewrite lookup_insert_ne by congruence. rewrite Hr. rewrite map_to_list_insert by done.
  rewrite filter_cons. repeat case_decide; cbn [length]; try tauto; lia.
Qed.

(** ** The source *)

Lemma ends_with_app c x l : l <> "" -> ends_with c (x +:+ l) -> ends_with c l.
Proof.
  intros Hl. induction x as [|b x IH]; [done|]. intros [[|b' y] E]; injection E as E1 E2; [by destruct x|].
  apply IH. by exists y.
Qed.

Lemma path_base_key a name : good_name name -> path_base (a +:+ "/" +:+ name) = name.
Proof.
  intros (Hne & Hs & _ & _). pose proof (all_bytes_no_byte safe_byte "/" _ eq_refl Hs) as Hn.
  assert (a +:+ "/" +:+ name <> "") as Hk by by destruct a.
  unfold path_base. destruct (String.eqb_spec (a +:+ "/" +:+ name) ""); [done|].
  rewrite trim_right_id.
  - change (a +:+ "/" +:+ name) with (a +:+ String "/" name). rewrite last_component_app by done. by destruct (String.eqb_spec name "").
  - intros Hend. rewrite <- (app_assoc_s a "/") in Hend. apply ends_with_app in Hend; [|done].
    destruct Hend as [r ->]. by apply no_byte_app in Hn as [_ [? _]%no_byte_cons].
Qed.

(** C36: A student gets back the file they sent: after a submission is accepted, its
    source is the bytes sent, under the stored name; for anybody else that commit is
    as good as missing. *)
Theorem sent_file_comes_back {UT : UnicodeTables} fault platform uuid order db_now now depth ready inp s s' id
  (Horder : forall l, order l ≡ₚ l) (Hsv : w_saved (st_world s) = None)
  (Hfree : forall n name, w_objects (st_world s) !! (commits_bucket, uuid n +:+ "/" +:+ name) = None)
  (H : CreateSubmission fault platform uuid order db_now now depth ready inp s = (s', Ok id)) :
  (exists src, snd (GetMySubmissionSource never id (si_UserID inp) (st_world s')) = Ok src /\
     cs_Body src = si_File inp /\ cs_Filename src = sanitizeFilename (si_Filename inp)) /\
  forall u, u <> si_UserID inp -> snd (GetMySubmissionSource never id u (st_world s')) = Err ErrCommitNotFound.
Proof.
  pose proof (wp_CreateSubmission fault platform uuid order db_now now depth ready Horder (st_world s) inp s eq_refl Hsv Hfree) as Hwp.
  unfold wp in Hwp. rewrite H in Hwp. destruct Hwp as (-> & n & language & [_ _ Et Eo _ _]).
  set (id := next_value (st_world s) "commits") in *. set (key := stored_key uuid inp n) in *.
  assert (t_commits (w_tables (st_world s')) !! id = Some (commit_row db_now inp key language)) as Hc by (rewrite Et; apply lookup_insert_eq).
  assert (forall u, own_commit id u (w_tables (st_world s')) =
    if decide (si_UserID inp = u) then Some (commit_row db_now inp key language) else None) as Hown.
  { intros u. unfold own_commit. by rewrite Hc. }
  clear H Et. destruct (st_world s') as [[t0 n0] sv os nx]. cbn in *. split.
  - unfold GetMySubmissionSource, mbind, eff_bind, on_db, query, statement. cbn. rewrite Hown, decide_True by done. cbn.
    assert (Hpb : path_base key = sanitizeFilename (si_Filename inp)) by (apply path_base_key, sanitizeFilename_good).
    rewrite decide_True. 2:{ unfold has_key. cbn. split; [done|]. intros [= E]. rewrite E in Hpb. destruct (sanitizeFilename_good (si_Filename inp)) as (_ & _ & Hb & _). apply Hb. rewrite <- Hpb. by exists "". }
    cbn. unfold getObject, call. cbn. subst os. unfold uploaded, commits_bucket. rewrite lookup_insert_eq. cbn.
    eexists. split; [reflexivity|]. cbn. split; [|done]. unfold source, typed. by destruct (String.eqb _ _).
  - intros u Hu. unfold GetMySubmissionSource, mbind, eff_bind, on_db, query, statement. cbn. by rewrite Hown, decide_False by done.
Qed.

(** ** The handler *)

(** 201 is answered exactly when the service registered the commit, and every other
    answer leaves the tables alone; a request that is malformed, or whose file is over
    the limit, does not reach the service. *)
Lemma handle_submission_created {UT : UnicodeTables} fault platform uuid order db_now now depth ready user f s s' rp
  (H : handle_submission fault platform uuid order db_now now depth ready user f s = (s', rp)) :
  (exists c, rp_status rp = 201 /\ rp_body rp = inr c) /\
    (exists userID ex name ty data exerciseID id s1, user = Some userID /\ f = FormRead ex (Some (name, ty, data)) /\
       parse_int ex = Some exerciseID /\ 0 < exerciseID /\ Z.of_nat (String.length data) <= MaxSubmissionBytes /\
       CreateSubmission fault platform uuid order db_now now depth ready
         (mk_submission_input userID exerciseID name data ty) s = (s1, Ok id)) \/
  (400 <= rp_status rp /\ exists b, rp_body rp = inl b).
Proof.
  unfold handle_submission in H. destruct user as [userID|]; [|injection H as <- <-; right; cbn; split; [lia|eauto]].
  destruct f as [| |ex file]; [injection H as <- <-; right; cbn; split; [lia|eauto]..|].
  destruct (parse_int ex) as [exerciseID|] eqn:Ep; [|injection H as <- <-; right; cbn; split; [lia|eauto]].
  destruct (exerciseID <=? 0) eqn:Ez; [injection H as <- <-; right; cbn; split; [lia|eauto]|].
  destruct file as [[[name ty] data]|]; [|injection H as <- <-; right; cbn; split; [lia|eauto]].
  destruct (MaxSubmissionBytes <? _) eqn:El; [injection H as <- <-; right; cbn; split; [lia|eauto]|].
  destruct (CreateSubmission _ _ _ _ _ _ _ _ _ s) as [s1 [id|er]] eqn:Ec.
  - left. destruct (on_world _ s1) as [s2 number]. injection H as <- <-. split; [by eexists|].
    exists userID, ex, name, ty, data, exerciseID, id, s1. split_and!; try done; lia.
  - right. injection H as <- <-. destruct er; cbn; (split; [lia|eauto]).
Qed.

(** ** A student with two submissions *)

Definition two_commits : Tables :=
  sample <| t_commits := {[5 := mk_submission 9 10 "completed" (Some "5f/a.c") None 20;
                           7 := mk_submission 9 10 "completed" (Some "60/b.c") None 30]} |>.

Lemma listed_numbers_witness :
  exists l, runs (ListMyExerciseSubmissions never 10 9) two_commits two_commits (Ok l) /\
    sm_Number <$> l = [2; 1] /\ StronglySorted Z.gt (sm_Number <$> l).
Proof.
  eexists. assert (H : runs (ListMyExerciseSubmissions never 10 9) two_commits two_commits (Ok _))
    by (eexists 0%nat, _; vm_compute; reflexivity).
  split; [exact H|]. split; [reflexivity|]. apply (listed_numbers never 10 9 _ _ _ H).
Defined.

(** A third one whose transaction began before those of the other two. *)
Lemma numbers_after_insert_witness :
  let late := mk_submission 9 10 "queued" (Some "61/c.c") None 10 in
  let t' := two_commits <| t_commits := <[8 := late]> (t_commits two_commits) |> in
  submission_number 5 two_commits = 1 /\ submission_number 5 t' = 2.
Proof.
  cbn zeta. split; [reflexivity|].
  rewrite (numbers_after_insert two_commits 8 (mk_submission 9 10 "queued" (Some "61/c.c") None 10) 5
    (mk_submission 9 10 "completed" (Some "5f/a.c") None 20)); [vm_compute; reflexivity|reflexivity|reflexivity].
Defined.

Lemma sent_file_comes_back_witness :
  exists s' id src, submit_sample never = (s', Ok id) /\
    snd (GetMySubmissionSource never id 7 (st_world s')) = Ok src /\ cs_Body src = "int main;".
Proof.
  destruct (submit_sample never) as [s' r] eqn:E.
  assert (is_ok r = true) as Hr by (apply (f_equal snd) in E; cbn [snd] in E; rewrite <- E; by vm_compute).
  destruct r as [id|er]; [|discriminate Hr].
  destruct (sent_file_comes_back (UT := ascii_tables) never defaults sample_uuid (fun l => l) 600 600 50 true
    sample_submission sample_site s' id (fun l => Permutation_refl l) eq_refl sample_fresh E) as [(src & H1 & H2 & _) _].
  by exists s', id, src.
Defined.
