(* ===== verification/Handover.v ===== *)
(** * From the backend's submission to the judge's run

    What the judge finds of a submission the backend accepted ([Submission.v]): cases
    to grade with their frozen limits ([TestCases.v]), the source under the name that
    was stored ([JudgeModel.v]), and the language ([Language.v]). *)

From S2P Require Import JudgeModel Prelude Effects GoStrings GoPath Sql Catalog Limits LimitsProofs TestCases Objects History Submission SubmissionProofs.
From S2P Require Import Language.
From S2P Require CommitDb.
Local Open Scope Z_scope.

(** ** The cases *)

Lemma fetch_without_faults scan c e t :
  case_rows c e t <> [] ->
  runs (FetchTestCases never scan c e) t t (Ok (fetched (files_by_id scan (tc_ID <$> case_rows c e t) t) c e t)).
Proof.
  intros Hne. exists 0%nat. eexists. unfold FetchTestCases. unfold mbind, eff_bind at 1, query, statement. cbn [never cn_sent cn_db].
  unfold fetched. rewrite <- (number_cases_ids (case_rows c e t)).
  destruct (number_cases (case_rows c e t)) as [|tc l] eqn:El; [|reflexivity].
  apply (f_equal (fun x => length (tc_ID <$> x))) in El. rewrite number_cases_ids, length_fmap in El.
  by destruct (case_rows c e t).
Qed.


(** ** The language *)

Section Lower.
Context {UT : UnicodeTables}.

Lemma lower_cons a s : safe_byte a = true -> to_lower (String a s) = String (z2b (lower_rune (b2z a))) (to_lower s).
Proof.
  intros Ha. assert (0 <= b2z a < 128 /\ 0 <= lower_rune (b2z a) < 128) as [H1 H2].
  { unfold safe_byte, safe_rune, lower_rune, in_range in *. repeat case_match; lia. }
  unfold to_lower. cbn [runes]. replace (b2z a <? 128) with true by lia. cbn [foldr rune_val].
  unfold encode_rune at 1. by replace (lower_rune (b2z a) <? 128) with true by lia.
Qed.

Lemma lower_app s1 s2 : all_bytes safe_byte s1 = true -> to_lower (s1 +:+ s2) = to_lower s1 +:+ to_lower s2.
Proof.
  induction s1 as [|a s IH]; [done|]. cbn [all_bytes]. intros [Ha Hs]%andb_true_iff.
  rewrite app_cons_s, !lower_cons, IH by done. done.
Qed.

Lemma lower_no_dot s : all_bytes safe_byte s = true -> no_byte "." s -> no_byte "." (to_lower s).
Proof.
  induction s as [|a s IH]; [done|]. cbn [all_bytes]. intros [Ha Hs]%andb_true_iff [Hd Hn]%no_byte_cons.
  rewrite lower_cons by done. apply no_byte_cons. split; [|by apply IH].
  revert Ha Hd. clear. destruct a as [[][][][][][][][]]; vm_compute; congruence.
Qed.
End Lower.

Lemma last_dot s : no_byte "." s \/ exists b x, s = b +:+ String "." x /\ no_byte "." x.
Proof.
  induction s as [|a s [IH|(b & x & -> & Hx)]]; [by left| |right; by exists (String a b), x].
  destruct (Ascii.eqb_spec a ".") as [->|Ha]; [right; by exists "", s|left]. by apply no_byte_cons.
Qed.

Lemma last_dot_unique b x b' x' :
  no_byte "." x -> no_byte "." x' -> b +:+ String "." x = b' +:+ String "." x' -> b = b' /\ x = x'.
Proof.
  intros Hx Hx'. revert b'. induction b as [|a b IH]; intros [|a' b'] E; cbn in E.
  - by injection E.
  - injection E as <- ->. apply no_byte_app in Hx as [_ [? _]%no_byte_cons]. done.
  - injection E as -> <-. apply no_byte_app in Hx' as [_ [? _]%no_byte_cons]. done.
  - injection E as <- E. by destruct (IH _ E) as [-> ->].
Qed.

Lemma ext_go_last b x acc : no_byte "/" b -> no_byte "/" x -> no_byte "." x -> ext_go (b +:+ String "." x) acc = String "." x.
Proof.
  intros Hb Hx Hd. revert acc. induction b as [|a b IH]; intros acc; cbn.
  - assert (forall acc, ext_go x acc = acc) as ->; [|done].
    induction x as [|c x IHx]; [done|]. intros acc'. cbn. apply no_byte_cons in Hx as [H1 H2], Hd as [H3 H4].
    destruct (Ascii.eqb_spec c "/"); [done|]. destruct (Ascii.eqb_spec c "."); [done|]. by apply IHx.
  - apply no_byte_cons in Hb as [H1 H2]. destruct (Ascii.eqb_spec a "/"); [done|]. destruct (Ascii.eqb a "."); by apply IH.
Qed.

Lemma ext_go_none s acc : no_byte "/" s -> no_byte "." s -> ext_go s acc = acc.
Proof.
  revert acc. induction s as [|c x IHx]; [done|]. intros acc [H1 H2]%no_byte_cons [H3 H4]%no_byte_cons. cbn.
  destruct (Ascii.eqb_spec c "/"); [done|]. destruct (Ascii.eqb_spec c "."); [done|]. by apply IHx.
Qed.

Lemma contains_dot b x : contains "." (b +:+ String "." x) = true.
Proof. induction b as [|a b IH]; cbn; [by destruct x|]. cbn in IH. rewrite IH. by rewrite orb_true_r. Qed.

Lemma contains_no_dot s : no_byte "." s -> contains "." s = false.
Proof.
  induction s as [|a s IH]; [done|]. intros [Ha Hs]%no_byte_cons.
  change (contains "." (String a s)) with (has_prefix "." (String a s) || contains "." s). rewrite IH by done.
  rewrite orb_false_r. destruct (has_prefix _ _) eqn:E; [|done]. by apply has_prefix_spec in E as [r [= ->]].
Qed.

Section Agreement.
Context {UT : UnicodeTables}.

(** An extension as the catalog has it: lower case, without a dot of its own except
    the one of the OpenMP and MPI variants. *)
Definition catalog_extension (e : string) : Prop :=
  e <> "" /\ to_lower (trim_space e) = e /\
  (no_byte "." e \/ exists pre x, (pre = "omp" \/ pre = "mpi") /\ isCompound x = true /\ e = pre +:+ String "." x).

Lemma isCompound_no_dot x : isCompound x = true -> no_byte "." x.
Proof.
  unfold isCompound. rewrite existsb_exists. intros (y & Hy%list_elem_of_In & ->%String.eqb_eq).
  revert y Hy. apply Forall_forall. repeat constructor.
Qed.

Lemma trim_dot r : trim_prefix "." (String "." r) = r.
Proof. exact (trim_prefix_app "." r). Qed.

(** What the judge reads of [b.x]. *)
Lemma normalize_spec b x :
  good_name (b +:+ String "." x) -> no_byte "." x ->
  let x' := to_lower x in
  (no_byte "." b /\ normalizeExtension (b +:+ String "." x) = x') \/
  exists b1 p1, b = b1 +:+ String "." p1 /\ no_byte "." p1 /\
    normalizeExtension (b +:+ String "." x) =
      if isCompound x' && (String.eqb (to_lower p1) "omp" || String.eqb (to_lower p1) "mpi")
      then to_lower p1 +:+ "." +:+ x' else x'.
Proof.
  intros (_ & Hs & Hst & Hen) Hx. cbn zeta. pose proof (all_bytes_no_byte safe_byte "/" _ eq_refl Hs) as Hsl.
  apply no_byte_app in Hsl as [Hbs [_ Hxs]%no_byte_cons].
  rewrite all_bytes_app in Hs. apply andb_true_iff in Hs as [Hb Hdx]. apply andb_true_iff in Hdx as [_ Hdx].
  assert (to_lower x <> "") as Hne.
  { destruct x as [|a x]; [destruct Hen; by exists b|]. apply andb_true_iff in Hdx as [Ha _].
    rewrite lower_cons by done. discriminate. }
  unfold normalizeExtension, path_ext. rewrite ext_go_last by done.
  assert (forall y, to_lower (String "." y) = String "." (to_lower y)) as Hl by (intros y; by rewrite lower_cons).
  rewrite Hl, trim_dot. rewrite (proj2 (String.eqb_neq _ _) Hne), trim_suffix_app.
  destruct (last_dot b) as [Hnd|(b1 & p1 & -> & Hp1)].
  - left. split; [done|]. rewrite contains_no_dot by done. by rewrite andb_false_r.
  - right. exists b1, p1. split; [done|]. split; [done|]. rewrite contains_dot, andb_true_r.
    apply no_byte_app in Hbs as [Hb1 [_ Hp1s]%no_byte_cons].
    rewrite ext_go_last, Hl, trim_dot by done. by destruct (isCompound (to_lower x)), (_ || _).
Qed.

Lemma filename_matches f e : good_name f -> e <> "" -> to_lower (trim_space e) = e ->
  filenameMatchesExtension f e = true <-> to_lower f = e \/ exists r, to_lower f = r +:+ String "." e.
Proof.
  intros (_ & Hs & _) He Hl. unfold filenameMatchesExtension. rewrite Hl, trim_space_plain by by apply safe_plain.
  rewrite (proj2 (String.eqb_neq _ _) He), orb_true_iff, String.eqb_eq, has_suffix_spec. done.
Qed.

(** An allowed extension the name has is the judge's, or the last part of it. *)
Lemma match_is_judges f e : good_name f -> catalog_extension e -> to_lower f <> e ->
  filenameMatchesExtension f e = true ->
  e = normalizeExtension f \/ exists pre, normalizeExtension f = pre +:+ "." +:+ e.
Proof.
  intros Hg (He & Hl & Hform) Hne Hm. apply filename_matches in Hm as [?|[r Hr]]; [done| |done..].
  pose proof Hg as (_ & Hs & _).
  destruct (last_dot f) as [Hnd|(b & x & -> & Hx)].
  { apply lower_no_dot in Hnd; [|done]. rewrite Hr in Hnd. by apply no_byte_app in Hnd as [_ [? _]%no_byte_cons]. }
  rewrite all_bytes_app in Hs. apply andb_true_iff in Hs as [Hsb Hsx]. apply andb_true_iff in Hsx as [_ Hsx].
  rewrite lower_app, lower_cons in Hr by done. change (z2b _) with "."%char in Hr.
  apply lower_no_dot in Hx as Hx'; [|done].
  pose proof (normalize_spec b x Hg Hx) as Hnorm. cbn zeta in Hnorm.
  destruct Hform as [Hnd|(pre & y & Hpre & Hy & ->)].
  - apply last_dot_unique in Hr as [_ <-]; [|done..].
    destruct Hnorm as [[_ ->]|(b1 & p1 & _ & _ & ->)]; [by left|]. destruct (_ && _); [right; by eexists|by left].
  - change (r +:+ String "." (pre +:+ String "." y)) with (r +:+ String "." pre +:+ String "." y) in Hr.
    rewrite <- app_assoc_s in Hr. apply last_dot_unique in Hr as [Hb <-]; [|done|by apply isCompound_no_dot].
    destruct Hnorm as [[Hnd _]|(b1 & p1 & -> & Hp1 & ->)].
    { apply lower_no_dot in Hnd; [|done]. rewrite Hb in Hnd. by apply no_byte_app in Hnd as [_ [? _]%no_byte_cons]. }
    rewrite all_bytes_app in Hsb. apply andb_true_iff in Hsb as [Hsb1 Hsp]. apply andb_true_iff in Hsp as [_ Hsp].
    rewrite lower_app, lower_cons in Hb by done. change (z2b _) with "."%char in Hb.
    apply last_dot_unique in Hb as [_ <-]; [|by apply lower_no_dot|by destruct Hpre as [->| ->]].
    rewrite Hy. left. by destruct Hpre as [->| ->].
Qed.

Lemma judges_extension_matches f : good_name f -> catalog_extension (normalizeExtension f) ->
  filenameMatchesExtension f (normalizeExtension f) = true.
Proof.
  intros Hg (He & Hl & _). apply filename_matches; [done..|]. right. pose proof Hg as (_ & Hs & _).
  destruct (last_dot f) as [Hnd|(b & x & -> & Hx)].
  { destruct He. unfold normalizeExtension, path_ext. by rewrite ext_go_none by (done || by apply (all_bytes_no_byte safe_byte)). }
  rewrite all_bytes_app in Hs. apply andb_true_iff in Hs as [Hsb Hsx]. apply andb_true_iff in Hsx as [_ Hsx].
  pose proof (normalize_spec b x Hg Hx) as Hnorm. cbn zeta in Hnorm. clear He Hl.
  rewrite lower_app, lower_cons by done. change (z2b _) with "."%char.
  destruct Hnorm as [[_ ->]|(b1 & p1 & -> & _ & ->)]; [by eexists|]. destruct (_ && _); [|by eexists].
  rewrite all_bytes_app in Hsb. apply andb_true_iff in Hsb as [Hsb1 Hsp]. apply andb_true_iff in Hsp as [_ Hsp].
  rewrite lower_app, lower_cons by done. change (z2b _) with "."%char. exists (to_lower b1). by rewrite app_assoc_s.
Qed.

(** The file type a submission is filed under, which decides its limits, is the
    language the judge will run, although the backend looks for the longest allowed
    suffix and the judge takes the extension apart: for a file that keeps its name and
    has a stem, in an exercise that allows the extension the judge reads, the matched
    type has that extension, upper case and OpenMP or MPI variants included. *)
Theorem matched_type_is_the_judges uuid filename allowed
  (Hname : good_name filename)
  (Hcat : forall c, c ∈ allowed -> catalog_extension (ft_extension c))
  (Hstem : forall c, c ∈ allowed -> to_lower filename <> ft_extension c)
  (Hallowed : exists c, c ∈ allowed /\ ft_extension c = normalizeExtension filename) :
  exists p, p ∈ allowed /\ bestFileTypeMatch filename allowed = Some (ft_id p) /\
    FromExtension (ft_extension p) =
      FromFilename (JudgeModel.baseName (uuid +:+ "/" +:+ sanitizeFilename filename)).
Proof.
  rewrite stored_filename, sanitizeFilename_id by (done || apply sanitizeFilename_good).
  destruct Hallowed as (c & Hc & Ec). unfold bestFileTypeMatch.
  assert (filenameMatchesExtension filename (ft_extension c) = true) as Hm.
  { rewrite Ec. apply judges_extension_matches; [done|]. rewrite <- Ec. by apply Hcat. }
  pose proof (best_type_spec filename allowed) as Hb. destruct (best_type _ _) as [p|].
  2:{ by rewrite Hb in Hm. }
  destruct Hb as (Hp & Hmp & Hmax). exists p. split; [done|]. split; [done|]. unfold FromFilename. f_equal.
  destruct (match_is_judges filename (ft_extension p)) as [?|[pre Hpre]]; auto.
  exfalso. apply (Hmax c Hc Hm). left. rewrite Ec, Hpre, !length_app_s. cbn. lia.
Qed.
End Agreement.

(** The extensions of the seeded catalog (src/database/schema/03-seed-data.sql). *)
Definition seeded : list string :=
  ["py"; "c"; "cpp"; "hs"; "zip"; "f"; "java"; "pas"; "por"; "r"; "rs"; "pdf"; "go"; "m"; "cs"; "lua"; "pl";
   "omp.c"; "omp.cpp"; "mpi.c"; "mpi.cpp"; "v"; "zig"].

Lemma seeded_catalog : Forall (@catalog_extension ascii_tables) seeded.
Proof.
  assert (forall e, (no_byte "." e \/ exists pre x, (pre = "omp" \/ pre = "mpi") /\ isCompound x = true /\ e = pre +:+ String "." x) ->
    e <> "" /\ @to_lower ascii_tables (trim_space e) = e -> @catalog_extension ascii_tables e) as Hc.
  { intros e H1 [H2 H3]. by split. }
  unfold seeded. repeat (apply Forall_cons; split); [..|by apply Forall_nil].
  all: apply Hc; [|split; [discriminate|by vm_compute]].
  all: first [left; reflexivity|right].
  - exists "omp", "c". auto.
  - exists "omp", "cpp". auto.
  - exists "mpi", "c". auto.
  - exists "mpi", "cpp". auto.
Qed.

Lemma matched_type_is_the_judges_witness :
  exists p, bestFileTypeMatch (UT := ascii_tables) "Main.OMP.C" [mk_file_type 2 "c"; mk_file_type 18 "omp.c"] = Some (ft_id p) /\
    FromExtension (UT := ascii_tables) (ft_extension p) = FromFilename (UT := ascii_tables) "Main.OMP.C".
Proof.
  destruct (matched_type_is_the_judges (UT := ascii_tables) "5f" "Main.OMP.C" [mk_file_type 2 "c"; mk_file_type 18 "omp.c"])
    as (p & _ & H1 & H2).
  - split_and!; [done|by vm_compute|by intros [? [=]]|]. intros [r H]. apply (f_equal (fun s => has_suffix "." s)) in H.
    assert (has_suffix "." (r +:+ str1 ".") = true) as E by (apply has_suffix_spec; by exists r).
    rewrite E in H. by vm_compute in H.
  - intros c [->|[->|[]%elem_of_nil]%elem_of_cons]%elem_of_cons; pose proof seeded_catalog as Hc; rewrite Forall_forall in Hc;
      apply Hc; unfold seeded; set_solver.
  - intros c [->|[->|[]%elem_of_nil]%elem_of_cons]%elem_of_cons; by vm_compute.
  - exists (mk_file_type 18 "omp.c"). split; [set_solver|by vm_compute].
  - exists p. split; [exact H1|]. rewrite H2. reflexivity.
Defined.

(** Without those conditions the two disagree, and a file is filed under one
    language and run, or refused, as another: a file named [omp.c] is matched as
    OpenMP and run as plain C; an exercise that only allows C takes [main.omp.c] and
    the judge runs the OpenMP image; and a file named [c], or [.c], is accepted as C
    although the judge knows no language for it. *)
Theorem names_read_differently :
  let ascii := ascii_tables in
  let c := mk_file_type 2 "c" in let omp := mk_file_type 18 "omp.c" in
  let judged name := l_Name <$> FromFilename (sanitizeFilename name) in
  (bestFileTypeMatch "omp.c" [c; omp] = Some 18 /\ judged "omp.c" = Some "C") /\
  (bestFileTypeMatch "main.omp.c" [c] = Some 2 /\ judged "main.omp.c" = Some "C (OpenMP)") /\
  (bestFileTypeMatch "c" [c] = Some 2 /\ bestFileTypeMatch ".c" [c] = Some 2 /\ judged "c" = None /\ judged ".c" = None).
Proof. vm_compute. by split_and!. Qed.

