(* ===== verification/Throttle.v ===== *)
(** * The mail throttle

    [recipientThrottle] of [src/backend/services/mail-throttle.go]: at most one
    transactional email to an address per cooldown, in a map of bounded size. Every
    method runs under its mutex, so an execution is a sequence of calls; instants are
    nanoseconds. *)

From S2P Require Import Prelude GoStrings.
Local Open Scope Z_scope.

Definition recipientCooldown : Z := 5 * 60 * 10 ^ 9.
Definition maxTrackedRecipients : nat := Z.to_nat 10000.

Inductive refusal_reason := refusedEmpty | refusedCoolingDown | refusedTableFull.
#[export] Instance refusal_reason_eq_dec : EqDecision refusal_reason.
Proof. solve_decision. Defined.

Record recipientThrottle := mk_throttle { th_lastSent : gmap string Z; th_cooldown : Z; th_max : nat }.
#[export] Instance throttle_eta : Settable recipientThrottle := fun t =>
  mk_throttle (th_lastSent t) (th_cooldown t) (th_max t).

Definition newRecipientThrottle (cooldown : Z) (max : nat) : recipientThrottle := mk_throttle ∅ cooldown max.

Definition cooling (t : recipientThrottle) (key : string) (now : Z) : bool :=
  match th_lastSent t !! key with Some last => now - last <? th_cooldown t | None => false end.

(** The expired entries removed. *)
Definition evict_expired (t : recipientThrottle) (now : Z) : recipientThrottle :=
  t <| th_lastSent := filter (fun x : string * Z => now - x.2 < th_cooldown t) (th_lastSent t) |>.

(** [None]: the message may be sent. *)
Definition reserve (t : recipientThrottle) (key : string) (now : Z) : recipientThrottle * option refusal_reason :=
  if String.eqb key "" then (t, Some refusedEmpty)
  else if cooling t key now then (t, Some refusedCoolingDown)
  else
    let t := if (th_max t <=? size (th_lastSent t))%nat then evict_expired t now else t in
    if (th_max t <=? size (th_lastSent t))%nat then (t, Some refusedTableFull)
    else (t <| th_lastSent := <[key := now]> (th_lastSent t) |>, None).

Definition release (t : recipientThrottle) (key : string) : recipientThrottle :=
  t <| th_lastSent := delete key (th_lastSent t) |>.

(** ** Sequences of calls *)

(** What happened so far: the throttle, the messages let through and not released
    (address and instant, the latest first), and the clock. A failed send gives its
    reservation back before the cooldown has passed: the mailer's time-outs are much
    shorter. *)
Inductive reach (cooldown : Z) (max : nat) : recipientThrottle -> list (string * Z) -> Z -> Prop :=
| reach_new now : reach cooldown max (newRecipientThrottle cooldown max) [] now
| reach_reserve t sent now key now' t' r :
    reach cooldown max t sent now -> now <= now' -> reserve t key now' = (t', r) ->
    reach cooldown max t' (match r with None => (key, now') :: sent | Some _ => sent end) now'
| reach_release t sent now key at_ now' :
    reach cooldown max t sent now -> now <= now' -> (key, at_) ∈ sent -> now' - at_ < cooldown ->
    reach cooldown max (release t key) (filter (fun x => x <> (key, at_)) sent) now'.

(** What the map knows of the messages let through: those inside the cooldown are in
    it, and two to one address are apart. *)
Record spaced (cooldown : Z) (max : nat) (t : recipientThrottle) (sent : list (string * Z)) (now : Z) : Prop := {
  sp_cooldown : th_cooldown t = cooldown;
  sp_max : th_max t = max;
  sp_size : (size (th_lastSent t) <= max)%nat;
  sp_known : forall k a, (k, a) ∈ sent -> cooldown <= now - a \/ th_lastSent t !! k = Some a;
  sp_apart : forall i j k a b, (i < j)%nat -> sent !! i = Some (k, a) -> sent !! j = Some (k, b) -> cooldown <= a - b
}.

Lemma evict_size t now : (size (th_lastSent (evict_expired t now)) <= size (th_lastSent t))%nat.
Proof. unfold evict_expired. cbn. apply map_subseteq_size, map_filter_subseteq. Qed.

Lemma reserve_spaced cooldown max t sent now key now' t' r :
  spaced cooldown max t sent now -> now <= now' -> reserve t key now' = (t', r) ->
  spaced cooldown max t' (match r with None => (key, now') :: sent | Some _ => sent end) now'.
Proof.
  intros [Hc Hm Hs Hk Ha] Hle. unfold reserve.
  assert (forall k a, (k, a) ∈ sent -> cooldown <= now' - a \/ th_lastSent t !! k = Some a) as Hk'.
  { intros k a H. destruct (Hk k a H); [left; lia|by right]. }
  destruct (String.eqb key ""); [intros [= <- <-]; by constructor|].
  destruct (cooling t key now') eqn:Ec; [intros [= <- <-]; by constructor|].
  set (u := if (th_max t <=? size (th_lastSent t))%nat then evict_expired t now' else t).
  assert (th_cooldown u = cooldown /\ th_max u = max /\ (size (th_lastSent u) <= max)%nat /\
    forall k a, (k, a) ∈ sent -> cooldown <= now' - a \/ th_lastSent u !! k = Some a) as (Uc & Um & Us & Uk).
  { unfold u. destruct (_ <=? _)%nat; [|done]. split_and!; [done..|pose proof (evict_size t now'); lia|].
    intros k a H. destruct (Hk' k a H) as [?|E]; [by left|]. destruct (decide (now' - a < cooldown)); [right|left; lia].
    unfold evict_expired. cbn. apply map_lookup_filter_Some. split; [done|]. cbn. by rewrite Hc. }
  destruct (th_max u <=? size (th_lastSent u))%nat eqn:Ef; intros [= <- <-]; [by constructor|].
  assert (forall b, (key, b) ∈ sent -> cooldown <= now' - b) as Hfar.
  { intros b H. destruct (Hk' key b H) as [?|E]; [done|]. unfold cooling in Ec. rewrite E in Ec. lia. }
  constructor; cbn [th_lastSent th_cooldown th_max rset]; cbn; [done|done| | |].
  - apply Nat.leb_gt in Ef. rewrite Um in Ef. pose proof (map_size_insert key now' (th_lastSent u)) as E.
    destruct (th_lastSent u !! key); unfold id in E; lia.
  - intros k a [[= -> ->]|H]%elem_of_cons; [right; by rewrite lookup_insert_eq|].
    destruct (decide (k = key)) as [->|Hne]; [left; by apply Hfar|]. rewrite lookup_insert_ne by done. by apply Uk.
  - intros [|i] [|j] k a b Hij; cbn; [lia| |lia|by apply Ha; lia].
    intros [= <- <-] H%list_elem_of_lookup_2. by apply Hfar.
Qed.

Lemma release_spaced cooldown max t sent now key at_ now' :
  spaced cooldown max t sent now -> now <= now' -> (key, at_) ∈ sent -> now' - at_ < cooldown ->
  spaced cooldown max (release t key) (filter (fun x => x <> (key, at_)) sent) now'.
Proof.
  intros [Hc Hm Hs Hk Ha] Hle Hin Hat. constructor; cbn [th_lastSent th_cooldown th_max rset release]; cbn; [done|done| | |].
  - pose proof (map_subseteq_size _ _ (delete_subseteq (th_lastSent t) key)). lia.
  - intros k a [Hne H]%list_elem_of_filter. destruct (Hk k a H) as [?|E]; [left; lia|right].
    destruct (decide (k = key)) as [->|]; [|by rewrite lookup_delete_ne].
    destruct (Hk key at_ Hin) as [?|E']; [lia|]. congruence.
  - intros i j k a b Hij Hi Hj.
    assert (filter (fun x => x <> (key, at_)) sent `sublist_of` sent) as Hsub by apply sublist_filter.
    assert (forall i j x y, (i < j)%nat -> filter (fun x => x <> (key, at_)) sent !! i = Some x ->
      filter (fun x => x <> (key, at_)) sent !! j = Some y ->
      exists i' j', (i' < j')%nat /\ sent !! i' = Some x /\ sent !! j' = Some y) as Hlift.
    { clear -Hsub. revert Hsub. generalize (filter (fun x => x <> (key, at_)) sent). intros l Hsub.
      induction Hsub as [|x l l' Hs IH|x l l' _ IH]; intros i j x' y Hij Hi Hj; [done| |].
      - destruct i as [|i], j as [|j]; cbn in *; [lia| |lia|].
        + apply list_elem_of_lookup_2 in Hj. eapply elem_of_sublist in Hj; [|exact Hs]. apply list_elem_of_lookup in Hj as [j' Hj].
          exists 0%nat, (S j'). split; [lia|done].
        + destruct (IH i j x' y) as (i' & j' & ? & ? & ?); [lia|done|done|]. exists (S i'), (S j'). split; [lia|done].
      - destruct (IH i j x' y) as (i' & j' & ? & ? & ?); [lia|done|done|]. exists (S i'), (S j'). split; [lia|done]. }
    destruct (Hlift i j _ _ Hij Hi Hj) as (i' & j' & H1 & H2 & H3). by eapply Ha.
Qed.

(** Two messages to one address are let through at least a cooldown apart, failed
    sends not counted, and the map never holds more addresses than its bound, however
    many addresses are tried. An address is refused for one of three reasons only: it
    is empty, a message to it was recorded less than a cooldown ago, or the table is
    full of addresses that are all cooling down. *)
Theorem mail_spacing cooldown max t sent now (H : reach cooldown max t sent now) :
  (size (th_lastSent t) <= max)%nat /\
  (forall i j k a b, (i < j)%nat -> sent !! i = Some (k, a) -> sent !! j = Some (k, b) -> cooldown <= a - b) /\
  forall key now' t' r, reserve t key now' = (t', Some r) ->
    match r with
    | refusedEmpty => key = ""
    | refusedCoolingDown => exists last, th_lastSent t !! key = Some last /\ now' - last < cooldown
    | refusedTableFull => (size (th_lastSent t) = max)%nat /\ forall k a, th_lastSent t !! k = Some a -> now' - a < cooldown
    end.
Proof.
  assert (spaced cooldown max t sent now) as [Hc Hm Hs Hk Ha].
  { induction H; [constructor; cbn; [done|done|rewrite map_size_empty; lia|set_solver|done]|by eapply reserve_spaced|by eapply release_spaced]. }
  split; [done|]. split; [exact Ha|]. intros key now' t' r. unfold reserve.
  destruct (String.eqb_spec key ""); [by intros [= _ <-]|]. destruct (cooling t key now') eqn:Ec.
  { intros [= _ <-]. unfold cooling in Ec. destruct (th_lastSent t !! key) as [last|]; [|done]. exists last. split; [done|]. lia. }
  destruct (th_max t <=? size (th_lastSent t))%nat eqn:E1.
  2:{ rewrite E1. by intros [= ]. }
  destruct (th_max (evict_expired t now') <=? size _)%nat eqn:E2; [|by intros [=]]. intros [= _ <-].
  apply Nat.leb_le in E1, E2. rewrite Hm in *. cbn in E2. rewrite Hm in E2.
  assert (size (th_lastSent t) = max) as Esz by lia. split; [done|]. intros k a Hka.
  pose proof (map_filter_subseteq (fun x : string * Z => now' - x.2 < th_cooldown t) (th_lastSent t)) as Hsub.
  assert (filter (fun x : string * Z => now' - x.2 < th_cooldown t) (th_lastSent t) = th_lastSent t) as Ef.
  { apply map_subseteq_size_eq; [done|]. lia. }
  rewrite <- Ef in Hka. apply map_lookup_filter_Some in Hka as [_ Hka]. cbn in Hka. lia.
Qed.

(** Two sends to one address, the second at the end of the cooldown; a third is refused. *)
Lemma mail_spacing_witness :
  exists t, reach 10 1 t [("a", 10); ("a", 0)] 10 /\ (size (th_lastSent t) <= 1)%nat /\
    snd (reserve t "a" 19) = Some refusedCoolingDown /\ snd (reserve t "b" 12) = Some refusedTableFull.
Proof.
  set (t := fst (reserve (fst (reserve (newRecipientThrottle 10 1) "a" 0)) "a" 10)). exists t.
  assert (H : reach 10 1 t [("a", 10); ("a", 0)] 10).
  { set (t0 := fst (reserve (newRecipientThrottle 10 1) "a" 0)) in t.
    apply (reach_reserve 10 1 t0 [("a", 0)] 0 "a" 10 t None); [|lia|reflexivity].
    apply (reach_reserve 10 1 (newRecipientThrottle 10 1) [] 0 "a" 0 t0 None); [apply reach_new|lia|reflexivity]. }
  split; [exact H|]. split; [exact (proj1 (mail_spacing 10 1 _ _ _ H))|]. by split; vm_compute.
Defined.
