(* ===== verification/Accounts.v ===== *)
(** * Accounts

    The [users] table, the two tables of emailed links and the services that act on
    them: [src/backend/services/users-service.go], [verification-service.go],
    [password-reset-service.go], [AdminUpdateUser] of
    [admin-service.go], the sends of [mail-throttle.go] and
    [src/backend/validation/input-validation.go]. A service that reads, decides and
    then writes is cut where other requests can come in between.

    Arguments of the model: the hash functions, bcrypt and the address parser (class
    [Crypto]), PostgreSQL's [lower], and for every request a [moment]: the two clocks,
    the random bytes, the salt and what the mail relay does. Audit columns and the
    HTML alternative of a message are not modelled. *)

From S2P Require Import Prelude Effects GoStrings Sql Throttle.
Local Open Scope Z_scope.

(** ** Errors *)

Inductive validation_error :=
| ErrRequiredField | ErrInputTooLong | ErrParsingField | ErrInputTooShort | ErrPasswordTooLong
| ErrMustContainUppercase | ErrMustContainLowercase | ErrMustContainDigit | ErrMustContainSpecialCharacter.

Inductive acct_error :=
| ErrEmailExists | ErrOrgIDExists | ErrServer | ErrInvalidCredentials | ErrEmailNotVerified
| ErrCurrentPasswordRequired | ErrInvalidVerificationToken | ErrInvalidPasswordResetToken
| ErrUserNotFound | ErrSelfManagement | ErrSelfUnconfirm | ErrInvalidRole
| ErrCannotPreview | ErrInvalidPreviewRole | ErrNotPreviewing
| ErrSending | ErrValidation (v : validation_error).

#[export] Instance validation_error_eq_dec : EqDecision validation_error.
Proof. solve_decision. Defined.
#[export] Instance acct_error_eq_dec : EqDecision acct_error.
Proof. solve_decision. Defined.

(** ** The environment *)

Class Crypto := {
  sha256_hex : string -> string;
  sha1_hex : string -> string;
  bcrypt_generate : string -> string -> option string;
  bcrypt_compare : string -> string -> bool;
  parse_address : string -> bool;
  sql_lower : string -> string
}.

Inductive relay := Delivered | DeliveredButErrored | NotDelivered.
#[export] Instance relay_eq_dec : EqDecision relay.
Proof. solve_decision. Defined.

(** One request's environment: PostgreSQL's [NOW()] and the process's clock, the bytes
    [rand.Read] gives ([None]: it fails), bcrypt's salt, the mail relay. *)
Record moment := mk_moment {
  mo_now : Z; mo_clock : Z; mo_raw : option string; mo_salt : string; mo_relay : relay
}.

(** ** Tables *)

Record UserRow := mk_user {
  us_name : string; us_email : string; us_org : option string; us_hash : string; us_role : string;
  us_confirmed : bool; us_version : Z; us_pending : option string; us_editor : bool; us_created : Z
}.
#[export] Instance user_eta : Settable UserRow := fun r =>
  mk_user (us_name r) (us_email r) (us_org r) (us_hash r) (us_role r) (us_confirmed r) (us_version r)
          (us_pending r) (us_editor r) (us_created r).

(** A row of [email_verification_tokens] or [password_reset_tokens]; its key is the user. *)
Record TokenRow := mk_token { tk_hash : string; tk_expires : Z; tk_consumed : option Z }.
#[export] Instance token_eta : Settable TokenRow := fun r =>
  mk_token (tk_hash r) (tk_expires r) (tk_consumed r).

Record accounts := mk_accounts {
  ac_users : gmap Z UserRow; ac_verify : gmap Z TokenRow; ac_reset : gmap Z TokenRow; ac_next : Z
}.
#[export] Instance accounts_eta : Settable accounts := fun d =>
  mk_accounts (ac_users d) (ac_verify d) (ac_reset d) (ac_next d).

Record Message := mk_message { ms_To : string; ms_Subject : string; ms_Text : string }.

(** The backend's part: its connection, its throttle, and the messages delivered. *)
Record portal := mk_portal { pt_conn : conn accounts; pt_throttle : recipientThrottle; pt_mail : list Message }.
#[export] Instance portal_eta : Settable portal := fun s => mk_portal (pt_conn s) (pt_throttle s) (pt_mail s).

Definition pt_db (s : portal) : accounts := cn_db (pt_conn s).

Abbreviation acct A := (eff portal acct_error A).

(** ** Validation *)

Definition MaxUserNameLength : nat := 100.
Definition MaxOrgIDLength : nat := 64.

Section Validation.
Context {UT : UnicodeTables} {CR : Crypto}.

Definition ValidateEmailFormat (email : string) : res validation_error unit :=
  if String.eqb email "" then Err ErrRequiredField
  else if parse_address email then Ok tt else Err ErrParsingField.

Definition ValidateRequiredString (name : string) (maxSize : nat) : res validation_error unit :=
  if String.eqb name "" then Err ErrRequiredField
  else if (maxSize <? rune_count name)%nat then Err ErrInputTooLong else Ok tt.

Definition ValidateOptionalString (value : string) (maxSize : nat) : res validation_error unit :=
  if (maxSize <? rune_count value)%nat then Err ErrInputTooLong else Ok tt.

Definition specialChars : string := "!@#$%^&*()_+-=[]{};':" +:+ str1 "034"%char +:+ "\|,.<>/?~`".

Definition is_special (r : Z) : bool := existsb (fun t => rune_val t =? r) (runes specialChars).

(** Which classes of characters were seen: upper, lower, digit, special. *)
Record classes := mk_classes { has_upper : bool; has_lower : bool; has_digit : bool; has_special : bool }.

Definition see (c : classes) (t : rune) : classes :=
  let ch := rune_val t in
  if in_range 65 90 ch then mk_classes true (has_lower c) (has_digit c) (has_special c)
  else if in_range 97 122 ch then mk_classes (has_upper c) true (has_digit c) (has_special c)
  else if in_range 48 57 ch then mk_classes (has_upper c) (has_lower c) true (has_special c)
  else if is_special ch then mk_classes (has_upper c) (has_lower c) (has_digit c) true
  else c.

Definition ValidatePassword (password : string) : res validation_error unit :=
  let len := String.length password in
  if String.eqb password "" then Err ErrRequiredField
  else if (len <? 8)%nat then Err ErrInputTooShort
  else if (72 <? len)%nat then Err ErrPasswordTooLong
  else
    let c := fold_left see (runes password) (mk_classes false false false false) in
    if negb (has_upper c) then Err ErrMustContainUppercase
    else if negb (has_lower c) then Err ErrMustContainLowercase
    else if negb (has_digit c) then Err ErrMustContainDigit
    else if negb (has_special c) then Err ErrMustContainSpecialCharacter
    else Ok tt.

Definition NormalizeEmail (email : string) : string := to_lower (trim_space email).
End Validation.

Definition valid {A} (r : res validation_error A) : acct A :=
  lift (match r with Ok a => Ok a | Err v => Err (ErrValidation v) end).

(** ** Statements on [users] *)

Definition on_conn {A} (m : eff (conn accounts) acct_error A) : acct A := fun s =>
  let '(c, r) := m (pt_conn s) in (s <| pt_conn := c |>, r).

(** A statement whose failure is only logged. *)
Definition logged {A} (m : acct A) : acct unit := fun s => (fst (m s), Ok tt).

Definition pick {A} (P : Z * A -> bool) (m : gmap Z A) : option (Z * A) :=
  head (filter (fun x => P x = true) (map_to_list m)).

Inductive user_constraint :=
| users_email_key | users_org_id_key | users_pending_email_key | users_email_lower_key | users_pending_email_lower_key.

Section Users.
Context {CR : Crypto} (fault : nat -> bool).

Definition taken {A} `{EqDecision A} (f : UserRow -> option A) (id : Z) (r : UserRow) (d : accounts) : bool :=
  match f r with
  | None => false
  | Some v => existsb (fun x : Z * UserRow => negb (x.1 =? id) && bool_decide (f x.2 = Some v)) (map_to_list (ac_users d))
  end.

(** The first unique index the row [r] of [id] would break. *)
Definition violated (id : Z) (r : UserRow) (d : accounts) : option user_constraint :=
  if taken (fun r => Some (us_email r)) id r d then Some users_email_key
  else if taken us_org id r d then Some users_org_id_key
  else if taken us_pending id r d then Some users_pending_email_key
  else if taken (fun r => Some (sql_lower (us_email r))) id r d then Some users_email_lower_key
  else if taken (fun r => sql_lower <$> us_pending r) id r d then Some users_pending_email_lower_key
  else None.

Definition put_user (id : Z) (r : UserRow) (d : accounts) : accounts := d <| ac_users := <[id := r]> (ac_users d) |>.

(** [UPDATE users SET ... WHERE id = $1]. *)
Definition set_user (id : Z) (g : UserRow -> UserRow) (d : accounts) : accounts * option user_constraint :=
  match ac_users d !! id with
  | None => (d, None)
  | Some r => match violated id (g r) d with Some k => (d, Some k) | None => (put_user id (g r) d, None) end
  end.

Definition update_users (id : Z) (g : UserRow -> UserRow) : eff (conn accounts) acct_error (option user_constraint) :=
  statement fault ErrServer (fun d => Some (set_user id g d)).

(** An update that no constraint should refuse. *)
Definition update_user (id : Z) (g : UserRow -> UserRow) : eff (conn accounts) acct_error unit :=
  k ← update_users id g;
  match k with None => mret tt | Some _ => fail ErrServer end.

Definition ask {A} (f : accounts -> A) : acct A := on_conn (query fault ErrServer f).

Definition by_email (email : string) (d : accounts) : option (Z * UserRow) :=
  pick (fun x => String.eqb (us_email x.2) email) (ac_users d).
End Users.

(** ** Links *)

Definition VerificationTokenTTL : Z := 24 * 3600 * 10 ^ 9.
Definition PasswordResetTokenTTL : Z := 3600 * 10 ^ 9.
Definition SessionTTL : Z := 30 * 60.
Definition maxVerificationTokenLength : nat := 128.
Definition maxPasswordResetTokenLength : nat := 128.

Definition base64url_char (v : Z) : ascii :=
  z2b (if v <? 26 then 65 + v else if v <? 52 then 71 + v else if v <? 62 then v - 4 else if v =? 62 then 45 else 95).

(** [base64.RawURLEncoding]: three bytes become four characters; no padding. *)
Fixpoint base64url (s : string) : string :=
  match s with
  | String a (String b (String c r)) =>
      let v := Z.lor (Z.shiftl (b2z a) 16) (Z.lor (Z.shiftl (b2z b) 8) (b2z c)) in
      String (base64url_char (Z.shiftr v 18)) (String (base64url_char (Z.land (Z.shiftr v 12) 63))
        (String (base64url_char (Z.land (Z.shiftr v 6) 63)) (String (base64url_char (Z.land v 63)) (base64url r))))
  | String a (String b EmptyString) =>
      let v := Z.lor (Z.shiftl (b2z a) 16) (Z.shiftl (b2z b) 8) in
      String (base64url_char (Z.shiftr v 18)) (String (base64url_char (Z.land (Z.shiftr v 12) 63))
        (str1 (base64url_char (Z.land (Z.shiftr v 6) 63))))
  | String a EmptyString =>
      let v := Z.shiftl (b2z a) 16 in
      String (base64url_char (Z.shiftr v 18)) (str1 (base64url_char (Z.land (Z.shiftr v 12) 63)))
  | EmptyString => ""
  end.

Definition hex_upper (v : Z) : ascii := z2b (if v <? 10 then 48 + v else 55 + v).

Definition query_safe (a : ascii) : bool :=
  let c := b2z a in
  in_range 97 122 c || in_range 65 90 c || in_range 48 57 c || (c =? 45) || (c =? 95) || (c =? 46) || (c =? 126).

Definition query_escape_byte (a : ascii) : string :=
  if query_safe a then str1 a
  else if b2z a =? 32 then "+"
  else String "%" (String (hex_upper (Z.shiftr (b2z a) 4)) (str1 (hex_upper (Z.land (b2z a) 15)))).

(** [url.QueryEscape]. *)
Fixpoint QueryEscape (s : string) : string :=
  match s with EmptyString => "" | String a r => query_escape_byte a +:+ QueryEscape r end.

Section Mail.
Context (PublicURL : string).

Definition verificationLink (token : string) : string := PublicURL +:+ "/verify-email?token=" +:+ QueryEscape token.
Definition passwordResetLink (token : string) : string := PublicURL +:+ "/reset-password?token=" +:+ QueryEscape token.

Definition greeting (name : string) : string :=
  let displayName := trim_space name in
  if String.eqb displayName "" then "Olá!" else "Olá, " +:+ displayName +:+ "!".

Definition lines (l : list string) : string := String.concat nl l +:+ nl.

(** Subject and text. *)
Definition verificationEmailContent (name link : string) : string * string :=
  ("Confirme seu email no RunCodes",
   lines [greeting name; ""; "Confirme o seu email para ativar a sua conta no RunCodes:"; ""; link; "";
          "O link expira em " +:+ fmt_int (VerificationTokenTTL / (3600 * 10 ^ 9)) +:+
          " horas. Se você não criou esta conta, ignore este email."; ""; "RunCodes"]).

Definition emailChangeEmailContent (name link : string) : string * string :=
  ("Confirme o novo email da sua conta RunCodes",
   lines [greeting name; ""; "Recebemos um pedido para alterar o email da sua conta no RunCodes."; "";
          "Confirme o novo endereço neste link:"; ""; link; "";
          "O link expira em " +:+ fmt_int (VerificationTokenTTL / (3600 * 10 ^ 9)) +:+
          " horas. Até a confirmação, o email atual continua ativo.";
          "Se você não pediu esta alteração, ignore este email."; ""; "RunCodes"]).

Definition passwordResetEmailContent (name link : string) : string * string :=
  ("Redefina sua senha no RunCodes",
   lines [greeting name; ""; "Recebemos um pedido para redefinir a senha da sua conta no RunCodes."; "";
          "Acesse o link para escolher uma nova senha:"; ""; link; "";
          "O link expira em " +:+ fmt_int (PasswordResetTokenTTL / (3600 * 10 ^ 9)) +:+
          " hora e só pode ser usado uma vez. Se você não pediu a";
          "redefinição, ignore este email: a sua senha atual continua válida."; ""; "RunCodes"]).
End Mail.

(** ** Services *)

Definition legacyPasswordPrefix : string := "legacy-sha1$".

Record SignUpRequest := mk_signup { su_Name : string; su_Email : string; su_Password : string; su_Confirmation : string }.
Record LogInRequest := mk_login { li_Email : string; li_Password : string }.
Record User := mk_user_view { u_ID : Z; u_Name : string; u_Email : string; u_Role : string; u_TokenVersion : Z }.

(** The claims of a session token; a field the token lacks is [None]. *)
Record session := mk_session {
  sc_id : option Z; sc_name : option string; sc_email : option string; sc_role : option string;
  sc_version : option Z; sc_preview : option string; sc_exp : option Z
}.
#[export] Instance session_eta : Settable session := fun c =>
  mk_session (sc_id c) (sc_name c) (sc_email c) (sc_role c) (sc_version c) (sc_preview c) (sc_exp c).

Definition user_claims (u : User) : session :=
  mk_session (Some (u_ID u)) (Some (u_Name u)) (Some (u_Email u)) (Some (u_Role u)) (Some (u_TokenVersion u)) None None.

(** [SetIssuedAt] and [SetExpiryIn]; the clock is in nanoseconds, the claim in seconds. *)
Definition issue (mo : moment) (c : session) : session := c <| sc_exp := Some (mo_clock mo / 10 ^ 9 + SessionTTL) |>.

Record Profile := mk_profile {
  pf_ID : Z; pf_Name : string; pf_Email : string; pf_OrgID : string; pf_Role : string; pf_Confirmed : bool;
  pf_Editor : bool; pf_CreatedAt : Z; pf_PendingEmail : string
}.
#[export] Instance profile_eta : Settable Profile := fun p =>
  mk_profile (pf_ID p) (pf_Name p) (pf_Email p) (pf_OrgID p) (pf_Role p) (pf_Confirmed p) (pf_Editor p)
             (pf_CreatedAt p) (pf_PendingEmail p).

Record UpdateProfileRequest := mk_update_profile {
  up_Name : option string; up_Email : option string; up_OrgID : option string; up_Editor : option bool;
  up_CurrentPassword : string
}.

(** [NULLIF($3, '')]. *)
Definition nullif (s : string) : option string := if String.eqb s "" then None else Some s.

Section Services.
Context {UT : UnicodeTables} {CR : Crypto} (fault : nat -> bool) (PublicURL LegacyPasswordSalt : string).

Definition hashPassword (mo : moment) (password : string) : acct string :=
  match bcrypt_generate (mo_salt mo) password with Some h => mret h | None => fail ErrServer end.

Definition verifyBcryptPassword (password stored : string) : acct unit :=
  if bcrypt_compare stored password then mret tt else fail ErrInvalidCredentials.

Definition verifyAndUpgradeLegacyPassword (mo : moment) (userID : Z) (password stored : string) : acct unit :=
  if String.eqb LegacyPasswordSalt "" then fail ErrServer
  else if negb (String.eqb (trim_prefix legacyPasswordPrefix stored) (sha1_hex (LegacyPasswordSalt +:+ password)))
  then fail ErrInvalidCredentials
  else
    upgraded ← hashPassword mo password;
    logged (on_conn (update_user fault userID (fun r => r <| us_hash := upgraded |>))).

Definition check_password (mo : moment) (userID : Z) (password stored : string) : acct unit :=
  if has_prefix legacyPasswordPrefix stored then verifyAndUpgradeLegacyPassword mo userID password stored
  else verifyBcryptPassword password stored.

(** *** Signing up and in *)

Definition new_user (req : SignUpRequest) (hash : string) (now : Z) : UserRow :=
  mk_user (su_Name req) (NormalizeEmail (su_Email req)) None hash "student" false 1 None true now.

(** [INSERT INTO users ... RETURNING id]; an identity value is used up even if the row
    is refused, but no later row sees the difference. *)
Definition insert_user (r : UserRow) (d : accounts) : accounts * res user_constraint Z :=
  let id := ac_next d in
  match violated id r d with
  | Some k => (d, Err k)
  | None => (put_user id r (d <| ac_next := id + 1 |>), Ok id)
  end.

Definition SignUp (mo : moment) (req : SignUpRequest) : acct Z :=
  password ← hashPassword mo (su_Password req);
  on_conn (transaction fault ErrServer (
    r ← statement fault ErrServer (fun d => Some (insert_user (new_user req password (mo_now mo)) d));
    match r with Ok id => mret id | Err _ => fail ErrEmailExists end)).

(** The row is read; what follows works on the row read. *)
Definition checkLogIn (mo : moment) (req : LogInRequest) (row : option (Z * UserRow)) : acct session :=
  match row with
  | None => fail ErrInvalidCredentials
  | Some (id, r) =>
      _ ← map_error (fun e => if decide (e = ErrInvalidCredentials) then e else ErrServer)
            (check_password mo id (li_Password req) (us_hash r));
      if negb (us_confirmed r) then fail ErrEmailNotVerified
      else mret (issue mo (user_claims (mk_user_view id (us_name r) (NormalizeEmail (li_Email req)) (us_role r) (us_version r))))
  end.

Definition LogIn (mo : moment) (req : LogInRequest) : acct session :=
  row ← ask fault (by_email (NormalizeEmail (li_Email req)));
  checkLogIn mo req row.

Definition GetUserByID (id : Z) : acct User :=
  row ← ask fault (fun d => ac_users d !! id);
  match row with
  | None => fail ErrInvalidCredentials
  | Some r => mret (mk_user_view id (us_name r) (us_email r) (us_role r) (us_version r))
  end.

Definition CheckEmailExistence (email : string) : acct unit :=
  row ← ask fault (by_email (NormalizeEmail email));
  match row with None => mret tt | Some _ => fail ErrEmailExists end.

(** *** The session guard's view of an account *)

Record SessionState := mk_session_state { ss_Confirmed : bool; ss_Role : string; ss_TokenVersion : Z }.

Definition GetSessionState (userID : Z) : acct SessionState :=
  row ← ask fault (fun d => ac_users d !! userID);
  match row with
  | None => fail ErrUserNotFound
  | Some r => mret (mk_session_state (us_confirmed r) (us_role r) (us_version r))
  end.

(** *** Sending *)

Definition sendMail (mo : moment) (m : Message) : acct unit := fun s =>
  match mo_relay mo with
  | Delivered => (s <| pt_mail := pt_mail s ++ [m] |>, Ok tt)
  | DeliveredButErrored => (s <| pt_mail := pt_mail s ++ [m] |>, Err ErrSending)
  | NotDelivered => (s, Err ErrSending)
  end.

(** [INSERT ... ON CONFLICT (user_id) DO UPDATE]; another user's equal hash or a missing
    user refuses the row. *)
Definition upsert_token (userID : Z) (r : TokenRow) (users : gmap Z UserRow) (m : gmap Z TokenRow) : option (gmap Z TokenRow) :=
  if existsb (fun x : Z * TokenRow => negb (x.1 =? userID) && String.eqb (tk_hash x.2) (tk_hash r)) (map_to_list m) then None
  else match users !! userID with None => None | Some _ => Some (<[userID := r]> m) end.

Definition new_token (mo : moment) : acct string :=
  match mo_raw mo with None => fail ErrServer | Some raw => mret (base64url raw) end.

Definition issueVerificationToken (mo : moment) (userID : Z) : acct string :=
  token ← new_token mo;
  _ ← on_conn (exec fault ErrServer (fun d =>
        (fun m => d <| ac_verify := m |>) <$>
        upsert_token userID (mk_token (sha256_hex token) (mo_clock mo + VerificationTokenTTL) None) (ac_users d) (ac_verify d)));
  mret token.

Definition issuePasswordResetToken (mo : moment) (userID : Z) : acct string :=
  token ← new_token mo;
  _ ← on_conn (exec fault ErrServer (fun d =>
        (fun m => d <| ac_reset := m |>) <$>
        upsert_token userID (mk_token (sha256_hex token) (mo_clock mo + PasswordResetTokenTTL) None) (ac_users d) (ac_reset d)));
  mret token.

Definition send_link (mo : moment) (to : string) (content : string * string) : acct unit :=
  sendMail mo (mk_message to (fst content) (snd content)).

Definition SendVerificationEmail (mo : moment) (userID : Z) (name email : string) : acct unit :=
  token ← issueVerificationToken mo userID;
  send_link mo email (verificationEmailContent name (verificationLink PublicURL token)).

Definition SendEmailChangeEmail (mo : moment) (userID : Z) (name newEmail : string) : acct unit :=
  token ← issueVerificationToken mo userID;
  send_link mo newEmail (emailChangeEmailContent name (verificationLink PublicURL token)).

Definition SendPasswordResetEmail (mo : moment) (userID : Z) (name email : string) : acct unit :=
  token ← issuePasswordResetToken mo userID;
  send_link mo email (passwordResetEmailContent name (passwordResetLink PublicURL token)).

(** The key reserved, unless the send must be skipped. *)
Definition reserveTransactionalEmail (mo : moment) (email : string) : acct (option string) := fun s =>
  let key := NormalizeEmail email in
  let '(t, refused) := reserve (pt_throttle s) key (mo_clock mo) in
  (s <| pt_throttle := t |>, Ok (match refused with None => Some key | Some _ => None end)).

Definition sendWithinCooldown (mo : moment) (email : string) (send : acct unit) : acct unit :=
  key ← reserveTransactionalEmail mo email;
  match key with
  | None => mret tt
  | Some key => finally_with send (fun r => match r with
      | Err _ => modify (fun s => s <| pt_throttle := release (pt_throttle s) key |>)
      | Ok _ => mret tt
      end)
  end.

Definition ResendVerification (mo : moment) (email : string) : acct unit :=
  let email := NormalizeEmail email in
  row ← ask fault (by_email email);
  match row with
  | None => mret tt
  | Some (id, r) =>
      let pendingMail := default "" (us_pending r) in
      if negb (String.eqb pendingMail "")
      then sendWithinCooldown mo pendingMail (SendEmailChangeEmail mo id (us_name r) pendingMail)
      else if us_confirmed r then mret tt
      else sendWithinCooldown mo email (SendVerificationEmail mo id (us_name r) email)
  end.

Definition RequestPasswordReset (mo : moment) (email : string) : acct unit :=
  let email := NormalizeEmail email in
  row ← ask fault (by_email email);
  match row with
  | None => mret tt
  | Some (id, r) => sendWithinCooldown mo email (SendPasswordResetEmail mo id (us_name r) email)
  end.

(** *** Using a link *)

Definition usable (hash : string) (now : Z) (x : Z * TokenRow) : bool :=
  String.eqb (tk_hash x.2) hash && bool_decide (tk_consumed x.2 = None) && (now <? tk_expires x.2).

(** [UPDATE ... SET consumed_at = NOW() WHERE token_hash = $1 AND ... RETURNING user_id]. *)
Definition consume_token (hash : string) (now : Z) (m : gmap Z TokenRow) : gmap Z TokenRow * option Z :=
  match pick (usable hash now) m with
  | None => (m, None)
  | Some (id, r) => (<[id := r <| tk_consumed := Some now |>]> m, Some id)
  end.

Definition consume_verification (hash : string) (now : Z) (d : accounts) : accounts * option (Z * string) :=
  let '(m, id) := consume_token hash now (ac_verify d) in
  match id ≫= fun id => (fun r => (id, default "" (us_pending r))) <$> ac_users d !! id with
  | None => (d, None)
  | Some x => (d <| ac_verify := m |>, Some x)
  end.

Definition verificationLinkReuse (hash : string) : acct unit :=
  row ← ask fault (fun d =>
    x ← pick (fun x => String.eqb (tk_hash x.2) hash) (ac_verify d);
    r ← ac_users d !! x.1;
    Some (us_confirmed r, default "" (us_pending r)));
  match row with
  | None => fail ErrInvalidVerificationToken
  | Some (confirmed, pendingMail) =>
      if confirmed && String.eqb pendingMail "" then mret tt else fail ErrInvalidVerificationToken
  end.

(** The transaction; [false] is a token that could not be consumed. *)
Definition verify_transaction (mo : moment) (hash : string) : eff (conn accounts) acct_error bool :=
  row ← statement fault ErrServer (fun d => Some (consume_verification hash (mo_now mo) d));
  match row with
  | None => mret false
  | Some (userID, pendingMail) =>
      _ ← if negb (String.eqb pendingMail "") then
            k ← update_users fault userID (fun r => r <| us_email := pendingMail |> <| us_pending := None |>
                  <| us_confirmed := true |> <| us_version := us_version r + 1 |>);
            match k with None => mret tt | Some _ => fail ErrEmailExists end
          else update_user fault userID (fun r => r <| us_confirmed := true |>);
      mret true
  end.

(** Without a row the transaction is rolled back, which sends nothing of its own that
    could fail. *)
Definition rollback_unless (m : eff (conn accounts) acct_error bool) : eff (conn accounts) acct_error bool := fun c =>
  match transaction fault ErrServer (b ← m; if b : bool then mret true else fail ErrInvalidVerificationToken) c with
  | (c', Err ErrInvalidVerificationToken) => (c', Ok false)
  | r => r
  end.

Definition VerifyEmail (mo : moment) (token : string) : acct unit :=
  let token := trim_space token in
  if String.eqb token "" || (maxVerificationTokenLength <? String.length token)%nat then fail ErrInvalidVerificationToken
  else
    let hash := sha256_hex token in
    done ← on_conn (rollback_unless (verify_transaction mo hash));
    if done : bool then mret tt else verificationLinkReuse hash.

Definition ResetPassword (mo : moment) (token newPassword : string) : acct unit :=
  let token := trim_space token in
  if String.eqb token "" || (maxPasswordResetTokenLength <? String.length token)%nat then fail ErrInvalidPasswordResetToken
  else
    hashed ← hashPassword mo newPassword;
    let hash := sha256_hex token in
    on_conn (transaction fault ErrServer (
      userID ← statement fault ErrServer (fun d =>
        let '(m, id) := consume_token hash (mo_now mo) (ac_reset d) in Some (d <| ac_reset := m |>, id));
      match userID with
      | None => fail ErrInvalidPasswordResetToken
      | Some userID =>
          update_user fault userID (fun r => r <| us_hash := hashed |> <| us_version := us_version r + 1 |>)
      end)).

(** *** The caller's own account *)

Definition GetProfile (userID : Z) : acct Profile :=
  row ← ask fault (fun d => ac_users d !! userID);
  match row with
  | None => fail ErrUserNotFound
  | Some r => mret (mk_profile userID (us_name r) (us_email r) (default "" (us_org r)) (us_role r) (us_confirmed r)
                      (us_editor r) (us_created r) (default "" (us_pending r)))
  end.

Definition verifyCurrentPassword (mo : moment) (userID : Z) (password : string) : acct unit :=
  row ← ask fault (fun d => us_hash <$> ac_users d !! userID);
  match row with
  | None => fail ErrUserNotFound
  | Some stored => check_password mo userID password stored
  end.

Definition checkEmailAvailable (userID : Z) (email : string) : acct unit :=
  row ← ask fault (fun d => pick (fun x : Z * UserRow => negb (x.1 =? userID) &&
          (String.eqb (us_email x.2) email || bool_decide (us_pending x.2 = Some email))) (ac_users d));
  match row with None => mret tt | Some _ => fail ErrEmailExists end.

(** Everything before the write: the profile to store, and whether the email changes. *)
Definition prepareProfile (mo : moment) (userID : Z) (req : UpdateProfileRequest) : acct (Profile * bool) :=
  p ← GetProfile userID;
  p ← match up_Name req with
      | None => mret p
      | Some n => _ ← valid (ValidateRequiredString (trim_space n) MaxUserNameLength); mret (p <| pf_Name := trim_space n |>)
      end;
  p ← match up_OrgID req with
      | None => mret p
      | Some o => _ ← valid (ValidateOptionalString (trim_space o) MaxOrgIDLength); mret (p <| pf_OrgID := trim_space o |>)
      end;
  let p := match up_Editor req with None => p | Some b => p <| pf_Editor := b |> end in
  match up_Email req with
  | None => mret (p, false)
  | Some email =>
      let newEmail := NormalizeEmail email in
      if String.eqb newEmail (NormalizeEmail (pf_Email p)) then mret (p, false)
      else if String.eqb (up_CurrentPassword req) "" then fail ErrCurrentPasswordRequired
      else
        _ ← verifyCurrentPassword mo userID (up_CurrentPassword req);
        _ ← valid (ValidateEmailFormat newEmail);
        _ ← checkEmailAvailable userID newEmail;
        mret (p <| pf_PendingEmail := newEmail |>, true)
  end.

Definition profile_row (p : Profile) (r : UserRow) : UserRow :=
  r <| us_name := pf_Name p |> <| us_email := pf_Email p |> <| us_org := nullif (pf_OrgID p) |>
    <| us_editor := pf_Editor p |>
    <| us_pending := if String.eqb (pf_PendingEmail p) "" then us_pending r else Some (pf_PendingEmail p) |>.

Definition unique_violation (k : option user_constraint) : acct unit :=
  match k with
  | None => mret tt
  | Some users_org_id_key => fail ErrOrgIDExists
  | Some _ => fail ErrEmailExists
  end.

Definition storeProfile (userID : Z) (p : Profile) : acct unit :=
  k ← on_conn (update_users fault userID (profile_row p));
  unique_violation k.

(** The link to the new address; if it cannot be sent, the pending address goes. *)
Definition announceEmail (mo : moment) (userID : Z) (p : Profile) : acct unit :=
  map_error (fun _ => ErrServer) (finally_with (SendEmailChangeEmail mo userID (pf_Name p) (pf_PendingEmail p))
    (fun r => match r with
     | Err _ => logged (on_conn (update_user fault userID (fun r =>
         if bool_decide (us_pending r = Some (pf_PendingEmail p)) then r <| us_pending := None |> else r)))
     | Ok _ => mret tt
     end)).

(** The change as stored and announced. *)
Definition applyProfile (mo : moment) (userID : Z) (change : Profile * bool) : acct Profile :=
  _ ← storeProfile userID (fst change);
  _ ← if snd change then announceEmail mo userID (fst change) else mret tt;
  mret (fst change).

Definition UpdateProfile (mo : moment) (userID : Z) (req : UpdateProfileRequest) : acct Profile :=
  change ← prepareProfile mo userID req;
  applyProfile mo userID change.

Definition ChangePassword (mo : moment) (userID : Z) (currentPassword newPassword : string) : acct unit :=
  _ ← verifyCurrentPassword mo userID currentPassword;
  hashed ← hashPassword mo newPassword;
  on_conn (update_user fault userID (fun r => r <| us_hash := hashed |> <| us_version := us_version r + 1 |>)).
End Services.
