(* ===== verification/Sessions.v ===== *)
(** * Sessions

    Session tokens and the handlers that issue, check and renew them:
    [src/backend/services/preview-service.go], [RequireCurrentSession] and the link
    handlers of [src/backend/handlers/verification-handler.go] and
    [password-reset-handler.go], [users-handler.go], [profile-handler.go],
    [preview-handler.go], [src/backend/validation/roles.go], and [AdminUpdateUser].

    A token is its claims: signing and checking are [jwtauth]'s, whose verifier hands a
    handler the claims of an unexpired token signed with the backend's key ([None]:
    none). A request body that cannot be decoded is [None]. *)

From S2P Require Import Prelude Effects GoStrings Sql Throttle Accounts.
Local Open Scope Z_scope.

Inductive message := MNone | MService (e : acct_error) | MText (s : string).

(** Status, body, and the session cookie set. *)
Record reply (A : Type) := mk_reply { re_status : Z; re_body : message + A; re_cookie : option session }.
Arguments mk_reply {A} _ _ _.
Arguments re_status {A} _.
Arguments re_body {A} _.
Arguments re_cookie {A} _.

Definition refuse {A} (status : Z) (m : message) : reply A := mk_reply status (inl m) None.
Definition done {A} (status : Z) : reply A := mk_reply status (inl MNone) None.

(** [writeServiceError], on the errors of these services. *)
Definition writeServiceError {A} (e : acct_error) : reply A :=
  match e with
  | ErrUserNotFound => refuse 404 (MService e)
  | ErrInvalidRole | ErrNotPreviewing | ErrInvalidPreviewRole => refuse 400 (MService e)
  | ErrValidation (ErrRequiredField | ErrInputTooLong | ErrParsingField) => refuse 400 (MService e)
  | ErrCannotPreview => refuse 422 (MService e)
  | ErrEmailExists | ErrOrgIDExists | ErrSelfManagement | ErrSelfUnconfirm => refuse 409 (MService e)
  | _ => refuse 500 (MService ErrServer)
  end.

(** A handler that ends with a service's result. *)
Definition answer {A B} (m : acct A) (ok : A -> reply B) (err : acct_error -> reply B) : portal -> portal * reply B :=
  fun s => match m s with (s', Ok a) => (s', ok a) | (s', Err e) => (s', err e) end.

(** ** Roles and previews *)

Definition PreviewRoleStudent : string := "student".
Definition PreviewRoleProfessor : string := "professor".

Definition ValidPreviewRole (role : string) : bool :=
  String.eqb role PreviewRoleStudent || String.eqb role PreviewRoleProfessor.

Definition userRoles : list string := ["student"; "professor"; "admin"; "dev"].
Definition ValidUserRole (role : string) : bool := bool_decide (role ∈ userRoles).

(** [RequireRole]: [None] lets the request through. *)
Definition RequireRole (roles : list string) (claims : option session) : option Z :=
  match claims with
  | None => Some 401
  | Some c =>
      match sc_role c with
      | None => Some 403
      | Some role => if bool_decide (role ∈ roles) then None else Some 403
      end
  end.

Definition sessionRoleAllowed (claimRole databaseRole previewRole : string) : bool :=
  if String.eqb claimRole databaseRole then String.eqb previewRole ""
  else if String.eqb previewRole "" || negb (String.eqb previewRole claimRole) then false
  else if negb (String.eqb databaseRole "admin") then false
  else String.eqb claimRole "student" || String.eqb claimRole "professor".

Definition PreviewClaims (admin : User) (role : string) : res acct_error session :=
  if negb (String.eqb (u_Role admin) "admin") then Err ErrCannotPreview
  else if negb (ValidPreviewRole role) then Err ErrInvalidPreviewRole
  else Ok ((user_claims admin) <| sc_role := Some role |> <| sc_preview := Some role |>).

Record AuthInfo := mk_auth_info {
  ai_ID : Z; ai_Name : string; ai_Email : string; ai_Role : string; ai_ExpiresAt : Z; ai_PreviewingRole : string
}.

Definition authInfoFromClaims (c : session) (expiresAt : Z) : AuthInfo :=
  mk_auth_info (default 0 (sc_id c)) (default "" (sc_name c)) (default "" (sc_email c)) (default "" (sc_role c))
    expiresAt (default "" (sc_preview c)).

Record AdminUser := mk_admin_user {
  au_ID : Z; au_Name : string; au_Email : string; au_OrgID : string; au_Role : string; au_Confirmed : bool; au_CreatedAt : Z
}.
#[export] Instance admin_user_eta : Settable AdminUser := fun u =>
  mk_admin_user (au_ID u) (au_Name u) (au_Email u) (au_OrgID u) (au_Role u) (au_Confirmed u) (au_CreatedAt u).

Record UpdateUserRequest := mk_update_user {
  uu_Name : option string; uu_Email : option string; uu_OrgID : option string; uu_Role : option string;
  uu_Confirmed : option bool
}.

Section Sessions.
Context {UT : UnicodeTables} {CR : Crypto} (fault : nat -> bool) (PublicURL LegacyPasswordSalt : string).

(** ** The guard *)

(** What the guard makes of the claims and the account's state; [None] passes. *)
Definition session_verdict (c : session) (st : SessionState) : option (reply Empty_set) :=
  if match sc_version c with Some v => v =? ss_TokenVersion st | None => false end &&
     sessionRoleAllowed (default "" (sc_role c)) (ss_Role st) (default "" (sc_preview c))
  then if ss_Confirmed st then None else Some (refuse 403 (MService ErrEmailNotVerified))
  else Some (refuse 401 MNone).

(** [None]: the request goes on. *)
Definition RequireCurrentSession (claims : option session) : portal -> portal * option (reply Empty_set) := fun s =>
  match claims with
  | None => (s, Some (refuse 401 MNone))
  | Some c =>
      match sc_id c with
      | None => (s, Some (refuse 401 MNone))
      | Some userID =>
          match GetSessionState fault userID s with
          | (s', Ok st) => (s', session_verdict c st)
          | (s', Err ErrUserNotFound) => (s', Some (refuse 401 MNone))
          | (s', Err _) => (s', Some (refuse 500 (MService ErrServer)))
          end
      end
  end.

(** ** Signing up, in and on *)

Definition handle_signup (mo : moment) (req : option SignUpRequest) : portal -> portal * reply Empty_set := fun s =>
  match req with
  | None => (s, refuse 400 (MText "invalid sign up request"))
  | Some req =>
      let req := mk_signup (trim_space (su_Name req)) (NormalizeEmail (su_Email req)) (su_Password req) (su_Confirmation req) in
      match ValidateRequiredString (su_Name req) 100, ValidateEmailFormat (su_Email req) with
      | Err v, _ => (s, refuse 400 (MService (ErrValidation v)))
      | _, Err v => (s, refuse 400 (MService (ErrValidation v)))
      | Ok _, Ok _ =>
          if negb (String.eqb (su_Password req) (su_Confirmation req)) then (s, refuse 400 (MText "passwords don't match"))
          else match ValidatePassword (su_Password req) with
          | Err v => (s, refuse 400 (MService (ErrValidation v)))
          | Ok _ =>
              match SignUp fault mo req s with
              | (s', Err ErrEmailExists) => (s', done 201)
              | (s', Err _) => (s', refuse 500 (MService ErrServer))
              | (s', Ok userID) =>
                  (fst (SendVerificationEmail fault PublicURL mo userID (su_Name req) (su_Email req) s'), done 201)
              end
          end
      end
  end.

Definition handle_login (mo : moment) (req : option LogInRequest) : portal -> portal * reply Empty_set := fun s =>
  match req with
  | None => (s, refuse 400 (MText "Invalid login request"))
  | Some req =>
      let req := mk_login (NormalizeEmail (li_Email req)) (li_Password req) in
      match ValidateEmailFormat (li_Email req) with
      | Err v => (s, refuse 400 (MService (ErrValidation v)))
      | Ok _ =>
          answer (LogIn fault LegacyPasswordSalt mo req) (fun c => mk_reply 200 (inl MNone) (Some c))
            (fun e => match e with
             | ErrInvalidCredentials => refuse 401 (MService e)
             | ErrEmailNotVerified => refuse 403 (MService e)
             | _ => refuse 500 (MService ErrServer)
             end) s
      end
  end.

(** The clock of the answer may be read later than that of the claim; the model reads
    it once. *)
Definition renewed (mo : moment) (c : session) : reply AuthInfo :=
  let c := issue mo c in mk_reply 200 (inr (authInfoFromClaims c (mo_clock mo / 10 ^ 9 + SessionTTL))) (Some c).

Definition GetAuth (claims : option session) : reply AuthInfo :=
  match claims with
  | None => refuse 401 MNone
  | Some c =>
      match sc_id c, sc_name c, sc_email c, sc_role c, sc_exp c with
      | Some _, Some _, Some _, Some _, Some exp => mk_reply 200 (inr (authInfoFromClaims c exp)) None
      | _, _, _, _, _ => refuse 401 MNone
      end
  end.

Definition RefreshAuth (mo : moment) (claims : option session) : portal -> portal * reply AuthInfo := fun s =>
  match claims with
  | None => (s, refuse 401 MNone)
  | Some c =>
      match sc_id c with
      | None => (s, refuse 401 MNone)
      | Some id =>
          answer (GetUserByID fault id)
            (fun user => match sc_preview c with
             | None => renewed mo (user_claims user)
             | Some role => match PreviewClaims user role with Ok c' => renewed mo c' | Err _ => refuse 401 MNone end
             end)
            (fun e => match e with ErrInvalidCredentials => refuse 401 MNone | _ => refuse 500 (MService ErrServer) end) s
      end
  end.

(** ** Previews *)

Definition GetAdminForPreview (adminID : Z) : acct User := 
  admin ← map_error (fun e => if decide (e = ErrInvalidCredentials) then ErrUserNotFound else e) (GetUserByID fault adminID);
  if negb (String.eqb (u_Role admin) "admin") then fail ErrCannotPreview else mret admin.

Definition AdminStartPreview (mo : moment) (claims : option session) (role : option string) : portal -> portal * reply AuthInfo :=
  fun s =>
  match claims ≫= sc_id with
  | None => (s, refuse 401 MNone)
  | Some adminID =>
      match role with
      | None => (s, refuse 400 (MText "invalid preview request"))
      | Some role =>
          answer (admin ← GetAdminForPreview adminID; lift (PreviewClaims admin role)) (renewed mo) writeServiceError s
      end
  end.

Definition StopPreview (mo : moment) (claims : option session) : portal -> portal * reply AuthInfo := fun s =>
  match claims with
  | None => (s, refuse 401 MNone)
  | Some c =>
      match sc_preview c, sc_id c with
      | None, _ => (s, writeServiceError ErrNotPreviewing)
      | _, None => (s, refuse 401 MNone)
      | Some _, Some adminID =>
          answer (GetAdminForPreview adminID) (fun admin => renewed mo (user_claims admin)) writeServiceError s
      end
  end.

(** ** Emailed links *)

Definition handle_verify_email (mo : moment) (token : option string) : portal -> portal * reply Empty_set := fun s =>
  match trim_space <$> token with
  | None => (s, refuse 400 (MText "invalid verification request"))
  | Some "" => (s, refuse 400 (MText "verification token is required"))
  | Some token =>
      answer (VerifyEmail fault mo token) (fun _ => done 204)
        (fun e => match e with
         | ErrInvalidVerificationToken => refuse 400 (MService e)
         | ErrEmailExists => refuse 409 (MText "that email address is no longer available")
         | _ => refuse 500 (MService ErrServer)
         end) s
  end.

(** The two public requests for a link: whatever the service answers is only logged. *)
Definition ask_for_link (what : string) (service : string -> acct unit) (email : option string) : portal -> portal * reply Empty_set :=
  fun s =>
  match trim_space <$> email with
  | None => (s, refuse 400 (MText what))
  | Some email =>
      match ValidateEmailFormat email with
      | Err v => (s, refuse 400 (MService (ErrValidation v)))
      | Ok _ => (fst (service email s), done 202)
      end
  end.

Definition handle_resend_verification (mo : moment) : option string -> portal -> portal * reply Empty_set :=
  ask_for_link "invalid verification request" (ResendVerification fault PublicURL mo).

Definition ForgotPassword (mo : moment) : option string -> portal -> portal * reply Empty_set :=
  ask_for_link "invalid password reset request" (RequestPasswordReset fault PublicURL mo).

Record ResetPasswordRequest := mk_reset { rs_Token : string; rs_Password : string; rs_Confirmation : string }.

Definition handle_reset_password (mo : moment) (req : option ResetPasswordRequest) : portal -> portal * reply Empty_set := fun s =>
  match req with
  | None => (s, refuse 400 (MText "invalid password reset request"))
  | Some req =>
      let token := trim_space (rs_Token req) in
      if String.eqb token "" then (s, refuse 400 (MText "password reset token is required"))
      else if negb (String.eqb (rs_Password req) (rs_Confirmation req)) then (s, refuse 400 (MText "passwords don't match"))
      else match ValidatePassword (rs_Password req) with
      | Err v => (s, refuse 400 (MService (ErrValidation v)))
      | Ok _ =>
          answer (ResetPassword fault mo token (rs_Password req)) (fun _ => done 204)
            (fun e => match e with
             | ErrInvalidPasswordResetToken => refuse 400 (MService e)
             | _ => refuse 500 (MService ErrServer)
             end) s
      end
  end.

(** ** The caller's own account *)

Definition handle_get_profile (claims : option session) : portal -> portal * reply Profile := fun s =>
  match claims ≫= sc_id with
  | None => (s, refuse 401 MNone)
  | Some userID => answer (GetProfile fault userID) (fun p => mk_reply 200 (inr p) None) writeServiceError s
  end.

Definition handle_update_profile (mo : moment) (claims : option session) (req : option UpdateProfileRequest) :
  portal -> portal * reply Profile := fun s =>
  match claims ≫= sc_id, req with
  | None, _ => (s, refuse 401 MNone)
  | _, None => (s, refuse 400 (MText "Invalid profile update request"))
  | Some userID, Some req =>
      answer (UpdateProfile fault PublicURL LegacyPasswordSalt mo userID req) (fun p => mk_reply 200 (inr p) None)
        (fun e => match e with
         | ErrCurrentPasswordRequired => refuse 400 (MService e)
         | ErrInvalidCredentials => refuse 401 (MText "current password is incorrect")
         | _ => writeServiceError e
         end) s
  end.

Record ChangePasswordRequest := mk_change { cp_Current : string; cp_New : string; cp_Confirmation : string }.

Definition handle_change_password (mo : moment) (claims : option session) (req : option ChangePasswordRequest) :
  portal -> portal * reply Empty_set := fun s =>
  match claims ≫= sc_id, req with
  | None, _ => (s, refuse 401 MNone)
  | _, None => (s, refuse 400 (MText "Invalid password change request"))
  | Some userID, Some req =>
      if negb (String.eqb (cp_New req) (cp_Confirmation req)) then (s, refuse 400 (MText "passwords don't match"))
      else match ValidatePassword (cp_New req) with
      | Err v => (s, refuse 400 (MService (ErrValidation v)))
      | Ok _ =>
          answer (ChangePassword fault LegacyPasswordSalt mo userID (cp_Current req) (cp_New req)) (fun _ => done 204)
            (fun e => match e with
             | ErrInvalidCredentials => refuse 401 (MText "current password is incorrect")
             | _ => writeServiceError e
             end) s
      end
  end.

(** ** The administrator's edit of an account *)

Definition fetchAdminUser (userID : Z) : acct AdminUser :=
  row ← ask fault (fun d => ac_users d !! userID);
  match row with
  | None => fail ErrUserNotFound
  | Some r => mret (mk_admin_user userID (us_name r) (us_email r) (default "" (us_org r)) (us_role r) (us_confirmed r) (us_created r))
  end.

(** The request applied to the row read: the account to store, whether the address
    changes, and by how much the version grows. *)
Definition editUser (old : AdminUser) (req : UpdateUserRequest) (own : bool) : acct (AdminUser * bool * Z) :=
  _ ← if own && match uu_Email req with Some e => negb (String.eqb (NormalizeEmail e) (NormalizeEmail (au_Email old))) | None => false end
      then fail ErrSelfManagement else mret tt;
  u ← match uu_Name req with
      | None => mret old
      | Some n => _ ← valid (ValidateRequiredString (trim_space n) MaxUserNameLength); mret (old <| au_Name := trim_space n |>)
      end;
  u ← match uu_Email req with
      | None => mret u
      | Some e => _ ← valid (ValidateEmailFormat (NormalizeEmail e)); mret (u <| au_Email := NormalizeEmail e |>)
      end;
  u ← match uu_OrgID req with
      | None => mret u
      | Some o => _ ← valid (ValidateOptionalString (trim_space o) MaxOrgIDLength); mret (u <| au_OrgID := trim_space o |>)
      end;
  u ← match uu_Role req with
      | None => mret u
      | Some r => if ValidUserRole (trim_space r) then mret (u <| au_Role := trim_space r |>) else fail ErrInvalidRole
      end;
  let u := match uu_Confirmed req with None => u | Some b => u <| au_Confirmed := b |> end in
  let emailChanged := negb (String.eqb (NormalizeEmail (au_Email u)) (NormalizeEmail (au_Email old))) in
  let u := if emailChanged && bool_decide (uu_Confirmed req = None) then u <| au_Confirmed := false |> else u in
  let bumpVersion := if emailChanged || negb (String.eqb (au_Role u) (au_Role old)) ||
                        negb (Bool.eqb (au_Confirmed u) (au_Confirmed old)) then 1 else 0 in
  mret (u, emailChanged, bumpVersion).

Definition admin_row (u : AdminUser) (emailChanged : bool) (bumpVersion : Z) (r : UserRow) : UserRow :=
  r <| us_name := au_Name u |> <| us_email := au_Email u |> <| us_org := nullif (au_OrgID u) |>
    <| us_role := au_Role u |> <| us_confirmed := au_Confirmed u |>
    <| us_pending := if emailChanged then None else us_pending r |>
    <| us_version := us_version r + bumpVersion |>.

Definition admin_violation (k : option user_constraint) : acct unit :=
  match k with
  | None => mret tt
  | Some (users_email_key | users_email_lower_key) => fail ErrEmailExists
  | Some users_org_id_key => fail ErrOrgIDExists
  | Some _ => fail ErrServer
  end.

Definition AdminUpdateUser (userID : Z) (req : UpdateUserRequest) (adminID : Z) : acct AdminUser :=
  if (userID =? adminID) && bool_decide (uu_Role req <> None) then fail ErrSelfManagement
  else if (userID =? adminID) && bool_decide (uu_Confirmed req = Some false) then fail ErrSelfUnconfirm
  else
    old ← fetchAdminUser userID;
    '(u, emailChanged, bumpVersion) ← editUser old req (userID =? adminID);
    k ← on_conn (update_users fault userID (admin_row u emailChanged bumpVersion));
    _ ← admin_violation k;
    mret u.

Definition handle_admin_update_user (claims : option session) (id : string) (req : option UpdateUserRequest) :
  portal -> portal * reply AdminUser := fun s =>
  match claims ≫= sc_id with
  | None => (s, refuse 401 MNone)
  | Some adminID =>
      match parse_int id, req with
      | None, _ => (s, refuse 400 (MText "invalid user id"))
      | Some userID, req =>
          if userID <=? 0 then (s, refuse 400 (MText "invalid user id"))
          else match req with
          | None => (s, refuse 400 (MText "Invalid user update request"))
          | Some req => answer (AdminUpdateUser userID req adminID) (fun u => mk_reply 200 (inr u) None) writeServiceError s
          end
      end
  end.
End Sessions.
