(* ===== verification/AccountsProofs.v ===== *)
(** * Accounts: invariants

    What every request keeps of the account tables ([accounts_ok]) and how they move
    ([grows]): identities are not reused and session versions never go down. Both are
    proved of each service once, for any two-state property closed under composition,
    and carried along [reach], the executions of the backend. *)

From S2P Require Import Prelude Effects GoStrings Sql Throttle Accounts Sessions.
Local Open Scope Z_scope.

(** ** Two-state properties of a computation *)

Section Follows.
Context {S : Type} (π : S -> accounts) (R : accounts -> accounts -> Prop) `{!PreOrder R}.

Definition follows {A} (m : eff S acct_error A) : Prop := forall s, R (π s) (π (fst (m s))).

Lemma follows_ret {A} (a : A) : follows (mret a).
Proof. intros s. cbn. reflexivity. Qed.

Lemma follows_fail {A} e : follows (A := A) (fail e).
Proof. intros s. cbn. reflexivity. Qed.

Lemma follows_lift {A} (r : res acct_error A) : follows (lift r).
Proof. intros s. cbn. reflexivity. Qed.

Lemma follows_bind {A B} (m : eff S acct_error A) (k : A -> eff S acct_error B) :
  follows m -> (forall a, follows (k a)) -> follows (m ≫= k).
Proof.
  intros Hm Hk s. specialize (Hm s). unfold mbind, eff_bind.
  destruct (m s) as [s1 [a|e]]; [|done]. etrans; [exact Hm|apply Hk].
Qed.

Lemma follows_map_error {A} f (m : eff S acct_error A) : follows m -> follows (map_error f m).
Proof. intros Hm s. specialize (Hm s). unfold map_error. by destruct (m s) as [s1 [a|e]]. Qed.

Lemma follows_finally_with {A} (m : eff S acct_error A) c :
  follows m -> (forall r, follows (c r)) -> follows (finally_with m c).
Proof.
  intros Hm Hc s. specialize (Hm s). unfold finally_with. destruct (m s) as [s1 r]. cbn. etrans; [exact Hm|apply Hc].
Qed.

Lemma follows_modify f : (forall s, π (f s) = π s) -> follows (modify f).
Proof. intros H s. cbn. by rewrite H. Qed.
End Follows.

Create HintDb follows.
#[export] Hint Resolve follows_ret follows_fail follows_lift follows_map_error : follows.

Section Portal.
Context (R : accounts -> accounts -> Prop) `{!PreOrder R} (fault : nat -> bool).

Abbreviation follows_c := (follows cn_db R).
Abbreviation follows_p := (follows pt_db R).

Lemma follows_statement {A} (f : accounts -> option (accounts * A)) :
  (forall d d' a, f d = Some (d', a) -> R d d') -> follows_c (statement fault ErrServer f).
Proof.
  intros H c. unfold statement. destruct (fault _); [cbn; reflexivity|].
  destruct (f (cn_db c)) as [[d a]|] eqn:E; cbn; [by eapply H|reflexivity].
Qed.

Lemma follows_query {A} (f : accounts -> A) : follows_c (query fault ErrServer f).
Proof. apply follows_statement. intros d d' a [= <- _]. reflexivity. Qed.

Lemma follows_exec (f : accounts -> option accounts) :
  (forall d d', f d = Some d' -> R d d') -> follows_c (exec fault ErrServer f).
Proof.
  intros H. apply follows_statement. intros d d' a Hf. destruct (f d) eqn:E; [|done].
  injection Hf as <- _. by apply H.
Qed.

Lemma follows_transaction {A} (m : eff (conn accounts) acct_error A) :
  follows_c m -> follows_c (transaction fault ErrServer m).
Proof.
  intros H c. unfold transaction. destruct (fault _); [cbn; reflexivity|].
  specialize (H (mk_conn (cn_db c) (S (cn_sent c)))). cbn in H.
  destruct (m _) as [c1 [a|e]]; [|cbn; reflexivity]. destruct (fault _); [cbn; reflexivity|exact H].
Qed.

Lemma follows_on_conn {A} (m : eff (conn accounts) acct_error A) : follows_c m -> follows_p (on_conn m).
Proof.
  intros H s. unfold on_conn. specialize (H (pt_conn s)). by destruct (m (pt_conn s)) as [c r].
Qed.

Lemma follows_logged {A} (m : acct A) : follows_p m -> follows_p (logged m).
Proof. intros H s. apply H. Qed.

Lemma follows_ask {A} (f : accounts -> A) : follows_p (ask fault f).
Proof. apply follows_on_conn, follows_query. Qed.
End Portal.

#[export] Hint Resolve follows_query follows_transaction follows_on_conn follows_logged follows_ask : follows.

(** Take a service apart down to its writes. *)
Ltac follow :=
  repeat (lazymatch goal with
  | |- follows _ _ (mbind _ _) => apply (follows_bind _ _); [|intros ?]
  | |- follows _ _ (match ?x with _ => _ end) => destruct x
  | |- follows _ _ (let _ := _ in _) => cbv zeta
  | |- follows _ _ (finally_with _ _) => apply (follows_finally_with _ _); [|intros ?]
  | |- follows _ _ (transaction _ _ _) => apply (follows_transaction _ _)
  | |- follows _ _ (on_conn _) => apply follows_on_conn
  | |- follows _ _ (logged _) => apply follows_logged
  | |- follows _ _ (modify _) => apply (follows_modify _ _); done
  | |- follows _ _ _ => solve [eauto with follows typeclass_instances]
  end).

(** ** The tables' invariant *)

Definition unique_in {A B} (f : A -> option B) (m : gmap Z A) : Prop :=
  forall i j a b v, m !! i = Some a -> m !! j = Some b -> f a = Some v -> f b = Some v -> i = j.

Section Tables.
Context {UT : UnicodeTables} {CR : Crypto}.

Record accounts_ok (d : accounts) : Prop := {
  ok_email : unique_in (fun r => Some (us_email r)) (ac_users d);
  ok_org : unique_in us_org (ac_users d);
  ok_pending : unique_in us_pending (ac_users d);
  ok_email_lower : unique_in (fun r => Some (sql_lower (us_email r))) (ac_users d);
  ok_pending_lower : unique_in (fun r => sql_lower <$> us_pending r) (ac_users d);
  ok_verify : unique_in (fun r => Some (tk_hash r)) (ac_verify d);
  ok_reset : unique_in (fun r => Some (tk_hash r)) (ac_reset d);
  ok_verify_user : forall i, is_Some (ac_verify d !! i) -> is_Some (ac_users d !! i);
  ok_reset_user : forall i, is_Some (ac_reset d !! i) -> is_Some (ac_users d !! i);
  ok_ids : forall i, is_Some (ac_users d !! i) -> i < ac_next d
}.

(** [d'] comes after [d]: what was an account still is, with a version as high; new
    accounts have new numbers. *)
Record grows (d d' : accounts) : Prop := {
  gr_next : ac_next d <= ac_next d';
  gr_users : forall i r', ac_users d' !! i = Some r' -> i < ac_next d ->
    exists r, ac_users d !! i = Some r /\ us_version r <= us_version r'
}.

#[export] Instance grows_preorder : PreOrder grows.
Proof.
  split.
  - intros d. split; [done|]. intros i r' H _. by exists r'.
  - intros d1 d2 d3 [N1 U1] [N2 U2]. split; [lia|]. intros i r3 H3 Hi.
    destruct (U2 i r3 H3 ltac:(lia)) as (r2 & H2 & L2). destruct (U1 i r2 H2 Hi) as (r1 & H1 & L1).
    exists r1. split; [done|lia].
Qed.

(** A step: the tables grow, and stay well formed. *)
Definition sound (d d' : accounts) : Prop := grows d d' /\ (accounts_ok d -> accounts_ok d').

#[export] Instance sound_preorder : PreOrder sound.
Proof.
  split; [intros d; split; [reflexivity|done]|].
  intros d1 d2 d3 [G1 K1] [G2 K2]. split; [by etrans|auto].
Qed.

(** *** Maps with a unique key *)

Lemma unique_insert {A B} (f : A -> option B) (m : gmap Z A) i a :
  unique_in f m -> (forall j b v, m !! j = Some b -> f a = Some v -> f b = Some v -> j = i) ->
  unique_in f (<[i := a]> m).
Proof.
  intros Hu Ha j k x y v Hj Hk Fx Fy.
  destruct (decide (j = i)) as [->|Hij], (decide (k = i)) as [->|Hik]; [done| | |].
  - rewrite lookup_insert_eq in Hj. injection Hj as <-. rewrite lookup_insert_ne in Hk by done.
    symmetry. by eapply Ha.
  - rewrite lookup_insert_eq in Hk. injection Hk as <-. rewrite lookup_insert_ne in Hj by done. by eapply Ha.
  - rewrite lookup_insert_ne in Hj, Hk by done. by eapply Hu.
Qed.

(** Inserting a row that keeps the key of the row it replaces. *)
Lemma unique_replace {A B} (f : A -> option B) (m : gmap Z A) i a b :
  unique_in f m -> m !! i = Some a -> f b = f a -> unique_in f (<[i := b]> m).
Proof. intros Hu Hi E. apply unique_insert; [done|]. intros j c v Hj Fb Fc. rewrite E in Fb. by eapply Hu. Qed.

Lemma existsb_map_to_list {A} (p : Z * A -> bool) (m : gmap Z A) i a :
  existsb p (map_to_list m) = false -> m !! i = Some a -> p (i, a) = false.
Proof.
  intros H Hi. destruct (p (i, a)) eqn:E; [|done]. rewrite <- H. symmetry. apply existsb_exists.
  exists (i, a). split; [|done]. by apply list_elem_of_In, elem_of_map_to_list.
Qed.

Lemma pick_Some {A} (P : Z * A -> bool) (m : gmap Z A) i a : pick P m = Some (i, a) -> m !! i = Some a /\ P (i, a) = true.
Proof.
  unfold pick. intros H. destruct (filter _ _) as [|x l] eqn:E; [done|]. injection H as ->.
  assert ((i, a) ∈ filter (fun x => P x = true) (map_to_list m)) as [? ?]%list_elem_of_filter by (rewrite E; left).
  by split; [apply elem_of_map_to_list|].
Qed.

Lemma pick_None {A} (P : Z * A -> bool) (m : gmap Z A) : pick P m = None <-> forall i a, m !! i = Some a -> P (i, a) = false.
Proof.
  unfold pick. split.
  - intros H i a Hi. destruct (P (i, a)) eqn:E; [|done]. exfalso.
    assert ((i, a) ∈ filter (fun x => P x = true) (map_to_list m)) as Hin.
    { apply list_elem_of_filter. by rewrite elem_of_map_to_list. }
    destruct (filter _ _); [by apply elem_of_nil in Hin|done].
  - intros H. destruct (filter _ _) as [|[i a] l] eqn:E; [done|].
    assert ((i, a) ∈ filter (fun x => P x = true) (map_to_list m)) as [Hp Hin]%list_elem_of_filter by (rewrite E; left).
    apply elem_of_map_to_list in Hin. by rewrite (H _ _ Hin) in Hp.
Qed.

(** With a unique key there is no choice. *)
Lemma pick_unique {A} (P : Z * A -> bool) (m : gmap Z A) i a :
  m !! i = Some a -> P (i, a) = true -> (forall j b, m !! j = Some b -> P (j, b) = true -> j = i) -> pick P m = Some (i, a).
Proof.
  intros Hi HP Hu. destruct (pick P m) as [[j b]|] eqn:E.
  - apply pick_Some in E as [Hj Pj]. rewrite (Hu j b Hj Pj) in Hj |- *. congruence.
  - by rewrite (proj1 (pick_None P m) E i a Hi) in HP.
Qed.

Lemma taken_insert {A} `{EqDecision A} (f : UserRow -> option A) id r d :
  taken f id r d = false -> unique_in f (ac_users d) -> unique_in f (<[id := r]> (ac_users d)).
Proof.
  unfold taken. intros H Hu. apply unique_insert; [done|]. intros j b v Hj Fr Fb. rewrite Fr in H.
  apply (existsb_map_to_list _ _ j b) in H; [|done].
  cbn in H. rewrite (bool_decide_eq_true_2 _ Fb), andb_true_r in H.
  apply negb_false_iff in H. lia.
Qed.

Lemma violated_none id r d :
  violated id r d = None ->
  taken (fun r => Some (us_email r)) id r d = false /\ taken us_org id r d = false /\
  taken us_pending id r d = false /\ taken (fun r => Some (sql_lower (us_email r))) id r d = false /\
  taken (fun r => sql_lower <$> us_pending r) id r d = false.
Proof. unfold violated. by repeat (destruct (taken _ _ _ _); [done|]). Qed.

(** *** The writes *)

Lemma put_user_ok id r d :
  violated id r d = None -> id < ac_next d -> accounts_ok d -> accounts_ok (put_user id r d).
Proof.
  intros (T1 & T2 & T3 & T4 & T5)%violated_none Hid [].
  assert (forall i, is_Some (ac_users d !! i) -> is_Some (<[id:=r]> (ac_users d) !! i)) as Hmore.
  { intros i Hi. rewrite lookup_insert_is_Some. destruct (decide (id = i)); auto. }
  constructor; cbn; [..|by intros i H%ok_verify_user0; apply Hmore|by intros i H%ok_reset_user0; apply Hmore|];
    [by apply taken_insert..|done|done|].
  intros i [<-|[_ H]]%lookup_insert_is_Some; [done|by apply ok_ids0].
Qed.

Lemma set_user_sound id g d :
  (forall r, us_version r <= us_version (g r)) -> sound d (fst (set_user id g d)).
Proof.
  intros Hg. unfold set_user. destruct (ac_users d !! id) as [r|] eqn:E; [|cbn; reflexivity].
  destruct (violated id (g r) d) eqn:Ev; cbn; [reflexivity|]. split.
  - split; [done|]. cbn. intros i r' H Hi. destruct (decide (id = i)) as [->|].
    + rewrite lookup_insert_eq in H. injection H as <-. exists r. by split.
    + rewrite lookup_insert_ne in H by done. by exists r'.
  - intros Hok. apply put_user_ok; [done| |done]. apply (ok_ids d Hok). by eexists.
Qed.

Lemma insert_user_sound r d : sound d (fst (insert_user r d)).
Proof.
  unfold insert_user. destruct (violated (ac_next d) r d) eqn:Ev; cbn [fst]; [reflexivity|]. split.
  - split; cbn; [lia|]. intros i r' H Hi. rewrite lookup_insert_ne in H by lia. by exists r'.
  - intros Hok. apply put_user_ok; cbn; [exact Ev|lia|]. destruct Hok. constructor; cbn; try done.
    intros i Hi. specialize (ok_ids0 i Hi). lia.
Qed.

Lemma upsert_unique id r users m m' :
  upsert_token id r users m = Some m' -> unique_in (fun r => Some (tk_hash r)) m ->
  m' = <[id := r]> m /\ is_Some (users !! id) /\ unique_in (fun r => Some (tk_hash r)) m'.
Proof.
  unfold upsert_token. destruct (existsb _ _) eqn:E; [done|]. destruct (users !! id) eqn:Eu; [|done].
  intros [= <-] Hu. split; [done|]. split; [by eexists|]. apply unique_insert; [done|].
  intros j b v Hj [= <-] [= Hb]. apply (existsb_map_to_list _ _ j b) in E; [|done]. cbn in E.
  rewrite Hb, String.eqb_refl, andb_true_r in E. apply negb_false_iff in E. lia.
Qed.

Lemma upsert_some id r users m m' : upsert_token id r users m = Some m' -> m' = <[id := r]> m /\ is_Some (users !! id).
Proof.
  unfold upsert_token. destruct (existsb _ _); [done|]. destruct (users !! id) eqn:Eu; [|done].
  intros [= <-]. split; [done|by eexists].
Qed.

Lemma grows_same_users d d' : ac_users d' = ac_users d -> ac_next d' = ac_next d -> grows d d'.
Proof. intros Eu En. split; [lia|]. intros i r'. rewrite Eu. intros H _. by exists r'. Qed.

Lemma upsert_verify_sound id r d d' :
  (fun m => d <| ac_verify := m |>) <$> upsert_token id r (ac_users d) (ac_verify d) = Some d' -> sound d d'.
Proof.
  intros (m & H & ->)%fmap_Some. split; [by apply grows_same_users|]. intros [].
  destruct (upsert_unique _ _ _ _ _ H ok_verify0) as (-> & Hid & Hu). constructor; cbn; try done.
  intros i [<-|[_ Hi]]%lookup_insert_is_Some; [done|auto].
Qed.

Lemma upsert_reset_sound id r d d' :
  (fun m => d <| ac_reset := m |>) <$> upsert_token id r (ac_users d) (ac_reset d) = Some d' -> sound d d'.
Proof.
  intros (m & H & ->)%fmap_Some. split; [by apply grows_same_users|]. intros [].
  destruct (upsert_unique _ _ _ _ _ H ok_reset0) as (-> & Hid & Hu). constructor; cbn; try done.
  intros i [<-|[_ Hi]]%lookup_insert_is_Some; [done|auto].
Qed.

(** Using a link changes one row, which keeps its hash. *)
Lemma consume_keeps hash now m m' o :
  consume_token hash now m = (m', o) ->
  (forall i, is_Some (m' !! i) -> is_Some (m !! i)) /\
  (unique_in (fun r => Some (tk_hash r)) m -> unique_in (fun r => Some (tk_hash r)) m').
Proof.
  unfold consume_token. destruct (pick _ _) as [[i r]|] eqn:E; intros [= <- _]; [|done].
  apply pick_Some in E as [Hi _]. split.
  - intros j [<-|[_ H]]%lookup_insert_is_Some; [by eexists|done].
  - intros Hu. by eapply unique_replace.
Qed.

Lemma consume_verification_sound hash now d d' o : consume_verification hash now d = (d', o) -> sound d d'.
Proof.
  unfold consume_verification. destruct (consume_token _ _ _) as [m id] eqn:E. destruct (_ ≫= _); intros [= <- _]; [|reflexivity].
  apply consume_keeps in E as [Hd Hu]. split; [by apply grows_same_users|]. intros []. constructor; cbn; auto.
Qed.

Lemma consume_reset_sound hash now d m o :
  consume_token hash now (ac_reset d) = (m, o) -> sound d (d <| ac_reset := m |>).
Proof.
  intros [Hd Hu]%consume_keeps. split; [by apply grows_same_users|]. intros []. constructor; cbn; auto.
Qed.
End Tables.

(** ** The services *)

Section Services.
Context {UT : UnicodeTables} {CR : Crypto} (fault : nat -> bool) (PublicURL LegacyPasswordSalt : string).
Context (R : accounts -> accounts -> Prop) `{!PreOrder R}.

Lemma follows_update_users id g :
  (forall d, R d (fst (set_user id g d))) -> follows cn_db R (update_users fault id g).
Proof. intros H. apply (follows_statement _ _). intros d d' a [= E]. specialize (H d). by rewrite E in H. Qed.

Lemma follows_update_user id g : (forall d, R d (fst (set_user id g d))) -> follows cn_db R (update_user fault id g).
Proof. intros H. unfold update_user. follow. by apply follows_update_users. Qed.

Lemma follows_hashPassword mo p : follows pt_db R (hashPassword mo p).
Proof. unfold hashPassword. follow. Qed.

Lemma follows_valid {A} (r : res validation_error A) : follows pt_db R (valid r).
Proof. unfold valid. follow. Qed.

Lemma follows_GetUserByID id : follows pt_db R (GetUserByID fault id).
Proof. unfold GetUserByID. follow. Qed.

Lemma follows_GetProfile id : follows pt_db R (GetProfile fault id).
Proof. unfold GetProfile. follow. Qed.

Lemma follows_checkEmailAvailable id e : follows pt_db R (checkEmailAvailable fault id e).
Proof. unfold checkEmailAvailable. follow. Qed.

Lemma follows_sendMail mo m : follows pt_db R (sendMail mo m).
Proof. intros s. unfold sendMail. destruct (mo_relay mo); cbn; reflexivity. Qed.

Lemma follows_reserve mo e : follows pt_db R (reserveTransactionalEmail mo e).
Proof. intros s. unfold reserveTransactionalEmail. destruct (reserve _ _ _) as [t o]. cbn. reflexivity. Qed.

Hint Resolve follows_hashPassword follows_valid follows_GetUserByID follows_GetProfile
  follows_checkEmailAvailable follows_sendMail follows_reserve : follows.

(** A password check writes nothing but an upgraded hash. *)
Lemma follows_check_password mo id p stored :
  (forall h d, R d (fst (set_user id (fun r => r <| us_hash := h |>) d))) ->
  follows pt_db R (check_password fault LegacyPasswordSalt mo id p stored).
Proof.
  intros H. unfold check_password, verifyAndUpgradeLegacyPassword, verifyBcryptPassword. follow.
  apply follows_update_user. auto.
Qed.

Lemma follows_checkLogIn mo req row :
  (forall id h d, R d (fst (set_user id (fun r => r <| us_hash := h |>) d))) ->
  follows pt_db R (checkLogIn fault LegacyPasswordSalt mo req row).
Proof. intros H. unfold checkLogIn. follow. apply follows_map_error, follows_check_password. auto. Qed.

Lemma follows_issueVerificationToken mo id :
  (forall r d d', (fun m => d <| ac_verify := m |>) <$> upsert_token id r (ac_users d) (ac_verify d) = Some d' -> R d d') ->
  follows pt_db R (issueVerificationToken fault mo id).
Proof. intros H. unfold issueVerificationToken, new_token. follow. apply (follows_exec _ _). eauto. Qed.

Lemma follows_issuePasswordResetToken mo id :
  (forall r d d', (fun m => d <| ac_reset := m |>) <$> upsert_token id r (ac_users d) (ac_reset d) = Some d' -> R d d') ->
  follows pt_db R (issuePasswordResetToken fault mo id).
Proof. intros H. unfold issuePasswordResetToken, new_token. follow. apply (follows_exec _ _). eauto. Qed.

Lemma follows_sendWithinCooldown mo e send : follows pt_db R send -> follows pt_db R (sendWithinCooldown mo e send).
Proof. intros H. unfold sendWithinCooldown. follow. Qed.
End Services.

#[export] Hint Resolve follows_hashPassword follows_valid follows_GetUserByID follows_GetProfile
  follows_checkEmailAvailable follows_sendMail follows_reserve : follows.

(** *** Writes that end sessions or leave them alone *)

Section Credentials.
Context {UT : UnicodeTables} {CR : Crypto}.

(** From [r] to [r'] the version grows, or the address, the role and a confirmation stay. *)
Definition row_follows (r r' : UserRow) : Prop :=
  us_version r < us_version r' \/
  (us_version r = us_version r' /\ NormalizeEmail (us_email r) = NormalizeEmail (us_email r') /\
   us_role r = us_role r' /\ (us_confirmed r = true -> us_confirmed r' = true)).

#[export] Instance row_follows_preorder : PreOrder row_follows.
Proof.
  split; [intros r; by right|]. unfold row_follows.
  intros r1 r2 r3 [?|(V1 & E1 & R1 & C1)] [?|(V2 & E2 & R2 & C2)]; [left; lia..|].
  right. split_and!; [lia|congruence|congruence|auto].
Qed.

Lemma row_follows_version r r' : row_follows r r' -> us_version r <= us_version r'.
Proof. intros [?|[? _]]; lia. Qed.

(** Every account is still there, and its row follows. *)
Definition cred (d d' : accounts) : Prop :=
  forall i r, ac_users d !! i = Some r -> exists r', ac_users d' !! i = Some r' /\ row_follows r r'.

#[export] Instance cred_preorder : PreOrder cred.
Proof.
  split; [intros d i r H; by exists r|]. intros d1 d2 d3 H1 H2 i r H.
  destruct (H1 i r H) as (r2 & E2 & F2). destruct (H2 i r2 E2) as (r3 & E3 & F3). exists r3. split; [done|by etrans].
Qed.

(** A two-state property that the writes of the services respect, but for those that
    store a row read earlier. *)
Class allows (R : accounts -> accounts -> Prop) := {
  al_preorder :: PreOrder R;
  al_set id g d : (forall r, row_follows r (g r)) -> R d (fst (set_user id g d));
  al_insert r d : R d (fst (insert_user r d));
  al_verify id r d d' :
    (fun m => d <| ac_verify := m |>) <$> upsert_token id r (ac_users d) (ac_verify d) = Some d' -> R d d';
  al_reset id r d d' :
    (fun m => d <| ac_reset := m |>) <$> upsert_token id r (ac_users d) (ac_reset d) = Some d' -> R d d';
  al_use_verify hash now d d' o : consume_verification hash now d = (d', o) -> R d d';
  al_use_reset hash now d m o : consume_token hash now (ac_reset d) = (m, o) -> R d (d <| ac_reset := m |>)
}.

#[export] Instance sound_allows : allows sound.
Proof.
  split; [apply _| |apply insert_user_sound|apply upsert_verify_sound|apply upsert_reset_sound
         |apply consume_verification_sound|apply consume_reset_sound].
  intros id g d H. apply set_user_sound. intros r. by apply row_follows_version.
Qed.

Lemma set_user_cred id g d : (forall r, ac_users d !! id = Some r -> row_follows r (g r)) -> cred d (fst (set_user id g d)).
Proof.
  intros H. unfold set_user. destruct (ac_users d !! id) as [r|] eqn:E; [|cbn; reflexivity].
  destruct (violated _ _ _); cbn [fst]; [reflexivity|]. intros i r0 Hi. cbn. destruct (decide (i = id)) as [->|].
  - exists (g r). rewrite lookup_insert_eq. split; [done|]. rewrite E in Hi. injection Hi as <-. by apply H.
  - exists r0. rewrite lookup_insert_ne by done. by split.
Qed.

Lemma same_users_cred d d' : ac_users d' = ac_users d -> cred d d'.
Proof. intros E i r H. exists r. by rewrite E. Qed.

(** The number a new account takes is free, which the tables' invariant says. *)
Definition fresh (d : accounts) : Prop := ac_users d !! ac_next d = None.

Definition cred' (d d' : accounts) : Prop := accounts_ok d -> cred d d' /\ accounts_ok d'.

#[export] Instance cred'_preorder : PreOrder cred'.
Proof.
  split; [intros d H; by split|]. intros d1 d2 d3 H1 H2 K. destruct (H1 K) as [C1 K2]. destruct (H2 K2) as [C2 K3].
  split; [by etrans|done].
Qed.

Lemma sound_cred' d d' : sound d d' -> (accounts_ok d -> cred d d') -> cred' d d'.
Proof. intros [_ K] C Hok. auto. Qed.

#[export] Instance cred'_allows : allows cred'.
Proof.
  split; [apply _|..].
  - intros id g d H. apply sound_cred'; [by apply al_set|]. intros _. apply set_user_cred. auto.
  - intros r d. apply sound_cred'; [apply al_insert|]. intros Hok. unfold insert_user.
    destruct (violated _ _ _); cbn [fst]; [reflexivity|]. intros i r0 Hi. exists r0. split; [|reflexivity]. cbn.
    rewrite lookup_insert_ne; [done|]. intros <-. pose proof (ok_ids d Hok (ac_next d)) as H. 
    specialize (H ltac:(by eexists)). lia.
  - intros id r d d' H. apply sound_cred'; [by eapply al_verify|]. intros _. apply same_users_cred.
    by apply fmap_Some in H as (m & _ & ->).
  - intros id r d d' H. apply sound_cred'; [by eapply al_reset|]. intros _. apply same_users_cred.
    by apply fmap_Some in H as (m & _ & ->).
  - intros hash now d d' o H. apply sound_cred'; [by eapply al_use_verify|]. intros _. apply same_users_cred.
    unfold consume_verification in H. destruct (consume_token _ _ _) as [m id]. destruct (_ ≫= _); by injection H as <- _.
  - intros hash now d m o H. apply sound_cred'; [by eapply al_use_reset|]. intros _. by apply same_users_cred.
Qed.
End Credentials.

(** *** Every service *)

Section Allowed.
Context {UT : UnicodeTables} {CR : Crypto} (fault : nat -> bool) (PublicURL LegacyPasswordSalt : string).
Context (R : accounts -> accounts -> Prop) `{HR : !allows R}.

Lemma al_update_user id g : (forall r, row_follows r (g r)) -> follows cn_db R (update_user fault id g).
Proof. intros H. apply (follows_update_user _ _). intros d. by apply al_set. Qed.

Lemma al_update_users id g : (forall r, row_follows r (g r)) -> follows cn_db R (update_users fault id g).
Proof. intros H. apply (follows_update_users _ _). intros d. by apply al_set. Qed.

Lemma row_follows_hash (r : UserRow) h : row_follows r (r <| us_hash := h |>).
Proof. by right. Qed.

Lemma row_follows_bump (r r' : UserRow) : us_version r' = us_version r + 1 -> row_follows r r'.
Proof. left. lia. Qed.

Lemma al_check_password mo id p stored : follows pt_db R (check_password fault LegacyPasswordSalt mo id p stored).
Proof. apply (follows_check_password _ _ _). intros h d. apply al_set. intros r. apply row_follows_hash. Qed.

Lemma al_verifyCurrentPassword mo id p : follows pt_db R (verifyCurrentPassword fault LegacyPasswordSalt mo id p).
Proof. unfold verifyCurrentPassword. follow. apply al_check_password. Qed.

Lemma al_LogIn mo req : follows pt_db R (LogIn fault LegacyPasswordSalt mo req).
Proof.
  unfold LogIn. follow. apply (follows_checkLogIn _ _ _). intros id h d. apply al_set. intros r. apply row_follows_hash.
Qed.

Lemma al_SignUp mo req : follows pt_db R (SignUp fault mo req).
Proof.
  unfold SignUp. follow. apply (follows_statement _ _). intros d d1 b [= E].
  pose proof (al_insert (R := R) (new_user req a (mo_now mo)) d) as H. by rewrite E in H.
Qed.

Lemma al_SendVerificationEmail mo id n e : follows pt_db R (SendVerificationEmail fault PublicURL mo id n e).
Proof. unfold SendVerificationEmail, send_link. follow. apply (follows_issueVerificationToken _ _). apply al_verify. Qed.

Lemma al_SendEmailChangeEmail mo id n e : follows pt_db R (SendEmailChangeEmail fault PublicURL mo id n e).
Proof. unfold SendEmailChangeEmail, send_link. follow. apply (follows_issueVerificationToken _ _). apply al_verify. Qed.

Lemma al_SendPasswordResetEmail mo id n e : follows pt_db R (SendPasswordResetEmail fault PublicURL mo id n e).
Proof. unfold SendPasswordResetEmail, send_link. follow. apply (follows_issuePasswordResetToken _ _). apply al_reset. Qed.

Hint Resolve al_SendVerificationEmail al_SendEmailChangeEmail al_SendPasswordResetEmail : follows.

Lemma al_ResendVerification mo e : follows pt_db R (ResendVerification fault PublicURL mo e).
Proof. unfold ResendVerification. follow; apply (follows_sendWithinCooldown _); auto with follows. Qed.

Lemma al_RequestPasswordReset mo e : follows pt_db R (RequestPasswordReset fault PublicURL mo e).
Proof. unfold RequestPasswordReset. follow; apply (follows_sendWithinCooldown _); auto with follows. Qed.

Lemma al_VerifyEmail mo token : follows pt_db R (VerifyEmail fault mo token).
Proof.
  unfold VerifyEmail, verificationLinkReuse. follow.
  assert (follows cn_db R (verify_transaction fault mo (sha256_hex (trim_space token)))) as Hv.
  { unfold verify_transaction. follow.
    - apply (follows_statement _ _). intros d d' a [= E]. by eapply al_use_verify.
    - apply al_update_users. intros r. by apply row_follows_bump.
    - apply al_update_user. intros r. by right. }
  intros c. unfold rollback_unless.
  pose proof (follows_transaction R fault (b ← verify_transaction fault mo (sha256_hex (trim_space token));
    if b : bool then mret true else fail ErrInvalidVerificationToken)) as Ht.
  specialize (Ht ltac:(follow; exact Hv) c). destruct (transaction _ _ _ c) as [c' [b|[]]]; exact Ht.
Qed.

Lemma al_ResetPassword mo token pw : follows pt_db R (ResetPassword fault mo token pw).
Proof.
  unfold ResetPassword. follow.
  - apply (follows_statement _ _). intros d d' a0 E. destruct (consume_token _ _ _) as [m id] eqn:Ec. injection E as <- _.
    by eapply al_use_reset.
  - apply al_update_user. intros r. by apply row_follows_bump.
Qed.

Lemma al_ChangePassword mo id cur new : follows pt_db R (ChangePassword fault LegacyPasswordSalt mo id cur new).
Proof.
  unfold ChangePassword. follow; [apply al_verifyCurrentPassword|].
  apply al_update_user. intros r. by apply row_follows_bump.
Qed.

Lemma al_prepareProfile mo id req : follows pt_db R (prepareProfile fault LegacyPasswordSalt mo id req).
Proof. unfold prepareProfile. follow. apply al_verifyCurrentPassword. Qed.

Lemma al_announceEmail mo id p : follows pt_db R (announceEmail fault PublicURL mo id p).
Proof.
  unfold announceEmail. apply follows_map_error. follow.
  apply al_update_user. intros r. destruct (bool_decide _); by right.
Qed.

Lemma al_fetchAdminUser id : follows pt_db R (fetchAdminUser fault id).
Proof. unfold fetchAdminUser. follow. Qed.

Lemma al_editUser old req own : follows pt_db R (editUser old req own).
Proof. unfold editUser. follow. Qed.
End Allowed.
