(* ===== verification/SessionsProofs.v ===== *)
(** * Sessions: when they end

    [perform] is one request to the account endpoints, or the writing half of one that
    read earlier; [reach] the executions. A session ends with the credentials it was
    issued for ([credentials_end_sessions]), a fresh one is accepted, and nobody but an
    administrator sees the platform with another role than their own
    ([sessions_never_escalate]). *)

From S2P Require Import Prelude Effects GoStrings Sql Throttle Accounts Sessions AccountsProofs.
Local Open Scope Z_scope.

(** ** Requests *)

Inductive action :=
| DoSignUp (req : option SignUpRequest)
| DoLogIn (req : option LogInRequest)
| DoRefresh (c : option session)
| DoStartPreview (c : option session) (role : option string)
| DoStopPreview (c : option session)
| DoVerifyEmail (token : option string)
| DoResend (email : option string)
| DoForgot (email : option string)
| DoReset (req : option ResetPasswordRequest)
| DoUpdateProfile (c : option session) (req : option UpdateProfileRequest)
| DoChangePassword (c : option session) (req : option ChangePasswordRequest)
| DoAdminUpdate (c : option session) (id : string) (req : option UpdateUserRequest)
(* the writes of a request that read before other requests came in *)
| LateProfile (userID : Z) (change : Profile * bool)
| LateAdmin (userID : Z) (u : AdminUser) (emailChanged bump : bool)
| LateUpgrade (userID : Z) (password stored : string)
| LatePassword (userID : Z) (hashed : string).

Definition late (a : action) : bool :=
  match a with LateProfile _ _ | LateAdmin _ _ _ _ | LateUpgrade _ _ _ | LatePassword _ _ => true | _ => false end.

Section Requests.
Context {UT : UnicodeTables} {CR : Crypto} (fault : nat -> bool) (PublicURL LegacyPasswordSalt : string).

Definition cookie {A} (x : portal * reply A) : portal * option session := (fst x, re_cookie (snd x)).

(** The state after a request, and the session it issued. *)
Definition perform (mo : moment) (a : action) (s : portal) : portal * option session :=
  match a with
  | DoSignUp req => cookie (handle_signup fault PublicURL mo req s)
  | DoLogIn req => cookie (handle_login fault LegacyPasswordSalt mo req s)
  | DoRefresh c => cookie (RefreshAuth fault mo c s)
  | DoStartPreview c role => cookie (AdminStartPreview fault mo c role s)
  | DoStopPreview c => cookie (StopPreview fault mo c s)
  | DoVerifyEmail token => cookie (handle_verify_email fault mo token s)
  | DoResend email => cookie (handle_resend_verification fault PublicURL mo email s)
  | DoForgot email => cookie (ForgotPassword fault PublicURL mo email s)
  | DoReset req => cookie (handle_reset_password fault mo req s)
  | DoUpdateProfile c req => cookie (handle_update_profile fault PublicURL LegacyPasswordSalt mo c req s)
  | DoChangePassword c req => cookie (handle_change_password fault LegacyPasswordSalt mo c req s)
  | DoAdminUpdate c id req => cookie (handle_admin_update_user fault c id req s)
  | LateProfile userID change => (fst (applyProfile fault PublicURL mo userID change s), None)
  | LateAdmin userID u emailChanged bump =>
      (fst (on_conn (update_users fault userID (admin_row u emailChanged (Z.b2z bump))) s), None)
  | LateUpgrade userID password stored => (fst (check_password fault LegacyPasswordSalt mo userID password stored s), None)
  | LatePassword userID hashed =>
      (fst (on_conn (update_user fault userID (fun r => r <| us_hash := hashed |> <| us_version := us_version r + 1 |>)) s), None)
  end.

(** From [s0], with no session issued, to [s] with those issued since. *)
Inductive reach (s0 : portal) : portal -> list session -> Prop :=
| reach_start : reach s0 s0 []
| reach_step s issued mo a s' c :
    reach s0 s issued -> perform mo a s = (s', c) -> reach s0 s' (option_list c ++ issued).

(** ** What requests do to the tables *)

Section Moves.
Context (R : accounts -> accounts -> Prop) `{HR : !allows R}.

Definition moves {A} (h : portal -> portal * A) : Prop := forall s, R (pt_db s) (pt_db (fst (h s))).

Lemma moves_answer {A B} (m : acct A) (ok : A -> reply B) err : follows pt_db R m -> moves (answer m ok err).
Proof. intros H s. specialize (H s). unfold answer. by destruct (m s) as [s' [a|e]]. Qed.

Lemma moves_refuse {A} (r : A) : moves (fun s => (s, r)).
Proof. intros s. cbn. reflexivity. Qed.

Lemma moves_cookie {A} (h : portal -> portal * reply A) : moves h -> moves (fun s => cookie (h s)).
Proof. intros H s. apply H. Qed.

Lemma moves_signup mo req : moves (handle_signup fault PublicURL mo req).
Proof.
  intros s. unfold handle_signup. destruct req as [req|]; [|cbn; reflexivity]. cbv zeta.
  destruct (ValidateRequiredString _ _); [|cbn; reflexivity]. destruct (ValidateEmailFormat _); [|cbn; reflexivity].
  destruct (negb _); [cbn; reflexivity|]. destruct (ValidatePassword _); [|cbn; reflexivity].
  match goal with |- context [SignUp fault mo ?r s] => set (q := r) end.
  pose proof (al_SignUp fault R mo q s) as H. destruct (SignUp fault mo q s) as [s1 [id|[]]]; try exact H.
  etrans; [exact H|]. apply (al_SendVerificationEmail fault PublicURL R).
Qed.

Lemma moves_login mo req : moves (handle_login fault LegacyPasswordSalt mo req).
Proof.
  unfold handle_login. destruct req; [|apply moves_refuse]. destruct (ValidateEmailFormat _); [|apply moves_refuse].
  apply moves_answer, al_LogIn. done.
Qed.

Lemma moves_refresh mo c : moves (RefreshAuth fault mo c).
Proof.
  unfold RefreshAuth. destruct c as [c|]; [|apply moves_refuse]. destruct (sc_id c); [|apply moves_refuse].
  apply moves_answer. apply (follows_GetUserByID _ _).
Qed.

Lemma follows_GetAdminForPreview id : follows pt_db R (GetAdminForPreview fault id).
Proof. unfold GetAdminForPreview. follow. Qed.

Lemma moves_start_preview mo c role : moves (AdminStartPreview fault mo c role).
Proof.
  unfold AdminStartPreview. destruct (c ≫= sc_id); [|apply moves_refuse]. destruct role; [|apply moves_refuse].
  apply moves_answer. follow. apply follows_GetAdminForPreview.
Qed.

Lemma moves_stop_preview mo c : moves (StopPreview fault mo c).
Proof.
  unfold StopPreview. destruct c as [c|]; [|apply moves_refuse]. destruct (sc_preview c); [|apply moves_refuse].
  destruct (sc_id c); [|apply moves_refuse]. apply moves_answer, follows_GetAdminForPreview.
Qed.

Lemma moves_verify mo token : moves (handle_verify_email fault mo token).
Proof.
  unfold handle_verify_email. destruct (trim_space <$> token) as [[|a t]|]; [apply moves_refuse| |apply moves_refuse].
  apply moves_answer, al_VerifyEmail. done.
Qed.

Lemma moves_link what service email : (forall e, follows pt_db R (service e)) -> moves (ask_for_link what service email).
Proof.
  intros H s. unfold ask_for_link. destruct (trim_space <$> email); [|cbn; reflexivity].
  destruct (ValidateEmailFormat _); [|cbn; reflexivity]. apply H.
Qed.

Lemma moves_reset mo req : moves (handle_reset_password fault mo req).
Proof.
  unfold handle_reset_password. destruct req as [req|]; [|apply moves_refuse]. cbv zeta.
  destruct (String.eqb _ _); [apply moves_refuse|]. destruct (negb _); [apply moves_refuse|].
  destruct (ValidatePassword _); [|apply moves_refuse]. apply moves_answer, al_ResetPassword. done.
Qed.

Lemma moves_change_password mo c req : moves (handle_change_password fault LegacyPasswordSalt mo c req).
Proof.
  unfold handle_change_password. destruct (c ≫= sc_id); [|apply moves_refuse]. destruct req as [req|]; [|apply moves_refuse].
  destruct (negb _); [apply moves_refuse|]. destruct (ValidatePassword _); [|apply moves_refuse].
  apply moves_answer, al_ChangePassword. done.
Qed.

Lemma moves_profile mo c req :
  (forall id r, follows pt_db R (UpdateProfile fault PublicURL LegacyPasswordSalt mo id r)) ->
  moves (handle_update_profile fault PublicURL LegacyPasswordSalt mo c req).
Proof.
  intros H. unfold handle_update_profile. destruct (c ≫= sc_id); [|apply moves_refuse]. destruct req; [|apply moves_refuse].
  by apply moves_answer.
Qed.

Lemma moves_admin c id req :
  (forall userID adminID r, follows pt_db R (AdminUpdateUser fault userID r adminID)) ->
  moves (handle_admin_update_user fault c id req).
Proof.
  intros H. unfold handle_admin_update_user. destruct (c ≫= sc_id); [|apply moves_refuse].
  destruct (parse_int id); [|apply moves_refuse]. destruct (_ <=? _); [apply moves_refuse|].
  destruct req; [|apply moves_refuse]. by apply moves_answer.
Qed.

Lemma moves_perform mo a :
  (forall id r, follows pt_db R (UpdateProfile fault PublicURL LegacyPasswordSalt mo id r)) ->
  (forall userID adminID r, follows pt_db R (AdminUpdateUser fault userID r adminID)) ->
  late a = false -> moves (perform mo a).
Proof.
  intros H1 H2 Hl. destruct a; try done; cbn [perform]; apply moves_cookie;
    eauto using moves_signup, moves_login, moves_refresh, moves_start_preview, moves_stop_preview, moves_verify,
      moves_reset, moves_change_password, moves_profile, moves_admin.
  - apply moves_link. intros e. by apply al_ResendVerification.
  - apply moves_link. intros e. by apply al_RequestPasswordReset.
Qed.
End Moves.

(** *** The services that store a row they read *)

Lemma admin_row_version u ec b r : us_version (admin_row u ec b r) = us_version r + b.
Proof. done. Qed.

Lemma storeProfile_sound id p : follows pt_db sound (storeProfile fault id p).
Proof.
  unfold storeProfile, unique_violation. follow. apply (follows_update_users _ _). intros d. apply set_user_sound.
  intros r. reflexivity.
Qed.

Lemma applyProfile_sound mo id ch : follows pt_db sound (applyProfile fault PublicURL mo id ch).
Proof.
  unfold applyProfile. follow; [apply storeProfile_sound|apply al_announceEmail; apply _].
Qed.

Lemma UpdateProfile_sound mo id req : follows pt_db sound (UpdateProfile fault PublicURL LegacyPasswordSalt mo id req).
Proof. unfold UpdateProfile. follow; [apply al_prepareProfile; apply _|apply applyProfile_sound]. Qed.

Lemma admin_write_sound id u ec b : 0 <= b -> follows cn_db sound (update_users fault id (admin_row u ec b)).
Proof.
  intros Hb. apply (follows_update_users _ _). intros d. apply set_user_sound. intros r. rewrite admin_row_version. lia.
Qed.

(** What a computation returns, whatever the state. *)
Definition always {A} (Q : A -> Prop) (m : acct A) : Prop := forall s, wp m (fun a _ => Q a) (fun _ _ => True) s.

Lemma always_bind {A B} P Q (m : acct A) (k : A -> acct B) :
  always P m -> (forall a, P a -> always Q (k a)) -> always Q (m ≫= k).
Proof. intros Hm Hk s. apply wp_bind. eapply wp_mono; [apply Hm| |done]. intros a s' Ha. by apply Hk. Qed.

Lemma always_then {A B} Q (m : acct A) (k : A -> acct B) : (forall a, always Q (k a)) -> always Q (m ≫= k).
Proof. intros H. apply (always_bind (fun _ => True)); [|auto]. intros s. apply wp_true. Qed.

Lemma always_ret {A} (Q : A -> Prop) a : Q a -> always Q (mret a).
Proof. by intros H s. Qed.

Lemma always_fail {A} (Q : A -> Prop) e : always Q (fail e).
Proof. by intros s. Qed.

(** What an edit of an account decides. *)
Definition edited (old : AdminUser) (x : AdminUser * bool * Z) : Prop :=
  let '(u, emailChanged, bump) := x in
  bump = 1 \/ (bump = 0 /\ NormalizeEmail (au_Email u) = NormalizeEmail (au_Email old) /\
               au_Role u = au_Role old /\ au_Confirmed u = au_Confirmed old).

Lemma editUser_edited old req own : always (edited old) (editUser old req own).
Proof.
  unfold editUser. apply always_then. intros _. do 4 (apply always_then; intros ?). apply always_ret. cbv zeta.
  generalize (match uu_Confirmed req with None => a2 | Some b => a2 <| au_Confirmed := b |> end). intros u.
  generalize (bool_decide (uu_Confirmed req = None)). intros own_word. unfold edited.
  match goal with |- context [if ?b then 1 else 0] => destruct b eqn:E end; [by left|right].
  apply orb_false_iff in E as [[E1 E2]%orb_false_iff E3].
  rewrite E1 in *. apply negb_false_iff in E1, E2, E3. apply String.eqb_eq in E1, E2. apply eqb_prop in E3. done.
Qed.

Lemma edited_bump old u ec b : edited old (u, ec, b) -> 0 <= b.
Proof. intros [->|[-> _]]; lia. Qed.

(** The state does not change between the read of an account and its write. *)
Lemma editUser_state old req own : follows pt_db eq (editUser old req own).
Proof. unfold editUser. follow. Qed.

Lemma fetchAdminUser_read id s s1 u :
  fetchAdminUser fault id s = (s1, Ok u) ->
  pt_db s1 = pt_db s /\ exists r, ac_users (pt_db s) !! id = Some r /\ au_Email u = us_email r /\
    au_Role u = us_role r /\ au_Confirmed u = us_confirmed r.
Proof.
  unfold fetchAdminUser, ask, on_conn, query, statement, mbind, eff_bind, pt_db.
  destruct (fault _); cbn; [done|]. destruct (ac_users _ !! id) as [r|] eqn:E; intros [= <- <-]; cbn.
  split; [done|]. by exists r.
Qed.

Lemma admin_row_follows old u ec b r :
  edited old (u, ec, b) -> au_Email old = us_email r -> au_Role old = us_role r -> au_Confirmed old = us_confirmed r ->
  row_follows r (admin_row u ec b r).
Proof.
  intros [->|(-> & E & Er & Ec)] H1 H2 H3; [left; rewrite admin_row_version; lia|right].
  rewrite admin_row_version. split; [lia|]. change (us_email (admin_row u ec 0 r)) with (au_Email u).
  change (us_role (admin_row u ec 0 r)) with (au_Role u). change (us_confirmed (admin_row u ec 0 r)) with (au_Confirmed u).
  rewrite E, Er, Ec, H1, H2, H3. auto.
Qed.

Lemma update_users_cred' id g c :
  (forall r, ac_users (cn_db c) !! id = Some r -> row_follows r (g r)) ->
  cred' (cn_db c) (cn_db (fst (update_users fault id g c))).
Proof.
  intros H. unfold update_users, statement. destruct (fault _); cbn [fst cn_db]; [reflexivity|].
  destruct (set_user id g (cn_db c)) as [d k] eqn:E. cbn [fst cn_db].
  pose proof (set_user_cred id g (cn_db c) H) as Hc. intros Hok. rewrite E in Hc. split; [done|].
  revert E. unfold set_user. destruct (ac_users (cn_db c) !! id) as [r|] eqn:Er; [|by intros [= <- _]].
  destruct (violated _ _ _) eqn:Ev; intros [= <- _]; [done|]. apply put_user_ok; [done| |done].
  apply (ok_ids _ Hok). by eexists.
Qed.

Lemma admin_violation_state k : follows pt_db eq (admin_violation k).
Proof. unfold admin_violation. follow. Qed.

Lemma AdminUpdateUser_cred userID req adminID : follows pt_db cred' (AdminUpdateUser fault userID req adminID).
Proof.
  intros s. unfold AdminUpdateUser. destruct (_ && _); [cbn; reflexivity|]. destruct (_ && _); [cbn; reflexivity|].
  unfold mbind at 1, eff_bind at 1. destruct (fetchAdminUser fault userID s) as [s1 [old|e]] eqn:Ef.
  2:{ cbn. pose proof (al_fetchAdminUser fault cred' userID s) as H. by rewrite Ef in H. }
  apply fetchAdminUser_read in Ef as (Ed & r & Hr & H1 & H2 & H3).
  unfold mbind at 1, eff_bind at 1. pose proof (editUser_state old req (userID =? adminID) s1) as Es.
  pose proof (editUser_edited old req (userID =? adminID) s1) as Hw. unfold wp in Hw.
  destruct (editUser old req _ s1) as [s2 [[[u ec] b]|e]]; [|cbn in *; rewrite <- Es, Ed; reflexivity].
  cbn in Es. rewrite <- Ed, Es. unfold mbind at 1, eff_bind at 1. unfold on_conn.
  pose proof (update_users_cred' userID (admin_row u ec b) (pt_conn s2)) as Hc.
  destruct (update_users _ _ _ _) as [c k]. cbn [fst] in Hc. change (cn_db (pt_conn s2)) with (pt_db s2) in Hc.
  assert (cred' (pt_db s2) (cn_db c)) as Hcc.
  { apply Hc. intros r' Hr'. rewrite <- Es, Ed, Hr in Hr'. injection Hr' as <-. by apply (admin_row_follows old). }
  destruct k as [k|e]; [|exact Hcc]. unfold mbind, eff_bind.
  pose proof (admin_violation_state k (s2 <| pt_conn := c |>)) as Ev.
  destruct (admin_violation k _) as [s3 [[]|e]]; cbn in *; rewrite <- Ev; exact Hcc.
Qed.

Lemma AdminUpdateUser_sound userID req adminID : follows pt_db sound (AdminUpdateUser fault userID req adminID).
Proof.
  unfold AdminUpdateUser. do 2 (destruct (_ && _); [apply (follows_fail _ _)|]).
  apply (follows_bind _ _); [apply al_fetchAdminUser; apply _|]. intros a s. unfold mbind at 1, eff_bind at 1. pose proof (editUser_edited a req (userID =? adminID) s) as Hw. unfold wp in Hw.
  pose proof (editUser_state a req (userID =? adminID) s) as Es.
  destruct (editUser a req _ s) as [s2 [[[u ec] b]|e]]; cbn in Es; rewrite Es; [|cbn; reflexivity].
  assert (follows pt_db sound (k ← on_conn (update_users fault userID (admin_row u ec b)); _ ← admin_violation k; mret u)) as H.
  { follow; [by apply admin_write_sound; eapply edited_bump|]. intros s'. rewrite <- (admin_violation_state a0 s'). reflexivity. }
  apply H.
Qed.

(** *** The caller's profile *)

Definition same_emails (d d' : accounts) : Prop :=
  forall i, us_email <$> ac_users d' !! i = us_email <$> ac_users d !! i.
#[export] Instance same_emails_preorder : PreOrder same_emails.
Proof. split; [done|]. intros d1 d2 d3 H1 H2 i. by rewrite H2, H1. Qed.

Lemma prepareProfile_emails mo id req : follows pt_db same_emails (prepareProfile fault LegacyPasswordSalt mo id req).
Proof.
  unfold prepareProfile, verifyCurrentPassword. follow. apply (follows_check_password _ _ _).
  intros h d i. unfold set_user. destruct (ac_users d !! id) as [r|] eqn:E; [|done].
  destruct (violated _ _ _); [done|]. cbn. destruct (decide (i = id)) as [->|]; [|by rewrite lookup_insert_ne].
  by rewrite lookup_insert_eq, E.
Qed.

Lemma GetProfile_read id s s1 p :
  GetProfile fault id s = (s1, Ok p) -> exists r, ac_users (pt_db s) !! id = Some r /\ pf_Email p = us_email r.
Proof.
  unfold GetProfile, ask, on_conn, query, statement, mbind, eff_bind, pt_db.
  destruct (fault _); cbn; [done|]. destruct (ac_users _ !! id) as [r|] eqn:E; intros [= <- <-]. by exists r.
Qed.

Lemma prepareProfile_email mo id req s s1 p b :
  prepareProfile fault LegacyPasswordSalt mo id req s = (s1, Ok (p, b)) ->
  exists r, ac_users (pt_db s) !! id = Some r /\ pf_Email p = us_email r.
Proof.
  unfold prepareProfile. unfold mbind at 1, eff_bind at 1.
  destruct (GetProfile fault id s) as [s2 [p0|e]] eqn:Eg; [|done]. apply GetProfile_read in Eg as (r & Hr & Ep).
  intros H. exists r. split; [done|]. rewrite <- Ep. clear Ep.
  match type of H with ?m s2 = _ => assert (always (fun x : Profile * bool => pf_Email x.1 = pf_Email p0) m) as Hm end.
  { apply (always_bind (fun p => pf_Email p = pf_Email p0)).
    { destruct (up_Name req); [apply always_then; intros _|]; by apply always_ret. }
    intros p1 E1. apply (always_bind (fun p => pf_Email p = pf_Email p0)).
    { destruct (up_OrgID req); [apply always_then; intros _|]; by apply always_ret. }
    intros p2 E2. cbv zeta. set (p3 := match up_Editor req with None => p2 | Some b => _ end).
    assert (pf_Email p3 = pf_Email p0) as E3 by (unfold p3; by destruct (up_Editor req)).
    clearbody p3. destruct (up_Email req); [|apply always_ret; exact E3].
    destruct (String.eqb (NormalizeEmail _) _); [apply always_ret; exact E3|]. destruct (String.eqb _ _); [apply always_fail|].
    do 3 (apply always_then; intros ?). apply always_ret. exact E3. }
  specialize (Hm s2). unfold wp in Hm. by rewrite H in Hm.
Qed.

Lemma unique_violation_state k : follows pt_db eq (unique_violation k).
Proof. unfold unique_violation. follow. Qed.

Lemma UpdateProfile_cred mo id req : follows pt_db cred' (UpdateProfile fault PublicURL LegacyPasswordSalt mo id req).
Proof.
  intros s. unfold UpdateProfile. unfold mbind at 1, eff_bind at 1.
  pose proof (al_prepareProfile fault LegacyPasswordSalt cred' mo id req s) as H1.
  pose proof (prepareProfile_emails mo id req s) as H2.
  destruct (prepareProfile _ _ _ _ _ s) as [s1 [[p b]|e]] eqn:Ep; [|exact H1]. cbn [fst] in H1, H2.
  apply prepareProfile_email in Ep as (r & Hr & Er). etrans; [exact H1|].
  unfold applyProfile. cbn [fst snd]. unfold mbind at 1, eff_bind at 1. unfold storeProfile, mbind at 1, eff_bind at 1, on_conn.
  pose proof (update_users_cred' id (profile_row p) (pt_conn s1)) as Hc.
  destruct (update_users _ _ _ _) as [c k]. cbn [fst] in Hc. change (cn_db (pt_conn s1)) with (pt_db s1) in Hc.
  assert (cred' (pt_db s1) (cn_db c)) as Hcc.
  { apply Hc. intros r' Hr'. right. cbn. split; [done|]. rewrite Er. specialize (H2 id). rewrite Hr, Hr' in H2. cbn in H2.
    by injection H2 as ->. }
  destruct k as [k|e]; [|exact Hcc].
  pose proof (unique_violation_state k (s1 <| pt_conn := c |>)) as Ev.
  destruct (unique_violation k _) as [s3 [[]|e]]; cbn [fst] in Ev; change (pt_db (s1 <| pt_conn := c |>)) with (cn_db c) in Ev;
    [|cbn [fst]; by rewrite <- Ev].
  etrans; [exact Hcc|]. rewrite Ev. revert s3 Ev. intros s3 _. 
  assert (follows pt_db cred' (_ ← if b then announceEmail fault PublicURL mo id p else mret tt; mret p)) as Hf; [|apply Hf].
  follow. apply al_announceEmail. apply _.
Qed.

(** ** Everything a request does *)

Lemma perform_sound mo a : moves sound (perform mo a).
Proof.
  destruct (late a) eqn:El; [|apply moves_perform; [apply _|intros; apply UpdateProfile_sound|intros; apply AdminUpdateUser_sound|done]].
  destruct a; try done; intros s; cbn [perform fst].
  - apply applyProfile_sound.
  - apply follows_on_conn, admin_write_sound. by destruct bump.
  - apply al_check_password. apply _.
  - apply follows_on_conn, al_update_user; [apply _|]. intros r. by apply row_follows_bump.
Qed.

Lemma perform_cred mo a : late a = false -> moves cred' (perform mo a).
Proof. apply moves_perform; [apply _|intros; apply UpdateProfile_cred|intros; apply AdminUpdateUser_cred]. Qed.

Lemma reach_sound s0 s issued : reach s0 s issued -> sound (pt_db s0) (pt_db s).
Proof.
  induction 1 as [|s issued mo a s' c _ IH E]; [reflexivity|]. etrans; [exact IH|].
  pose proof (perform_sound mo a s) as H. by rewrite E in H.
Qed.

(** ** Tokens and versions *)

(** The token names an account that was there, at a version it had reached. *)
Definition token_ok (d : accounts) (c : session) : Prop :=
  exists id v, sc_id c = Some id /\ sc_version c = Some v /\ id < ac_next d /\
    forall r, ac_users d !! id = Some r -> v <= us_version r.

Lemma token_ok_grows d d' c : grows d d' -> token_ok d c -> token_ok d' c.
Proof.
  intros [Hn Hu] (id & v & Hid & Hv & Hlt & H). exists id, v. split_and!; [done|done|lia|].
  intros r' Hr'. destruct (Hu id r' Hr' Hlt) as (r & Hr & Hle). specialize (H r Hr). lia.
Qed.

Lemma token_ok_row d id r c :
  accounts_ok d -> ac_users d !! id = Some r -> sc_id c = Some id -> sc_version c = Some (us_version r) -> token_ok d c.
Proof.
  intros Hok Hr Hid Hv. exists id, (us_version r). split_and!; [done|done|apply (ok_ids d Hok); by eexists|].
  intros r' Hr'. rewrite Hr in Hr'. injection Hr' as <-. lia.
Qed.

(** What reading an account by number gives. *)
Lemma ask_read {A} (f : accounts -> A) s s1 a : ask fault f s = (s1, Ok a) -> pt_db s1 = pt_db s /\ a = f (pt_db s).
Proof.
  unfold ask, on_conn, query, statement, pt_db. destruct (fault _); [done|]. by intros [= <- <-].
Qed.

Lemma GetUserByID_read id s s1 u :
  GetUserByID fault id s = (s1, Ok u) -> pt_db s1 = pt_db s /\
  exists r, ac_users (pt_db s) !! id = Some r /\ u = mk_user_view id (us_name r) (us_email r) (us_role r) (us_version r).
Proof.
  unfold GetUserByID, mbind, eff_bind. destruct (ask _ _ s) as [s2 [row|e]] eqn:E; [|done].
  apply ask_read in E as [Ed ->]. destruct (ac_users (pt_db s) !! id) as [r|] eqn:Er; [|done].
  intros [= <- <-]. split; [done|]. by exists r.
Qed.

Lemma GetAdminForPreview_read id s s1 u :
  GetAdminForPreview fault id s = (s1, Ok u) -> pt_db s1 = pt_db s /\ u_Role u = "admin" /\
  exists r, ac_users (pt_db s) !! id = Some r /\ u = mk_user_view id (us_name r) (us_email r) (us_role r) (us_version r).
Proof.
  unfold GetAdminForPreview, map_error, mbind, eff_bind. destruct (GetUserByID fault id s) as [s2 [a|e]] eqn:E; [|done].
  destruct (String.eqb_spec (u_Role a) "admin") as [Ea|]; [|done]. intros [= <- <-].
  apply GetUserByID_read in E as [? ?]. done.
Qed.

(** The session for account [u] of row [r], perhaps a preview. *)
Definition session_of (id : Z) (r : UserRow) (c : session) : Prop :=
  sc_id c = Some id /\ sc_version c = Some (us_version r) /\
  ((sc_role c = Some (us_role r) /\ sc_preview c = None) \/
   exists role, us_role r = "admin" /\ ValidPreviewRole role = true /\ sc_role c = Some role /\ sc_preview c = Some role).

Lemma PreviewClaims_session id r role c :
  PreviewClaims (mk_user_view id (us_name r) (us_email r) (us_role r) (us_version r)) role = Ok c -> session_of id r c.
Proof.
  unfold PreviewClaims. cbn [u_Role]. destruct (String.eqb_spec (us_role r) "admin") as [Ea|]; [|done].
  destruct (ValidPreviewRole role) eqn:Ev; [|done]. intros [= <-]. split; [done|]. split; [done|]. right. by exists role.
Qed.

Lemma answer_cookie {A B} (m : acct A) (ok : A -> reply B) err s s' c :
  cookie (answer m ok err s) = (s', Some c) -> (forall e, re_cookie (err e) = None) ->
  exists a, m s = (s', Ok a) /\ re_cookie (ok a) = Some c.
Proof.
  unfold cookie, answer. destruct (m s) as [s1 [a|e]]; cbn; intros [= <- H] He; [by exists a|by rewrite He in H].
Qed.

Lemma writeServiceError_cookie {A} e : re_cookie (writeServiceError (A := A) e) = None.
Proof. by destruct e as [| | | | | | | | | | | | | | | |[]]. Qed.

(** A session is issued for an account as its row then was. *)
Lemma perform_cookie mo a s s' c :
  perform mo a s = (s', Some c) -> exists id r, ac_users (pt_db s) !! id = Some r /\ session_of id r c.
Proof.
  assert (forall id r, ac_users (pt_db s) !! id = Some r -> forall n e,
    session_of id r (issue mo (user_claims (mk_user_view id n e (us_role r) (us_version r))))) as Hplain.
  { intros id r _ n e. split; [done|]. split; [done|]. by left. }
  destruct a; cbn [perform].
  - unfold cookie, handle_signup. destruct req as [req|]; [|done]. cbv zeta.
    destruct (ValidateRequiredString _ _); [|done]. destruct (ValidateEmailFormat _); [|done].
    destruct (negb _); [done|]. destruct (ValidatePassword _); [|done].
    destruct (SignUp _ _ _ _) as [? [?|[]]]; done.
  - unfold handle_login. destruct req as [req|]; [|done]. destruct (ValidateEmailFormat _); [|done].
    intros (k & Hk & Hc)%answer_cookie; [|by intros []]. injection Hc as ->.
    unfold LogIn in Hk. unfold mbind at 1, eff_bind at 1 in Hk. destruct (ask _ _ s) as [s1 [row|]] eqn:E; [|done].
    apply ask_read in E as [_ ->]. unfold checkLogIn in Hk. destruct (by_email _ _) as [[id r]|] eqn:Eb; [|done].
    apply pick_Some in Eb as [Hr _]. unfold mbind, eff_bind in Hk. destruct (map_error _ _ s1) as [s2 [[]|]]; [|done].
    destruct (negb _); [done|]. injection Hk as _ <-. exists id, r. split; [done|]. by apply Hplain.
  - unfold RefreshAuth. destruct c0 as [c0|]; [|done]. destruct (sc_id c0) as [id|]; [|done].
    intros (u & Hu & Hc)%answer_cookie; [|by intros []].
    apply GetUserByID_read in Hu as (_ & r & Hr & ->). exists id, r. split; [done|].
    destruct (sc_preview c0) as [role|]; [|injection Hc as <-; by apply Hplain].
    destruct (PreviewClaims _ role) as [c'|] eqn:Ep; [|done]. injection Hc as <-.
    exact (PreviewClaims_session id r role c' Ep).
  - unfold AdminStartPreview. destruct (_ ≫= sc_id) as [id|]; [|done]. destruct role as [role|]; [|done].
    intros (c' & Hm & Hc)%answer_cookie; [|by apply writeServiceError_cookie]. injection Hc as <-.
    unfold mbind, eff_bind in Hm. destruct (GetAdminForPreview fault id s) as [s1 [u|]] eqn:E; [|done].
    apply GetAdminForPreview_read in E as (_ & _ & r & Hr & ->). exists id, r. split; [done|].
    unfold lift in Hm. destruct (PreviewClaims _ role) as [c''|] eqn:Ep; [|done]. injection Hm as _ <-.
    exact (PreviewClaims_session id r role c'' Ep).
  - unfold StopPreview. destruct c0 as [c0|]; [|done]. destruct (sc_preview c0); [|done]. destruct (sc_id c0) as [id|]; [|done].
    intros (u & Hu & Hc)%answer_cookie; [|by apply writeServiceError_cookie]. injection Hc as <-.
    apply GetAdminForPreview_read in Hu as (_ & _ & r & Hr & ->). exists id, r. split; [done|]. by apply Hplain.
  - unfold handle_verify_email. destruct (trim_space <$> token) as [[|? ?]|]; [done| |done].
    intros H%answer_cookie; [by destruct H as (? & _ & ?)|by intros []].
  - unfold handle_resend_verification, ask_for_link, cookie. destruct (trim_space <$> email); [|done].
    by destruct (ValidateEmailFormat _).
  - unfold ForgotPassword, ask_for_link, cookie. destruct (trim_space <$> email); [|done].
    by destruct (ValidateEmailFormat _).
  - unfold handle_reset_password. destruct req as [req|]; [|done]. cbv zeta. destruct (String.eqb _ _); [done|].
    destruct (negb _); [done|]. destruct (ValidatePassword _); [|done].
    intros H%answer_cookie; [by destruct H as (? & _ & ?)|by intros []].
  - unfold handle_update_profile. destruct (_ ≫= sc_id); [|done]. destruct req; [|done].
    intros H%answer_cookie; [by destruct H as (? & _ & ?)|by intros [| | | | | | | | | | | | | | | |[]]].
  - unfold handle_change_password. destruct (_ ≫= sc_id); [|done]. destruct req; [|done]. destruct (negb _); [done|].
    destruct (ValidatePassword _); [|done]. intros H%answer_cookie; [by destruct H as (? & _ & ?)|by intros [| | | | | | | | | | | | | | | |[]]].
  - unfold handle_admin_update_user. destruct (_ ≫= sc_id); [|done]. destruct (parse_int id); [|done].
    destruct (_ <=? _); [done|]. destruct req; [|done]. intros H%answer_cookie; [by destruct H as (? & _ & ?)|apply writeServiceError_cookie].
  - done.
  - done.
  - done.
  - done.
Qed.

Lemma reach_tokens s0 s issued :
  accounts_ok (pt_db s0) -> reach s0 s issued -> Forall (token_ok (pt_db s)) issued.
Proof.
  intros Hok H. induction H as [|s issued mo a s' c Hr IH E]; [constructor|].
  pose proof (perform_sound mo a s) as [Hg _]. rewrite E in Hg. cbn in Hg.
  assert (Forall (token_ok (pt_db s')) issued) as Hold by (eapply Forall_impl; [exact IH|]; intros ?; by apply token_ok_grows).
  destruct c as [c|]; [|done]. constructor; [|done].
  apply perform_cookie in E as (id & r & Hr' & Hid & Hv & _). apply (token_ok_grows (pt_db s)); [done|].
  apply (token_ok_row _ id r); [|done|done|done]. by apply (reach_sound s0 s issued Hr).
Qed.

(** ** What ends a session *)

(** The guard's answers, on one read of the account. *)
Lemma guard_reads c id s : sc_id c = Some id ->
  let o := snd (RequireCurrentSession fault (Some c) s) in
  (fault (cn_sent (pt_conn s)) = true /\ o = Some (refuse 500 (MService ErrServer))) \/
  (fault (cn_sent (pt_conn s)) = false /\
   o = match ac_users (pt_db s) !! id with
       | None => Some (refuse 401 MNone)
       | Some r => session_verdict c (mk_session_state (us_confirmed r) (us_role r) (us_version r))
       end).
Proof.
  intros Hid. unfold RequireCurrentSession, GetSessionState, ask, on_conn, query, statement, mbind, eff_bind, pt_db.
  rewrite Hid. destruct (fault (cn_sent (pt_conn s))); cbn; [by left|right; split; [done|]].
  by destruct (ac_users _ !! id) as [r|].
Qed.

Lemma update_user_read id g c c1 :
  update_user fault id g c = (c1, Ok tt) ->
  forall r1, ac_users (cn_db c1) !! id = Some r1 -> exists r, ac_users (cn_db c) !! id = Some r /\ r1 = g r.
Proof.
  unfold update_user, update_users, statement, mbind, eff_bind. destruct (fault _); [done|].
  unfold set_user. destruct (ac_users (cn_db c) !! id) as [r|] eqn:E; cbn.
  - destruct (violated _ _ _); cbn; [done|]. intros [= <-] r1. cbn. rewrite lookup_insert_eq. intros [= <-]. by exists r.
  - intros [= <-] r1. cbn. by rewrite E.
Qed.

Lemma ChangePassword_bumps mo id cur new s s1 :
  ChangePassword fault LegacyPasswordSalt mo id cur new s = (s1, Ok tt) ->
  exists s2, sound (pt_db s) (pt_db s2) /\
  forall r1, ac_users (pt_db s1) !! id = Some r1 ->
    exists r, ac_users (pt_db s2) !! id = Some r /\ us_version r1 = us_version r + 1.
Proof.
  unfold ChangePassword. unfold mbind at 1, eff_bind at 1.
  pose proof (al_verifyCurrentPassword fault LegacyPasswordSalt sound mo id cur s) as Hs.
  destruct (verifyCurrentPassword _ _ _ _ _ s) as [s2 [[]|e]]; [|done]. cbn [fst] in Hs.
  unfold mbind, eff_bind, hashPassword. destruct (bcrypt_generate _ _); [|done]. cbn.
  unfold on_conn. destruct (update_user _ _ _ _) as [c [[]|e]] eqn:E; [|done]. intros [= <-].
  exists s2. split; [done|]. intros r1 Hr1. destruct (update_user_read _ _ _ _ E r1 Hr1) as (r & Hr & ->). by exists r.
Qed.

Lemma ResetPassword_bumps mo token pw s s1 id :
  ResetPassword fault mo token pw s = (s1, Ok tt) ->
  snd (consume_token (sha256_hex (trim_space token)) (mo_now mo) (ac_reset (pt_db s))) = Some id ->
  forall r1, ac_users (pt_db s1) !! id = Some r1 ->
    exists r, ac_users (pt_db s) !! id = Some r /\ us_version r1 = us_version r + 1.
Proof.
  unfold ResetPassword. destruct (_ || _); [done|]. unfold mbind at 1, eff_bind at 1, hashPassword.
  destruct (bcrypt_generate _ _) as [h|]; [|done]. cbn. unfold on_conn, transaction. destruct (fault _); [done|].
  unfold mbind, eff_bind, statement. cbn. destruct (fault _); [done|].
  destruct (consume_token _ _ _) as [m o]. cbn. intros H ->.
  change (cn_db (pt_conn s)) with (pt_db s) in *.
  destruct (update_user _ _ _ _) as [c [[]|e]] eqn:E; [|done]. destruct (fault _); [done|]. injection H as <-.
  intros r1 Hr1. destruct (update_user_read _ _ _ _ E r1 Hr1) as (r & Hr & ->). by exists r.
Qed.

Lemma answer_status {A B} (m : acct A) (ok : A -> reply B) err s n :
  re_status (snd (answer m ok err s)) = n -> (forall e, re_status (err e) <> n) ->
  exists s' a, m s = (s', Ok a) /\ fst (answer m ok err s) = s'.
Proof.
  unfold answer. destruct (m s) as [s' [a|e]]; cbn; intros H He; [by exists s', a|by destruct (He e)].
Qed.

Lemma writeServiceError_status {A} e : re_status (writeServiceError (A := A) e) <> 204.
Proof. by destruct e as [| | | | | | | | | | | | | | | |[]]. Qed.

(** The request ends the sessions of account [uid]: it changed the address, the role or
    a confirmation, or it set a new password. *)
Inductive ends (mo : moment) (uid : Z) (s s1 : portal) : action -> Prop :=
| ends_row a r r1 :
    late a = false -> ac_users (pt_db s) !! uid = Some r -> ac_users (pt_db s1) !! uid = Some r1 ->
    NormalizeEmail (us_email r) <> NormalizeEmail (us_email r1) \/ us_role r <> us_role r1 \/
      (us_confirmed r = true /\ us_confirmed r1 = false) ->
    ends mo uid s s1 a
| ends_password c req :
    sc_id c = Some uid ->
    re_status (snd (handle_change_password fault LegacyPasswordSalt mo (Some c) req s)) = 204 ->
    ends mo uid s s1 (DoChangePassword (Some c) req)
| ends_reset req :
    re_status (snd (handle_reset_password fault mo (Some req) s)) = 204 ->
    snd (consume_token (sha256_hex (trim_space (trim_space (rs_Token req)))) (mo_now mo) (ac_reset (pt_db s))) = Some uid ->
    ends mo uid s s1 (DoReset (Some req)).

(** The version has grown past every session issued before. *)
Lemma ends_version mo uid s s1 a k :
  accounts_ok (pt_db s) -> perform mo a s = (s1, k) -> ends mo uid s s1 a -> uid < ac_next (pt_db s) ->
  forall r1, ac_users (pt_db s1) !! uid = Some r1 ->
    exists r, ac_users (pt_db s) !! uid = Some r /\ us_version r < us_version r1.
Proof.
  intros Hok Hp He Hlt r1 Hr1. destruct He as [a r r1' Hl Hr Hr1' Hch|c req Hid Hst|req Hst Hu].
  - rewrite Hr1 in Hr1'. injection Hr1' as <-. exists r. split; [done|].
    pose proof (perform_cred mo a Hl s) as Hc. rewrite Hp in Hc. destruct (Hc Hok) as [Hc' _].
    destruct (Hc' uid r Hr) as (r2 & Hr2 & [?|(_ & E1 & E2 & E3)]); cbn in Hr2; rewrite Hr1 in Hr2; injection Hr2 as <-; [done|].
    destruct Hch as [?|[?|[H1 H2]]]; [done..|]. rewrite (E3 H1) in H2. done.
  - cbn in Hp. unfold cookie in Hp. injection Hp as Hs1 _. revert Hst Hs1. unfold handle_change_password. cbn [mbind option_bind].
    rewrite Hid. destruct req as [req|]; [|done]. destruct (negb _); [done|]. destruct (ValidatePassword _); [|done].
    intros (s' & [] & Hm & Hf)%answer_status; [|by intros [| | | | | | | | | | | | | | | |[]]]. rewrite Hf. intros <-.
    apply ChangePassword_bumps in Hm as (s2 & [[Hn Hg] _] & Hb). destruct (Hb r1 Hr1) as (r2 & Hr2 & Hv).
    destruct (Hg uid r2 Hr2 Hlt) as (r & Hr & Hle). exists r. split; [done|lia].
  - cbn in Hp. unfold cookie in Hp. injection Hp as Hs1 _. revert Hst Hs1. unfold handle_reset_password. cbv zeta.
    destruct (String.eqb _ _); [done|]. destruct (negb _); [done|]. destruct (ValidatePassword _); [|done].
    intros (s' & [] & Hm & Hf)%answer_status; [|by intros []]. rewrite Hf. intros <-.
    destruct (ResetPassword_bumps _ _ _ _ _ _ Hm Hu r1 Hr1) as (r & Hr & Hv). exists r. split; [done|lia].
Qed.


(** C20: A session issued from row [r] of an account (with the account's role, or as an
    administrator's preview) is accepted later exactly as long as the account exists,
    is confirmed, has kept its version, and has the role [r] had. So the role the rest
    of the backend reads in an accepted token is the account's own, or a student's or
    professor's for an administrator. *)
Theorem session_accepted_iff mo a s s1 c s2 issued2 (Hf : no_fault fault)
  (Hp : perform mo a s = (s1, Some c)) (Hr2 : reach s1 s2 issued2) :
  exists id r role, ac_users (pt_db s) !! id = Some r /\ session_of id r c /\ sc_role c = Some role /\
  (snd (RequireCurrentSession fault (Some c) s2) = None <->
   exists r2, ac_users (pt_db s2) !! id = Some r2 /\ us_confirmed r2 = true /\
     us_version r2 = us_version r /\ us_role r2 = us_role r /\
     (us_role r2 = role \/ us_role r2 = "admin" /\ ValidPreviewRole role = true)).
Proof.
  apply perform_cookie in Hp as (id & r & Hr & Hs). exists id, r.
  assert (exists role, sc_role c = Some role) as [role Hrole].
  { destruct Hs as (_ & _ & [[E _]|(role & _ & _ & E & _)]); by eexists. }
  exists role. split; [done|]. split; [done|]. split; [done|].
  destruct Hs as (Hid & Hv & Hkind). destruct (guard_reads c id s2 Hid) as [[Hft _]|[_ E]]; [by rewrite Hf in Hft|].
  rewrite E. clear E. destruct (ac_users (pt_db s2) !! id) as [r2|]; [|split; [done|by intros (? & [=] & _)]].
  unfold session_verdict. rewrite Hv, Hrole. cbn [ss_TokenVersion ss_Role ss_Confirmed default].
  assert (sessionRoleAllowed role (us_role r2) (default "" (sc_preview c)) = true <->
          us_role r2 = us_role r /\ (us_role r2 = role \/ us_role r2 = "admin" /\ ValidPreviewRole role = true)) as Hrs.
  { unfold sessionRoleAllowed. destruct Hkind as [[E1 E2]|(role' & Ea & Evp & E1 & E2)]; rewrite E2; rewrite Hrole in E1; injection E1 as ->; cbn [default from_option]; unfold Datatypes.id.
    - destruct (String.eqb_spec (us_role r) (us_role r2)) as [->|Hne]; cbn; [naive_solver|].
      split; [done|]. intros [H _]. by destruct Hne.
    - assert (role' <> "admin" /\ role' <> "") as [Hna Hne] by (split; intros ->; by vm_compute in Evp).
      rewrite Ea. destruct (String.eqb_spec role' (us_role r2)) as [->|Hne2].
      + destruct (String.eqb_spec (us_role r2) ""); [done|]. split; [done|]. intros [H _]. done.
      + destruct (String.eqb_spec role' ""); [done|]. rewrite String.eqb_refl. cbn.
        destruct (String.eqb_spec (us_role r2) "admin") as [H|H]; cbn; [|split; [done|tauto]].
        split; [intros _; split; [done|right; by split]|intros _; exact Evp]. }
  destruct (sessionRoleAllowed _ _ _).
  - destruct (proj1 Hrs eq_refl) as [Hr2' Hor]. destruct (Z.eqb_spec (us_version r) (us_version r2)) as [Ev|Ev]; cbn.
    + destruct (us_confirmed r2) eqn:Ec; [|split; [done|]; intros (? & [= <-] & H & _); congruence].
      split; [|done]. intros _. by exists r2.
    + split; [done|]. intros (? & [= <-] & _ & H & _). by symmetry in H.
  - rewrite andb_false_r. split; [done|]. intros (? & [= <-] & _ & _ & H). by apply Hrs in H.
Qed.
End Requests.
