(* ===== verification/AccountLinks.v ===== *)
(** * Links, answers and races of the account endpoints

    A recovery link works once and changes one account ([reset_password_exact]); the
    public endpoints answer the same whoever has an account ([public_answers_alike]);
    and what happens to a link or a session when another request comes in between
    ([old_link_confirms_new_address], [refresh_outlives_password_change] and the
    examples after them), on a small instance of the hash functions. *)

From S2P Require Import Prelude Effects GoStrings Sql Throttle Accounts Sessions AccountsProofs SessionsProofs.
Local Open Scope Z_scope.

Section Links.
Context {UT : UnicodeTables} {CR : Crypto} (fault : nat -> bool) (PublicURL LegacyPasswordSalt : string).

(** ** Recovery links *)

Definition spent (now : Z) (t : TokenRow) : TokenRow := t <| tk_consumed := Some now |>.

Lemma consume_token_some hash now m m' id :
  consume_token hash now m = (m', Some id) ->
  exists t, m !! id = Some t /\ usable hash now (id, t) = true /\ m' = <[id := spent now t]> m.
Proof.
  unfold consume_token. destruct (pick _ m) as [[i t]|] eqn:E; [|done]. intros [= <- <-].
  apply pick_Some in E as [Hi Hu]. by exists t.
Qed.

Lemma usable_spec hash now id t :
  usable hash now (id, t) = true <-> tk_hash t = hash /\ tk_consumed t = None /\ now < tk_expires t.
Proof.
  unfold usable. cbn. rewrite !andb_true_iff, String.eqb_eq, bool_decide_eq_true. split; [intros [[? ?] ?]|intros (? & ? & ?)]; split_and!; auto; lia.
Qed.

(** A token whose row was used finds nothing to use. *)
Lemma consume_token_spent hash now m id t :
  unique_in (fun r => Some (tk_hash r)) m -> m !! id = Some t -> tk_hash t = hash -> tk_consumed t <> None ->
  consume_token hash now m = (m, None).
Proof.
  intros Hu Hi Hh Hc. unfold consume_token. destruct (pick _ m) as [[j b]|] eqn:E; [|done]. exfalso.
  apply pick_Some in E as [Hj (Hb & Hn & _)%usable_spec].
  assert (j = id) as -> by (apply (Hu j id b t hash); [done|done|congruence|congruence]). congruence.
Qed.

Lemma ResetPassword_ok mo token pw s s1 :
  accounts_ok (pt_db s) -> ResetPassword fault mo token pw s = (s1, Ok tt) ->
  exists uid t r h,
    ac_reset (pt_db s) !! uid = Some t /\ tk_hash t = sha256_hex (trim_space token) /\ tk_consumed t = None /\
    mo_now mo < tk_expires t /\ ac_users (pt_db s) !! uid = Some r /\ bcrypt_generate (mo_salt mo) pw = Some h /\
    pt_db s1 = put_user uid (r <| us_hash := h |> <| us_version := us_version r + 1 |>)
                 ((pt_db s) <| ac_reset := <[uid := spent (mo_now mo) t]> (ac_reset (pt_db s)) |>).
Proof.
  intros Hok. unfold ResetPassword. destruct (_ || _); [done|]. unfold mbind at 1, eff_bind at 1, hashPassword.
  destruct (bcrypt_generate _ _) as [h|]; [|done]. cbn. unfold on_conn, transaction. destruct (fault _); [done|].
  unfold mbind, eff_bind, statement. cbn. destruct (fault _); [done|].
  change (cn_db (pt_conn s)) with (pt_db s).
  destruct (consume_token _ _ _) as [m [uid|]] eqn:Ec; cbn; [|done].
  apply consume_token_some in Ec as (t & Ht & (Hh & Hn & Hx)%usable_spec & ->).
  destruct (ok_reset_user _ Hok uid) as [r Hr]; [by eexists|].
  unfold update_user, update_users, statement, mbind, eff_bind. cbn. destruct (fault _); [done|].
  unfold set_user. cbn. rewrite Hr. destruct (violated _ _ _); cbn; [done|]. destruct (fault _); [done|]. intros [= <-].
  exists uid, t, r, h. by split_and!.
Qed.

Lemma ResetPassword_err mo token pw s s1 e :
  ResetPassword fault mo token pw s = (s1, Err e) -> pt_db s1 = pt_db s.
Proof.
  unfold ResetPassword. destruct (_ || _); [by intros [= <- _]|]. unfold mbind at 1, eff_bind at 1, hashPassword.
  destruct (bcrypt_generate _ _) as [h|]; [|by intros [= <- _]]. cbv beta iota. unfold mret, eff_ret, on_conn, pt_db.
  match goal with |- context [transaction ?f ?e ?m] => set (body := m) end.
  destruct (transaction fault ErrServer body (pt_conn s)) as [c r] eqn:E. intros [= <- ->]. cbn.
  destruct (pt_conn s) as [d n], c as [d' n']. apply (runs_transaction_err fault ErrServer body d d' e). by exists n, n'.
Qed.

(** A spent token is refused. *)
Lemma ResetPassword_spent mo token pw s uid t :
  accounts_ok (pt_db s) -> ac_reset (pt_db s) !! uid = Some t -> tk_hash t = sha256_hex (trim_space token) ->
  tk_consumed t <> None ->
  snd (ResetPassword fault mo token pw s) = Err ErrInvalidPasswordResetToken \/ snd (ResetPassword fault mo token pw s) = Err ErrServer.
Proof.
  intros Hok Ht Hh Hc. unfold ResetPassword. destruct (_ || _); [by left|]. unfold mbind at 1 3, eff_bind at 1 3, hashPassword.
  destruct (bcrypt_generate _ _) as [h|]; [|by right]. cbn. unfold on_conn, transaction. destruct (fault _); [by right|].
  unfold mbind, eff_bind, statement. cbn. destruct (fault _); [by right|]. change (cn_db (pt_conn s)) with (pt_db s).
  rewrite (consume_token_spent _ _ _ uid t); [by left|apply (ok_reset _ Hok)|done|done|done].
Qed.

(** C19: Using a recovery link does everything or nothing. If it succeeds there was one
    account whose stored hash is the token's, unused and unexpired; that account alone
    changes: it has the new password's hash and one more in its version, its link is
    spent, and the same link is refused from then on, until a new one is issued for
    the account. If it fails, for whatever reason, the tables are as before. *)
Theorem reset_password_exact mo token pw s s1 r
  (Hok : accounts_ok (pt_db s)) (H : ResetPassword fault mo token pw s = (s1, r)) :
  match r with
  | Err _ => pt_db s1 = pt_db s
  | Ok _ => exists uid t u h,
      ac_reset (pt_db s) !! uid = Some t /\ tk_hash t = sha256_hex (trim_space token) /\ tk_consumed t = None /\
      mo_now mo < tk_expires t /\ ac_users (pt_db s) !! uid = Some u /\ bcrypt_generate (mo_salt mo) pw = Some h /\
      pt_db s1 = put_user uid (u <| us_hash := h |> <| us_version := us_version u + 1 |>)
                   ((pt_db s) <| ac_reset := <[uid := spent (mo_now mo) t]> (ac_reset (pt_db s)) |>) /\
      forall mo' pw' s2, accounts_ok (pt_db s2) -> ac_reset (pt_db s2) !! uid = Some (spent (mo_now mo) t) ->
        snd (ResetPassword fault mo' token pw' s2) = Err ErrInvalidPasswordResetToken \/
        snd (ResetPassword fault mo' token pw' s2) = Err ErrServer
  end.
Proof.
  destruct r as [[]|e]; [|by eapply ResetPassword_err].
  destruct (ResetPassword_ok _ _ _ _ _ Hok H) as (uid & t & u & h & H1 & H2 & H3 & H4 & H5 & H6 & H7).
  exists uid, t, u, h. split_and!; try done. intros mo' pw' s2 Hok2 Ht2. by eapply ResetPassword_spent.
Qed.

(** ** What the public endpoints tell *)

Lemma ask_for_link_answer what service email s s' :
  snd (ask_for_link what service email s) = snd (ask_for_link what service email s').
Proof. unfold ask_for_link. destruct (trim_space <$> email); [|done]. by destruct (ValidateEmailFormat _). Qed.

Lemma SignUp_result mo req s : no_fault fault ->
  (exists h, bcrypt_generate (mo_salt mo) (su_Password req) = Some h /\
    ((exists id, snd (SignUp fault mo req s) = Ok id) \/ snd (SignUp fault mo req s) = Err ErrEmailExists)) \/
  (bcrypt_generate (mo_salt mo) (su_Password req) = None /\ snd (SignUp fault mo req s) = Err ErrServer).
Proof.
  intros Hf. unfold SignUp, hashPassword, mbind at 1 2 3, eff_bind at 1 2 3. destruct (bcrypt_generate _ _) as [h|]; [left|by right].
  exists h. split; [done|]. cbn. unfold on_conn, transaction, mbind, eff_bind, statement. rewrite Hf. cbn. rewrite Hf. cbn.
  destruct (insert_user _ _) as [d [id|k]]; cbn; [rewrite Hf; left; by exists id|by right].
Qed.

(** C23: The public endpoints do not tell who has an account. Asking for a recovery link
    or a new verification link gets an answer that depends on the request alone,
    whatever the tables hold and whatever fails; so does signing up, on a database that
    works, whether the address is free or taken. *)
Theorem public_answers_alike mo s s' :
  (forall email, snd (ForgotPassword fault PublicURL mo email s) = snd (ForgotPassword fault PublicURL mo email s')) /\
  (forall email, snd (handle_resend_verification fault PublicURL mo email s) =
                 snd (handle_resend_verification fault PublicURL mo email s')) /\
  (no_fault fault -> forall req, snd (handle_signup fault PublicURL mo req s) = snd (handle_signup fault PublicURL mo req s')).
Proof.
  split; [intros; apply ask_for_link_answer|]. split; [intros; apply ask_for_link_answer|].
  intros Hf req. unfold handle_signup. destruct req as [req|]; [|done]. cbv zeta.
  destruct (ValidateRequiredString _ _); [|done]. destruct (ValidateEmailFormat _); [|done].
  destruct (negb _); [done|]. destruct (ValidatePassword _); [|done].
  match goal with |- context [SignUp fault mo ?r s] => set (q := r) end.
  pose proof (SignUp_result mo q s Hf) as H1. pose proof (SignUp_result mo q s' Hf) as H2.
  destruct (SignUp fault mo q s) as [s1 r1], (SignUp fault mo q s') as [s2 r2]. cbn [snd] in H1, H2.
  destruct H1 as [(h & E & [[? ->]| ->])|[E ->]], H2 as [(h' & E' & [[? ->]| ->])|[E' ->]]; try done; congruence.
Qed.
End Links.

(** ** An instance for examples *)

Definition toy_crypto : Crypto := {|
  sha256_hex := fun s => "#" +:+ s;
  sha1_hex := fun s => "sha1:" +:+ s;
  bcrypt_generate := fun salt p => Some ("$2a$" +:+ p);
  bcrypt_compare := fun h p => String.eqb h ("$2a$" +:+ p);
  parse_address := fun e => contains "@" e;
  sql_lower := @to_lower ascii_tables
|}.

Section Examples.
#[local] Existing Instance ascii_tables.
#[local] Existing Instance toy_crypto.

Definition no_faults : nat -> bool := fun _ => false.
Definition at_ (t : Z) (raw : string) : moment := mk_moment t t (Some raw) "" Delivered.
Definition ada : UserRow := mk_user "Ada" "ada@x" None "$2a$Secret1!" "student" true 1 None true 0.
Definition root : UserRow := mk_user "Root" "root@x" None "$2a$Secret1!" "admin" true 1 None true 0.
Definition portal0 : portal :=
  mk_portal (mk_conn (mk_accounts (<[1 := root]> (<[2 := ada]> ∅)) ∅ ∅ 3) 0) (newRecipientThrottle recipientCooldown maxTrackedRecipients) [].

Lemma pair_lookup {A} (i j : Z) (x y : A) k v : <[i := x]> (<[j := y]> (∅ : gmap Z A)) !! k = Some v -> k = i /\ v = x \/ k = j /\ v = y.
Proof.
  intros [[<- <-]|[_ [[<- <-]|[_ H]]%lookup_insert_Some]]%lookup_insert_Some; [by left|by right|by rewrite lookup_empty in H].
Qed.

Lemma portal0_ok : accounts_ok (pt_db portal0).
Proof.
  constructor; cbn.
  1-5: intros i j a b v [[-> ->]|[-> ->]]%pair_lookup [[-> ->]|[-> ->]]%pair_lookup; vm_compute; congruence.
  1-2: intros i j a b v H; by rewrite lookup_empty in H.
  1-2: intros i [r H]; by rewrite lookup_empty in H.
  intros i [r [[-> _]|[-> _]]%pair_lookup]; lia.
Qed.

Abbreviation run := (perform no_faults "https://rc" "salt").

(** Ada's session of a login, and the password change that ends it. *)
Definition ada_session : session :=
  mk_session (Some 2) (Some "Ada") (Some "ada@x") (Some "student") (Some 1) None (Some (0 + SessionTTL)).
Definition ada_in : portal := fst (run (at_ 0 "r") (DoLogIn (Some (mk_login " Ada@X " "Secret1!"))) portal0).
Definition ada_change : action := DoChangePassword (Some ada_session) (Some (mk_change "Secret1!" "Secret2!" "Secret2!")).
Definition ada_changed : portal := fst (run (at_ 1 "r") ada_change ada_in).

Lemma ada_logs_in : run (at_ 0 "r") (DoLogIn (Some (mk_login " Ada@X " "Secret1!"))) portal0 = (ada_in, Some ada_session).
Proof. by vm_compute. Qed.

Lemma ada_changes : run (at_ 1 "r") ada_change ada_in = (ada_changed, None).
Proof. by vm_compute. Qed.

Lemma reach_ada_in : reach no_faults "https://rc" "salt" portal0 ada_in [ada_session].
Proof. apply (reach_step _ _ _ _ _ [] _ _ _ _ (reach_start _ _ _ _) ada_logs_in). Qed.


Lemma session_accepted_iff_witness :
  exists id r role, ac_users (pt_db portal0) !! id = Some r /\ session_of id r ada_session /\ sc_role ada_session = Some role /\
  (snd (RequireCurrentSession no_faults (Some ada_session) ada_in) = None <->
   exists r2, ac_users (pt_db ada_in) !! id = Some r2 /\ us_confirmed r2 = true /\
     us_version r2 = us_version r /\ us_role r2 = us_role r /\
     (us_role r2 = role \/ us_role r2 = "admin" /\ ValidPreviewRole role = true)).
Proof.
  apply (session_accepted_iff no_faults "https://rc" "salt" (at_ 0 "r") (DoLogIn (Some (mk_login " Ada@X " "Secret1!")))
           portal0 ada_in ada_session ada_in []); [done|exact ada_logs_in|apply reach_start].
Defined.

(** Ada asks for a recovery link and uses it. *)
Definition ada_asked : portal := fst (run (at_ 0 "r") (DoForgot (Some "ada@x")) portal0).
Definition ada_reset : portal := fst (ResetPassword no_faults (at_ 1 "") (base64url "r") "Secret3!" ada_asked).

Lemma ada_asked_ok : accounts_ok (pt_db ada_asked).
Proof. apply (perform_sound no_faults "https://rc" "salt" (at_ 0 "r") (DoForgot (Some "ada@x")) portal0), portal0_ok. Qed.

Lemma reset_password_exact_witness :
  us_hash <$> ac_users (pt_db ada_reset) !! 2 = Some "$2a$Secret3!" /\
  exists uid t u h,
    ac_reset (pt_db ada_asked) !! uid = Some t /\ tk_hash t = sha256_hex (trim_space (base64url "r")) /\ tk_consumed t = None /\
    1 < tk_expires t /\ ac_users (pt_db ada_asked) !! uid = Some u /\ bcrypt_generate "" "Secret3!" = Some h /\
    pt_db ada_reset = put_user uid (u <| us_hash := h |> <| us_version := us_version u + 1 |>)
                 ((pt_db ada_asked) <| ac_reset := <[uid := spent 1 t]> (ac_reset (pt_db ada_asked)) |>) /\
    forall mo' pw' s2, accounts_ok (pt_db s2) -> ac_reset (pt_db s2) !! uid = Some (spent 1 t) ->
      snd (ResetPassword no_faults mo' (base64url "r") pw' s2) = Err ErrInvalidPasswordResetToken \/
      snd (ResetPassword no_faults mo' (base64url "r") pw' s2) = Err ErrServer.
Proof.
  split; [by vm_compute|].
  apply (reset_password_exact no_faults (at_ 1 "") (base64url "r") "Secret3!" ada_asked ada_reset (Ok tt) ada_asked_ok).
  by vm_compute.
Defined.

(** ** Links and requests in between *)

Definition eve_signs_up : portal :=
  fst (run (at_ 0 "eve") (DoSignUp (Some (mk_signup "Eve" "eve@x" "Secret1!" "Secret1!"))) portal0).
Definition root_session : session := mk_session (Some 1) (Some "Root") (Some "root@x") (Some "admin") (Some 1) None (Some SessionTTL).
Definition root_corrects : portal :=
  fst (run (at_ 1 "") (DoAdminUpdate (Some root_session) "3" (Some (mk_update_user None (Some "dean@y") None None None))) eve_signs_up).
Definition eve_follows : portal := fst (run (at_ 2 "") (DoVerifyEmail (Some (base64url "eve"))) root_corrects).

(** A link confirms whatever address its account has when it is used, not the one it
    was sent to. After an administrator has given an account another address, which
    leaves it unconfirmed because nobody has proved control of that address, the link
    sent to the old address still confirms it, without a message to the new one. *)
Theorem old_link_confirms_new_address :
  (us_email <$> ac_users (pt_db root_corrects) !! 3) = Some "dean@y" /\
  (us_confirmed <$> ac_users (pt_db root_corrects) !! 3) = Some false /\
  (us_email <$> ac_users (pt_db eve_follows) !! 3) = Some "dean@y" /\
  (us_confirmed <$> ac_users (pt_db eve_follows) !! 3) = Some true /\
  ms_To <$> pt_mail eve_follows = ["eve@x"].
Proof. by vm_compute. Qed.

(** A thief's copy of Ada's session asks for a renewal and passes the guard; Ada then
    changes her password; then the handler reads the account. *)
Definition thief_renews : portal * option session := run (at_ 2 "") (DoRefresh (Some ada_session)) ada_changed.

(** A renewal that passed the guard just before a password change is answered with a
    session of the new version: the sessions issued before the change are refused, as
    [credentials_end_sessions] says, but whoever held one of them goes on with the
    renewed one. *)
Theorem refresh_outlives_password_change :
  snd (RequireCurrentSession no_faults (Some ada_session) ada_in) = None /\
  snd (RequireCurrentSession no_faults (Some ada_session) ada_changed) = Some (refuse 401 MNone) /\
  exists c, snd thief_renews = Some c /\ sc_version c = Some 2 /\
    snd (RequireCurrentSession no_faults (Some c) (fst thief_renews)) = None.
Proof. split; [by vm_compute|]. split; [by vm_compute|]. eexists. split; [by vm_compute|]. by vm_compute. Qed.

(** A profile request that read the account before its new address was verified writes
    the old address back. *)
Definition rename : UpdateProfileRequest := mk_update_profile (Some "Ada L.") None None None "".
Definition move_out : UpdateProfileRequest := mk_update_profile None (Some "ada@new") None None "Secret1!".
Definition moving : portal := fst (run (at_ 1 "mv") (DoUpdateProfile (Some ada_session) (Some move_out)) ada_in).
Definition half_renamed : portal * res acct_error (Profile * bool) := prepareProfile no_faults "salt" (at_ 2 "") 2 rename moving.
Definition moved : portal := fst (run (at_ 3 "") (DoVerifyEmail (Some (base64url "mv"))) (fst half_renamed)).

Example stale_profile_reverts_address :
  (us_email <$> ac_users (pt_db moved) !! 2) = Some "ada@new" /\
  match snd half_renamed with
  | Ok change => (us_email <$> ac_users (pt_db (fst (run (at_ 4 "") (LateProfile 2 change) moved))) !! 2) = Some "ada@x"
  | Err _ => False
  end.
Proof. by vm_compute. Qed.

(** A login with an old password hash, upgraded after the password was changed, brings
    the old password back. *)
Definition old_ada : UserRow := ada <| us_hash := "legacy-sha1$sha1:saltSecret1!" |>.
Definition portal1 : portal := portal0 <| pt_conn := mk_conn (put_user 2 old_ada (pt_db portal0)) 0 |>.
Definition changed1 : portal := fst (ChangePassword no_faults "salt" (at_ 1 "") 2 "Secret1!" "Secret2!" portal1).

Example late_upgrade_reverts_password :
  (us_hash <$> ac_users (pt_db changed1) !! 2) = Some "$2a$Secret2!" /\
  (us_hash <$> ac_users (pt_db (fst (run (at_ 2 "") (LateUpgrade 2 "Secret1!" (us_hash old_ada)) changed1))) !! 2) = Some "$2a$Secret1!".
Proof. by vm_compute. Qed.
End Examples.
