(* ===== verification/Cache.v ===== *)
(** * The cache in front of the tables

    [src/backend/cache/cache.go]: JSON values in Redis, with an expiry, and the
    cooldown after a failure. A call to Redis may be answered, or fail for the caller
    whether or not Redis carried it out ([outcome]); a value that cannot be decoded is
    a miss, like an absent one. Instants are nanoseconds of one clock. The services
    read a value through the cache and drop it after they write; [cache_hit_is_current]
    says what that guarantees in one process. *)

From S2P Require Import Prelude GoStrings.
Local Open Scope Z_scope.

Definition second : Z := 10 ^ 9.
Definition cacheCooldown : Z := 30 * second.
Definition OfferingTTL : Z := 30 * second.
Definition ExercisesTTL : Z := 30 * second.
Definition AllowedFileTypesTTL : Z := 5 * 60 * second.
Definition LanguageStatisticsTTL : Z := 60 * second.
Definition SettingsTTL : Z := 60 * second.

Definition KeyAllowedFileTypes : string := "allowed_file_types".
Definition KeyPlatformSettings : string := "platform_settings".
Definition KeyLanguageStatistics : string := "language_statistics:v3".
Definition OfferingKey (id : Z) : string := "offering:" +:+ fmt_int id.
Definition OfferingExercisesKey (id : Z) : string := "offering_exercises:" +:+ fmt_int id.
Definition OfferingLanguageStatisticsKey (id : Z) : string := "offering_language_statistics:v3:" +:+ fmt_int id.

Inductive outcome := Answered | Failed (applied : bool) (at_ : Z).

Section Cache.
Context {V : Type}.

(** Redis holds a value with the instant it expires at. *)
Record cache := mk_cache { ca_redis : gmap string (V * Z); ca_disabledUntil : Z }.
#[export] Instance cache_eta : Settable cache := fun c => mk_cache (ca_redis c) (ca_disabledUntil c).

(** [current] gives no client during the cooldown. *)
Definition disabled (c : cache) (now : Z) : bool := now <? ca_disabledUntil c.

Definition markFailure (now : Z) (c : cache) : cache := c <| ca_disabledUntil := now + cacheCooldown |>.

Definition live (c : cache) (key : string) (now : Z) : option V :=
  match ca_redis c !! key with Some (v, expires) => if now <? expires then Some v else None | None => None end.

Definition GetJSON (key : string) (now : Z) (o : outcome) (c : cache) : cache * option V :=
  if disabled c now then (c, None)
  else match o with
  | Answered => (c, live c key now)
  | Failed _ at_ => (markFailure at_ c, None)
  end.

(** A write: what Redis does with it, and what the process notes of a failure. *)
Definition write (f : gmap string (V * Z) -> gmap string (V * Z)) (now : Z) (o : outcome) (c : cache) : cache :=
  if disabled c now then c
  else match o with
  | Answered => c <| ca_redis := f (ca_redis c) |>
  | Failed applied at_ => markFailure at_ (if applied then c <| ca_redis := f (ca_redis c) |> else c)
  end.

Definition SetJSON (key : string) (v : V) (ttl now : Z) (o : outcome) (c : cache) : cache :=
  write (insert key (v, now + ttl)) now o c.

Definition Delete (keys : list string) (now : Z) (o : outcome) (c : cache) : cache :=
  match keys with [] => c | _ => write (fun m => foldr delete m keys) now o c end.

(** ** Reading through the cache *)

(** The value a service works with, and the cache after it: a hit, or the table's value,
    which is stored. *)
Definition read_through (key : string) (ttl : Z) (db : V) (now : Z) (o : outcome) (now' : Z) (o' : outcome) (c : cache) : cache * V :=
  match GetJSON key now o c with
  | (c, Some v) => (c, v)
  | (c, None) => (SetJSON key db ttl now' o' c, db)
  end.

(** Requests of one process one after the other, on a Redis that starts empty: the tables' values [db], the cache, the
    clock, and what the last read gave. [o] cannot fail before it was sent. *)
Definition timely (now : Z) (o : outcome) : Prop :=
  match o with Answered => True | Failed _ at_ => now <= at_ end.
Definition noted (now : Z) (o : outcome) : Z := match o with Answered => now | Failed _ at_ => at_ end.

Inductive serial (ttl : Z) : gmap string V -> cache -> Z -> Prop :=
| serial_start db d now : d <= now -> serial ttl db (mk_cache ∅ d) now
| serial_wait db c now now' : serial ttl db c now -> now <= now' -> serial ttl db c now'
| serial_read db c now key v now' o o' :
    serial ttl db c now -> db !! key = Some v -> timely now o -> noted now o <= now' -> timely now' o' ->
    serial ttl db (fst (read_through key ttl v now o now' o' c)) (noted now' o')
| serial_write db c now key v now' o :
    serial ttl db c now -> now <= now' -> timely now' o ->
    serial ttl (<[key := v]> db) (Delete [key] now' o c) (noted now' o).

(** What Redis holds is current or will have expired when the process asks again. *)
Record coherent (ttl : Z) (db : gmap string V) (c : cache) (now : Z) : Prop := {
  co_expiry : forall k v e, ca_redis c !! k = Some (v, e) -> e <= now + ttl;
  co_value : forall k v e, ca_redis c !! k = Some (v, e) -> db !! k = Some v \/ e <= ca_disabledUntil c;
  co_cooldown : forall k v e, ca_redis c !! k = Some (v, e) -> now < ca_disabledUntil c -> e <= ca_disabledUntil c
}.

Lemma coherent_wait ttl db c now now' : coherent ttl db c now -> now <= now' -> coherent ttl db c now'.
Proof.
  intros [He Hv Hc] Hle. constructor.
  - intros k v e H. specialize (He k v e H). lia.
  - done.
  - intros k v e H Hlt. apply (Hc k v e H). lia.
Qed.

(** After a failure every entry expires before the process asks again. *)
Lemma coherent_failure ttl db c now at_ :
  ttl <= cacheCooldown -> (forall k v e, ca_redis c !! k = Some (v, e) -> e <= now + ttl) -> now <= at_ ->
  coherent ttl db (markFailure at_ c) at_.
Proof.
  intros Httl He Hle.
  assert (forall k v e, ca_redis c !! k = Some (v, e) -> e <= at_ + cacheCooldown) as H.
  { intros k v e Hk. specialize (He k v e Hk). lia. }
  constructor; cbn; intros k v e Hk; [specialize (He k v e Hk); lia|right; by eapply H|intros _; by eapply H].
Qed.

(** A write to Redis that leaves only entries of before, and of [now]. *)
Lemma write_coherent ttl db db' c f now o :
  ttl <= cacheCooldown -> coherent ttl db c now -> timely now o ->
  (forall k v e, f (ca_redis c) !! k = Some (v, e) -> e <= now + ttl) ->
  (disabled c now = false -> forall k v e, f (ca_redis c) !! k = Some (v, e) -> db' !! k = Some v \/ e <= ca_disabledUntil c) ->
  (disabled c now = true -> forall k v e, ca_redis c !! k = Some (v, e) -> db' !! k = Some v \/ e <= ca_disabledUntil c) ->
  coherent ttl db' (write f now o c) (noted now o).
Proof.
  intros Httl [He Hv Hc] Ho Hf Hfv Hdv. unfold write. unfold disabled in *. destruct (now <? ca_disabledUntil c) eqn:Ed.
  - apply (coherent_wait _ _ _ now); [|destruct o; cbn in *; lia]. constructor; [done|by apply Hdv|done].
  - destruct o as [|applied at_]; cbn in *.
    + constructor; cbn; [done|by apply Hfv|]. intros k v e _ Hlt. lia.
    + destruct applied; apply (coherent_failure _ _ _ now); [lia|done|done|lia|done|done].
Qed.

Lemma get_coherent ttl db c key now o c' r :
  ttl <= cacheCooldown -> coherent ttl db c now -> timely now o -> GetJSON key now o c = (c', r) ->
  coherent ttl db c' (noted now o).
Proof.
  intros Httl Hco Ho. unfold GetJSON. destruct (disabled c now).
  - intros [= <- _]. apply (coherent_wait _ _ _ now); [done|]. destruct o; cbn in *; lia.
  - destruct o as [|applied at_]; intros [= <- _]; [done|]. apply (coherent_failure _ _ _ now); [done| |done].
    apply (co_expiry _ _ _ _ Hco).
Qed.

Lemma serial_coherent ttl db c now : 0 <= ttl <= cacheCooldown -> serial ttl db c now -> coherent ttl db c now.
Proof.
  intros Httl H. induction H as [db d now Hd|db c now now' _ IH Hle|db c now key v now' o o' _ IH Hdb Ho Hn Ho'|db c now key v now' o _ IH Hle Ho].
  - constructor; cbn; intros k v e; by rewrite lookup_empty.
  - by eapply coherent_wait.
  - unfold read_through. destruct (GetJSON key now o c) as [c' r] eqn:Eg.
    apply (get_coherent ttl db) in Eg; [|lia|done|done]. destruct r as [w|]; cbn [fst].
    + apply (coherent_wait _ _ _ (noted now o)); [done|]. destruct o'; cbn in *; lia.
    + apply (coherent_wait _ _ _ _ now') in Eg; [|done]. unfold SetJSON. destruct Eg as [He Hv Hc].
      apply (write_coherent ttl db); [lia|by constructor|done| | |done].
      * intros k u e [[<- [= <- <-]]|[_ Hk]]%lookup_insert_Some; [lia|by eapply He].
      * intros _ k u e [[<- [= <- _]]|[_ Hk]]%lookup_insert_Some; [by left|by eapply Hv].
  - apply (coherent_wait _ _ _ _ now') in IH; [|done]. destruct IH as [He Hv Hc].
    apply (write_coherent ttl db); [lia|by constructor|done| | |]; cbn [foldr].
    + intros k u e [_ Hk]%lookup_delete_Some. by eapply He.
    + intros _ k u e [Hne Hk]%lookup_delete_Some. rewrite lookup_insert_ne by done. by eapply Hv.
    + intros Hd k u e Hk. right. unfold disabled in Hd. eapply Hc; [done|]. lia.
Qed.

(** C21: A hit is current. In a process whose requests read through the cache and drop
    the entry after each write, one after the other, every value the cache answers
    with is the one the tables hold, whatever Redis loses, refuses or carries out
    without saying so, as long as no entry outlives the cooldown: an invalidation that
    fails silences the cache until the entry it missed has expired. *)
Theorem cache_hit_is_current ttl db c now key o c' v
  (Httl : 0 <= ttl <= cacheCooldown) (Hs : serial ttl db c now) (Hg : GetJSON key now o c = (c', Some v)) :
  db !! key = Some v.
Proof.
  apply serial_coherent in Hs as [_ Hv _]; [|done]. unfold GetJSON in Hg. unfold disabled in Hg.
  destruct (now <? ca_disabledUntil c) eqn:Ed; [done|]. destruct o; [|done]. injection Hg as _ Hl.
  unfold live in Hl. destruct (ca_redis c !! key) as [[w e]|] eqn:E; [|done].
  destruct (now <? e) eqn:Ee; [|done]. injection Hl as ->. destruct (Hv key v e E) as [?|?]; [done|lia].
Qed.
End Cache.
Arguments cache V : clear implicits.

(** A value is read, changed while Redis does not answer, and read again after the
    cooldown. *)
Lemma cache_hit_is_current_witness :
  let c := Delete ["k"] 10 (Failed false 11) (fst (read_through "k" OfferingTTL 1 1 Answered 2 Answered (mk_cache ∅ 0))) in
  live c "k" 12 = Some 1 /\ GetJSON "k" 12 Answered c = (c, None) /\
  exists c', GetJSON "k" (12 + OfferingTTL) Answered (fst (read_through "k" OfferingTTL 2 (11 + OfferingTTL) Answered (11 + OfferingTTL) Answered c)) = (c', Some 2) /\
    (<["k" := 2]> {["k" := 1]} : gmap string Z) !! "k" = Some 2.
Proof.
  cbv zeta. split; [by vm_compute|]. split; [by vm_compute|]. eexists. split; [by vm_compute|].
  eapply (cache_hit_is_current OfferingTTL (<["k" := 2]> {["k" := 1]}) _ (12 + OfferingTTL) "k" Answered).
  - by vm_compute.
  - eapply (serial_wait _ _ _ (11 + OfferingTTL)); [|by vm_compute].
    eapply (serial_read OfferingTTL _ _ (11 + OfferingTTL) "k" 2 (11 + OfferingTTL) Answered Answered); [|by vm_compute..].
    eapply (serial_wait _ _ _ 11); [|by vm_compute].
    eapply (serial_write OfferingTTL _ _ 9 "k" 2 10 (Failed false 11)); [|by vm_compute..].
    eapply (serial_wait _ _ _ 2); [|by vm_compute].
    eapply (serial_read OfferingTTL _ _ 1 "k" 1 2 Answered Answered); [|by vm_compute..].
    eapply (serial_wait _ _ _ 0); [by apply serial_start|by vm_compute].
  - by vm_compute.
Defined.

(** With a life longer than the cooldown, as the file types and the settings have, a
    failed invalidation is seen: the old value comes back once the cooldown is over. *)
Example long_lived_entry_survives :
  let c := Delete [KeyAllowedFileTypes] (10 * second) (Failed false (10 * second))
             (fst (read_through KeyAllowedFileTypes AllowedFileTypesTTL 1 0 Answered 0 Answered (mk_cache ∅ 0))) in
  snd (GetJSON KeyAllowedFileTypes (50 * second) Answered c) = Some 1.
Proof. by vm_compute. Qed.

(** With a request in between, too: one that read the table before a write stores what
    it read after the write dropped the entry. *)
Example overtaken_read_is_cached :
  let c := Delete ["k"] 10 Answered (fst (GetJSON (V := Z) "k" 5 Answered (mk_cache ∅ 0))) in
  snd (GetJSON "k" 20 Answered (SetJSON "k" 1 OfferingTTL 11 Answered c)) = Some 1.
Proof. by vm_compute. Qed.
