(* ===== verification/Classes.v ===== *)
(** * Classes and their members

    [src/backend/services/offerings-service.go], [enrollments-service.go],
    [offering-members-service.go], [enrollment-code-service.go] and the transfer of a
    class in [admin-service.go]: who may touch a class, joining and leaving it, its
    members, its fields and its code. An offering is read through the cache of
    [Cache.v]; users are the rows of [Accounts.v], which these services only read.

    Times: [vs_now] is the process's clock, also the cache's, [vs_db] PostgreSQL's.
    An end date in a request is the instant its text denotes; one formatted with
    [time.RFC3339] keeps whole seconds. Deleting a class, whose objects have to be
    collected first, and the lists with a student's scores are not modelled. *)

From S2P Require Import Prelude Effects GoStrings Sql Cache Catalog.
From S2P Require Accounts.
Import Accounts(UserRow, us_name, us_email, us_org, us_role, pick, Crypto, NormalizeEmail, ValidateEmailFormat,
  ValidateRequiredString, validation_error, sql_lower, MaxOrgIDLength).
Local Open Scope Z_scope.

Inductive class_error :=
| ErrServer | ErrOfferingNotFound | ErrNotOwner | ErrInvalidEnrollmentCode | ErrOfferingOwned | ErrEnrollmentBanned
| ErrEnrollmentClosed | ErrOfferingEnded | ErrOwnerCannotUnenroll | ErrNotEnrolled | ErrInvalidMemberRole
| ErrUserNotFound | ErrAlreadyMember | ErrNotAProfessor | ErrCannotBanOwner | ErrMemberNotFound | ErrInvalidRole
| ErrOwnerReferenceConflict | ErrOwnerReferenceEmpty | ErrInput (v : validation_error).

(** ** Data *)

(** The end date is the instant of its text. *)
Record Offering := mk_off {
  on_ID : Z; on_Name : string; on_EndDate : Z; on_Description : string; on_EnrollmentCode : string; on_Visible : bool
}.
#[export] Instance Offering_eta : Settable Offering := fun o =>
  mk_off (on_ID o) (on_Name o) (on_EndDate o) (on_Description o) (on_EnrollmentCode o) (on_Visible o).

Definition cachedOffering : Type := Offering * option Z.

Definition whole_seconds (t : Z) : Z := t / second * second.

Definition offering_of (id : Z) (r : OfferingRow) : Offering :=
  mk_off id (of_name r) (whole_seconds (of_end r)) (default "" (of_description r)) (default "" (of_code r)) (of_visible r).

Record offeringRelation := mk_relation {
  rl_Offering : Offering; rl_OwnerID : option Z; rl_Owner : bool; rl_AdminOverride : bool; rl_Role : string; rl_Banned : bool
}.

Definition IsMember (rel : offeringRelation) : bool := negb (String.eqb (rl_Role rel) "") && negb (rl_Banned rel).
Definition CanView (rel : offeringRelation) : bool := rl_Owner rel || rl_AdminOverride rel || IsMember rel.
Definition CanAuthor (rel : offeringRelation) : bool :=
  rl_Owner rel || rl_AdminOverride rel || (IsMember rel && String.eqb (rl_Role rel) EnrollmentRoleProfessor).
Definition CanPost (rel : offeringRelation) : bool :=
  if rl_Owner rel || rl_AdminOverride rel then true
  else IsMember rel && (String.eqb (rl_Role rel) EnrollmentRoleProfessor || String.eqb (rl_Role rel) EnrollmentRoleMonitor).

Record Enrollment := mk_enr {
  em_OfferingID : Z; em_Name : string; em_Description : string; em_EndDate : Z; em_Role : string; em_OwnerName : string;
  em_IsOwner : bool
}.

Record OwnedOffering := mk_owned {
  ow_ID : Z; ow_Name : string; ow_Description : string; ow_EndDate : Z; ow_EnrollmentCode : string; ow_Visible : bool;
  ow_OwnerID : Z; ow_IsOwner : bool; ow_MemberCount : Z; ow_ExerciseCount : Z; ow_EnrollmentOpen : bool
}.

Record OfferingMember := mk_member {
  mb_UserID : Z; mb_Name : string; mb_Email : string; mb_Role : string; mb_Banned : bool; mb_CreatedAt : Z
}.

Record CreateOfferingRequest := mk_create { co_Name : string; co_EndDate : string; co_Description : string }.
Record UpdateOfferingRequest := mk_update {
  uo_Name : option string; uo_EndDate : option string; uo_Description : option string; uo_Visible : option bool
}.
Record AdminUpdateOfferingRequest := mk_admin_update {
  ao_fields : UpdateOfferingRequest; ao_OwnerID : option Z; ao_OwnerEmail : option string; ao_OwnerOrgID : option string
}.
Record AddMemberRequest := mk_add { am_Email : string; am_Role : string }.
Record UpdateMemberRequest := mk_update_member { um_Role : option string; um_Banned : option bool }.

(** One request's clocks, Redis's answers and random draws: for each attempt the six
    numbers [rand.Int] gives, or its failure. *)
Record visit := mk_visit {
  vs_now : Z; vs_db : Z; vs_get : outcome; vs_set : outcome; vs_del : outcome; vs_draws : nat -> option (list Z)
}.

Record campus := mk_campus { cm_conn : conn Tables; cm_cache : cache cachedOffering; cm_next : Z }.
#[export] Instance campus_eta : Settable campus := fun s => mk_campus (cm_conn s) (cm_cache s) (cm_next s).

Definition tables (s : campus) : Tables := cn_db (cm_conn s).

Abbreviation klass A := (eff campus class_error A).

(** Text functions of Go and PostgreSQL on characters that are not ASCII, and the
    parser of dates. *)
Class Texts := {
  to_upper : string -> string;
  sql_upper : string -> string;
  collates : relation string;
  collates_dec :: RelDecision collates;
  parse_date : string -> option Z
}.

(** ** Codes *)

Definition alphabet : string := "ABCDEFGHIJKLMNOPQRSTUVWXYZ0123456789".
Definition codeLen : nat := 6.
Definition enrollmentCodeAttempts : nat := 5.
Definition MaxOfferingNameLength : nat := 100.

Definition code_char (n : Z) : ascii := default "A"%char (String.get (Z.to_nat n) alphabet).

(** [None]: the random source fails. *)
Definition newEnrollmentCode (draws : option (list Z)) : option string :=
  (fun l => string_of_list_ascii (code_char <$> take codeLen l)) <$> draws.

Definition ValidAssignableEnrollmentRole (role : string) : bool :=
  String.eqb role EnrollmentRoleMonitor || String.eqb role EnrollmentRoleProfessor.

Definition requireTeachingRole (enrollmentRole platformRole : string) : res class_error unit :=
  if negb (String.eqb enrollmentRole EnrollmentRoleProfessor) then Ok tt
  else if negb (isPrivilegedRole platformRole) then Err ErrNotAProfessor else Ok tt.

Section Classes.
Context {UT : UnicodeTables} {CR : Crypto} {TX : Texts} (fault : nat -> bool) (users : gmap Z UserRow).

Definition on_db {A} (m : eff (conn Tables) class_error A) : klass A := fun s =>
  let '(c, r) := m (cm_conn s) in (s <| cm_conn := c |>, r).
Definition ask {A} (f : Tables -> A) : klass A := on_db (query fault ErrServer f).
Definition put (f : Tables -> option Tables) : klass unit := on_db (exec fault ErrServer f).
Definition valid {A} (r : res validation_error A) : klass A :=
  lift (match r with Ok a => Ok a | Err v => Err (ErrInput v) end).

Definition claimsUserID (claims : Claims) : klass (Z * string) :=
  match cl_id claims with None => fail ErrServer | Some id => mret (id, cl_role claims) end.

(** ** The relation of a user to a class *)

Definition cache_get (v : visit) (id : Z) : klass (option cachedOffering) := fun s =>
  let '(c, r) := GetJSON (OfferingKey id) (vs_now v) (vs_get v) (cm_cache s) in (s <| cm_cache := c |>, Ok r).
Definition cache_set (v : visit) (id : Z) (x : cachedOffering) : klass unit :=
  modify (fun s => s <| cm_cache := SetJSON (OfferingKey id) x OfferingTTL (vs_now v) (vs_set v) (cm_cache s) |>).
Definition cache_drop (v : visit) (id : Z) : klass unit :=
  modify (fun s => s <| cm_cache := Cache.Delete [OfferingKey id] (vs_now v) (vs_del v) (cm_cache s) |>).

Definition loadOffering (v : visit) (id : Z) : klass cachedOffering :=
  cached ← cache_get v id;
  match cached with
  | Some x => mret x
  | None =>
      row ← ask (fun t => t_offerings t !! id);
      match row with
      | None => fail ErrOfferingNotFound
      | Some r => _ ← cache_set v id (offering_of id r, of_owner r); mret (offering_of id r, of_owner r)
      end
  end.

Definition loadOfferingRelation (v : visit) (id userID : Z) (role : string) : klass offeringRelation :=
  '(offering, ownerID) ← loadOffering v id;
  let owner := isPrivilegedRole role && bool_decide (ownerID = Some userID) in
  if owner : bool then mret (mk_relation offering ownerID true false "" false)
  else
    en ← ask (fun t => enrollment_of t id userID);
    mret (mk_relation offering ownerID false false (from_option en_role "" en) (from_option en_banned false en)).

Definition requireOfferingOwner (v : visit) (id : Z) (claims : Claims) : klass offeringRelation :=
  '(userID, role) ← claimsUserID claims;
  rel ← loadOfferingRelation v id userID role;
  if rl_Owner rel then mret rel else fail ErrNotOwner.

Definition GetOffering (v : visit) (id : Z) (claims : Claims) : klass Offering :=
  '(userID, role) ← claimsUserID claims;
  rel ← loadOfferingRelation v id userID role;
  if CanAuthor rel then mret (rl_Offering rel) else fail ErrOfferingNotFound.

(** ** Joining and leaving *)

(** What [Enroll] reads of the class a code belongs to. *)
Definition enroll_row (code : string) (userID : Z) (t : Tables) : option (Z * OfferingRow * option EnrollmentRow) :=
  '(id, o) ← pick (fun x : Z * OfferingRow => bool_decide (sql_upper <$> of_code x.2 = Some code)) (t_offerings t);
  Some (id, o, enrollment_of t id userID).

Definition owner_name (o : OfferingRow) : string := default "" (ow ← of_owner o; us_name <$> users !! ow).

Definition joined (id : Z) (o : OfferingRow) (role : string) : Enrollment :=
  mk_enr id (of_name o) (default "" (of_description o)) (of_end o) role (owner_name o) false.

(** [INSERT ... ON CONFLICT (user_id, offering_id) DO NOTHING]. *)
Definition insert_enrollment (now id userID : Z) (t : Tables) : option Tables :=
  match t_offerings t !! id, users !! userID with
  | Some _, Some _ =>
      Some (match enrollment_of t id userID with
            | Some _ => t
            | None => t <| t_enrollments := <[(id, userID) := mk_enrollment EnrollmentRoleStudent false now]> (t_enrollments t) |>
            end)
  | _, _ => None
  end.

Definition Enroll (v : visit) (enrollmentCode : string) (claims : Claims) : klass Enrollment :=
  '(userID, _) ← claimsUserID claims;
  let code := to_upper (trim_space enrollmentCode) in
  if (String.length code <? codeLen)%nat then fail ErrInvalidEnrollmentCode
  else
    row ← ask (enroll_row code userID);
    match row with
    | None => fail ErrInvalidEnrollmentCode
    | Some (id, o, en) =>
        if bool_decide (of_owner o = Some userID) then fail ErrOfferingOwned
        else match en with
        | Some e => if en_banned e then fail ErrEnrollmentBanned else mret (joined id o (en_role e))
        | None =>
            if negb (of_visible o) then fail ErrEnrollmentClosed
            else if of_end o <? vs_now v then fail ErrOfferingEnded
            else _ ← put (insert_enrollment (vs_db v) id userID); mret (joined id o EnrollmentRoleStudent)
        end
    end.

(** [DELETE FROM enrollments ... AND NOT banned]: whether a row went. *)
Definition delete_unbanned (id userID : Z) (t : Tables) : Tables * bool :=
  match enrollment_of t id userID with
  | Some e => if en_banned e then (t, false) else (t <| t_enrollments := delete (id, userID) (t_enrollments t) |>, true)
  | None => (t, false)
  end.

Definition Unenroll (id : Z) (claims : Claims) : klass unit :=
  '(userID, _) ← claimsUserID claims;
  row ← ask (fun t => of_owner <$> t_offerings t !! id);
  match row with
  | None => fail ErrOfferingNotFound
  | Some owner =>
      if bool_decide (owner = Some userID) then fail ErrOwnerCannotUnenroll
      else
        gone ← on_db (statement fault ErrServer (fun t => Some (delete_unbanned id userID t)));
        if gone : bool then mret tt
        else
          banned ← ask (fun t => from_option en_banned false (enrollment_of t id userID));
          if banned : bool then fail ErrEnrollmentBanned else fail ErrNotEnrolled
  end.

(** ** Lists *)

Definition by_end {A} (end_ : A -> Z) (name : A -> string) (x y : A) : Prop :=
  if decide (end_ x = end_ y) then collates (name x) (name y) else end_ y <= end_ x.
#[export] Instance by_end_dec {A} e n : RelDecision (@by_end A e n).
Proof. intros x y. unfold by_end. destruct (decide _); apply _. Defined.

(** The caller's class, if it is one: enrolled and not banned, or owned. *)
Definition my_class (userID : Z) (t : Tables) (x : Z * OfferingRow) : option Enrollment :=
  let '(id, o) := x in
  let owned := bool_decide (of_owner o = Some userID) in
  let en := match enrollment_of t id userID with Some e => if en_banned e then None else Some e | None => None end in
  if owned || bool_decide (is_Some en) then
    Some (mk_enr id (of_name o) (default "" (of_description o)) (of_end o)
            (if owned then "professor" else from_option en_role "" en) (owner_name o) owned)
  else None.

Definition ListUserOfferings (claims : Claims) : klass (list Enrollment) :=
  '(userID, _) ← claimsUserID claims;
  ask (fun t => merge_sort (by_end em_EndDate em_Name) (omap (my_class userID t) (map_to_list (t_offerings t)))).

Definition member_count (id : Z) (t : Tables) : Z :=
  Z.of_nat (size (filter (fun x : Z * Z * EnrollmentRow => x.1.1 = id) (t_enrollments t))).
Definition exercise_count (id : Z) (t : Tables) : Z :=
  Z.of_nat (size (filter (fun x : Z * Catalog.ExerciseRow => Catalog.ex_offering x.2 = id /\ Catalog.ex_removed x.2 = false)
    (t_exercises t))).

Definition managed_class (now userID : Z) (t : Tables) (x : Z * OfferingRow) : option OwnedOffering :=
  let '(id, o) := x in
  let owned := bool_decide (of_owner o = Some userID) in
  let teaches := match enrollment_of t id userID with
                 | Some e => negb (en_banned e) && String.eqb (en_role e) EnrollmentRoleProfessor | None => false end in
  if owned || teaches then
    Some (mk_owned id (of_name o) (default "" (of_description o)) (of_end o) (default "" (of_code o)) (of_visible o)
            (default 0 (of_owner o)) owned (member_count id t) (exercise_count id t)
            (of_visible o && (now <? of_end o)))
  else None.

Definition ListOwnedOfferings (v : visit) (claims : Claims) : klass (list OwnedOffering) :=
  '(userID, role) ← claimsUserID claims;
  if negb (isPrivilegedRole role) then fail ErrNotOwner
  else ask (fun t => merge_sort (by_end ow_EndDate ow_Name)
              (omap (managed_class (vs_now v) userID t) (map_to_list (t_offerings t)))).

(** The order of [enrollment_role_t]. *)
Definition role_rank (role : string) : Z :=
  if String.eqb role EnrollmentRoleStudent then 0 else if String.eqb role EnrollmentRoleProfessor then 1 else 2.

Definition by_role (x y : OfferingMember) : Prop :=
  if decide (mb_Role x = mb_Role y) then collates (mb_Name x) (mb_Name y) else role_rank (mb_Role x) <= role_rank (mb_Role y).
#[export] Instance by_role_dec : RelDecision by_role.
Proof. intros x y. unfold by_role. destruct (decide _); apply _. Defined.

Definition member_of (id : Z) (x : Z * Z * EnrollmentRow) : option OfferingMember :=
  let '((o, u), e) := x in
  if o =? id then (fun r => mk_member u (us_name r) (us_email r) (en_role e) (en_banned e) (en_created e)) <$> users !! u
  else None.

Definition listOfferingMembers (id : Z) : klass (list OfferingMember) :=
  ask (fun t => merge_sort by_role (omap (member_of id) (map_to_list (t_enrollments t)))).

Definition ListOfferingMembers (v : visit) (id : Z) (claims : Claims) : klass (list OfferingMember) :=
  _ ← requireOfferingOwner v id claims;
  listOfferingMembers id.

(** ** Members *)

(** [INSERT ... ON CONFLICT (user_id, offering_id) DO UPDATE SET role = EXCLUDED.role,
    banned = FALSE ... RETURNING]. *)
Definition upsert_member (now id userID : Z) (role : string) (t : Tables) : option (Tables * EnrollmentRow) :=
  match t_offerings t !! id, users !! userID with
  | Some _, Some _ =>
      let e := match enrollment_of t id userID with
               | Some e => e <| en_role := role |> <| en_banned := false |>
               | None => mk_enrollment role false now end in
      Some (t <| t_enrollments := <[(id, userID) := e]> (t_enrollments t) |>, e)
  | _, _ => None
  end.

Definition addOfferingMemberRow (v : visit) (rel : offeringRelation) (req : AddMemberRequest) : klass OfferingMember :=
  let role := trim_space (am_Role req) in
  if negb (ValidAssignableEnrollmentRole role) then fail ErrInvalidMemberRole
  else
    let email := NormalizeEmail (am_Email req) in
    _ ← valid (ValidateEmailFormat email);
    user ← ask (fun _ => pick (fun x : Z * UserRow => String.eqb (us_email x.2) email) users);
    match user with
    | None => fail ErrUserNotFound
    | Some (userID, u) =>
        if bool_decide (rl_OwnerID rel = Some userID) then fail ErrAlreadyMember
        else
          _ ← lift (requireTeachingRole role (us_role u));
          e ← on_db (statement fault ErrServer (upsert_member (vs_db v) (on_ID (rl_Offering rel)) userID role));
          mret (mk_member userID (us_name u) (us_email u) (en_role e) (en_banned e) (en_created e))
    end.

Definition AddOfferingMember (v : visit) (id : Z) (req : AddMemberRequest) (claims : Claims) : klass OfferingMember :=
  rel ← requireOfferingOwner v id claims;
  addOfferingMemberRow v rel req.

Definition platformRoleOf (userID : Z) : klass string :=
  row ← ask (fun _ => us_role <$> users !! userID);
  match row with None => fail ErrMemberNotFound | Some role => mret role end.

(** [UPDATE enrollments ... RETURNING]: an empty role and a missing flag keep what is
    stored. *)
Definition update_member (id userID : Z) (role : string) (banned : option bool) (t : Tables) : Tables * option (UserRow * EnrollmentRow) :=
  match enrollment_of t id userID, users !! userID with
  | Some e, Some u =>
      let e := e <| en_role := if String.eqb role "" then en_role e else role |> <| en_banned := default (en_banned e) banned |> in
      (t <| t_enrollments := <[(id, userID) := e]> (t_enrollments t) |>, Some (u, e))
  | _, _ => (t, None)
  end.

Definition updateOfferingMemberRow (rel : offeringRelation) (memberID : Z) (req : UpdateMemberRequest) : klass OfferingMember :=
  if bool_decide (rl_OwnerID rel = Some memberID) then fail ErrCannotBanOwner
  else
    role ← match um_Role req with
           | None => mret ""
           | Some r =>
               let role := trim_space r in
               if negb (ValidAssignableEnrollmentRole role) then fail ErrInvalidMemberRole
               else platform ← platformRoleOf memberID; _ ← lift (requireTeachingRole role platform); mret role
           end;
    row ← on_db (statement fault ErrServer (fun t => Some (update_member (on_ID (rl_Offering rel)) memberID role (um_Banned req) t)));
    match row with
    | None => fail ErrMemberNotFound
    | Some (u, e) => mret (mk_member memberID (us_name u) (us_email u) (en_role e) (en_banned e) (en_created e))
    end.

Definition UpdateOfferingMember (v : visit) (id memberID : Z) (req : UpdateMemberRequest) (claims : Claims) : klass OfferingMember :=
  rel ← requireOfferingOwner v id claims;
  updateOfferingMemberRow rel memberID req.

Definition delete_member (id userID : Z) (t : Tables) : Tables * bool :=
  (t <| t_enrollments := delete (id, userID) (t_enrollments t) |>, bool_decide (is_Some (enrollment_of t id userID))).

Definition removeOfferingMemberRow (rel : offeringRelation) (memberID : Z) : klass unit :=
  if bool_decide (rl_OwnerID rel = Some memberID) then fail ErrCannotBanOwner
  else
    gone ← on_db (statement fault ErrServer (fun t => Some (delete_member (on_ID (rl_Offering rel)) memberID t)));
    if gone : bool then mret tt else fail ErrMemberNotFound.

Definition RemoveOfferingMember (v : visit) (id memberID : Z) (claims : Claims) : klass unit :=
  rel ← requireOfferingOwner v id claims;
  removeOfferingMemberRow rel memberID.

(** ** The class itself *)

Definition code_taken (id : Z) (code : string) (t : Tables) : bool :=
  existsb (fun x : Z * OfferingRow => negb (x.1 =? id) && bool_decide (of_code x.2 = Some code)) (map_to_list (t_offerings t)).

(** [None]: the code is another class's. *)
Definition insertOffering (req : CreateOfferingRequest) (userID : Z) (endDate : Z) (code : string) : klass (option Offering) :=
  id ← gets cm_next;
  _ ← modify (fun s => s <| cm_next := id + 1 |>);
  new ← on_db (fun c =>
    match transaction fault ErrServer (
      ok ← statement fault ErrServer (fun t =>
        if code_taken id code t then Some (t, false)
        else match users !! userID with
        | None => None
        | Some _ => Some (t <| t_offerings := <[id := mk_offering (Some userID) endDate (co_Name req)
                                 (Some (co_Description req)) (Some code) true]> (t_offerings t) |>, true)
        end);
      if ok : bool then mret true else fail ErrInvalidEnrollmentCode) c with
    | (c', Err ErrInvalidEnrollmentCode) => (c', Ok false)
    | r => r
    end);
  if new : bool then mret (Some (mk_off id (co_Name req) endDate (co_Description req) code true)) else mret None.

(** PostgreSQL reads the end date's text; the class keeps the instant. *)
Fixpoint create_attempts (v : visit) (req : CreateOfferingRequest) (userID endDate : Z) (left_ attempt : nat) : klass Offering :=
  match left_ with
  | O => fail ErrServer
  | S left_ =>
      match newEnrollmentCode (vs_draws v attempt) with
      | None => fail ErrServer
      | Some code =>
          offering ← insertOffering req userID endDate code;
          match offering with
          | Some o => _ ← cache_drop v (on_ID o); mret o
          | None => create_attempts v req userID endDate left_ (S attempt)
          end
      end
  end.

Definition CreateOffering (v : visit) (req : CreateOfferingRequest) (claims : Claims) : klass Offering :=
  '(userID, _) ← claimsUserID claims;
  match parse_date (co_EndDate req) with
  | None => fail ErrServer
  | Some endDate => create_attempts v req userID endDate enrollmentCodeAttempts 1
  end.

Definition ValidateDate (s : string) : res validation_error Z :=
  if String.eqb s "" then Err Accounts.ErrRequiredField
  else match parse_date s with Some t => Ok t | None => Err Accounts.ErrParsingField end.

(** The row with the request's fields; an absent end date is the loaded one's text,
    parsed again. *)
Definition updateOfferingFields (rel : offeringRelation) (req : UpdateOfferingRequest) :
  eff (conn Tables) class_error Offering :=
  let o := rl_Offering rel in
  let name := match uo_Name req with Some n => trim_space n | None => on_Name o end in
  let description := default (on_Description o) (uo_Description req) in
  let visible := default (on_Visible o) (uo_Visible req) in
  let check {A} (r : res validation_error A) : eff (conn Tables) class_error A :=
    lift (match r with Ok a => Ok a | Err v => Err (ErrInput v) end) in
  _ ← check (ValidateRequiredString name MaxOfferingNameLength);
  endDate ← match uo_EndDate req with
            | Some d => check (ValidateDate (trim_space d))
            | None => mret (on_EndDate o)
            end;
  _ ← exec fault ErrServer (fun t => Some (
        match t_offerings t !! on_ID o with
        | None => t
        | Some r => t <| t_offerings := <[on_ID o := r <| of_name := name |> <| of_description := Some description |>
                            <| of_end := endDate |> <| of_visible := visible |>]> (t_offerings t) |>
        end));
  mret (mk_off (on_ID o) name (whole_seconds endDate) description (on_EnrollmentCode o) visible).

Definition updateOfferingRow (v : visit) (rel : offeringRelation) (req : UpdateOfferingRequest) : klass Offering :=
  offering ← on_db (updateOfferingFields rel req);
  _ ← cache_drop v (on_ID offering);
  mret offering.

Definition UpdateOffering (v : visit) (id : Z) (req : UpdateOfferingRequest) (claims : Claims) : klass Offering :=
  rel ← requireOfferingOwner v id claims;
  updateOfferingRow v rel req.

(** [false]: the code is another class's. *)
Definition set_code (id : Z) (code : string) (t : Tables) : Tables * bool :=
  match t_offerings t !! id with
  | None => (t, true)
  | Some r => if code_taken id code t then (t, false)
              else (t <| t_offerings := <[id := r <| of_code := Some code |>]> (t_offerings t) |>, true)
  end.

Fixpoint rotate_attempts (v : visit) (rel : offeringRelation) (id : Z) (left_ attempt : nat) : klass Offering :=
  match left_ with
  | O => fail ErrServer
  | S left_ =>
      match newEnrollmentCode (vs_draws v attempt) with
      | None => fail ErrServer
      | Some code =>
          ok ← on_db (statement fault ErrServer (fun t => Some (set_code id code t)));
          if ok : bool then _ ← cache_drop v id; mret ((rl_Offering rel) <| on_EnrollmentCode := code |>)
          else rotate_attempts v rel id left_ (S attempt)
      end
  end.

Definition RotateOfferingEnrollmentCode (v : visit) (id : Z) (claims : Claims) : klass Offering :=
  rel ← requireOfferingOwner v id claims;
  rotate_attempts v rel id enrollmentCodeAttempts 1.

(** ** The administrator's edit and transfer of a class *)

Definition loadOfferingOwner (P : Z * UserRow -> bool) : klass Z :=
  row ← ask (fun _ => pick P users);
  match row with
  | None => fail ErrUserNotFound
  | Some (id, u) => if isPrivilegedRole (us_role u) then mret id else fail ErrInvalidRole
  end.

Definition found {A} (m : klass A) : klass (option A) := a ← m; mret (Some a).

Definition resolveAdminOfferingOwner (req : AdminUpdateOfferingRequest) : klass (option Z) :=
  let given {A} (x : option A) : nat := if x then 1%nat else 0%nat in
  let references := (given (ao_OwnerID req) + given (ao_OwnerEmail req) + given (ao_OwnerOrgID req))%nat in
  if (1 <? references)%nat then fail ErrOwnerReferenceConflict
  else match ao_OwnerEmail req, ao_OwnerOrgID req, ao_OwnerID req with
  | None, None, None => mret None
  | Some e, _, _ =>
      let email := NormalizeEmail e in
      if String.eqb email "" then fail ErrOwnerReferenceEmpty
      else _ ← valid (ValidateEmailFormat email); found (loadOfferingOwner (fun x => String.eqb (sql_lower (us_email x.2)) email))
  | None, Some o, _ =>
      let orgID := trim_space o in
      if String.eqb orgID "" then fail ErrOwnerReferenceEmpty
      else _ ← valid (ValidateRequiredString orgID MaxOrgIDLength); found (loadOfferingOwner (fun x => bool_decide (us_org x.2 = Some orgID)))
  | None, None, Some id => found (loadOfferingOwner (fun x => x.1 =? id))
  end.

(** The end date of the fields is the RFC 3339 text of the request's. *)
Definition AdminUpdateOffering (v : visit) (id : Z) (req : AdminUpdateOfferingRequest) : klass unit :=
  '(offering, ownerID) ← loadOffering v id;
  transferOwner ← resolveAdminOfferingOwner req;
  let rel := mk_relation offering (match transferOwner with Some o => Some o | None => ownerID end) false true "" false in
  _ ← on_db (transaction fault ErrServer (
        _ ← updateOfferingFields rel (ao_fields req);
        match transferOwner with
        | None => mret tt
        | Some owner => exec fault ErrServer (fun t => Some (
            match t_offerings t !! id with
            | None => t
            | Some r => t <| t_offerings := <[id := r <| of_owner := Some owner |>]> (t_offerings t) |>
            end))
        end));
  cache_drop v id.
End Classes.
