(* ===== verification/Gradebook.v ===== *)
(** * The grade table of a class

    [src/backend/services/grades-service.go] and [grades-csv.go], with
    [src/backend/handlers/grades-handler.go]: the best score of each student on each
    exercise, averages and statistics in binary64, and the table as a CSV file, written
    by Go's [encoding/csv] with CRLF line ends.

    Two columns the other services do not read are functions of a row's id: a commit's
    score, [numeric(5, 2)], in hundredths, and an exercise's title. The text of an
    instant in the server's time zone is an argument. *)

From S2P Require Import Prelude Effects GoStrings Sql Float64 Cache Catalog Classes.
From S2P Require Accounts.
From Stdlib Require Import QArith.
Import Accounts(UserRow, us_name, us_email).
Local Open Scope Z_scope.

(** ** Data *)

Record GradebookExercise := mk_ge { ge_ID : Z; ge_Title : string; ge_Deadline : Z }.

Record GradebookCell := mk_gc {
  gc_ExerciseID : Z; gc_Score : option float64; gc_SubmissionCount : Z; gc_LastSubmissionAt : option Z
}.

Record GradebookStudent := mk_gs {
  gs_UserID : Z; gs_Name : string; gs_Email : string; gs_Scores : list GradebookCell; gs_Average : float64;
  gs_SubmissionCount : Z; gs_LastSubmissionAt : option Z
}.

Record GradeSummary := mk_summary {
  sm_StudentCount : Z; sm_StudentsWithSubmission : Z; sm_StudentsAbove50 : Z; sm_GlobalAverage : float64;
  sm_TotalSubmissions : Z
}.

Record ExerciseStatistics := mk_es {
  es_ExerciseID : Z; es_Title : string; es_Deadline : Z; es_StudentCount : Z; es_SubmittedStudents : Z;
  es_StudentsAbove50 : Z; es_Average : float64; es_AverageSubmitted : option float64; es_ApprovalRate : float64;
  es_BestScore : option float64; es_LowestScore : option float64
}.

Record OfferingGradebook := mk_gradebook {
  gb_OfferingID : Z; gb_OfferingName : string; gb_Exercises : list GradebookExercise;
  gb_Students : list GradebookStudent; gb_Summary : GradeSummary; gb_ExerciseStatistics : list ExerciseStatistics
}.

Record gradeCell := mk_cell { cell_score : float64; cell_submissionCount : Z; cell_lastSubmissionAt : Z }.

Record gradebookStudent := mk_student { st_ID : Z; st_Name : string; st_Email : string }.

Record exerciseAccumulator := mk_acc {
  ac_submitted : Z; ac_above50 : Z; ac_scoreSum : float64; ac_submittedSum : float64;
  ac_best : option float64; ac_lowest : option float64
}.
Definition no_scores : exerciseAccumulator := mk_acc 0 0 (Fin 0%Q) (Fin 0%Q) None None.

(** [math.Round(value*100) / 100]. *)
Definition roundGradeScore (value : float64) : float64 :=
  fdiv (fround (fmul value (float_of_Z 100))) (float_of_Z 100).

(** A stored score as a [float8]. *)
Definition float8 (hundredths : Z) : float64 := to_float (hundredths # 100).

(** ** Building the table *)

(** The variables of one student's row. *)
Record row := mk_row {
  rw_cells : list GradebookCell; rw_scoreSum : float64; rw_submissionCount : Z; rw_lastSubmission : option Z;
  rw_accumulators : list exerciseAccumulator
}.

Definition accumulate (score : float64) (a : exerciseAccumulator) : exerciseAccumulator :=
  mk_acc (ac_submitted a + 1)
    (if fgt score (float_of_Z 50) then ac_above50 a + 1 else ac_above50 a)
    (fadd (ac_scoreSum a) score) (fadd (ac_submittedSum a) score)
    (match ac_best a with Some b => if fgt score b then Some score else Some b | None => Some score end)
    (match ac_lowest a with Some l => if flt score l then Some score else Some l | None => Some score end).

Definition add_cell (cells : Z -> option gradeCell) (index : nat) (ex : GradebookExercise) (w : row) : row :=
  match cells (ge_ID ex) with
  | None =>
      mk_row (rw_cells w ++ [mk_gc (ge_ID ex) None 0 None]) (rw_scoreSum w) (rw_submissionCount w)
        (rw_lastSubmission w) (rw_accumulators w)
  | Some c =>
      let score := roundGradeScore (cell_score c) in
      let submittedAt := cell_lastSubmissionAt c in
      mk_row (rw_cells w ++ [mk_gc (ge_ID ex) (Some score) (cell_submissionCount c) (Some submittedAt)])
        (fadd (rw_scoreSum w) score) (rw_submissionCount w + cell_submissionCount c)
        (match rw_lastSubmission w with Some l => if l <? submittedAt then Some submittedAt else Some l | None => Some submittedAt end)
        (alter (accumulate score) index (rw_accumulators w))
  end.

Fixpoint add_cells (cells : Z -> option gradeCell) (index : nat) (exercises : list GradebookExercise) (w : row) : row :=
  match exercises with
  | [] => w
  | ex :: rest => add_cells cells (S index) rest (add_cell cells index ex w)
  end.

(** The variables of the loop over the students. *)
Record book := mk_book {
  bk_students : list GradebookStudent; bk_summary : GradeSummary; bk_accumulators : list exerciseAccumulator
}.

Definition average_of (sum : float64) (n : nat) : float64 := roundGradeScore (fdiv sum (float_of_Z (Z.of_nat n))).

Definition add_student (exercises : list GradebookExercise) (cells : Z -> Z -> option gradeCell) (b : book) (s : gradebookStudent) : book :=
  let w := add_cells (cells (st_ID s)) 0 exercises (mk_row [] (Fin 0%Q) 0 None (bk_accumulators b)) in
  let average := if (0 <? length exercises)%nat then average_of (rw_scoreSum w) (length exercises) else Fin 0%Q in
  let sm := bk_summary b in
  mk_book
    (bk_students b ++ [mk_gs (st_ID s) (st_Name s) (st_Email s) (rw_cells w) average (rw_submissionCount w) (rw_lastSubmission w)])
    (mk_summary (sm_StudentCount sm)
       (if 0 <? rw_submissionCount w then sm_StudentsWithSubmission sm + 1 else sm_StudentsWithSubmission sm)
       (if fgt average (float_of_Z 50) then sm_StudentsAbove50 sm + 1 else sm_StudentsAbove50 sm)
       (fadd (sm_GlobalAverage sm) average) (sm_TotalSubmissions sm + rw_submissionCount w))
    (rw_accumulators w).

Definition statistics_of (students : nat) (ex : GradebookExercise) (a : exerciseAccumulator) : ExerciseStatistics :=
  let any := (0 <? students)%nat in
  mk_es (ge_ID ex) (ge_Title ex) (ge_Deadline ex) (Z.of_nat students) (ac_submitted a) (ac_above50 a)
    (if any then average_of (ac_scoreSum a) students else Fin 0%Q)
    (if 0 <? ac_submitted a then Some (roundGradeScore (fdiv (ac_submittedSum a) (float_of_Z (ac_submitted a)))) else None)
    (if any then average_of (fmul (float_of_Z 100) (float_of_Z (ac_above50 a))) students else Fin 0%Q)
    (ac_best a) (ac_lowest a).

Definition build (id : Z) (name : string) (exercises : list GradebookExercise) (students : list gradebookStudent)
    (cells : Z -> Z -> option gradeCell) : OfferingGradebook :=
  let n := length students in
  let b := fold_left (add_student exercises cells) students
             (mk_book [] (mk_summary (Z.of_nat n) 0 0 (Fin 0%Q) 0) (replicate (length exercises) no_scores)) in
  let sm := bk_summary b in
  let global := if (0 <? n)%nat then average_of (sm_GlobalAverage sm) n else sm_GlobalAverage sm in
  mk_gradebook id name exercises (bk_students b)
    (mk_summary (sm_StudentCount sm) (sm_StudentsWithSubmission sm) (sm_StudentsAbove50 sm) global (sm_TotalSubmissions sm))
    (zip_with (statistics_of n) exercises (bk_accumulators b)).

(** ** Reading the tables *)

(** The score and title columns, and the server's time zone. *)
Class GradeColumns := { commit_score : Z -> Z; exercise_title : Z -> string; csv_time : Z -> string }.

Section Gradebook.
Context {TX : Texts} {GC : GradeColumns} (fault : nat -> bool) (users : gmap Z UserRow).

Definition by_open_date (x y : Z * ExerciseRow) : Prop :=
  if decide (ex_open_date x.2 = ex_open_date y.2) then x.1 <= y.1 else ex_open_date x.2 <= ex_open_date y.2.
#[export] Instance by_open_date_dec : RelDecision by_open_date.
Proof. intros x y. unfold by_open_date. destruct (decide _); apply _. Defined.

Definition gradebook_exercises (id : Z) (t : Tables) : list GradebookExercise :=
  (fun x : Z * ExerciseRow => mk_ge x.1 (exercise_title x.1) (ex_deadline x.2)) <$>
    merge_sort by_open_date (filter (fun x => ex_offering x.2 = id /\ ex_removed x.2 = false) (map_to_list (t_exercises t))).

Definition loadGradebookExercises (id : Z) : klass (list GradebookExercise) := ask fault (gradebook_exercises id).

Definition by_student_name (x y : gradebookStudent) : Prop :=
  if decide (st_Name x = st_Name y) then st_ID x <= st_ID y else collates (st_Name x) (st_Name y).
#[export] Instance by_student_name_dec : RelDecision by_student_name.
Proof. intros x y. unfold by_student_name. destruct (decide _); apply _. Defined.

Definition student_of (id : Z) (x : Z * Z * EnrollmentRow) : option gradebookStudent :=
  let '((o, u), e) := x in
  if (o =? id) && String.eqb (en_role e) EnrollmentRoleStudent && negb (en_banned e)
  then (fun r => mk_student u (us_name r) (us_email r)) <$> users !! u else None.

Definition gradebook_students (id : Z) (t : Tables) : list gradebookStudent :=
  merge_sort by_student_name (omap (student_of id) (map_to_list (t_enrollments t))).

Definition loadGradebookStudents (id : Z) : klass (list gradebookStudent) := ask fault (gradebook_students id).

(** A group of [GROUP BY c.user_id, c.exercise_id]: its largest score, its size, its
    last instant. *)
Definition group : Type := Z * Z * Z.
Definition in_group (score at_ : Z) (g : option group) : option group :=
  Some (match g with Some (m, n, l) => (Z.max m score, n + 1, Z.max l at_) | None => (score, 1, at_) end).

Definition graded_exercise (id : Z) (t : Tables) (exerciseID : Z) : bool :=
  from_option (fun e => (ex_offering e =? id) && negb (ex_removed e)) false (t_exercises t !! exerciseID).

Definition grade_groups (id : Z) (t : Tables) : gmap (Z * Z) group :=
  map_fold (fun c r m =>
      if graded_exercise id t (su_exercise r)
      then partial_alter (in_group (commit_score c) (su_created r)) (su_user r, su_exercise r) m else m)
    ∅ (t_commits t).

Definition grade_cell (g : group) : gradeCell := let '(m, n, l) := g in mk_cell (float8 m) n l.

(** The map of maps, as a function of its two keys. *)
Definition loadGradeCells (id : Z) : klass (Z -> Z -> option gradeCell) :=
  ask fault (fun t userID exerciseID => grade_cell <$> grade_groups id t !! (userID, exerciseID)).

Definition buildOfferingGradebook (id : Z) (name : string) : klass OfferingGradebook :=
  exercises ← loadGradebookExercises id;
  students ← loadGradebookStudents id;
  cells ← loadGradeCells id;
  mret (build id name exercises students cells).

Definition GetOfferingGradebook (v : visit) (id : Z) (claims : Claims) : klass OfferingGradebook :=
  '(userID, role) ← claimsUserID claims;
  rel ← loadOfferingRelation fault v id userID role;
  if negb (CanAuthor rel) then fail ErrOfferingNotFound
  else buildOfferingGradebook (on_ID (rl_Offering rel)) (on_Name (rl_Offering rel)).

(** ** The CSV file *)

Definition quote : ascii := "034"%char.

Fixpoint replace_crlf (s : string) : string :=
  match s with
  | String a r =>
      match r with
      | String b q => if Ascii.eqb a CR && Ascii.eqb b LF then String " " (replace_crlf q) else String a (replace_crlf r)
      | EmptyString => s
      end
  | EmptyString => EmptyString
  end.

Definition csvFormulaPrefixes : list ascii := ["="%char; "+"%char; "-"%char; "@"%char; "009"%char; CR].

Definition csvSafe (value : string) : string :=
  let value := replace_byte CR " " (replace_byte LF " " (replace_crlf value)) in
  match value with
  | EmptyString => value
  | String c _ => if bool_decide (c ∈ csvFormulaPrefixes) then String "'" value else value
  end.

(** [strconv.FormatFloat(x, 'f', 2, 64)]: the exact value rounded to hundredths, a tie
    to the even one. *)
Definition FormatFloat2 (x : float64) : string :=
  match x with
  | Fin q =>
      let n := round_even (Qabs.Qabs q * 100) in
      let digits := fmt_int (n / 100) +:+ "." +:+ fmt_int (n mod 100 / 10) +:+ fmt_int (n mod 10) in
      if Qle_bool 0 q then digits else String "-" digits
  | Inf negative => if negative then "-Inf" else "+Inf"
  | NaN => "NaN"
  end.

Definition formatCSVTime (value : option Z) : string := from_option csv_time "" value.

(** [encoding/csv]'s [Writer] with [Comma] "," and [UseCRLF]. *)
Definition fieldNeedsQuotes (field : string) : bool :=
  match field with
  | EmptyString => false
  | _ =>
      String.eqb field "\." ||
      existsb (fun c => bool_decide (c ∈ [LF; CR; quote; ","%char])) (list_ascii_of_string field) ||
      from_option rune_space false (head (runes field))
  end.

Fixpoint quoted (field : string) : string :=
  match field with
  | EmptyString => EmptyString
  | String c r =>
      (if Ascii.eqb c quote then String quote (String quote "")
       else if Ascii.eqb c CR then ""
       else if Ascii.eqb c LF then String CR (String LF "")
       else String c "") +:+ quoted r
  end.

Definition csv_field (field : string) : string :=
  if fieldNeedsQuotes field then String quote (quoted field +:+ String quote "") else field.

Fixpoint csv_fields (fields : list string) : string :=
  match fields with
  | [] => ""
  | [f] => csv_field f
  | f :: rest => csv_field f +:+ String "," (csv_fields rest)
  end.

Definition csv_record (fields : list string) : string := csv_fields fields +:+ String CR (String LF "").

Definition csv_header (g : OfferingGradebook) : list string :=
  ["Aluno"; "Email"] ++ ((fun ex => csvSafe (ge_Title ex)) <$> gb_Exercises g) ++ ["Média"; "Submissões"; "Última submissão"].

Definition csv_row (s : GradebookStudent) : list string :=
  [csvSafe (gs_Name s); csvSafe (gs_Email s)] ++
  ((fun c => from_option FormatFloat2 "" (gc_Score c)) <$> gs_Scores s) ++
  [FormatFloat2 (gs_Average s); fmt_int (gs_SubmissionCount s); csvSafe (formatCSVTime (gs_LastSubmissionAt s))].

Definition WriteOfferingGradebookCSV (g : OfferingGradebook) : string :=
  fold_left (fun out s => out +:+ csv_record (csv_row s)) (gb_Students g) (csv_record (csv_header g)).

(** The file the handler answers with, after a byte-order mark; [None] is 400. *)
Definition ExportOfferingGradesCSV (v : visit) (id : Z) (claims : Claims) : klass (option string) :=
  if id <=? 0 then mret None
  else
    g ← GetOfferingGradebook v id claims;
    mret (Some (String "239" (String "187" (String "191" (WriteOfferingGradebookCSV g))))).
End Gradebook.
