(* ===== verification/GradebookCsv.v ===== *)
(** * The CSV file of the grade table

    The specification is a reader of RFC 4180 files: records end with CRLF, fields are
    separated by commas, a quoted field holds anything, a quote doubled. What
    [WriteOfferingGradebookCSV] writes reads back as the table, and no field starts a
    spreadsheet formula. *)

From S2P Require Import Prelude Effects GoStrings Sql Float64 Cache Catalog Classes Gradebook GradebookProofs.
From S2P Require Accounts AccountLinks ClassesProofs.
Import Accounts(UserRow, us_name, us_email).
Local Open Scope Z_scope.

(** ** A reader *)

Inductive mode := Start | Plain | Quoted | Closed.

(** [f] is the field read so far, [row] the fields before it. *)
Fixpoint csv_parse (s : string) (m : mode) (f : string) (row : list string) : option (list (list string)) :=
  match s with
  | EmptyString => match m, row with Start, [] => Some [] | _, _ => None end
  | String c r =>
      let next : option (list (list string)) :=
        if Ascii.eqb c "," then csv_parse r Start "" (row ++ [f])
        else if Ascii.eqb c CR then
          match r with
          | String d q => if Ascii.eqb d LF then cons (row ++ [f]) <$> csv_parse q Start "" [] else None
          | EmptyString => None
          end
        else match m with Closed => None | _ => csv_parse r Plain (f +:+ str1 c) row end in
      match m with
      | Quoted => if Ascii.eqb c quote then csv_parse r Closed f row else csv_parse r Quoted (f +:+ str1 c) row
      | Closed => if Ascii.eqb c quote then csv_parse r Quoted (f +:+ str1 quote) row else next
      | Start => if Ascii.eqb c quote then csv_parse r Quoted f row else next
      | Plain => if Ascii.eqb c quote then None else next
      end
  end.

Definition csv_read (s : string) : option (list (list string)) := csv_parse s Start "" [].

(** ** One field *)

(** No line end. *)
Definition one_line : string -> bool := all_bytes (fun c => negb (Ascii.eqb c CR) && negb (Ascii.eqb c LF)).

Definition special (c : ascii) : bool := bool_decide (c ∈ [LF; CR; quote; ","%char]).

Lemma not_special c : special c = false -> Ascii.eqb c CR = false /\ Ascii.eqb c quote = false /\ Ascii.eqb c "," = false.
Proof. destruct c as [[][][][][][][][]]; vm_compute; auto. Qed.

Lemma parse_plain x : forall m f row rest,
  m = Start \/ m = Plain -> existsb special (list_ascii_of_string x) = false ->
  exists m', (m' = Start \/ m' = Plain) /\ csv_parse (x +:+ rest) m f row = csv_parse rest m' (f +:+ x) row.
Proof.
  induction x as [|c x IH]; intros m f row rest Hm Hx.
  - exists m. split; [done|]. by rewrite app_nil_r_s.
  - cbn [list_ascii_of_string existsb] in Hx. apply orb_false_iff in Hx as [Hc Hx]. apply not_special in Hc as (E1 & E2 & E3).
    destruct (IH Plain (f +:+ str1 c) row rest (or_intror eq_refl) Hx) as (m' & Hm' & E). exists m'. split; [done|].
    rewrite app_assoc_s in E. cbn [String.append str1] in E |- *. rewrite <- E. cbn [csv_parse].
    rewrite E1, E2, E3. by destruct Hm as [-> | ->].
Qed.

Lemma parse_quoted x : forall f row rest,
  one_line x = true -> csv_parse (quoted x +:+ String quote rest) Quoted f row = csv_parse rest Closed (f +:+ x) row.
Proof.
  induction x as [|c x IH]; intros f row rest Hx.
  - cbn [quoted String.append csv_parse]. change (Ascii.eqb quote quote) with true. cbn iota. by rewrite app_nil_r_s.
  - cbn [one_line all_bytes] in Hx. apply andb_true_iff in Hx as [Hc Hx]. apply andb_true_iff in Hc as [E1%negb_true_iff E2%negb_true_iff].
    cbn [quoted]. rewrite E1, E2. replace (f +:+ String c x) with ((f +:+ str1 c) +:+ x) by by rewrite app_assoc_s.
    destruct (Ascii.eqb c quote) eqn:Eq; cbn [String.append csv_parse].
    + apply Ascii.eqb_eq in Eq as ->. change (Ascii.eqb quote quote) with true. cbn iota. by apply IH.
    + rewrite Eq. by apply IH.
Qed.

(** After a field comes a separator. *)
Definition closes (m : mode) : Prop := m <> Quoted.

Lemma parse_field x row rest :
  one_line x = true -> exists m, closes m /\ csv_parse (csv_field x +:+ rest) Start "" row = csv_parse rest m x row.
Proof.
  intros Hx. unfold csv_field. destruct (fieldNeedsQuotes x) eqn:En.
  - exists Closed. split; [done|]. cbn [String.append csv_parse]. change (Ascii.eqb quote quote) with true. cbn iota.
    rewrite app_assoc_s. cbn [String.append]. by apply (parse_quoted x "").
  - destruct (parse_plain x Start "" row rest) as (m & Hm & E); [by left| |].
    + destruct x as [|c x]; [done|]. unfold fieldNeedsQuotes in En. apply orb_false_iff in En as [En _]. by apply orb_false_iff in En as [_ En].
    + exists m. split; [by destruct Hm as [-> | ->]|]. exact E.
Qed.

Lemma parse_comma m f row rest : closes m -> csv_parse (String "," rest) m f row = csv_parse rest Start "" (row ++ [f]).
Proof. by destruct m. Qed.

Lemma parse_crlf m f row rest :
  closes m -> csv_parse (String CR (String LF rest)) m f row = cons (row ++ [f]) <$> csv_parse rest Start "" [].
Proof. by destruct m. Qed.

Lemma parse_fields fields : forall row rest,
  fields <> [] -> forallb one_line fields = true ->
  csv_parse (csv_fields fields +:+ String CR (String LF rest)) Start "" row = cons (row ++ fields) <$> csv_parse rest Start "" [].
Proof.
  induction fields as [|x fields IH]; intros row rest Hne Hall; [done|]. cbn [forallb] in Hall. apply andb_true_iff in Hall as [Hx Hall].
  destruct fields as [|y fields].
  - cbn [csv_fields]. destruct (parse_field x row (String CR (String LF rest)) Hx) as (m & Hm & ->). by apply parse_crlf.
  - change (csv_fields (x :: y :: fields)) with (csv_field x +:+ String "," (csv_fields (y :: fields))).
    rewrite app_assoc_s. cbn [String.append].
    destruct (parse_field x row (String "," (csv_fields (y :: fields) +:+ String CR (String LF rest))) Hx) as (m & Hm & ->).
    rewrite parse_comma by done. rewrite IH by done. by rewrite <- app_assoc.
Qed.

Definition csv_lines (records : list (list string)) : string := foldr (fun r out => csv_record r +:+ out) "" records.

Lemma csv_lines_read records :
  Forall (fun r => r <> [] /\ forallb one_line r = true) records -> csv_read (csv_lines records) = Some records.
Proof.
  unfold csv_read. induction 1 as [|r records [Hne Hr] _ IH]; [done|].
  change (csv_lines (r :: records)) with (csv_record r +:+ csv_lines records). unfold csv_record.
  rewrite app_assoc_s. cbn [String.append]. rewrite parse_fields by done. by rewrite IH.
Qed.

(** ** The fields of the table *)

(** The file holds no cell a spreadsheet would compute. *)
Definition no_formula (f : string) : Prop :=
  match f with EmptyString => True | String c _ => c ∉ csvFormulaPrefixes end.

Definition text_ok (f : string) : Prop := one_line f = true /\ no_formula f.

Lemma replace_byte_all c by_ (p : ascii -> bool) s :
  all_bytes p by_ = true -> all_bytes (fun a => p a || Ascii.eqb a c) s = true -> all_bytes p (replace_byte c by_ s) = true.
Proof.
  intros Hb. induction s as [|a s IH]; [done|]. cbn. rewrite andb_true_iff. intros [Ha Hs]. destruct (Ascii.eqb a c) eqn:E.
  - by rewrite all_bytes_app, Hb, IH.
  - cbn. rewrite orb_false_r in Ha. by rewrite Ha, IH.
Qed.

Lemma all_bytes_true p s : (forall a, p a = true) -> all_bytes p s = true.
Proof. intros H. induction s as [|a s IH]; [done|]. cbn. by rewrite H. Qed.

Lemma csvSafe_ok value : text_ok (csvSafe value).
Proof.
  unfold csvSafe. cbv zeta. set (s := replace_byte CR " " (replace_byte LF " " (replace_crlf value))).
  assert (one_line s = true) as Hs.
  { unfold s, one_line. apply replace_byte_all; [done|]. apply replace_byte_all; [done|].
    apply all_bytes_true. intros a. by destruct (Ascii.eqb a CR), (Ascii.eqb a LF). }
  destruct s as [|c r] eqn:E; [done|]. case_bool_decide as Hc.
  - split; [done|]. cbn. unfold csvFormulaPrefixes. set_solver.
  - done.
Qed.

(** A stored score is printed as the decimal it is. *)
Definition decimal (k : Z) : string := fmt_int (k / 100) +:+ "." +:+ fmt_int (k mod 100 / 10) +:+ fmt_int (k mod 10).

Definition number_char (c : ascii) : bool := is_digit c || Ascii.eqb c ".".
Definition number_text (f : string) : bool := negb (String.eqb f "") && all_bytes number_char f.

Lemma decimals_computed : forallb (fun k => String.eqb (FormatFloat2 (float8 k)) (decimal k)) (seqZ 0 10001) = true.
Proof. by vm_compute. Qed.

Lemma FormatFloat2_stored k : 0 <= k <= 10000 -> FormatFloat2 (float8 k) = decimal k.
Proof.
  intros Hk. pose proof decimals_computed as H. rewrite forallb_forall in H.
  apply String.eqb_eq, H, list_elem_of_In, elem_of_seqZ. lia.
Qed.

Lemma number_char_ok c : number_char c = true -> negb (Ascii.eqb c CR) && negb (Ascii.eqb c LF) = true /\ c ∉ csvFormulaPrefixes.
Proof.
  assert (forall c, number_char c = true -> negb (Ascii.eqb c CR) && negb (Ascii.eqb c LF) = true /\
    bool_decide (c ∈ csvFormulaPrefixes) = false) as H by (intros [[][][][][][][][]]; vm_compute; by split).
  intros [H1 H2%bool_decide_eq_false]%H. done.
Qed.

Lemma number_text_ok f : all_bytes number_char f = true -> text_ok f.
Proof.
  intros H. split.
  - unfold one_line. eapply all_bytes_impl; [|exact H]. intros a Ha. by apply number_char_ok.
  - destruct f as [|c f]; [done|]. cbn in *. apply andb_true_iff in H as [H _]. by apply number_char_ok.
Qed.

Lemma fmt_nat_number n : 0 <= n -> all_bytes number_char (fmt_int n) = true.
Proof.
  intros Hn. unfold fmt_int. rewrite (proj2 (Z.ltb_ge n 0)) by done. apply (all_bytes_impl is_digit); [|by apply fmt_digits_all].
  intros a Ha. unfold number_char. by rewrite Ha.
Qed.

Lemma decimal_ok k : 0 <= k -> text_ok (decimal k).
Proof.
  intros Hk. apply number_text_ok. unfold decimal. rewrite !all_bytes_app, !fmt_nat_number; [done|..].
  - apply Z.mod_pos_bound. lia.
  - apply Z.div_pos; [apply Z.mod_pos_bound|]; lia.
  - apply Z.div_pos; lia.
Qed.

Lemma grade_text_ok x : grade x -> text_ok (FormatFloat2 x).
Proof. intros (k & Hk & ->). rewrite FormatFloat2_stored by done. apply decimal_ok. lia. Qed.

Section Csv.
Context {UT : UnicodeTables} {TX : Texts} {GC : GradeColumns} (fault : nat -> bool) (users : gmap Z UserRow).

Lemma WriteCSV_lines g :
  WriteOfferingGradebookCSV g = csv_lines (csv_header g :: (csv_row <$> gb_Students g)).
Proof.
  unfold WriteOfferingGradebookCSV. cbn [csv_lines foldr]. generalize (csv_record (csv_header g)) as out.
  induction (gb_Students g) as [|s l IH]; intros out; cbn [fold_left fmap list_fmap foldr]; [by rewrite app_nil_r_s|].
  by rewrite IH, app_assoc_s.
Qed.

(** What the rows of the table must be for the file to read back. *)
Definition printable (row : GradebookStudent) : Prop :=
  Forall graded (gs_Scores row) /\ grade (gs_Average row) /\ 0 <= gs_SubmissionCount row.

Lemma header_ok g : Forall text_ok (csv_header g).
Proof.
  unfold csv_header. apply Forall_app. split; [|apply Forall_app; split].
  - repeat constructor; vm_compute; auto; set_solver.
  - apply Forall_fmap, Forall_true. intros ex. apply csvSafe_ok.
  - repeat constructor; vm_compute; auto; set_solver.
Qed.

Lemma row_ok row : printable row -> Forall text_ok (csv_row row).
Proof.
  intros (Hs & Ha & Hc). unfold csv_row. apply Forall_app. split; [|apply Forall_app; split].
  - constructor; [|constructor; [|constructor]]; apply csvSafe_ok.
  - apply Forall_fmap. eapply Forall_impl; [exact Hs|]. intros c Hg. unfold compose, graded in *.
    destruct (gc_Score c); [by apply grade_text_ok|done].
  - constructor; [by apply grade_text_ok|]. constructor; [by apply number_text_ok, fmt_nat_number|].
    constructor; [apply csvSafe_ok|constructor].
Qed.

Lemma csv_records_read g :
  Forall printable (gb_Students g) -> csv_read (WriteOfferingGradebookCSV g) = Some (csv_header g :: (csv_row <$> gb_Students g)).
Proof.
  intros H. rewrite WriteCSV_lines. apply csv_lines_read.
  assert (forall r, Forall text_ok r -> forallb one_line r = true) as Hline.
  { intros r Hr. apply forallb_forall. intros f Hf%list_elem_of_In. eapply Forall_forall in Hr; [|exact Hf]. apply Hr. }
  constructor; [split; [done|apply Hline, header_ok]|]. apply Forall_fmap. eapply Forall_impl; [exact H|].
  intros row Hrow. split; [done|]. by apply Hline, row_ok.
Qed.

Lemma csv_row_score row i c :
  gs_Scores row !! i = Some c -> csv_row row !! (2 + i)%nat = Some (from_option FormatFloat2 "" (gc_Score c)).
Proof.
  intros Hc. unfold csv_row. rewrite lookup_app_r by (cbn; lia). cbn [length]. replace (2 + i - 2)%nat with i by lia.
  rewrite lookup_app_l, list_lookup_fmap, Hc; [done|]. rewrite length_fmap. by eapply lookup_lt_Some.
Qed.

Lemma gradebook_printable v id claims s s' g :
  (forall c, 0 <= commit_score c <= 10000) -> ClassesProofs.fresh s (vs_now v) ->
  GetOfferingGradebook fault users v id claims s = (s', Ok g) -> 100 * Z.of_nat (length (gb_Exercises g)) < 2 ^ 53 ->
  Forall (fun row => printable row /\ length (gs_Scores row) = length (gb_Exercises g)) (gb_Students g).
Proof.
  intros Hs Hf (_ & r & user & _ & _ & _ & E)%GetOfferingGradebook_ok; [|done].
  set (exs := gradebook_exercises id (tables s)) in *. set (students := gradebook_students users id (tables s)) in *.
  pose proof (gradebook_graded id (tables s) exs students Hs eq_refl) as Hg.
  set (cells := fun u e => grade_cell <$> grade_groups id (tables s) !! (u, e)) in *.
  pose proof (build_spec id (of_name r) exs students cells) as (E1 & E2 & _ & _). rewrite <- E in *. rewrite E1, E2 in *. intros Hn.
  apply Forall_forall. intros row Hrow. pose proof Hrow as (st & -> & _)%list_elem_of_fmap.
  eapply Forall_forall in Hg; [|exact Hrow]. split; [|apply length_fmap]. split; [done|]. split.
  - by apply row_average_grade; [|apply length_fmap|].
  - cbn [gs_SubmissionCount row_of]. rewrite <- list_fmap_compose.
    assert (forall ex, ex ∈ exs -> 0 <= gc_SubmissionCount (cell_at (cells (st_ID st)) ex)) as H.
    { intros ex Hex. destruct (cell_at_exact id (tables s) (st_ID st) ex Hs Hex) as [H _]. unfold cells. rewrite H. lia. }
    clearbody exs cells. clear -H. induction exs as [|ex exs IH]; [done|]. cbn. unfold total in IH.
    pose proof (H ex ltac:(left)). assert (forall y, y ∈ exs -> 0 <= gc_SubmissionCount (cell_at (cells (st_ID st)) y)) as H'
      by (intros y Hy; apply H; by right). specialize (IH H'). cbn in *. lia.
Qed.

(** C26: The CSV file is the table. With a stored score for every commit, a reader of
    RFC 4180 files gets back the header and one record for each student, all with the
    same number of fields, whatever names, titles and addresses hold; no field starts
    a spreadsheet formula; and a score is printed as the decimal that is stored, an
    exercise without a submission as an empty field. *)
Theorem csv_reads_back v id claims s s' g
  (Hs : forall c, 0 <= commit_score c <= 10000) (Hf : ClassesProofs.fresh s (vs_now v))
  (H : GetOfferingGradebook fault users v id claims s = (s', Ok g))
  (Hn : 100 * Z.of_nat (length (gb_Exercises g)) < 2 ^ 53) :
  csv_read (WriteOfferingGradebookCSV g) = Some (csv_header g :: (csv_row <$> gb_Students g)) /\
  (forall r, r ∈ csv_header g :: (csv_row <$> gb_Students g) -> length r = (length (gb_Exercises g) + 5)%nat /\ Forall no_formula r) /\
  forall row i c, row ∈ gb_Students g -> gs_Scores row !! i = Some c ->
    match gc_Score c with
    | None => csv_row row !! (2 + i)%nat = Some ""
    | Some x => exists k, 0 <= k <= 10000 /\ x = float8 k /\ csv_row row !! (2 + i)%nat = Some (decimal k)
    end.
Proof.
  pose proof (gradebook_printable v id claims s s' g Hs Hf H Hn) as Hp. rewrite Forall_forall in Hp.
  assert (forall l, Forall text_ok l -> Forall no_formula l) as Hno by (intros l Hl; eapply Forall_impl; [exact Hl|by intros ? []]).
  split; [|split].
  - apply csv_records_read. apply Forall_forall. intros row Hrow. by apply Hp.
  - intros r [->|(row & -> & [Hrow Hl]%Hp)%list_elem_of_fmap]%elem_of_cons.
    + split; [|by apply Hno, header_ok]. unfold csv_header. rewrite !length_app, length_fmap. cbn. lia.
    + split; [|by apply Hno, row_ok]. unfold csv_row. rewrite !length_app, length_fmap, Hl. cbn. lia.
  - intros row i c [[Hg _] _]%Hp Hc. rewrite (csv_row_score row i c Hc).
    apply list_elem_of_lookup_2 in Hc. eapply Forall_forall in Hg; [|exact Hc]. unfold graded in Hg.
    destruct (gc_Score c) as [x|]; [|done]. destruct Hg as (k & Hk & ->). exists k. cbn. by rewrite FormatFloat2_stored.
Qed.
End Csv.

(** ** Witnesses *)

Section Witnesses.
#[local] Existing Instance ascii_tables.
#[local] Existing Instance ClassesProofs.toy_texts.
#[local] Instance columns : GradeColumns :=
  {| commit_score := fun c => if c =? 1 then 7550 else 3333; exercise_title := fun _ => "=soma, 1"; csv_time := fun _ => "2026-10-20 18:00:00" |}.

(** A class with two students and one exercise; one of them submitted twice. *)
Definition graded_tables : Tables :=
  mk_tables {[7 := ClassesProofs.algebra]}
    {[(7, 2) := mk_enrollment EnrollmentRoleStudent false 0; (7, 3) := mk_enrollment EnrollmentRoleStudent false 0]}
    {[9 := mk_exercise 7 0 0 false false false None "" ""]} ∅ ∅ ∅ ∅ ∅ ∅
    {[1 := mk_submission 2 9 "completed" None None 10; 2 := mk_submission 2 9 "completed" None None 20]} ∅ ∅ ∅ ∅.
Definition graded_campus : campus := mk_campus (mk_conn graded_tables 0) (Cache.mk_cache ∅ 0) 8.
Definition the_gradebook : campus * res class_error OfferingGradebook :=
  GetOfferingGradebook AccountLinks.no_faults ClassesProofs.campus_users ClassesProofs.at_noon 7 ClassesProofs.owner_claims graded_campus.

Lemma graded_campus_fresh : ClassesProofs.fresh graded_campus (vs_now ClassesProofs.at_noon).
Proof. intros id x H. cbv in H. done. Qed.

Lemma scores_stored c : 0 <= commit_score c <= 10000.
Proof. cbn. destruct (c =? 1); lia. Qed.


Lemma statistics_follow_table_witness :
  exists s g, the_gradebook = (s, Ok g) /\ grade (sm_GlobalAverage (gb_Summary g)) /\
    es_AverageSubmitted <$> gb_ExerciseStatistics g = [Some (float8 7550)] /\ length (gb_ExerciseStatistics g) = length (gb_Exercises g).
Proof.
  destruct the_gradebook as [s [g|e]] eqn:E; [|by vm_compute in E]. exists s, g. split; [done|].
  assert (length (gb_Students g) = 2%nat /\ length (gb_Exercises g) = 1%nat /\
    es_AverageSubmitted <$> gb_ExerciseStatistics g = [Some (float8 7550)]) as (H1 & H2 & H3).
  { vm_compute in E. by injection E as _ <-. }
  destruct (statistics_follow_table AccountLinks.no_faults ClassesProofs.campus_users ClassesProofs.at_noon 7 ClassesProofs.owner_claims
    graded_campus s g scores_stored graded_campus_fresh E) as (_ & _ & Hg & Hl & _); [by rewrite H1|by rewrite H2|]. done.
Defined.

Lemma csv_reads_back_witness :
  exists s g, the_gradebook = (s, Ok g) /\ csv_read (WriteOfferingGradebookCSV g) = Some (csv_header g :: (csv_row <$> gb_Students g)) /\
    csv_header g !! 2%nat = Some "'=soma, 1" /\ ((fun r => r !! 2%nat) <$> (csv_row <$> gb_Students g)) = [Some "75.50"; Some ""].
Proof.
  destruct the_gradebook as [s [g|e]] eqn:E; [|by vm_compute in E]. exists s, g. split; [done|].
  assert (length (gb_Exercises g) = 1%nat /\ csv_header g !! 2%nat = Some "'=soma, 1" /\
    ((fun r => r !! 2%nat) <$> (csv_row <$> gb_Students g)) = [Some "75.50"; Some ""]) as (H1 & H2 & H3).
  { vm_compute in E. by injection E as _ <-. }
  destruct (csv_reads_back AccountLinks.no_faults ClassesProofs.campus_users ClassesProofs.at_noon 7 ClassesProofs.owner_claims
    graded_campus s g scores_stored graded_campus_fresh E) as (H & _); [by rewrite H1|]. done.
Defined.
End Witnesses.
