(* ===== verification/Archive.v ===== *)
(** * Archives of test cases

    [ParseBatchTestCaseArchive] of
    [src/backend/services/test-cases-batch-service.go]: the zip file a professor uploads
    to create many cases at once. An archive is what [archive/zip] gives of it: its
    length, and for each entry its name, whether it is a directory, the size its header
    declares and what reading it yields. The order in which Go visits a map is the class
    [MapOrder]. Problems are values of [reason]; their Portuguese texts are not
    modelled. *)

From S2P Require Import Prelude GoStrings.
From stdpp Require Import sorting.
Local Open Scope Z_scope.

Definition MaxBatchArchiveBytes : Z := 64 * 2 ^ 20.
Definition MaxBatchExpandedBytes : Z := 256 * 2 ^ 20.
Definition MaxBatchEntries : nat := 4000.
Definition MaxBatchTestCases : nat := 500.
Definition MaxBatchCaseFileBytes : Z := 32 * 2 ^ 20.

(** [zf_size] is an unsigned 64-bit number; [None]: the entry cannot be read. *)
Record zip_file := mk_zip { zf_Name : string; zf_IsDir : bool; zf_size : Z; zf_data : option string }.

(** [None]: not a zip file. *)
Record archive := mk_archive { ar_len : Z; ar_files : option (list zip_file) }.

Inductive reason :=
| InvalidPath (name : string)
| UnsupportedStructure (name : string)
| NoBaseName
| FilesWithoutFolder
| NoCases (ignored : option string)
| Twice
| MissingFile (name : string)
| DuplicateRoot (extension existing name : string)
| NoInput | NoOutput
| ManyInputs (names : string) | ManyOutputs (names : string)
| DuplicateExtra (name : string)
| InputNotText | OutputNotText.
#[export] Instance reason_eq_dec : EqDecision reason.
Proof. solve_decision. Defined.

(** One list of reasons for each folder, in first-seen order. *)
Abbreviation issues := (list (string * list reason)).

Inductive archive_error := ErrInvalidArchive | ErrArchiveTooLarge | BatchImportError (l : issues).

Definition root_label := "(raiz do arquivo)".

Fixpoint add_issue_at (folder : string) (r : reason) (l : issues) : issues :=
  match l with
  | [] => [(folder, [r])]
  | (f, rs) :: rest =>
      if String.eqb f folder then (f, if bool_decide (r ∈ rs) then rs else rs ++ [r]) :: rest
      else (f, rs) :: add_issue_at folder r rest
  end.
Definition add_issue (folder : string) (r : reason) (l : issues) : issues :=
  add_issue_at (if String.eqb folder "" then root_label else folder) r l.

Definition issues_err (l : issues) : option archive_error := match l with [] => None | _ => Some (BatchImportError l) end.

Record batchExtraFile := mk_extra { xf_Name : string; xf_Data : string }.
Record batchTestCase := mk_case {
  bt_Folder : string; bt_InputName : string; bt_InputData : string; bt_OutputName : string; bt_OutputData : string;
  bt_ExtraFiles : list batchExtraFile
}.

Class MapOrder := {
  visit {A} : gmap string A -> list (string * A);
  visit_perm {A} (m : gmap string A) : visit m ≡ₚ map_to_list m
}.
Definition sorted_order : MapOrder := {| visit A m := map_to_list m; visit_perm A m := Permutation_refl _ |}.

Definition byte_le (x y : string) : Prop := String.ltb y x = false.
#[export] Instance byte_le_dec : RelDecision byte_le.
Proof. intros x y. unfold byte_le. apply _. Defined.
(** [sort.Strings]. *)
Definition sort_strings (l : list string) : list string := merge_sort byte_le l.

(** ** Names *)

Definition good_segment (s : string) : bool := negb (String.eqb s "..") && negb (contains_byte "000" s).

Definition normalizeArchivePath (name : string) : option (list string) :=
  let value := trim_prefix "./" (trim_space (replace_byte "\" "/" name)) in
  if String.eqb value "" || has_prefix "/" value then None
  else
    let segments := filter (fun s => negb (String.eqb s "") && negb (String.eqb s ".")) (split_byte "/" value) in
    if negb (forallb good_segment segments) then None
    else match segments with [] => None | _ => Some segments end.

Definition ignoredArchiveEntry (segments : list string) : bool :=
  match segments with
  | [] => true
  | first :: _ =>
      String.eqb first "__MACOSX" ||
      from_option (fun base => String.eqb base ".DS_Store" || has_prefix "._" base) false (last segments)
  end.

Definition strip (n : nat) (s : string) : string := take_bytes (String.length s - n) s.

Section Archive.
Context {UT : UnicodeTables} {MO : MapOrder}.

Definition hasExtension (name extension : string) : bool := has_suffix extension (to_lower name).

Definition caseFileExtension (name : string) : string :=
  if hasExtension name ".in" then ".in" else if hasExtension name ".out" then ".out" else "".

Definition caseBaseName (name : string) : string :=
  let extension := caseFileExtension name in
  if String.eqb extension "" then "" else trim_space (strip (String.length extension) name).

Fixpoint uniq (l : list string) : list string :=
  match l with
  | x :: ((y :: _) as r) => if String.eqb x y then uniq r else x :: uniq r
  | l => l
  end.
Definition uniqueSorted (names : list string) : list string := uniq (sort_strings names).

Definition limitedList (names : list string) (max : nat) : string :=
  if (length names <=? max)%nat then String.concat ", " names
  else String.concat ", " (take max names) +:+ ", … (+" +:+ fmt_int (Z.of_nat (length names - max)) +:+ ")".

(** ** Reading the entries *)

(** The loop goes on with the folder found so far, or has returned. *)
Fixpoint root_folder (folder : string) (files : list zip_file) : string :=
  match files with
  | [] => folder
  | f :: rest =>
      if zf_IsDir f then root_folder folder rest
      else match normalizeArchivePath (zf_Name f) with
      | None => root_folder folder rest
      | Some segments =>
          if ignoredArchiveEntry segments then root_folder folder rest
          else match segments with
          | [s] => if negb (String.eqb (caseFileExtension s) "") then "" else root_folder folder rest
          | s :: _ =>
              if String.eqb folder "" then root_folder s rest
              else if negb (String.eqb s folder) then "" else root_folder folder rest
          | [] => root_folder folder rest
          end
      end
  end.
Definition batchArchiveRootFolder (files : list zip_file) : string := root_folder "" files.

Record batchArchiveEntries := mk_entries {
  en_folders : gmap string (gmap string string); en_extraFolders : gmap string (gmap string string);
  en_rootFiles : gmap string string; en_ignored : list string; en_issues : issues
}.
#[export] Instance batchArchiveEntries_eta : Settable batchArchiveEntries := fun e =>
  mk_entries (en_folders e) (en_extraFolders e) (en_rootFiles e) (en_ignored e) (en_issues e).
Definition no_entries : batchArchiveEntries := mk_entries ∅ ∅ ∅ [] [].

Definition readZipEntry (f : zip_file) : res archive_error string :=
  if MaxBatchCaseFileBytes <? zf_size f then Err ErrArchiveTooLarge
  else match zf_data f with
  | None => Err ErrInvalidArchive
  | Some data => if MaxBatchCaseFileBytes <? Z.of_nat (String.length data) then Err ErrArchiveTooLarge else Ok data
  end.

Definition addArchiveFile (folder name content : string) (m : gmap string (gmap string string)) : gmap string (gmap string string) :=
  <[folder := <[name := content]> (default ∅ (m !! folder))]> m.

Definition addRootEntry (f : zip_file) (name : string) (e : batchArchiveEntries) : res archive_error batchArchiveEntries :=
  if String.eqb (caseFileExtension name) "" then Ok (e <| en_ignored := en_ignored e ++ [name] |>)
  else if String.eqb (caseBaseName name) "" then Ok (e <| en_issues := add_issue name NoBaseName (en_issues e) |>)
  else content ← readZipEntry f; Ok (e <| en_rootFiles := <[name := content]> (en_rootFiles e) |>).

(** The entry goes where its path says. *)
Definition place_entry (f : zip_file) (segments : list string) (e : batchArchiveEntries) : res archive_error batchArchiveEntries :=
  match segments with
  | [name] => addRootEntry f name e
  | [folder; name] =>
      content ← readZipEntry f; Ok (e <| en_folders := addArchiveFile folder name content (en_folders e) |>)
  | folder :: sub :: rest =>
      match rest with
      | [name] =>
          if String.eqb sub "files"
          then content ← readZipEntry f; Ok (e <| en_extraFolders := addArchiveFile folder name content (en_extraFolders e) |>)
          else Ok (e <| en_issues := add_issue folder (UnsupportedStructure (zf_Name f)) (en_issues e) |>)
      | _ => Ok (e <| en_issues := add_issue folder (UnsupportedStructure (zf_Name f)) (en_issues e) |>)
      end
  | [] => Ok e
  end.

(** The wrapping folder is dropped. *)
Definition unwrapped (unwrap : bool) (root : string) (segments : list string) : list string :=
  match segments with
  | s :: ((_ :: _) as rest) => if unwrap && negb (String.eqb root "") && String.eqb s root then rest else segments
  | _ => segments
  end.

(** [expanded] is an [int64], like the conversion of the declared size. *)
Fixpoint read_entries (unwrap : bool) (root : string) (expanded : Z) (files : list zip_file) (e : batchArchiveEntries) :
  res archive_error batchArchiveEntries :=
  match files with
  | [] => Ok e
  | f :: rest =>
      if zf_IsDir f then read_entries unwrap root expanded rest e
      else match normalizeArchivePath (zf_Name f) with
      | None => read_entries unwrap root expanded rest (e <| en_issues := add_issue "" (InvalidPath (zf_Name f)) (en_issues e) |>)
      | Some segments =>
          if ignoredArchiveEntry segments then read_entries unwrap root expanded rest e
          else
            let expanded := wrap64 (expanded + wrap64 (zf_size f)) in
            if MaxBatchExpandedBytes <? expanded then Err ErrArchiveTooLarge
            else e ← place_entry f (unwrapped unwrap root segments) e; read_entries unwrap root expanded rest e
      end
  end.

Definition readBatchArchive (a : archive) (unwrapRoot : bool) : res archive_error (batchArchiveEntries * string) :=
  if ar_len a =? 0 then Err ErrInvalidArchive
  else if MaxBatchArchiveBytes <? ar_len a then Err ErrArchiveTooLarge
  else match ar_files a with
  | None => Err ErrInvalidArchive
  | Some files =>
      if (MaxBatchEntries <? length files)%nat then Err ErrArchiveTooLarge
      else
        let root := batchArchiveRootFolder files in
        e ← read_entries unwrapRoot root 0 files no_entries; Ok (e, root)
  end.

(** ** Pairing the files *)

(** One root file at a time, in byte order: inputs, outputs and the issues. *)
Definition add_root_pair (p : gmap string string * gmap string string * issues) (name : string) :
  gmap string string * gmap string string * issues :=
  let '(inputs, outputs, l) := p in
  let base := caseBaseName name in
  let extension := caseFileExtension name in
  let out := String.eqb extension ".out" in
  match (if out then outputs else inputs) !! base with
  | Some existing => (inputs, outputs, add_issue base (DuplicateRoot extension existing name) l)
  | None => if out then (inputs, <[base := name]> outputs, l) else (<[base := name]> inputs, outputs, l)
  end.

Definition rootPairNames (e : batchArchiveEntries) : gmap string string * gmap string string * issues :=
  fold_left add_root_pair (sort_strings (visit (en_rootFiles e)).*1) (∅, ∅, en_issues e).

(** The only name, or the problem. *)
Definition only_name (names : list string) (none : reason) (many : string -> reason) : string + reason :=
  match names with [] => inr none | [x] => inl x | _ => inr (many (String.concat ", " names)) end.

Definition by_extra_name (x y : batchExtraFile) : Prop := byte_le (xf_Name x) (xf_Name y).
#[export] Instance by_extra_name_dec : RelDecision by_extra_name.
Proof. intros x y. unfold by_extra_name. apply _. Defined.

(** The files of [files/], those of the folder's names refused. *)
Definition add_extras (name : string) (files : gmap string string) (more : list (string * string)) (extras : list batchExtraFile)
    (l : issues) : list batchExtraFile * issues :=
  fold_left (fun p x =>
      let '(extras, l) := p in
      if bool_decide (is_Some (files !! x.1)) then (extras, add_issue name (DuplicateExtra x.1) l)
      else (extras ++ [mk_extra x.1 x.2], l)) more (extras, l).

Definition folderCase (e : batchArchiveEntries) (name : string) (files : gmap string string) (l : issues) :
  option batchTestCase * issues :=
  let names := (visit files).*1 in
  let input := only_name (sort_strings (filter (fun n => hasExtension n ".in") names)) NoInput ManyInputs in
  let output := only_name (sort_strings (filter (fun n => negb (hasExtension n ".in") && hasExtension n ".out") names)) NoOutput ManyOutputs in
  let l := match input with inr r => add_issue name r l | inl _ => l end in
  let l := match output with inr r => add_issue name r l | inl _ => l end in
  match input, output with
  | inl i, inl o =>
      let own := (fun x : string * string => mk_extra x.1 x.2) <$>
                   filter (fun x => negb (String.eqb x.1 i) && negb (String.eqb x.1 o)) (visit files) in
      let '(extras, l) := add_extras name files (visit (default ∅ (en_extraFolders e !! name))) own l in
      (Some (mk_case name i (default "" (files !! i)) o (default "" (files !! o)) (merge_sort by_extra_name extras)), l)
  | _, _ => (None, l)
  end.

Definition one_case (e : batchArchiveEntries) (inputs outputs : gmap string string) (p : list batchTestCase * issues) (name : string) :
  list batchTestCase * issues :=
  let '(cases, l) := p in
  let input := inputs !! name in
  let output := outputs !! name in
  match en_folders e !! name with
  | Some folder =>
      if bool_decide (is_Some input) || bool_decide (is_Some output) then (cases, add_issue name Twice l)
      else match folderCase e name folder l with
      | (Some c, l) => (cases ++ [c], l)
      | (None, l) => (cases, l)
      end
  | None =>
      match input, output with
      | Some i, Some o =>
          (cases ++ [mk_case name i (default "" (en_rootFiles e !! i)) o (default "" (en_rootFiles e !! o)) []], l)
      | None, Some _ => (cases, add_issue name (MissingFile (name +:+ ".in")) l)
      | Some _, None => (cases, add_issue name (MissingFile (name +:+ ".out")) l)
      | None, None => (cases, add_issue name (MissingFile (name +:+ ".out")) (add_issue name (MissingFile (name +:+ ".in")) l))
      end
  end.

Definition check_issues {A} (l : issues) (a : A) : res archive_error A :=
  match issues_err l with Some err => Err err | None => Ok a end.

Definition testCases (e : batchArchiveEntries) : res archive_error (list batchTestCase) :=
  let '(inputs, outputs, l) := rootPairNames e in
  let l := fold_left (fun l x => if bool_decide (is_Some (en_folders e !! x)) then l else add_issue x FilesWithoutFolder l)
             (visit (en_extraFolders e)).*1 l in
  let names := uniqueSorted ((visit (en_folders e)).*1 ++ (visit inputs).*1 ++ (visit outputs).*1) in
  match issues_err l with
  | Some err => Err err
  | None =>
      match names with
      | [] =>
          let ignored := match en_ignored e with [] => None | l => Some (limitedList (sort_strings l) 10) end in
          Err (BatchImportError [(root_label, [NoCases ignored])])
      | _ =>
          if (MaxBatchTestCases <? length names)%nat then Err ErrArchiveTooLarge
          else
            let '(cases, l) := fold_left (one_case e inputs outputs) names ([], []) in
            check_issues l cases
      end
  end.

(** ** The parser *)

Definition ParseBatchTestCaseArchive (a : archive) : res archive_error (list batchTestCase * list string) :=
  '(entries, rootFolder) ← readBatchArchive a false;
  match testCases entries with
  | Ok cases => Ok (cases, sort_strings (en_ignored entries))
  | Err err =>
      if String.eqb rootFolder "" then Err err
      else match readBatchArchive a true with
      | Err _ => Err err
      | Ok (unwrapped, _) =>
          match testCases unwrapped with
          | Err _ => Err err
          | Ok cases => Ok (cases, sort_strings (en_ignored unwrapped))
          end
      end
  end.
End Archive.
