(* ===== verification/ArchiveProofs.v ===== *)
(** * Reading an archive of test cases

    What [read_entries] collects, as insertions of placed entries ([read_entries_spec],
    [view_placed]), and the archives that read back: a layout of cases parses to those
    cases, in whatever order the entries are and the maps are visited
    ([layout_round_trip]). *)

From S2P Require Import Prelude GoStrings Archive.
From stdpp Require Import sorting.
Local Open Scope Z_scope.

(** ** Byte order *)

#[export] Instance byte_le_trans : Transitive byte_le.
Proof.
  intros x y z H1 H2. unfold byte_le in *. destruct (String.ltb z x) eqn:E; [|done].
  destruct (str_lt_total x y) as [H|[-> |H]]; [|congruence|unfold str_lt in H; congruence].
  pose proof (str_lt_trans z x y E H). unfold str_lt in *. congruence.
Qed.

#[export] Instance byte_le_total : Total byte_le.
Proof.
  intros x y. unfold byte_le. destruct (String.ltb y x) eqn:E1, (String.ltb x y) eqn:E2; auto.
  exfalso. apply (str_lt_irrefl x). by apply (str_lt_trans x y x).
Qed.

#[export] Instance byte_le_antisym : AntiSymm (=) byte_le.
Proof.
  intros x y. unfold byte_le. intros H1 H2. destruct (str_lt_total x y) as [H|[H|H]]; [|done|]; unfold str_lt in H; congruence.
Qed.

Lemma sort_strings_unique l l' : StronglySorted byte_le l' -> l ≡ₚ l' -> sort_strings l = l'.
Proof.
  intros Hs Hp. apply (StronglySorted_unique byte_le); [apply StronglySorted_merge_sort; apply _|done|].
  unfold sort_strings. by rewrite merge_sort_Permutation.
Qed.

Lemma sort_strings_perm l : sort_strings l ≡ₚ l.
Proof. apply merge_sort_Permutation. Qed.

Lemma uniq_NoDup l : NoDup l -> uniq l = l.
Proof.
  induction l as [|x [|y l] IH]; intros Hl; [done..|]. cbn [uniq]. apply NoDup_cons in Hl as [Hx Hl].
  destruct (String.eqb x y) eqn:E; [apply String.eqb_eq in E as ->; exfalso; apply Hx; left|]. f_equal. by apply IH.
Qed.

Lemma filter_bool_cons {A} (p : A -> bool) x l : filter p (x :: l) = if p x then x :: filter p l else filter p l.
Proof.
  destruct (p x) eqn:E; [by rewrite filter_cons_True by (by apply Is_true_eq_left)|].
  rewrite filter_cons_False; [done|]. intros H%Is_true_eq_true. congruence.
Qed.

Lemma filter_bool_none {A} (p : A -> bool) l : (forall x, x ∈ l -> p x = false) -> filter p l = [].
Proof.
  induction l as [|x l IH]; intros H; [done|]. rewrite filter_bool_cons, H by left. apply IH. intros y Hy. apply H. by right.
Qed.

Lemma filter_bool_split {A} (p : A -> bool) l : filter (fun x => negb (p x)) l ++ filter p l ≡ₚ l.
Proof.
  induction l as [|x l IH]; [done|]. rewrite !filter_bool_cons. destruct (p x); cbn [negb app]; [|by rewrite IH].
  by rewrite <- Permutation_middle, IH.
Qed.

Lemma omap_none {A B} (f : A -> option B) l : (forall x, x ∈ l -> f x = None) -> omap f l = [].
Proof. induction l as [|x l IH]; intros H; [done|]. cbn. rewrite H by left. apply IH. intros y Hy. apply H. by right. Qed.

Section Proofs.
Context {UT : UnicodeTables} {MO : MapOrder}.

(** ** What reading collects *)

(** An entry as it is placed: its path, and its content. *)
Definition item : Type := list string * string.

Definition put (e : batchArchiveEntries) (x : item) : batchArchiveEntries :=
  match x.1 with
  | [name] =>
      if String.eqb (caseFileExtension name) "" then e <| en_ignored := en_ignored e ++ [name] |>
      else e <| en_rootFiles := <[name := x.2]> (en_rootFiles e) |>
  | [folder; name] => e <| en_folders := addArchiveFile folder name x.2 (en_folders e) |>
  | [folder; _; name] => e <| en_extraFolders := addArchiveFile folder name x.2 (en_extraFolders e) |>
  | _ => e
  end.

(** A place the importer knows. *)
Definition place_ok (segs : list string) : bool :=
  match segs with
  | [name] => String.eqb (caseFileExtension name) "" || negb (String.eqb (caseBaseName name) "")
  | [_; _] => true
  | [_; sub; _] => String.eqb sub "files"
  | _ => false
  end.

Definition ignored_root (segs : list string) : bool :=
  match segs with [name] => String.eqb (caseFileExtension name) "" | _ => false end.

(** The entries that count, with their paths; an ignored file is not read. *)
Definition live_path (unwrap : bool) (root : string) (f : zip_file) : option (list string) :=
  if zf_IsDir f then None
  else match normalizeArchivePath (zf_Name f) with
  | None => None
  | Some segs => if ignoredArchiveEntry segs then None else Some (unwrapped unwrap root segs)
  end.

Definition item_of (unwrap : bool) (root : string) (f : zip_file) : option item :=
  segs ← live_path unwrap root f; Some (segs, if ignored_root segs then "" else default "" (zf_data f)).

Definition contents (unwrap : bool) (root : string) (files : list zip_file) : list item := omap (item_of unwrap root) files.

(** Read without complaint: a directory, an ignored entry, or one that is placed. *)
Definition readable (f : zip_file) : Prop :=
  zf_size f <= MaxBatchCaseFileBytes /\ exists d, zf_data f = Some d /\ Z.of_nat (String.length d) <= MaxBatchCaseFileBytes.

Definition fine (unwrap : bool) (root : string) (f : zip_file) : Prop :=
  zf_IsDir f = true \/
  exists segs, normalizeArchivePath (zf_Name f) = Some segs /\
    (ignoredArchiveEntry segs = true \/
     (place_ok (unwrapped unwrap root segs) = true /\ (ignored_root (unwrapped unwrap root segs) = false -> readable f))).

Lemma add_issue_cons folder r l : exists x l', add_issue folder r l = x :: l'.
Proof. unfold add_issue. destruct l as [|[f rs] l]; cbn; [by eauto|]. destruct (String.eqb _ _); by eauto. Qed.

Lemma add_issue_ne folder r l : add_issue folder r l <> [].
Proof. destruct (add_issue_cons folder r l) as (x & l' & ->). done. Qed.

Lemma readZipEntry_ok f d : readZipEntry f = Ok d <->
  zf_size f <= MaxBatchCaseFileBytes /\ zf_data f = Some d /\ Z.of_nat (String.length d) <= MaxBatchCaseFileBytes.
Proof.
  unfold readZipEntry. destruct (_ <? zf_size f) eqn:E; [split; [done|lia]|]. destruct (zf_data f) as [x|]; [|split; [done|by intros (_ & ? & _)]].
  destruct (_ <? Z.of_nat _) eqn:E2; (split; [intros [= <-]|intros (_ & [= <-] & ?)]); repeat split; try lia; done.
Qed.

(** Placing an entry complains, or puts it. *)
Lemma place_entry_cases f segs e e' :
  place_entry f segs e = Ok e' -> segs <> [] ->
  en_issues e' <> [] \/
  (place_ok segs = true /\ (ignored_root segs = false -> readable f) /\
   e' = put e (segs, if ignored_root segs then "" else default "" (zf_data f))).
Proof.
  intros H Hne. destruct segs as [|a [|b [|c [|d rest]]]]; [done|..]; cbn [place_entry] in H.
  - unfold addRootEntry in H. cbn [place_ok ignored_root put fst].
    destruct (String.eqb (caseFileExtension a) "") eqn:Ex; [right; injection H as <-; by split_and!|].
    destruct (String.eqb (caseBaseName a) "") eqn:Eb; [left; injection H as <-; apply add_issue_ne|].
    destruct (readZipEntry f) as [d|] eqn:Er; [|done]. apply readZipEntry_ok in Er as (H1 & H2 & H3). injection H as <-. right.
    split; [done|]. split; [|by rewrite H2]. intros _. split; [done|by exists d].
  - destruct (readZipEntry f) as [d|] eqn:Er; [|done]. apply readZipEntry_ok in Er as (H1 & H2 & H3). injection H as <-. right.
    split; [done|]. split; [|cbn; by rewrite H2]. intros _. split; [done|by exists d].
  - destruct (String.eqb b "files") eqn:Ef; [|left; injection H as <-; apply add_issue_ne].
    destruct (readZipEntry f) as [d|] eqn:Er; [|done]. apply readZipEntry_ok in Er as (H1 & H2 & H3). injection H as <-. right.
    cbn [place_ok]. split; [done|]. split; [|cbn; by rewrite H2]. intros _. split; [done|by exists d].
  - left. injection H as <-. apply add_issue_ne.
Qed.

(** Nothing takes a complaint back. *)
Lemma put_issues e x : en_issues (put e x) = en_issues e.
Proof. unfold put. destruct x as [[|a [|b [|c [|d rest]]]] data]; try done. cbn. by destruct (String.eqb _ _). Qed.

Lemma place_entry_issues f segs e e' : place_entry f segs e = Ok e' -> en_issues e <> [] -> en_issues e' <> [].
Proof.
  intros H Hi. destruct segs as [|a segs]; [by injection H as <-|].
  destruct (place_entry_cases _ _ _ _ H) as [?|(_ & _ & ->)]; [done|done|]. by rewrite put_issues.
Qed.

Lemma unwrapped_ne unwrap root segs : segs <> [] -> unwrapped unwrap root segs <> [].
Proof. destruct segs as [|a [|b l]]; try done. cbn. by destruct (_ && _). Qed.

Lemma normalize_ne name segs : normalizeArchivePath name = Some segs -> segs <> [].
Proof. unfold normalizeArchivePath. destruct (_ || _); [done|]. destruct (negb _); [done|]. destruct (filter _ _); [done|]. by intros [= <-]. Qed.

Lemma read_entries_spec unwrap root files : forall expanded e e',
  read_entries unwrap root expanded files e = Ok e' -> en_issues e' = [] ->
  en_issues e = [] /\ Forall (fine unwrap root) files /\ e' = fold_left put (contents unwrap root files) e.
Proof.
  induction files as [|f files IH]; intros expanded e e' H Hi; cbn [read_entries] in H; [injection H as <-; done|].
  unfold contents. cbn [omap list_omap]. unfold item_of at 1, live_path. destruct (zf_IsDir f) eqn:Ed.
  { destruct (IH _ _ _ H Hi) as (H1 & H2 & ->). split; [done|]. split; [|done]. constructor; [by left|done]. }
  destruct (normalizeArchivePath (zf_Name f)) as [segs|] eqn:En.
  2:{ destruct (IH _ _ _ H Hi) as (H1 & _). by apply add_issue_ne in H1. }
  destruct (ignoredArchiveEntry segs) eqn:Eg.
  { destruct (IH _ _ _ H Hi) as (H1 & H2 & ->). split; [done|]. split; [|done]. constructor; [|done]. right. exists segs. by split; [|left]. }
  cbv zeta in H. destruct (_ <? _); [done|]. destruct (place_entry f _ e) as [e1|] eqn:Ep; [|done]. cbn [mbind res_bind] in H.
  destruct (IH _ _ _ H Hi) as (H1 & H2 & ->).
  destruct (place_entry_cases _ _ _ _ Ep) as [?|(Hp & Hr & ->)]; [by apply unwrapped_ne, (normalize_ne (zf_Name f))|done|].
  rewrite put_issues in H1. split; [done|]. split; [|done]. constructor; [|done]. right. exists segs. split; [done|]. right. done.
Qed.

(** What is found under a path. *)
Definition view (e : batchArchiveEntries) (segs : list string) : option string :=
  match segs with
  | [name] => en_rootFiles e !! name
  | [folder; name] => en_folders e !! folder ≫= (fun m => m !! name)
  | [folder; _; name] => en_extraFolders e !! folder ≫= (fun m => m !! name)
  | _ => None
  end.

Lemma addArchiveFile_lookup folder name content m f n :
  (addArchiveFile folder name content m !! f ≫= (fun m => m !! n)) =
  if decide (f = folder /\ n = name) then Some content else m !! f ≫= (fun m => m !! n).
Proof.
  unfold addArchiveFile. destruct (decide (f = folder)) as [->|Hf].
  - rewrite lookup_insert_eq. cbn. destruct (decide (n = name)) as [->|Hn].
    + rewrite lookup_insert_eq. by destruct (decide _) as [?|[]].
    + rewrite lookup_insert_ne by done. destruct (decide _) as [[_ ?]|_]; [done|]. by destruct (m !! folder).
  - rewrite lookup_insert_ne by done. by destruct (decide _) as [[? _]|_].
Qed.

Lemma place_ok_3 a b c : place_ok [a; b; c] = true -> b = "files".
Proof. cbn. apply String.eqb_eq. Qed.

Lemma view_put e x segs :
  place_ok x.1 = true -> place_ok segs = true ->
  view (put e x) segs = if decide (segs = x.1 /\ ignored_root x.1 = false) then Some x.2 else view e segs.
Proof.
  destruct x as [p data]. cbn [fst snd]. intros Hx Hs.
  destruct p as [|a [|b [|c [|d rest]]]]; [done|..|done]; unfold put; cbn [fst snd].
  - cbn [ignored_root]. destruct (String.eqb (caseFileExtension a) "") eqn:Ex.
    { destruct (decide _) as [[_ ?]|_]; [done|]. by destruct segs as [|? [|? [|? [|? ?]]]]. }
    destruct segs as [|a' [|b' [|c' [|d' rest']]]]; try done; cbn [view].
    2-3: destruct (decide _) as [[[=] _]|_]; done.
    destruct (decide _) as [[[= ->] _]|Hne]; cbn.
    + by rewrite lookup_insert_eq.
    + rewrite lookup_insert_ne; [done|]. intros ->. by apply Hne.
  - destruct segs as [|a' [|b' [|c' [|d' rest']]]]; try done; cbn [view].
    1,3: destruct (decide _) as [[[=] _]|_]; done.
    cbn. rewrite addArchiveFile_lookup. cbn [ignored_root].
    destruct (decide (a' = a /\ b' = b)) as [[-> ->]|Hne]; [by destruct (decide _) as [?|[]]|].
    destruct (decide _) as [[E _]|_]; [|done]. injection E as -> ->. by destruct Hne.
  - apply place_ok_3 in Hx as ->. destruct segs as [|a' [|b' [|c' [|d' rest']]]]; try done; cbn [view].
    1-2: destruct (decide _) as [[[=] _]|_]; done.
    apply place_ok_3 in Hs as ->. cbn. rewrite addArchiveFile_lookup.
    destruct (decide (a' = a /\ c' = c)) as [[-> ->]|Hne]; [by destruct (decide _) as [?|[]]|].
    destruct (decide _) as [[E _]|_]; [|done]. injection E as -> ->. by destruct Hne.
Qed.

Definition placed (L : list item) : Prop := NoDup L.*1 /\ Forall (fun x => place_ok x.1 = true) L.

Lemma view_placed L segs d :
  placed L -> place_ok segs = true ->
  view (fold_left put L no_entries) segs = Some d <-> (segs, d) ∈ L /\ ignored_root segs = false.
Proof.
  intros [Hnd Hok] Hs. revert Hnd Hok. induction L as [|x L IH] using rev_ind; intros Hnd Hok.
  - split; [|set_solver]. destruct segs as [|a [|b [|c [|e rest]]]]; done.
  - rewrite fold_left_app. cbn [fold_left]. rewrite fmap_app in Hnd. apply NoDup_app in Hnd as (Hnd & Hx & _).
    apply Forall_app in Hok as [Hok [Hxok _]%Forall_cons]. specialize (IH Hnd Hok). rewrite view_put by done.
    rewrite elem_of_app, list_elem_of_singleton. destruct (decide _) as [[-> Hi]|Hne].
    + split; [intros [= <-]; split; [right; by destruct x|done]|]. intros [[H|H] _].
      * apply (list_elem_of_fmap_2 fst) in H. cbn in H. exfalso. apply (Hx _ H). set_solver.
      * by rewrite <- H.
    + rewrite IH. split; [intros [H Hi]; split; [by left|done]|]. intros [[H| <-] Hi]; [done|]. exfalso. by apply Hne.
Qed.

(** No folder without a file in it. *)
Definition inhabited (e : batchArchiveEntries) : Prop :=
  (forall f m, en_folders e !! f = Some m -> m <> ∅) /\ (forall f m, en_extraFolders e !! f = Some m -> m <> ∅).

Lemma addArchiveFile_ne folder name content m :
  (forall f m', m !! f = Some m' -> m' <> ∅) -> forall f m', addArchiveFile folder name content m !! f = Some m' -> m' <> ∅.
Proof.
  intros H f m'. unfold addArchiveFile. intros [[<- <-]|[_ Hf]]%lookup_insert_Some; [apply insert_non_empty|by eapply H].
Qed.

Lemma put_inhabited e x : inhabited e -> inhabited (put e x).
Proof.
  intros [H1 H2]. destruct x as [[|a [|b [|c [|d rest]]]] data]; unfold put; cbn [fst snd]; try done.
  - by destruct (String.eqb _ _).
  - split; [|done]. by apply addArchiveFile_ne.
  - split; [done|]. by apply addArchiveFile_ne.
Qed.

Lemma placed_inhabited L : inhabited (fold_left put L no_entries).
Proof.
  induction L as [|x L IH] using rev_ind; [split; intros f m; cbn; by rewrite lookup_empty|].
  rewrite fold_left_app. by apply put_inhabited.
Qed.

Lemma folder_listed L f :
  placed L -> is_Some (en_folders (fold_left put L no_entries) !! f) <-> exists n d, ([f; n], d) ∈ L.
Proof.
  intros HL. split.
  - intros [m Hm]. pose proof (proj1 (placed_inhabited L) _ _ Hm) as Hne. apply map_choose in Hne as (n & d & Hn).
    exists n, d. apply (view_placed L [f; n] d HL eq_refl). cbn. by rewrite Hm.
  - intros (n & d & H). assert (view (fold_left put L no_entries) [f; n] = Some d) as Hv by (by apply view_placed).
    cbn in Hv. by destruct (_ !! f).
Qed.

Lemma extra_folder_listed L f :
  placed L -> is_Some (en_extraFolders (fold_left put L no_entries) !! f) <-> exists n d, ([f; "files"; n], d) ∈ L.
Proof.
  intros HL. split.
  - intros [m Hm]. pose proof (proj2 (placed_inhabited L) _ _ Hm) as Hne. apply map_choose in Hne as (n & d & Hn).
    exists n, d. apply (view_placed L [f; "files"; n] d HL eq_refl). cbn. by rewrite Hm.
  - intros (n & d & H). assert (view (fold_left put L no_entries) [f; "files"; n] = Some d) as Hv by (by apply view_placed).
    cbn in Hv. by destruct (_ !! f).
Qed.

Lemma ignored_placed L : en_ignored (fold_left put L no_entries) = omap (fun x => if ignored_root x.1 then head x.1 else None) L.
Proof.
  induction L as [|x L IH] using rev_ind; [done|]. rewrite fold_left_app, omap_app, <- IH. cbn [fold_left omap list_omap].
  destruct x as [[|a [|b [|c [|d rest]]]] data]; unfold put; cbn; rewrite ?app_nil_r; try done.
  destruct (String.eqb _ _); cbn; by rewrite ?app_nil_r.
Qed.

(** ** Layouts *)

Definition is_in (n : string) : bool := hasExtension n ".in".
Definition is_out (n : string) : bool := negb (is_in n) && hasExtension n ".out".

(** An extra file that would be taken for the case's own goes to [files/]. *)
Definition ambiguous (x : batchExtraFile) : bool := hasExtension (xf_Name x) ".in" || hasExtension (xf_Name x) ".out".

Definition case_items (c : batchTestCase) : list item :=
  ([bt_Folder c; bt_InputName c], bt_InputData c) :: ([bt_Folder c; bt_OutputName c], bt_OutputData c) ::
  ((fun x => (if ambiguous x then [bt_Folder c; "files"; xf_Name x] else [bt_Folder c; xf_Name x], xf_Data x)) <$> bt_ExtraFiles c).

Record case_wf (c : batchTestCase) : Prop := {
  wf_input : is_in (bt_InputName c) = true;
  wf_output : is_out (bt_OutputName c) = true;
  wf_sorted : StronglySorted byte_le (xf_Name <$> bt_ExtraFiles c);
  wf_names : NoDup (bt_InputName c :: bt_OutputName c :: (xf_Name <$> bt_ExtraFiles c))
}.

(** The files directly in the folder of a case. *)
Definition pair_of (x : batchExtraFile) : string * string := (xf_Name x, xf_Data x).
Definition own_files (c : batchTestCase) : list (string * string) :=
  (bt_InputName c, bt_InputData c) :: (bt_OutputName c, bt_OutputData c) ::
  (pair_of <$> filter (fun x => negb (ambiguous x)) (bt_ExtraFiles c)).
Definition sub_files (c : batchTestCase) : list (string * string) := pair_of <$> filter (fun x => ambiguous x) (bt_ExtraFiles c).

Lemma is_in_out n : is_in n = true -> is_out n = false.
Proof. unfold is_out. by intros ->. Qed.

Lemma not_ambiguous x : ambiguous x = false -> is_in (xf_Name x) = false /\ is_out (xf_Name x) = false.
Proof. unfold ambiguous, is_out, is_in. intros [-> ->]%orb_false_iff. done. Qed.

(** A map visited in any order. *)
Lemma visit_list (m : gmap string string) l :
  NoDup l.*1 -> (forall n d, m !! n = Some d <-> (n, d) ∈ l) -> visit m ≡ₚ l.
Proof.
  intros Hl Hm. rewrite visit_perm. apply NoDup_Permutation; [apply NoDup_map_to_list|by eapply NoDup_fmap_1|].
  intros [n d]. rewrite elem_of_map_to_list. apply Hm.
Qed.

Lemma own_names_NoDup c : case_wf c -> NoDup (own_files c).*1.
Proof.
  intros [_ _ _ H]. unfold own_files. cbn [fmap list_fmap fst]. rewrite <- list_fmap_compose.
  change (fst ∘ pair_of) with xf_Name. eapply sublist_NoDup; [exact H|]. do 2 constructor. apply fmap_sublist, sublist_filter.
Qed.

(** Which of the folder's names are inputs, outputs and extras. *)
Lemma own_extras c x : x ∈ filter (fun x => negb (ambiguous x)) (bt_ExtraFiles c) -> is_in (xf_Name x) = false /\ is_out (xf_Name x) = false.
Proof. intros [H%Is_true_eq_true _]%list_elem_of_filter. by apply not_ambiguous, negb_true_iff. Qed.

Lemma own_names c : (own_files c).*1 = bt_InputName c :: bt_OutputName c :: (xf_Name <$> filter (fun x => negb (ambiguous x)) (bt_ExtraFiles c)).
Proof. unfold own_files. cbn. by rewrite <- list_fmap_compose. Qed.

Lemma own_inputs c : case_wf c -> filter (fun n => is_in n) (own_files c).*1 = [bt_InputName c].
Proof.
  intros [Hi Ho _ _]. rewrite own_names, !filter_bool_cons, Hi.
  destruct (is_in (bt_OutputName c)) eqn:E; [by rewrite (is_in_out _ E) in Ho|]. f_equal.
  apply filter_bool_none. intros n (x & -> & Hx)%list_elem_of_fmap. by apply own_extras in Hx as [? _].
Qed.

Lemma own_outputs c : case_wf c -> filter (fun n => is_out n) (own_files c).*1 = [bt_OutputName c].
Proof.
  intros [Hi Ho _ _]. rewrite own_names, !filter_bool_cons, Ho, (is_in_out _ Hi). f_equal.
  apply filter_bool_none. intros n (x & -> & Hx)%list_elem_of_fmap. by apply own_extras in Hx as [_ ?].
Qed.

Lemma wf_extra_names c x : case_wf c -> x ∈ bt_ExtraFiles c -> xf_Name x <> bt_InputName c /\ xf_Name x <> bt_OutputName c.
Proof.
  intros [_ _ _ H] Hx. apply (list_elem_of_fmap_2 xf_Name) in Hx. apply NoDup_cons in H as [Hi [Ho _]%NoDup_cons].
  split; intros E; rewrite E in Hx; [apply Hi; by right|by apply Ho].
Qed.

Lemma own_rest c : case_wf c ->
  filter (fun x : string * string => negb (String.eqb x.1 (bt_InputName c)) && negb (String.eqb x.1 (bt_OutputName c))) (own_files c) =
  pair_of <$> filter (fun x => negb (ambiguous x)) (bt_ExtraFiles c).
Proof.
  intros Hc. unfold own_files. rewrite !filter_bool_cons. cbn [fst]. rewrite !String.eqb_refl, andb_false_r. cbn [negb andb].
  assert (forall l : list batchExtraFile, (forall x, x ∈ l -> x ∈ bt_ExtraFiles c) ->
    filter (fun x : string * string => negb (String.eqb x.1 (bt_InputName c)) && negb (String.eqb x.1 (bt_OutputName c))) (pair_of <$> l) =
    pair_of <$> l) as H.
  { induction l as [|x l IH]; intros Hl; [done|]. cbn [fmap list_fmap]. rewrite filter_bool_cons. cbn [pair_of fst].
    destruct (wf_extra_names c x Hc (Hl x ltac:(left))) as [H1%String.eqb_neq H2%String.eqb_neq]. rewrite H1, H2. cbn. f_equal.
    apply IH. intros y Hy. apply Hl. by right. }
  rewrite H; [done|]. by intros x [_ Hx]%list_elem_of_filter.
Qed.

Lemma add_extras_fresh name files more : forall extras l,
  (forall x, x ∈ more -> files !! x.1 = None) ->
  add_extras name files more extras l = (extras ++ ((fun x => mk_extra x.1 x.2) <$> more), l).
Proof.
  induction more as [|x more IH]; intros extras l H; [by rewrite app_nil_r|]. unfold add_extras. cbn [fold_left].
  rewrite (H x) by left. cbn [bool_decide]. destruct (bool_decide _) eqn:E; [by apply bool_decide_eq_true in E as [? ?]|].
  fold (add_extras name files more (extras ++ [mk_extra x.1 x.2]) l). rewrite IH by (intros y Hy; apply H; by right).
  cbn. by rewrite <- app_assoc.
Qed.

Lemma unpair (l : list batchExtraFile) : (fun x : string * string => mk_extra x.1 x.2) <$> (pair_of <$> l) = l.
Proof. induction l as [|[n d] l IH]; [done|]. cbn in *. by rewrite IH. Qed.

#[export] Instance by_extra_name_trans : Transitive by_extra_name.
Proof. intros x y z. unfold by_extra_name. apply transitivity. Qed.
#[export] Instance by_extra_name_total : Total by_extra_name.
Proof. intros x y. unfold by_extra_name. apply (total byte_le). Qed.

Lemma NoDup_name_inj (l : list batchExtraFile) x y :
  NoDup (xf_Name <$> l) -> x ∈ l -> y ∈ l -> xf_Name x = xf_Name y -> x = y.
Proof.
  induction l as [|z l IH]; [set_solver|]. cbn. intros [Hz Hl]%NoDup_cons Hx Hy E.
  apply elem_of_cons in Hx as [->|Hx], Hy as [->|Hy]; [done| | |by apply IH].
  - exfalso. apply Hz. rewrite E. by apply list_elem_of_fmap_2.
  - exfalso. apply Hz. rewrite <- E. by apply list_elem_of_fmap_2.
Qed.

Lemma StronglySorted_names (l : list batchExtraFile) : StronglySorted byte_le (xf_Name <$> l) -> StronglySorted by_extra_name l.
Proof.
  induction l as [|x l IH]; intros H; [constructor|]. cbn in H. inversion H as [|? ? Hl Hx]; subst. constructor; [by apply IH|].
  rewrite Forall_fmap in Hx. exact Hx.
Qed.

Lemma sorted_extras l l' :
  NoDup (xf_Name <$> l') -> StronglySorted byte_le (xf_Name <$> l') -> l ≡ₚ l' -> merge_sort by_extra_name l = l'.
Proof.
  intros Hn Hs Hp. apply (StronglySorted_unique_strong by_extra_name).
  - intros x y Hx Hy H1 H2. rewrite merge_sort_Permutation, Hp in Hx. apply (NoDup_name_inj l'); [done..|]. by apply (anti_symm byte_le).
  - apply StronglySorted_merge_sort; apply _.
  - by apply StronglySorted_names.
  - by rewrite merge_sort_Permutation.
Qed.

(** ** A folder that was laid out *)

(** What the entries hold of the folder of [c]. *)
Record folder_holds (e : batchArchiveEntries) (c : batchTestCase) (m : gmap string string) : Prop := {
  fh_folder : en_folders e !! bt_Folder c = Some m;
  fh_own : forall n d, m !! n = Some d <-> (n, d) ∈ own_files c;
  fh_sub : forall n d, default ∅ (en_extraFolders e !! bt_Folder c) !! n = Some d <-> (n, d) ∈ sub_files c
}.

Lemma sort_one l x : l ≡ₚ [x] -> sort_strings l = [x].
Proof. intros H. apply sort_strings_unique; [|done]. repeat constructor. Qed.

Lemma folderCase_laid_out e c m l : case_wf c -> folder_holds e c m -> folderCase e (bt_Folder c) m l = (Some c, l).
Proof.
  intros Hc [_ Hm Hs]. pose proof (visit_list m (own_files c) (own_names_NoDup c Hc) Hm) as Hv.
  assert (NoDup (sub_files c).*1) as Hns.
  { unfold sub_files. rewrite <- list_fmap_compose. change (fst ∘ pair_of) with xf_Name.
    destruct Hc as [_ _ _ [_ [_ H]%NoDup_cons]%NoDup_cons]. eapply sublist_NoDup; [exact H|]. apply fmap_sublist, sublist_filter. }
  pose proof (visit_list _ (sub_files c) Hns Hs) as Hvs.
  unfold folderCase.
  rewrite (sort_one _ (bt_InputName c)) by (rewrite Hv; apply reflexive_eq, (own_inputs c Hc)).
  rewrite (sort_one _ (bt_OutputName c)) by (rewrite Hv; apply reflexive_eq, (own_outputs c Hc)). cbn [only_name].
  rewrite add_extras_fresh.
  2:{ intros [n d] Hn. rewrite Hvs in Hn. apply list_elem_of_fmap in Hn as (x & [= -> ->] & [Ha%Is_true_eq_true Hx]%list_elem_of_filter).
      destruct (m !! xf_Name x) as [d|] eqn:Ed; [|done]. exfalso. apply Hm in Ed. cbn. unfold own_files in Ed.
      destruct (wf_extra_names c x Hc Hx). apply elem_of_cons in Ed as [[= ? ?]|[[= ? ?]|(y & [= E _] & [Hy%Is_true_eq_true Hy']%list_elem_of_filter)%list_elem_of_fmap]%elem_of_cons]; [done..|].
      unfold ambiguous in *. rewrite E in Ha. by rewrite Ha in Hy. }
  assert (m !! bt_InputName c = Some (bt_InputData c)) as -> by (apply Hm; left).
  assert (m !! bt_OutputName c = Some (bt_OutputData c)) as -> by (apply Hm; right; left). cbn [default from_option id].
  rewrite (sorted_extras _ (bt_ExtraFiles c)); [by destruct c| | |].
  - by destruct Hc as [_ _ _ [_ [_ H]%NoDup_cons]%NoDup_cons].
  - apply Hc.
  - rewrite Hv, Hvs, (own_rest c Hc). unfold sub_files. rewrite !unpair. apply filter_bool_split.
Qed.

(** ** Cases that were laid out *)

Record layout (cs : list batchTestCase) (L : list item) : Prop := {
  ly_items : L ≡ₚ mjoin (case_items <$> cs);
  ly_wf : Forall case_wf cs;
  ly_sorted : StronglySorted byte_le (bt_Folder <$> cs);
  ly_names : NoDup (bt_Folder <$> cs)
}.

Lemma item_folder c x : x ∈ case_items c -> head x.1 = Some (bt_Folder c) /\ place_ok x.1 = true /\ ignored_root x.1 = false.
Proof.
  unfold case_items. intros [->|[->|(y & -> & _)%list_elem_of_fmap]%elem_of_cons]%elem_of_cons; [done..|].
  by destruct (ambiguous y).
Qed.

Lemma item_own c n d : ([bt_Folder c; n], d) ∈ case_items c <-> (n, d) ∈ own_files c.
Proof.
  unfold case_items, own_files. rewrite !elem_of_cons, !list_elem_of_fmap. setoid_rewrite list_elem_of_filter. split.
  - intros [[= -> ->]|[[= -> ->]|(x & E & Hx)]]; [by left|by right; left|]. right. right. exists x.
    destruct (ambiguous x); [done|]. by injection E as -> ->.
  - intros [[= -> ->]|[[= -> ->]|(x & [= -> ->] & Ha & Hx)]]; [by left|by right; left|]. right. right. exists x.
    apply Is_true_eq_true, negb_true_iff in Ha. by rewrite Ha.
Qed.

Lemma item_sub c n d : ([bt_Folder c; "files"; n], d) ∈ case_items c <-> (n, d) ∈ sub_files c.
Proof.
  unfold case_items, sub_files. rewrite !elem_of_cons, !list_elem_of_fmap. setoid_rewrite list_elem_of_filter. split.
  - intros [[=]|[[=]|(x & E & Hx)]]. exists x. destruct (ambiguous x); [|done]. by injection E as -> ->.
  - intros (x & [= -> ->] & Ha & Hx). right. right. exists x. apply Is_true_eq_true in Ha. by rewrite Ha.
Qed.

Lemma case_items_NoDup c : case_wf c -> NoDup (case_items c).*1.
Proof.
  intros [_ _ _ H]. apply (NoDup_fmap_1 last). apply (NoDup_fmap_2 Some) in H.
  assert (last <$> (case_items c).*1 = Some <$> (bt_InputName c :: bt_OutputName c :: (xf_Name <$> bt_ExtraFiles c))) as ->; [|done].
  unfold case_items. cbn. do 2 f_equal. rewrite <- !list_fmap_compose. apply list_fmap_ext. intros _ x _. cbn. by destruct (ambiguous x).
Qed.

Section Layout.
Context (cs : list batchTestCase) (L : list item) (HL : layout cs L).

Lemma layout_elem x : x ∈ L <-> exists c, c ∈ cs /\ x ∈ case_items c.
Proof.
  rewrite (ly_items _ _ HL), list_elem_of_join. setoid_rewrite list_elem_of_fmap. split.
  - intros (l & Hx & c & -> & Hc). by exists c.
  - intros (c & Hc & Hx). exists (case_items c). split; [done|]. by exists c.
Qed.

Lemma layout_placed : placed L.
Proof.
  split.
  - rewrite (ly_items _ _ HL). destruct HL as [_ Hwf _ Hn]. clear HL. induction cs as [|c l IH]; [constructor|].
    cbn [fmap list_fmap mjoin list_join]. rewrite fmap_app. apply Forall_cons in Hwf as [Hc Hwf]. cbn in Hn. apply NoDup_cons in Hn as [Hf Hn].
    apply NoDup_app. split; [by apply case_items_NoDup|]. split; [|by apply IH].
    intros p (x & -> & Hx)%list_elem_of_fmap (y & E & Hy)%list_elem_of_fmap.
    apply list_elem_of_join in Hy as (items & Hy & (c' & -> & Hc')%list_elem_of_fmap).
    apply item_folder in Hx as [Hx _]. apply item_folder in Hy as [Hy _]. rewrite E, Hy in Hx. injection Hx as Hx.
    apply Hf. rewrite <- Hx. by apply list_elem_of_fmap_2.
  - apply Forall_forall. intros x (c & _ & Hx)%layout_elem. by apply item_folder in Hx as (_ & ? & _).
Qed.

Lemma folder_inj c c' : c ∈ cs -> c' ∈ cs -> bt_Folder c = bt_Folder c' -> c = c'.
Proof.
  destruct HL as [_ _ _ Hn]. clear HL. revert Hn. generalize cs as l. induction l as [|z l IH]; [set_solver|]. cbn.
  intros [Hz Hl]%NoDup_cons Hx Hy E. apply elem_of_cons in Hx as [->|Hx], Hy as [->|Hy]; [done| | |by apply IH].
  - exfalso. apply Hz. rewrite E. by apply list_elem_of_fmap_2.
  - exfalso. apply Hz. rewrite <- E. by apply list_elem_of_fmap_2.
Qed.

Lemma layout_case c p d : c ∈ cs -> (bt_Folder c :: p, d) ∈ L <-> (bt_Folder c :: p, d) ∈ case_items c.
Proof.
  intros Hc. rewrite layout_elem. split; [|by exists c]. intros (c' & Hc' & Hx). pose proof (item_folder _ _ Hx) as ([= E] & _).
  assert (c = c') as -> by by apply folder_inj. exact Hx.
Qed.

Definition laid_out : batchArchiveEntries := fold_left put L no_entries.

Lemma laid_out_holds c : c ∈ cs -> exists m, folder_holds laid_out c m.
Proof.
  intros Hc. assert (is_Some (en_folders laid_out !! bt_Folder c)) as [m Hm].
  { apply folder_listed; [apply layout_placed|]. exists (bt_InputName c), (bt_InputData c). apply layout_case; [done|]. left. }
  exists m. split; [done| |]; intros n d.
  - rewrite <- item_own, <- layout_case by done.
    pose proof (view_placed L [bt_Folder c; n] d layout_placed eq_refl) as H. cbn [view ignored_root] in H. fold laid_out in H.
    rewrite Hm in H. cbn in H. rewrite H. tauto.
  - rewrite <- item_sub, <- layout_case by done.
    pose proof (view_placed L [bt_Folder c; "files"; n] d layout_placed eq_refl) as H. cbn [view ignored_root] in H. fold laid_out in H.
    destruct (en_extraFolders laid_out !! bt_Folder c); cbn in *; [tauto|]. rewrite lookup_empty. tauto.
Qed.

Lemma laid_out_root : en_rootFiles laid_out = ∅.
Proof.
  assert (forall M e, (forall x, x ∈ M -> length x.1 <> 1%nat) -> en_rootFiles (fold_left put M e) = en_rootFiles e) as H.
  { induction M as [|x M IH]; intros e HM; [done|]. cbn [fold_left]. rewrite IH by (intros y Hy; apply HM; by right).
    specialize (HM x ltac:(left)). destruct x as [[|a [|b [|c [|d rest]]]] data]; done. }
  unfold laid_out. rewrite H; [done|]. intros x (c & _ & Hx)%layout_elem. unfold case_items in Hx.
  apply elem_of_cons in Hx as [->|[->|(y & -> & _)%list_elem_of_fmap]%elem_of_cons]; [done..|]. by destruct (ambiguous y).
Qed.

Lemma laid_out_issues : en_issues laid_out = [].
Proof.
  unfold laid_out. assert (forall M e, en_issues (fold_left put M e) = en_issues e) as H; [|apply H].
  induction M as [|x M IH]; intros e; [done|]. cbn [fold_left]. by rewrite IH, put_issues.
Qed.

Lemma laid_out_ignored : en_ignored laid_out = [].
Proof.
  unfold laid_out. rewrite ignored_placed. apply omap_none. intros x (c & _ & (_ & _ & ->)%item_folder)%layout_elem. done.
Qed.

Lemma laid_out_extra_folders f : f ∈ (visit (en_extraFolders laid_out)).*1 -> is_Some (en_folders laid_out !! f).
Proof.
  intros ([f' m] & -> & Hm)%list_elem_of_fmap. rewrite visit_perm, elem_of_map_to_list in Hm. cbn.
  assert (is_Some (en_extraFolders laid_out !! f')) as (n & d & (c & Hc & Hx)%layout_elem)%(extra_folder_listed L _ layout_placed) by by exists m.
  pose proof (item_folder _ _ Hx) as ([= ->] & _). destruct (laid_out_holds c Hc) as [m' [Hm' _ _]]. by exists m'.
Qed.

Lemma laid_out_names : uniqueSorted (visit (en_folders laid_out)).*1 = bt_Folder <$> cs.
Proof.
  unfold uniqueSorted. assert ((visit (en_folders laid_out)).*1 ≡ₚ bt_Folder <$> cs) as Hp.
  { apply NoDup_Permutation; [rewrite visit_perm; apply NoDup_fst_map_to_list|apply HL|]. intros f. rewrite !list_elem_of_fmap. split.
    - intros ([f' m] & -> & Hm). rewrite visit_perm, elem_of_map_to_list in Hm. cbn.
      assert (is_Some (en_folders laid_out !! f')) as (n & d & (c & Hc & Hx)%layout_elem)%(folder_listed L _ layout_placed) by by exists m.
      pose proof (item_folder _ _ Hx) as ([= ->] & _). by exists c.
    - intros (c & -> & Hc). destruct (laid_out_holds c Hc) as [m [Hm _ _]]. exists (bt_Folder c, m).
      split; [done|]. by rewrite visit_perm, elem_of_map_to_list. }
  rewrite (sort_strings_unique _ (bt_Folder <$> cs)); [|apply HL|done]. apply uniq_NoDup, HL.
Qed.

Lemma one_case_laid_out c cases : c ∈ cs -> one_case laid_out ∅ ∅ (cases, []) (bt_Folder c) = (cases ++ [c], []).
Proof.
  intros Hc. destruct (laid_out_holds c Hc) as [m Hm]. unfold one_case. rewrite (fh_folder _ _ _ Hm), !lookup_empty. cbn.
  rewrite (folderCase_laid_out _ c m); [done| |done]. by apply (proj1 (Forall_forall _ _) (ly_wf _ _ HL)).
Qed.

Lemma testCases_laid_out : cs <> [] -> (length cs <= MaxBatchTestCases)%nat -> testCases laid_out = Ok cs.
Proof.
  intros Hne Hle. unfold testCases, rootPairNames. rewrite laid_out_root.
  assert (visit (∅ : gmap string string) = []) as -> by (apply Permutation_nil_r; by rewrite visit_perm, map_to_list_empty).
  cbn [fmap list_fmap]. change (sort_strings []) with (@nil string). cbn [fold_left]. rewrite laid_out_issues.
  assert (forall l names, (forall f, f ∈ names -> is_Some (en_folders laid_out !! f)) ->
    fold_left (fun l x => if bool_decide (is_Some (en_folders laid_out !! x)) then l else add_issue x FilesWithoutFolder l) names l = l) as Hx.
  { intros l names. induction names as [|f names IH]; intros H; [done|]. cbn [fold_left]. rewrite bool_decide_true by (apply H; left).
    apply IH. intros g Hg. apply H. by right. }
  rewrite Hx by apply laid_out_extra_folders.
  assert (visit (∅ : gmap string string) = []) as -> by (apply Permutation_nil_r; by rewrite visit_perm, map_to_list_empty).
  cbn [fmap list_fmap issues_err]. rewrite !app_nil_r, laid_out_names. destruct (bt_Folder <$> cs) as [|n rest] eqn:En; [by destruct cs|].
  rewrite <- En, length_fmap.
  rewrite (proj2 (Nat.ltb_ge _ _)) by done.
  assert (forall l acc, (forall c, c ∈ l -> c ∈ cs) -> fold_left (one_case laid_out ∅ ∅) (bt_Folder <$> l) (acc, []) = (acc ++ l, [])) as Hf.
  { induction l as [|c l IH]; intros acc H; [by rewrite app_nil_r|]. cbn [fmap list_fmap fold_left].
    rewrite one_case_laid_out by (apply H; left). rewrite IH by (intros y Hy; apply H; by right). by rewrite <- app_assoc. }
  by rewrite Hf.
Qed.
End Layout.

(** ** The round trip *)

(** The bytes the headers of the counted entries declare. *)
Definition declared (files : list zip_file) : Z := foldr Z.add 0 (zf_size <$> files).

(** Every entry can be read, and its header tells its length. *)
Definition honest (f : zip_file) : Prop := exists d, zf_data f = Some d /\ zf_size f = Z.of_nat (String.length d).

Lemma honest_size f : honest f -> 0 <= zf_size f.
Proof. intros (d & _ & ->). lia. Qed.

(** An archive that only holds the files of a layout is read without complaint. *)
Lemma read_entries_laid_out root files : forall expanded e,
  Forall (fun f => honest f /\ zf_size f <= MaxBatchCaseFileBytes /\
    (zf_IsDir f = true \/ exists segs, normalizeArchivePath (zf_Name f) = Some segs /\ ignoredArchiveEntry segs = false /\
      place_ok segs = true /\ ignored_root segs = false)) files ->
  0 <= expanded -> expanded + declared files <= MaxBatchExpandedBytes ->
  read_entries false root expanded files e = Ok (fold_left put (contents false root files) e).
Proof.
  induction files as [|f files IH]; intros expanded e Hf H0 Hle; [done|]. apply Forall_cons in Hf as [((d & Hd & Hs) & Hm & Hf) Hfs].
  cbn [read_entries]. unfold contents. cbn [omap list_omap]. unfold item_of at 1, live_path. cbn in Hle. fold (declared files) in Hle.
  assert (0 <= zf_size f) as Hpos by lia.
  destruct (zf_IsDir f) eqn:Ed; [cbn; apply IH; [done|done|lia]|]. destruct Hf as [?|(segs & -> & -> & Hp & Hi)]; [done|]. cbv zeta.
  assert (declared files >= 0) as Hrest.
  { clear -Hfs. unfold declared. induction Hfs as [|g l (Hg & _) _ IH]; [done|]. apply honest_size in Hg. cbn in *. lia. }
  unfold MaxBatchExpandedBytes in *.
  assert (wrap64 (expanded + wrap64 (zf_size f)) = expanded + zf_size f) as ->.
  { rewrite !wrap64_id; [done|unfold int64, min_int64, max_int64; lia|rewrite wrap64_id; unfold int64, min_int64, max_int64; lia]. }
  rewrite (proj2 (Z.ltb_ge _ _)) by lia.
  assert (unwrapped false root segs = segs) as -> by by destruct segs as [|a [|b l]].
  assert (readZipEntry f = Ok d) as Hr by (apply readZipEntry_ok; split_and!; [done|done|lia]).
  assert (place_entry f segs e = Ok (put e (segs, d))) as ->.
  { destruct segs as [|a [|b [|c [|x l]]]]; try done; cbn [place_entry].
    - unfold addRootEntry, put. cbn in Hi, Hp |- *. rewrite Hi in Hp |- *. cbn in Hp. apply negb_true_iff in Hp. by rewrite Hp, Hr.
    - by rewrite Hr.
    - cbn in Hp. by rewrite Hp, Hr. }
  cbn [mbind res_bind option_bind]. rewrite Hi, Hd. cbn [default from_option id fold_left]. by apply IH; [|lia|lia].
Qed.

Lemma item_of_root root f : item_of false root f = item_of false "" f.
Proof.
  unfold item_of, live_path. destruct (zf_IsDir f); [done|]. destruct (normalizeArchivePath _) as [segs|]; [|done].
  by destruct segs as [|s [|t l]].
Qed.

Lemma contents_root root files : contents false root files = contents false "" files.
Proof. unfold contents. induction files as [|f files IH]; [done|]. cbn [omap list_omap]. by rewrite IH, item_of_root. Qed.

(** A layout reads back. An archive that holds the files of some cases, each case in
    its folder, the extra files that look like an input or an output under [files/],
    parses to exactly those cases with nothing ignored, whatever the order of the
    entries and of the maps, when it respects the limits. *)
Theorem layout_round_trip a files cs
  (Ha : ar_files a = Some files) (Hlen : 0 < ar_len a <= MaxBatchArchiveBytes) (Hn : (length files <= MaxBatchEntries)%nat)
  (Hf : Forall (fun f => honest f /\ zf_size f <= MaxBatchCaseFileBytes /\
    (zf_IsDir f = true \/ exists segs, normalizeArchivePath (zf_Name f) = Some segs /\ ignoredArchiveEntry segs = false /\
      place_ok segs = true /\ ignored_root segs = false)) files)
  (Hsum : declared files <= MaxBatchExpandedBytes)
  (Hcs : layout cs (contents false "" files)) (Hne : cs <> []) (Hle : (length cs <= MaxBatchTestCases)%nat) :
  ParseBatchTestCaseArchive a = Ok (cs, []).
Proof.
  unfold ParseBatchTestCaseArchive, readBatchArchive. rewrite Ha. rewrite (proj2 (Z.eqb_neq _ _)), (proj2 (Z.ltb_ge _ _)) by lia.
  rewrite (proj2 (Nat.ltb_ge _ _)) by done. cbv zeta.
  rewrite read_entries_laid_out by (try done; lia). cbn [mbind res_bind]. rewrite contents_root. change (fold_left put _ no_entries) with (laid_out (contents false "" files)).
  rewrite (testCases_laid_out cs _ Hcs Hne Hle), (laid_out_ignored cs _ Hcs). done.
Qed.
End Proofs.
