(* ===== verification/ArchiveExact.v ===== *)
(** * What an accepted archive holds

    An accepted archive holds the files of its cases and the ones it reports as ignored,
    and nothing else ([no_file_lost]); what it expands to is bounded as long as the
    headers declare possible sizes ([expansion_bounded]), and a forged header lifts the
    bound ([forged_size_lifts_the_bound]). *)

From S2P Require Import Prelude GoStrings Archive ArchiveProofs.
From stdpp Require Import sorting.
Local Open Scope Z_scope.

Section Exact.
Context {UT : UnicodeTables} {MO : MapOrder}.

(** ** What an accepted archive holds *)

Lemma only_name_inl l x none many : only_name (sort_strings l) none many = inl x -> l ≡ₚ [x].
Proof.
  unfold only_name. intros H. rewrite <- sort_strings_perm. destruct (sort_strings l) as [|y [|z r]]; [done|by injection H as ->|done].
Qed.

Lemma add_extras_spec name (files : gmap string string) more : forall extras l extras',
  add_extras name files more extras l = (extras', []) ->
  l = [] /\ extras' = extras ++ ((fun x => mk_extra x.1 x.2) <$> more).
Proof.
  induction more as [|x more IH]; intros extras l extras' H; [injection H as <- <-; by rewrite app_nil_r|].
  unfold add_extras in H. cbn [fold_left] in H. destruct (bool_decide _).
  - fold (add_extras name files more extras (add_issue name (DuplicateExtra x.1) l)) in H. apply IH in H as [H _]. by apply add_issue_ne in H.
  - fold (add_extras name files more (extras ++ [mk_extra x.1 x.2]) l) in H. apply IH in H as [-> ->]. split; [done|]. cbn. by rewrite <- app_assoc.
Qed.

(** A case made of the folder [m] and the files of [sub]. *)
Record folder_case (name : string) (m sub : gmap string string) (c : batchTestCase) : Prop := {
  fc_folder : bt_Folder c = name;
  fc_input : is_in (bt_InputName c) = true /\ m !! bt_InputName c = Some (bt_InputData c);
  fc_output : is_out (bt_OutputName c) = true /\ m !! bt_OutputName c = Some (bt_OutputData c);
  fc_extras : forall x, x ∈ bt_ExtraFiles c <->
    (m !! xf_Name x = Some (xf_Data x) /\ xf_Name x <> bt_InputName c /\ xf_Name x <> bt_OutputName c) \/
    sub !! xf_Name x = Some (xf_Data x)
}.

Lemma in_names (m : gmap string string) n : n ∈ (visit m).*1 -> is_Some (m !! n).
Proof. intros ([n' d] & -> & Hn)%list_elem_of_fmap. rewrite visit_perm, elem_of_map_to_list in Hn. by exists d. Qed.

Lemma folderCase_inv e name m l c :
  folderCase e name m l = (Some c, []) -> l = [] /\ folder_case name m (default ∅ (en_extraFolders e !! name)) c.
Proof.
  unfold folderCase. set (input := only_name _ NoInput ManyInputs). set (output := only_name _ NoOutput ManyOutputs). cbv zeta.
  destruct input as [i|r] eqn:Ei; [|by destruct output]. destruct output as [o|r] eqn:Eo; [|done].
  apply only_name_inl in Ei, Eo.
  assert (i ∈ filter (fun n => is_in n) (visit m).*1) as [Hi%Is_true_eq_true Him]%list_elem_of_filter.
  { change (fun n => Is_true (is_in n)) with (fun n => Is_true (hasExtension n ".in")). rewrite Ei. left. }
  assert (o ∈ filter (fun n => is_out n) (visit m).*1) as [Ho%Is_true_eq_true Hom]%list_elem_of_filter.
  { change (fun n => Is_true (is_out n)) with (fun n => Is_true (negb (hasExtension n ".in") && hasExtension n ".out")). rewrite Eo. left. }
  apply in_names in Him as [di Hdi], Hom as [do_ Hdo]. rewrite Hdi, Hdo.
  destruct (add_extras _ _ _ _ _) as [extras l'] eqn:Ex. intros [= <- ->]. apply add_extras_spec in Ex as [-> ->]. split; [done|].
  constructor; [done..|]. cbn [bt_ExtraFiles bt_InputName bt_OutputName]. intros [n d]. cbn [xf_Name xf_Data].
  rewrite merge_sort_Permutation, elem_of_app, !list_elem_of_fmap. setoid_rewrite list_elem_of_filter. setoid_rewrite visit_perm.
  split.
  - intros [([n' d'] & [= -> ->] & Hne & Hn%elem_of_map_to_list)|([n' d'] & [= -> ->] & Hn%elem_of_map_to_list)]; [left|by right].
    cbn in Hne. apply Is_true_eq_true, andb_true_iff in Hne as [H1%negb_true_iff H2%negb_true_iff].
    apply String.eqb_neq in H1, H2. done.
  - intros [(Hn & H1%String.eqb_neq & H2%String.eqb_neq)|Hn]; [left|right]; exists (n, d); (split; [done|]).
    + split; [|by apply elem_of_map_to_list]. cbn. by rewrite H1, H2.
    + by apply elem_of_map_to_list.
Qed.

(** A case that comes from a pair at the root. *)
Record root_case (e : batchArchiveEntries) (inputs outputs : gmap string string) (name : string) (c : batchTestCase) : Prop := {
  rc_folder : bt_Folder c = name;
  rc_input : inputs !! name = Some (bt_InputName c) /\ bt_InputData c = default "" (en_rootFiles e !! bt_InputName c);
  rc_output : outputs !! name = Some (bt_OutputName c) /\ bt_OutputData c = default "" (en_rootFiles e !! bt_OutputName c);
  rc_extras : bt_ExtraFiles c = []
}.

Definition case_from (e : batchArchiveEntries) (inputs outputs : gmap string string) (name : string) (c : batchTestCase) : Prop :=
  match en_folders e !! name with
  | Some m => inputs !! name = None /\ outputs !! name = None /\ folder_case name m (default ∅ (en_extraFolders e !! name)) c
  | None => root_case e inputs outputs name c
  end.

Lemma folderCase_none e name m l l' : folderCase e name m l = (None, l') -> l' <> [].
Proof.
  unfold folderCase. cbv zeta. destruct (only_name _ NoInput ManyInputs), (only_name _ NoOutput ManyOutputs); intros E.
  - by destruct (add_extras _ _ _ _ _).
  - injection E as <-. apply add_issue_ne.
  - injection E as <-. apply add_issue_ne.
  - injection E as <-. apply add_issue_ne.
Qed.

Lemma one_case_inv e inputs outputs cases l name cases' :
  one_case e inputs outputs (cases, l) name = (cases', []) ->
  l = [] /\ exists c, cases' = cases ++ [c] /\ case_from e inputs outputs name c.
Proof.
  unfold one_case, case_from. destruct (en_folders e !! name) as [m|].
  - destruct (bool_decide (is_Some (inputs !! name)) || _) eqn:Eb; [intros [= _ H]; by apply add_issue_ne in H|].
    apply orb_false_iff in Eb as [E1%bool_decide_eq_false E2%bool_decide_eq_false]. rewrite <- eq_None_not_Some in E1, E2.
    destruct (folderCase e name m l) as [[c|] l'] eqn:Ef; intros [= <- ->].
    + apply folderCase_inv in Ef as [-> Hc]. split; [done|]. by exists c.
    + by apply folderCase_none in Ef.
  - destruct (inputs !! name) as [i|] eqn:Ei, (outputs !! name) as [o|] eqn:Eo; intros [= <- H]; try by apply add_issue_ne in H.
    split; [done|]. eexists. split; [done|]. done.
Qed.

Lemma cases_inv e inputs outputs names : forall cases l cases',
  fold_left (one_case e inputs outputs) names (cases, l) = (cases', []) ->
  l = [] /\ exists cs, cases' = cases ++ cs /\ Forall2 (case_from e inputs outputs) names cs.
Proof.
  induction names as [|name names IH]; intros cases l cases' H; cbn [fold_left] in H.
  - injection H as <- <-. split; [done|]. exists []. by rewrite app_nil_r.
  - destruct (one_case e inputs outputs (cases, l) name) as [cases1 l1] eqn:E1. apply IH in H as [-> (cs & -> & Hcs)].
    apply one_case_inv in E1 as [-> (c & -> & Hc)]. split; [done|]. exists (c :: cs). rewrite <- app_assoc. split; [done|]. by constructor.
Qed.

(** *** The pairs at the root *)

Lemma root_pairs_inv names : forall inputs outputs l inputs' outputs',
  fold_left add_root_pair names (inputs, outputs, l) = (inputs', outputs', []) ->
  l = [] /\ inputs ⊆ inputs' /\ outputs ⊆ outputs' /\
  (forall n, n ∈ names -> (if String.eqb (caseFileExtension n) ".out" then outputs' else inputs') !! caseBaseName n = Some n) /\
  (forall b n, inputs' !! b = Some n -> inputs !! b = Some n \/ n ∈ names /\ caseBaseName n = b /\ caseFileExtension n <> ".out") /\
  (forall b n, outputs' !! b = Some n -> outputs !! b = Some n \/ n ∈ names /\ caseBaseName n = b /\ caseFileExtension n = ".out").
Proof.
  induction names as [|x names IH]; intros inputs outputs l inputs' outputs' H; cbn [fold_left] in H.
  { injection H as <- <- <-. split_and!; try done; [set_solver|by left|by left]. }
  unfold add_root_pair in H at 2. cbv zeta in H. destruct (String.eqb (caseFileExtension x) ".out") eqn:Ex.
  - destruct (outputs !! caseBaseName x) eqn:Eb; apply IH in H as (Hl & H1 & H2 & H3 & H4 & H5); [by apply add_issue_ne in Hl|].
    split_and!; [done|done|etrans; [by apply insert_subseteq|done]| | |].
    + intros n [->|Hn]%elem_of_cons; [|by apply H3]. rewrite Ex. eapply lookup_weaken; [|exact H2]. apply lookup_insert_eq.
    + intros b n Hb. destruct (H4 b n Hb) as [?|(? & ? & ?)]; [by left|right]. split_and!; [by right|done..].
    + intros b n Hb. destruct (H5 b n Hb) as [[[<- <-]|[_ ?]]%lookup_insert_Some|(? & ? & ?)]; [right|by left|right].
      * split_and!; [left|done|by apply String.eqb_eq].
      * split_and!; [by right|done..].
  - destruct (inputs !! caseBaseName x) eqn:Eb; apply IH in H as (Hl & H1 & H2 & H3 & H4 & H5); [by apply add_issue_ne in Hl|].
    split_and!; [done|etrans; [by apply insert_subseteq|done]|done| | |].
    + intros n [->|Hn]%elem_of_cons; [|by apply H3]. rewrite Ex. eapply lookup_weaken; [|exact H1]. apply lookup_insert_eq.
    + intros b n Hb. destruct (H4 b n Hb) as [[[<- <-]|[_ ?]]%lookup_insert_Some|(? & ? & ?)]; [right|by left|right].
      * split_and!; [left|done|by apply String.eqb_neq].
      * split_and!; [by right|done..].
    + intros b n Hb. destruct (H5 b n Hb) as [?|(? & ? & ?)]; [by left|right]. split_and!; [by right|done..].
Qed.

Lemma elem_of_uniq l x : x ∈ uniq l <-> x ∈ l.
Proof.
  induction l as [|y [|z l] IH]; [done..|]. change (uniq (y :: z :: l)) with (if String.eqb y z then uniq (z :: l) else y :: uniq (z :: l)).
  destruct (String.eqb y z) eqn:E.
  - apply String.eqb_eq in E as ->. rewrite IH. set_solver.
  - rewrite elem_of_cons, IH. set_solver.
Qed.

Lemma elem_of_uniqueSorted l x : x ∈ uniqueSorted l <-> x ∈ l.
Proof. unfold uniqueSorted. by rewrite elem_of_uniq, sort_strings_perm. Qed.

Lemma visit_names {A} (m : gmap string A) n : n ∈ (visit m).*1 <-> is_Some (m !! n).
Proof.
  rewrite list_elem_of_fmap. setoid_rewrite visit_perm. split.
  - intros ([n' d] & -> & H%elem_of_map_to_list). by exists d.
  - intros [d H]. exists (n, d). by rewrite elem_of_map_to_list.
Qed.

(** What a successful pairing says. *)
Record paired (e : batchArchiveEntries) (inputs outputs : gmap string string) (names : list string) (cases : list batchTestCase) : Prop := {
  pa_names : forall n, n ∈ names <-> is_Some (en_folders e !! n) \/ is_Some (inputs !! n) \/ is_Some (outputs !! n);
  pa_cases : Forall2 (case_from e inputs outputs) names cases;
  pa_extra : forall f, is_Some (en_extraFolders e !! f) -> is_Some (en_folders e !! f);
  pa_root : forall n, is_Some (en_rootFiles e !! n) ->
    (if String.eqb (caseFileExtension n) ".out" then outputs else inputs) !! caseBaseName n = Some n;
  pa_inputs : forall b n, inputs !! b = Some n -> is_Some (en_rootFiles e !! n);
  pa_outputs : forall b n, outputs !! b = Some n -> is_Some (en_rootFiles e !! n);
  pa_length : (length cases <= MaxBatchTestCases)%nat
}.

Lemma extra_folders_ok e names : forall l,
  fold_left (fun l x => if bool_decide (is_Some (en_folders e !! x)) then l else add_issue x FilesWithoutFolder l) names l = [] ->
  l = [] /\ forall x, x ∈ names -> is_Some (en_folders e !! x).
Proof.
  induction names as [|x names IH]; intros l H; cbn [fold_left] in H; [split; [done|set_solver]|].
  apply IH in H as [Hl Hn]. destruct (bool_decide (is_Some _)) eqn:E; [|by apply add_issue_ne in Hl].
  apply bool_decide_eq_true in E. split; [done|]. intros y [->|Hy]%elem_of_cons; auto.
Qed.

Lemma testCases_inv e cases : testCases e = Ok cases -> exists inputs outputs names, paired e inputs outputs names cases.
Proof.
  unfold testCases. destruct (rootPairNames e) as [[inputs outputs] l] eqn:Er. cbv zeta.
  set (l' := fold_left _ (visit (en_extraFolders e)).*1 l). set (names := uniqueSorted _).
  unfold issues_err. destruct l' eqn:El; [|done]. destruct names as [|n0 rest] eqn:En; [done|]. rewrite <- En.
  destruct (MaxBatchTestCases <? length names)%nat eqn:Hlen; [done|]. apply Nat.ltb_ge in Hlen.
  destruct (fold_left (one_case e inputs outputs) names ([], [])) as [cases' l''] eqn:Ef.
  unfold check_issues. destruct l''; [|done]. cbn. intros [= ->]. exists inputs, outputs, names.
  apply extra_folders_ok in El as [-> Hex]. unfold rootPairNames in Er. apply root_pairs_inv in Er as (_ & _ & _ & H3 & H4 & H5).
  apply cases_inv in Ef as [_ (cs & Ecs & Hcs)]. cbn in Ecs. subst cs.
  assert (forall n, n ∈ sort_strings (visit (en_rootFiles e)).*1 <-> is_Some (en_rootFiles e !! n)) as Hroot
    by (intros n; by rewrite sort_strings_perm, visit_names).
  constructor.
  - intros n. unfold names. rewrite elem_of_uniqueSorted, !elem_of_app, !visit_names. done.
  - done.
  - intros f Hf. by apply Hex, visit_names.
  - intros n Hn. by apply H3, Hroot.
  - intros b n Hb. apply H4 in Hb as [Hb|(Hn & _)]; [by rewrite lookup_empty in Hb|by apply Hroot].
  - intros b n Hb. apply H5 in Hb as [Hb|(Hn & _)]; [by rewrite lookup_empty in Hb|by apply Hroot].
  - by rewrite <- (Forall2_length _ _ _ Hcs).
Qed.

(** *** Nothing lost, nothing invented *)

(** A file of the archive that belongs to a case. *)
Definition of_case (c : batchTestCase) (x : item) : Prop :=
  x = ([bt_Folder c; bt_InputName c], bt_InputData c) \/ x = ([bt_Folder c; bt_OutputName c], bt_OutputData c) \/
  (exists f, f ∈ bt_ExtraFiles c /\ x.2 = xf_Data f /\ (x.1 = [bt_Folder c; xf_Name f] \/ x.1 = [bt_Folder c; "files"; xf_Name f])) \/
  (bt_ExtraFiles c = [] /\ (x = ([bt_InputName c], bt_InputData c) \/ x = ([bt_OutputName c], bt_OutputData c))).

(** The files of a case are in the archive. *)
Definition made_of (L : list item) (c : batchTestCase) : Prop :=
  (([bt_Folder c; bt_InputName c], bt_InputData c) ∈ L \/ ([bt_InputName c], bt_InputData c) ∈ L) /\
  (([bt_Folder c; bt_OutputName c], bt_OutputData c) ∈ L \/ ([bt_OutputName c], bt_OutputData c) ∈ L) /\
  forall f, f ∈ bt_ExtraFiles c -> ([bt_Folder c; xf_Name f], xf_Data f) ∈ L \/ ([bt_Folder c; "files"; xf_Name f], xf_Data f) ∈ L.

Lemma root_listed L n d : en_rootFiles (fold_left put L no_entries) !! n = Some d -> ([n], d) ∈ L.
Proof.
  induction L as [|x L IH] using rev_ind; [by intros H; cbn in H; rewrite lookup_empty in H|]. rewrite fold_left_app, elem_of_app. cbn [fold_left].
  destruct x as [[|a [|b [|c [|z rest]]]] data]; unfold put; cbn [fst snd]; try (intros H; left; by apply IH).
  destruct (String.eqb _ _); [intros H; left; by apply IH|]. cbn. intros [[<- <-]|[_ H]]%lookup_insert_Some; [right; left|left; by apply IH].
Qed.

Section Accepted.
Context (L : list item) (HL : placed L) (inputs outputs : gmap string string) (names : list string) (cases : list batchTestCase).
Let e : batchArchiveEntries := fold_left put L no_entries.
Context (Hp : paired e inputs outputs names cases).

Lemma case_of_name n : n ∈ names -> exists c, c ∈ cases /\ case_from e inputs outputs n c.
Proof.
  intros [i Hi]%list_elem_of_lookup. destruct (Forall2_lookup_l _ _ _ _ _ (pa_cases _ _ _ _ _ Hp) Hi) as (c & Hc & H).
  exists c. split; [by eapply list_elem_of_lookup_2|done].
Qed.

Lemma name_of_case c : c ∈ cases -> exists n, n ∈ names /\ case_from e inputs outputs n c.
Proof.
  intros [i Hi]%list_elem_of_lookup. destruct (Forall2_lookup_r _ _ _ _ _ (pa_cases _ _ _ _ _ Hp) Hi) as (n & Hn & H).
  exists n. split; [by eapply list_elem_of_lookup_2|done].
Qed.

Lemma item_kept x : x ∈ L -> ignored_root x.1 = false -> exists c, c ∈ cases /\ of_case c x.
Proof.
  intros Hx Hi. destruct x as [p d]. pose proof (proj1 (Forall_forall _ _) (proj2 HL) _ Hx) as Hok. cbn in Hi, Hok.
  assert (view e p = Some d) as Hv by by apply view_placed.
  destruct p as [|a [|b [|z [|y rest]]]]; try done; cbn [view] in Hv.
  - pose proof (pa_root _ _ _ _ _ Hp a (ex_intro _ d Hv)) as Hr.
    assert (caseBaseName a ∈ names) as Hn by (apply (pa_names _ _ _ _ _ Hp); destruct (String.eqb _ _); [right; right|right; left]; by exists a).
    destruct (case_of_name _ Hn) as (c & Hc & Hf). exists c. split; [done|]. right. right. right. unfold case_from in Hf.
    destruct (en_folders e !! caseBaseName a); [destruct Hf as (H1 & H2 & _); destruct (String.eqb _ _); congruence|].
    destruct Hf as [_ [H1 H1'] [H2 H2'] H3]. split; [done|]. destruct (String.eqb _ _); [right|left].
    + rewrite Hr in H2. injection H2 as H2. rewrite H2'. rewrite <- H2, Hv. done.
    + rewrite Hr in H1. injection H1 as H1. rewrite H1'. rewrite <- H1, Hv. done.
  - destruct (en_folders e !! a) as [m|] eqn:Em; [|done]. cbn in Hv.
    assert (a ∈ names) as Hn by (apply (pa_names _ _ _ _ _ Hp); left; by exists m).
    destruct (case_of_name _ Hn) as (c & Hc & Hf). exists c. split; [done|]. unfold case_from in Hf. rewrite Em in Hf.
    destruct Hf as (_ & _ & [<- [_ H1] [_ H2] H3]). unfold of_case.
    destruct (decide (b = bt_InputName c)) as [->|Hb1]; [left; congruence|].
    destruct (decide (b = bt_OutputName c)) as [->|Hb2]; [right; left; congruence|]. right. right. left.
    exists (mk_extra b d). split; [apply H3; by left|]. split; [done|by left].
  - apply place_ok_3 in Hok as ->. destruct (en_extraFolders e !! a) as [m|] eqn:Em; [|done]. cbn in Hv.
    destruct (pa_extra _ _ _ _ _ Hp a (ex_intro _ m Em)) as [m' Em'].
    assert (a ∈ names) as Hn by (apply (pa_names _ _ _ _ _ Hp); left; by exists m').
    destruct (case_of_name _ Hn) as (c & Hc & Hf). exists c. split; [done|]. unfold case_from in Hf. rewrite Em' in Hf.
    destruct Hf as (_ & _ & [<- _ _ H3]). rewrite Em in H3. right. right. left.
    exists (mk_extra z d). split; [apply H3; by right|]. split; [done|by right].
Qed.

Lemma case_made_of c : c ∈ cases -> made_of L c.
Proof.
  intros (n & Hn & Hf)%name_of_case. unfold case_from in Hf. destruct (en_folders e !! n) as [m|] eqn:Em.
  - destruct Hf as (_ & _ & [<- [_ H1] [_ H2] H3]).
    assert (forall k d, m !! k = Some d -> ([bt_Folder c; k], d) ∈ L) as Hm.
    { intros k d Hk. apply (view_placed L [bt_Folder c; k] d HL eq_refl). cbn [view]. fold e. by rewrite Em. }
    split; [left; by apply Hm|]. split; [left; by apply Hm|]. intros f Hfx. apply H3 in Hfx as [(Hfx & _)|Hfx]; [left; by apply Hm|right].
    apply (view_placed L [bt_Folder c; "files"; xf_Name f] (xf_Data f) HL eq_refl). cbn [view]. fold e.
    destruct (en_extraFolders e !! bt_Folder c); [done|]. cbn in Hfx. by rewrite lookup_empty in Hfx.
  - destruct Hf as [_ [H1 E1] [H2 E2] H3].
    destruct (pa_inputs _ _ _ _ _ Hp _ _ H1) as [d1 Hd1]. destruct (pa_outputs _ _ _ _ _ Hp _ _ H2) as [d2 Hd2].
    rewrite Hd1 in E1. rewrite Hd2 in E2. cbn in E1, E2. split; [right; rewrite E1; by apply root_listed|].
    split; [right; rewrite E2; by apply root_listed|]. rewrite H3. set_solver.
Qed.
End Accepted.

Lemma fine_place_ok unwrap root files : Forall (fine unwrap root) files -> Forall (fun x => place_ok x.1 = true) (contents unwrap root files).
Proof.
  intros H. apply Forall_forall. intros x (f & Hf & Ex)%list_elem_of_omap. eapply Forall_forall in H; [|exact Hf].
  unfold item_of, live_path in Ex. destruct H as [Hd|(segs & Hs & [Hg|[Hok _]])].
  - by rewrite Hd in Ex.
  - rewrite Hs, Hg in Ex. by destruct (zf_IsDir f).
  - rewrite Hs in Ex. destruct (zf_IsDir f); [done|]. destruct (ignoredArchiveEntry segs); [done|]. by injection Ex as <-.
Qed.

Lemma in_omap_ignored (L : list item) n : n ∈ omap (fun x : item => if ignored_root x.1 then head x.1 else None) L <-> exists d, ([n], d) ∈ L /\ ignored_root [n] = true.
Proof.
  rewrite list_elem_of_omap. split.
  - intros ([[|a [|b l]] d] & Hx & E); try done. cbn [fst] in E. destruct (ignored_root [a]) eqn:Ei; [|done]. injection E as ->. by exists d.
  - intros (d & Hx & Hi). exists ([n], d). split; [done|]. cbn [fst]. by rewrite Hi.
Qed.

(** One attempt. *)
Definition accounted (unwrap : bool) (root : string) (files : list zip_file) (cases : list batchTestCase) (ignored : list string) : Prop :=
  let L := contents unwrap root files in
  Forall (fine unwrap root) files /\
  (forall x, x ∈ L -> if ignored_root x.1 then exists n, x.1 = [n] /\ n ∈ ignored else exists c, c ∈ cases /\ of_case c x) /\
  (forall n, n ∈ ignored -> exists d, ([n], d) ∈ L) /\ (forall c, c ∈ cases -> made_of L c) /\
  (length cases <= MaxBatchTestCases)%nat.

Lemma attempt_accounted a unwrap e root cases files :
  ar_files a = Some files -> NoDup (contents unwrap root files).*1 ->
  readBatchArchive a unwrap = Ok (e, root) -> testCases e = Ok cases ->
  accounted unwrap root files cases (sort_strings (en_ignored e)).
Proof.
  intros Ha Hnd Hr Ht. unfold readBatchArchive in Hr. rewrite Ha in Hr. destruct (ar_len a =? 0); [done|]. destruct (_ <? ar_len a); [done|].
  destruct (_ <? length files)%nat; [done|]. cbv zeta in Hr. destruct (read_entries _ _ _ _ _) as [e'|] eqn:Ee; [|done].
  cbn in Hr. injection Hr as -> <-.
  assert (en_issues e = []) as Hi.
  { pose proof Ht as Ht'. unfold testCases in Ht'. destruct (rootPairNames e) as [[inputs outputs] l] eqn:Er. cbv zeta in Ht'.
    match type of Ht' with context [issues_err ?l0] => destruct l0 eqn:El end; [|done].
    apply extra_folders_ok in El as [-> _]. by apply root_pairs_inv in Er as (? & _). }
  apply read_entries_spec in Ee as (_ & Hfine & ->); [|done].
  assert (placed (contents unwrap (batchArchiveRootFolder files) files)) as HL by (split; [done|by apply fine_place_ok]).
  apply testCases_inv in Ht as (inputs & outputs & names & Hp).
  split; [done|]. split; [|split; [|split]].
  - intros x Hx. destruct (ignored_root x.1) eqn:Ex.
    + destruct x as [[|n [|b l]] d]; try done. exists n. split; [done|]. rewrite sort_strings_perm, ignored_placed. apply in_omap_ignored. by exists d.
    + by eapply item_kept.
  - intros n Hn. rewrite sort_strings_perm, ignored_placed in Hn. apply in_omap_ignored in Hn as (d & Hd & _). by exists d.
  - intros c Hc. by eapply case_made_of.
  - apply Hp.
Qed.

(** C32: No file is lost. When an archive without repeated paths is accepted, as it is or
    without its wrapping folder, every entry is a directory, the metadata of an
    operating system, a file reported as ignored, or a file of one of the cases; and
    every file of a case, with its contents, is an entry. *)
Theorem no_file_lost a files cases ignored
  (Ha : ar_files a = Some files) (Hnd : forall unwrap, NoDup (contents unwrap (batchArchiveRootFolder files) files).*1)
  (H : ParseBatchTestCaseArchive a = Ok (cases, ignored)) :
  exists unwrap, accounted unwrap (batchArchiveRootFolder files) files cases ignored.
Proof.
  unfold ParseBatchTestCaseArchive in H.
  assert (forall unwrap e root, readBatchArchive a unwrap = Ok (e, root) -> root = batchArchiveRootFolder files) as Hroot.
  { intros unwrap e root. unfold readBatchArchive. rewrite Ha. destruct (ar_len a =? 0); [done|]. destruct (_ <? ar_len a); [done|].
    destruct (_ <? length files)%nat; [done|]. cbv zeta. destruct (read_entries _ _ _ _ _); [|done]. by intros [= _ <-]. }
  destruct (readBatchArchive a false) as [[e root]|] eqn:Er; [|done]. pose proof (Hroot _ _ _ Er) as ->. cbn [mbind res_bind] in H.
  destruct (testCases e) as [cs|err] eqn:Et.
  { injection H as <- <-. exists false. by eapply attempt_accounted. }
  destruct (String.eqb _ _); [done|]. destruct (readBatchArchive a true) as [[e' root']|] eqn:Er'; [|done].
  pose proof (Hroot _ _ _ Er') as ->. destruct (testCases e') as [cs|err'] eqn:Et'; [|done]. injection H as <- <-. exists true. by eapply attempt_accounted.
Qed.

(** ** Sizes *)

(** The bytes the entries that count declare. *)
Definition counted_size (files : list zip_file) : Z :=
  foldr Z.add 0 (omap (fun f => _ ← live_path false "" f; Some (zf_size f)) files).

Lemma counted_size_cons f files :
  counted_size (f :: files) = (if live_path false "" f then zf_size f else 0) + counted_size files.
Proof. unfold counted_size. cbn [omap list_omap]. by destruct (live_path false "" f). Qed.

Lemma read_entries_bounded unwrap root files : forall expanded e e',
  Forall (fun f => 0 <= zf_size f < 2 ^ 62) files -> 0 <= expanded <= MaxBatchExpandedBytes ->
  read_entries unwrap root expanded files e = Ok e' -> expanded + counted_size files <= MaxBatchExpandedBytes.
Proof.
  induction files as [|f files IH]; intros expanded e e' Hf Hx H; cbn [read_entries] in H.
  { unfold counted_size. cbn. lia. }
  apply Forall_cons in Hf as [Hs Hf]. rewrite counted_size_cons. unfold live_path.
  destruct (zf_IsDir f); [by eapply IH|]. destruct (normalizeArchivePath _) as [segs|]; [|by eapply IH].
  destruct (ignoredArchiveEntry segs); [by eapply IH|]. cbv zeta in H. cbn [andb].
  unfold MaxBatchExpandedBytes in *.
  rewrite !wrap64_id in H by (rewrite ?wrap64_id; unfold int64, min_int64, max_int64; lia).
  destruct (_ <? _) eqn:El in H; [done|]. apply Z.ltb_ge in El. destruct (place_entry f _ e) as [e1|]; [|done]. cbn in H.
  apply IH in H; [lia|done|lia].
Qed.

(** C33: An accepted archive is bounded. It is at most 64 MiB long, has at most 4000
    entries and at most 500 cases, and the entries that count expand to at most 256 MiB,
    when no header declares 2^62 bytes or more. *)
Theorem expansion_bounded a files cases ignored
  (Ha : ar_files a = Some files) (Hs : Forall (fun f => 0 <= zf_size f < 2 ^ 62) files)
  (H : ParseBatchTestCaseArchive a = Ok (cases, ignored)) :
  ar_len a <= MaxBatchArchiveBytes /\ (length files <= MaxBatchEntries)%nat /\ (length cases <= MaxBatchTestCases)%nat /\
  counted_size files <= MaxBatchExpandedBytes.
Proof.
  unfold ParseBatchTestCaseArchive in H. destruct (readBatchArchive a false) as [[e root]|] eqn:Er; [|done]. cbn [mbind res_bind] in H.
  assert (ar_len a <= MaxBatchArchiveBytes /\ (length files <= MaxBatchEntries)%nat /\ counted_size files <= MaxBatchExpandedBytes) as (H1 & H2 & H3).
  { unfold readBatchArchive in Er. rewrite Ha in Er. destruct (ar_len a =? 0); [done|]. destruct (_ <? ar_len a) eqn:E1; [done|].
    destruct (_ <? length files)%nat eqn:E2; [done|]. cbv zeta in Er. destruct (read_entries _ _ _ _ _) as [e'|] eqn:Ee; [|done].
    apply read_entries_bounded in Ee; [|done|unfold MaxBatchExpandedBytes; lia]. apply Z.ltb_ge in E1. apply Nat.ltb_ge in E2. done. }
  split; [done|]. split; [done|]. split; [|done].
  assert (forall e cs, testCases e = Ok cs -> (length cs <= MaxBatchTestCases)%nat) as Hc
    by (intros e' cs (i & o & n & Hp)%testCases_inv; apply Hp).
  destruct (testCases e) as [cs|err] eqn:Et; [injection H as <- <-; by eapply Hc|].
  destruct (String.eqb _ _); [done|]. destruct (readBatchArchive a true) as [[e' root']|]; [|done].
  destruct (testCases e') as [cs|] eqn:Et'; [|done]. injection H as <- <-. by eapply Hc.
Qed.
End Exact.

(** ** Examples and witnesses *)

Section Examples.
#[local] Existing Instance ascii_tables.
#[local] Existing Instance sorted_order.

Definition file (name data : string) : zip_file := mk_zip name false (Z.of_nat (String.length data)) (Some data).
Definition zipped (files : list zip_file) : archive := mk_archive 1000 (Some files).

Definition two_cases : list zip_file :=
  [file "2/2.in" "3"; file "1.OUT" "b"; mk_zip "2/" true 0 (Some ""); file "LEIAME.md" "x"; file "1.in" "a";
   file "2/files/extra.in" "e"; file "__MACOSX/._x" ""; file "2/2.out" "4"; file "2\ajuda.txt" "h"].

Example two_cases_parsed :
  ParseBatchTestCaseArchive (zipped two_cases) =
  Ok ([mk_case "1" "1.in" "a" "1.OUT" "b" [];
       mk_case "2" "2.in" "3" "2.out" "4" [mk_extra "ajuda.txt" "h"; mk_extra "extra.in" "e"]], ["LEIAME.md"]).
Proof. by vm_compute. Qed.

(** The folder that holds everything is dropped, unless the archive is valid as it is. *)
Example wrapped_archive :
  ParseBatchTestCaseArchive (zipped [file "prova/1.in" "a"; file "prova/1.out" "b"; file "prova/2.in" "c"; file "prova/2.out" "d"]) =
  Ok ([mk_case "1" "1.in" "a" "1.out" "b" []; mk_case "2" "2.in" "c" "2.out" "d" []], []).
Proof. by vm_compute. Qed.

Example problems_are_collected :
  ParseBatchTestCaseArchive (zipped [file "1/a.in" "a"; file "2/a.in" "a"; file "2/b.in" "a"; file "2/a.out" "b"; file "../x" ""; file "3/d/e/f" ""]) =
  Err (BatchImportError [(root_label, [InvalidPath "../x"]); ("3", [UnsupportedStructure "3/d/e/f"])]).
Proof. by vm_compute. Qed.

(** Nine files that declare 32 MiB each are too much, unless an ignored file declares
    2^63 bytes before them: the sum is then negative. *)
Definition large (name : string) : zip_file := mk_zip name false (32 * 2 ^ 20) (Some "x").
Definition nine_large : list zip_file := (fun n => large ("1/" +:+ n)) <$> ["1.in"; "1.out"; "a"; "b"; "c"; "d"; "e"; "f"; "g"].

Example forged_size_lifts_the_bound :
  ParseBatchTestCaseArchive (zipped nine_large) = Err ErrArchiveTooLarge /\ is_ok (ParseBatchTestCaseArchive (zipped (mk_zip "LEIAME" false (2 ^ 63) None :: nine_large))) = true.
Proof. by vm_compute. Qed.

Lemma no_file_lost_witness :
  exists unwrap, accounted unwrap "" two_cases
    [mk_case "1" "1.in" "a" "1.OUT" "b" [];
     mk_case "2" "2.in" "3" "2.out" "4" [mk_extra "ajuda.txt" "h"; mk_extra "extra.in" "e"]] ["LEIAME.md"].
Proof.
  apply (no_file_lost (zipped two_cases) two_cases); [done| |by vm_compute].
  intros unwrap. apply (bool_decide_unpack _). by destruct unwrap; vm_compute.
Defined.

Lemma expansion_bounded_witness : counted_size two_cases = 7 /\ counted_size two_cases <= MaxBatchExpandedBytes.
Proof.
  split; [by vm_compute|].
  apply (expansion_bounded (zipped two_cases) two_cases
    [mk_case "1" "1.in" "a" "1.OUT" "b" [];
     mk_case "2" "2.in" "3" "2.out" "4" [mk_extra "ajuda.txt" "h"; mk_extra "extra.in" "e"]] ["LEIAME.md"]).
  - done.
  - repeat constructor; vm_compute; done.
  - by vm_compute.
Defined.

(** A case with an extra file under [files/], its entries in another order. *)
Definition laid_files : list zip_file := [file "c/files/z.in" "z"; file "c/o.out" "o"; file "c/h.txt" "h"; file "c/i.in" "i"].
Definition laid_case : batchTestCase := mk_case "c" "i.in" "i" "o.out" "o" [mk_extra "h.txt" "h"; mk_extra "z.in" "z"].

Lemma layout_round_trip_witness : ParseBatchTestCaseArchive (zipped laid_files) = Ok ([laid_case], []).
Proof.
  apply (layout_round_trip (zipped laid_files) laid_files [laid_case]); try done.
  - by apply Nat.leb_le; vm_compute.
  - repeat (apply Forall_cons; split; [split; [by eexists|]; split; [done|]; right; eexists; split; [by vm_compute|]; by vm_compute|]). constructor.
  - constructor.
    + apply (bool_decide_unpack _). by vm_compute.
    + constructor; [|constructor]. constructor; [done|done| |]; [repeat constructor; done|apply (bool_decide_unpack _); by vm_compute].
    + repeat constructor.
    + repeat constructor; set_solver.
  - by apply Nat.leb_le; vm_compute.
Defined.
End Examples.
