(* ===== verification/Exercises.v ===== *)
(** * Exercises

    [src/backend/services/exercises-service.go] and the catalog of languages in
    [exercise-access-service.go]: creating, changing, removing and listing the
    exercises of a class. Redis keeps a class's list of exercises; what it answers is an
    argument of the listing, and dropping it is not modelled. *)

From S2P Require Import Prelude Effects GoStrings Sql Catalog Limits.
From S2P Require CommitDb Classes Accounts Cache.
Import Accounts(validation_error, ErrRequiredField, ErrInputTooLong, UserRow, Crypto).
Import Classes(class_error, campus, cm_conn, visit, loadOfferingRelation, CanAuthor, CanView, Texts).
Local Open Scope Z_scope.

#[local] Existing Instance Classes.campus_eta.

(** The errors of the services it calls, of the validation, and its own. *)
Inductive exercise_error :=
| Service (e : svc_error) | Class_ (e : class_error) | Invalid (v : validation_error) | ErrInvalidExercise.

Abbreviation exdb A := (eff (conn Tables) exercise_error A).

Definition service {A} (m : svc A) : exdb A := fun c =>
  match m c with (c, Ok a) => (c, Ok a) | (c, Err e) => (c, Err (Service e)) end.

Record CreateExerciseRequest := mk_create_exercise {
  ce_Title : string; ce_Description : string; ce_Deadline : option Z; ce_OpenDate : option Z;
  ce_ShowBeforeOpenDate : option bool; ce_AllowedFileTypeIDs : list Z
}.
Record UpdateExerciseRequest := mk_update_exercise {
  ue_Title : option string; ue_Description : option string; ue_Deadline : option Z; ue_OpenDate : option Z;
  ue_ShowBeforeOpenDate : option bool; ue_AllowedFileTypeIDs : option (list Z)
}.

(** [models.Exercise]; whether a language is compiled is left out. *)
Record Exercise := mk_exercise_of {
  xr_ID : Z; xr_row : ExerciseRow; xr_AllowedFileTypeIDs : list Z; xr_AllowedFileTypes : list (Z * LanguageRow)
}.

Definition MaxExerciseTitleLength : nat := 200.

(** [time.Time{}], the first of January of the year 1. *)
Definition zero_time : Z := - 62135596800 * Cache.second.

(** ** Validation *)

Definition validateTitle (title : string) : res exercise_error unit :=
  let trimmed := trim_space title in
  if String.eqb trimmed "" then Err (Invalid ErrRequiredField)
  else if (MaxExerciseTitleLength <? length (runes trimmed))%nat then Err (Invalid ErrInputTooLong)
  else Ok tt.

Definition ValidateExerciseFields (title : string) (deadline openDate : Z) : res exercise_error unit :=
  _ ← validateTitle title;
  if (deadline =? zero_time) || (openDate =? zero_time) then Err (Invalid ErrRequiredField)
  else if deadline <? openDate then Err ErrInvalidExercise
  else Ok tt.

Fixpoint dedupe (seen : gset Z) (ids : list Z) : list Z :=
  match ids with
  | [] => []
  | id :: rest => if bool_decide (id ∈ seen) then dedupe seen rest else id :: dedupe ({[id]} ∪ seen) rest
  end.
Definition dedupeIDs (ids : list Z) : list Z := dedupe ∅ ids.

Section Exercises.
Context (fault : nat -> bool).

Local Abbreviation ask f := (query fault (Service ErrServer) f).
Local Abbreviation put f := (exec fault (Service ErrServer) f).

Definition available_count (ids : list Z) (t : Tables) : nat :=
  size (filter (fun x : Z * LanguageRow => x.1 ∈ ids /\ la_available x.2 = true) (t_languages t)).

Definition validateAllowedFileTypeIDs (ids : list Z) : exdb unit :=
  match ids with
  | [] => mret tt
  | _ =>
      let unique := dedupeIDs ids in
      count ← ask (available_count unique);
      if negb (count =? length unique)%nat then fail (Service ErrInvalidFileType) else mret tt
  end.

Definition loadAllowedFileTypeIDs (exerciseID : Z) : exdb (list Z) :=
  ask (fun t => merge_sort Z.le (omap (fun x : Z * Z => if decide (x.1 = exerciseID) then Some x.2 else None) (elements (t_allowed t)))).

(** [INSERT ... ON CONFLICT DO NOTHING], with its foreign keys. *)
Definition insert_allowed (exerciseID id : Z) (t : Tables) : option Tables :=
  if bool_decide (is_Some (t_exercises t !! exerciseID)) && bool_decide (is_Some (t_languages t !! id))
  then Some (t <| t_allowed := {[(exerciseID, id)]} ∪ t_allowed t |>) else None.

Definition insertAllowedFileTypes (exerciseID : Z) (ids : list Z) : exdb unit :=
  each (fun id => put (insert_allowed exerciseID id)) (dedupeIDs ids).

(** The languages of an exercise, by identity. *)
Definition attached_types (exerciseID : Z) (t : Tables) : list (Z * LanguageRow) :=
  sorted_keys (fun x : Z * LanguageRow => (exerciseID, x.1) ∈ t_allowed t) (t_languages t).

Definition attach (t : Tables) (ex : Exercise) : Exercise :=
  let types := attached_types (xr_ID ex) t in mk_exercise_of (xr_ID ex) (xr_row ex) types.*1 types.

Definition attachAllowedFileTypes (exercises : list Exercise) : exdb (list Exercise) :=
  match exercises with [] => mret [] | _ => ask (fun t => attach t <$> exercises) end.

(** After the commit: the languages when they can be read. *)
Definition attached (ex : Exercise) : exdb Exercise := fun c =>
  match attachAllowedFileTypes [ex] c with
  | (c, Ok (ex :: _)) => (c, Ok ex)
  | (c, _) => (c, Ok ex)
  end.

(** ** Creating *)

Definition insert_exercise (id : Z) (row : ExerciseRow) (t : Tables) : option Tables :=
  if bool_decide (is_Some (t_offerings t !! ex_offering row)) && bool_decide (t_exercises t !! id = None) &&
     CommitDb.pg_text (ex_title row) && CommitDb.pg_text (ex_description row)
  then Some (t <| t_exercises := <[id := row]> (t_exercises t) |>) else None.

Definition new_exercise (offeringID : Z) (req : CreateExerciseRequest) : ExerciseRow :=
  mk_exercise offeringID (default zero_time (ce_Deadline req)) (default zero_time (ce_OpenDate req))
    (default false (ce_ShowBeforeOpenDate req)) false false None (trim_space (ce_Title req)) (ce_Description req).

(** What follows the check of the caller, under the identity [id]. *)
Definition create_exercise (id offeringID : Z) (req : CreateExerciseRequest) : exdb Exercise :=
  _ ← validateAllowedFileTypeIDs (ce_AllowedFileTypeIDs req);
  let row := new_exercise offeringID req in
  _ ← lift (ValidateExerciseFields (ce_Title req) (ex_deadline row) (ex_open_date row));
  _ ← transaction fault (Service ErrServer)
        (_ ← put (insert_exercise id row); insertAllowedFileTypes id (ce_AllowedFileTypeIDs req));
  attached (mk_exercise_of id row (dedupeIDs (ce_AllowedFileTypeIDs req)) []).

(** ** Changing *)

(** [UPDATE exercises ... RETURNING]. *)
Definition update_exercise (id : Z) (row : ExerciseRow) (t : Tables) : option Tables :=
  match t_exercises t !! id with
  | Some old =>
      if CommitDb.pg_text (ex_title row) && CommitDb.pg_text (ex_description row)
      then Some (t <| t_exercises := <[id := old <| ex_title := ex_title row |> <| ex_description := ex_description row |>
                       <| ex_deadline := ex_deadline row |> <| ex_open_date := ex_open_date row |>
                       <| ex_show_before := ex_show_before row |>]> (t_exercises t) |>)
      else None
  | None => None
  end.

Definition requested (req : UpdateExerciseRequest) (ex : ExerciseRow) : ExerciseRow :=
  let ex := match ue_Title req with Some x => ex <| ex_title := trim_space x |> | None => ex end in
  let ex := match ue_Description req with Some x => ex <| ex_description := x |> | None => ex end in
  let ex := match ue_Deadline req with Some x => ex <| ex_deadline := x |> | None => ex end in
  let ex := match ue_OpenDate req with Some x => ex <| ex_open_date := x |> | None => ex end in
  match ue_ShowBeforeOpenDate req with Some x => ex <| ex_show_before := x |> | None => ex end.

Definition clear_allowed (exerciseID : Z) (t : Tables) : Tables :=
  t <| t_allowed := filter (fun x : Z * Z => x.1 <> exerciseID) (t_allowed t) |>.

(** [DELETE ... WHERE exercise_id = $1 AND allowed_file_type_id <> ALL($2)]. *)
Definition clear_exercise_limits (exerciseID : Z) (allowed : list Z) (t : Tables) : Tables :=
  t <| t_exercise_limits := filter (fun x : Z * Z * LimitOverrides => ~ (x.1.1 = exerciseID /\ x.1.2 ∉ allowed)) (t_exercise_limits t) |>.

Definition clear_case_limits (exerciseID : Z) (allowed : list Z) (t : Tables) : Tables :=
  t <| t_case_limits := filter (fun x : Z * Z * LimitOverrides =>
         ~ (ca_exercise <$> t_cases t !! x.1.1 = Some exerciseID /\ x.1.2 ∉ allowed)) (t_case_limits t) |>.

(** The languages of the exercise become [ids]; limits of other languages go. *)
Definition replace_allowed (exerciseID limitsExerciseID : Z) (ids : list Z) : exdb (list Z) :=
  _ ← put (fun t => Some (clear_allowed exerciseID t));
  _ ← insertAllowedFileTypes exerciseID ids;
  let allowedIDs := dedupeIDs ids in
  _ ← put (fun t => Some (clear_exercise_limits limitsExerciseID allowedIDs t));
  _ ← put (fun t => Some (clear_case_limits limitsExerciseID allowedIDs t));
  mret allowedIDs.

Definition UpdateExercise (exerciseID : Z) (req : UpdateExerciseRequest) (claims : Claims) : exdb Exercise :=
  '(userID, role) ← service (lift (claimsUserID claims));
  acc ← service (loadExerciseAccess fault exerciseID userID role);
  if negb (ac_canAuthor acc) then fail (Service ErrNotOwner)
  else
    let ex := requested req (ac_exercise acc) in
    _ ← lift (ValidateExerciseFields (ex_title ex) (ex_deadline ex) (ex_open_date ex));
    _ ← (match ue_AllowedFileTypeIDs req with Some ids => validateAllowedFileTypeIDs ids | None => mret tt end);
    ids ← transaction fault (Service ErrServer)
            (_ ← put (update_exercise exerciseID ex);
             match ue_AllowedFileTypeIDs req with
             | Some ids => replace_allowed exerciseID (authoringExerciseID acc) ids
             | None => loadAllowedFileTypeIDs exerciseID
             end);
    attached (mk_exercise_of exerciseID ex ids []).

Definition DeleteExercise (exerciseID : Z) (claims : Claims) : exdb unit :=
  _ ← service (requireExerciseAuthor fault exerciseID claims);
  put (fun t => Some (match t_exercises t !! exerciseID with
                      | Some r => t <| t_exercises := <[exerciseID := r <| ex_removed := true |>]> (t_exercises t) |>
                      | None => t
                      end)).

(** ** Reading *)

Definition GetExercise (now exerciseID : Z) (claims : Claims) : exdb Exercise :=
  '(userID, role) ← service (lift (claimsUserID claims));
  acc ← service (loadExerciseAccess fault exerciseID userID role);
  _ ← (if ac_canAuthor acc then mret tt
       else if negb (ac_isEnrolled acc) then fail (Service ErrNotEnrolled)
       else if negb (exerciseVisible (ac_exercise acc) now) then fail (Service ErrExerciseNotFound)
       else mret tt);
  exs ← attachAllowedFileTypes [mk_exercise_of exerciseID (ac_exercise acc) [] []];
  match exs with ex :: _ => mret ex | [] => fail (Service ErrServer) end.

(** [cached]: what [cache.GetJSON] found. *)
Definition loadOfferingExercises (cached : option (list Exercise)) (offeringID : Z) : exdb (list Exercise) :=
  match cached with
  | Some list => mret list
  | None =>
      rows ← ask (fun t => sorted_keys (fun x : Z * ExerciseRow => ex_offering x.2 = offeringID) (t_exercises t));
      attachAllowedFileTypes ((fun x : Z * ExerciseRow => mk_exercise_of x.1 x.2 [] []) <$> rows)
  end.

(** ** With the class *)

(** [sc_next]: the next identity of an exercise. *)
Record school := mk_school { sc_campus : campus; sc_next : Z }.
#[export] Instance school_eta : Settable school := fun s => mk_school (sc_campus s) (sc_next s).

Abbreviation course A := (eff school exercise_error A).

Definition on_class {A} (m : eff campus class_error A) : course A := fun s =>
  match m (sc_campus s) with
  | (c, Ok a) => (s <| sc_campus := c |>, Ok a)
  | (c, Err e) => (s <| sc_campus := c |>, Err (Class_ e))
  end.
Definition on_tables {A} (m : exdb A) : course A := fun s =>
  let '(c, r) := m (cm_conn (sc_campus s)) in (mk_school ((sc_campus s) <| cm_conn := c |>) (sc_next s), r).

Context {TX : Texts} (users : gmap Z UserRow).

(** The identity is drawn before the statement: a number may be skipped. *)
Definition CreateExercise (v : visit) (offeringID : Z) (req : CreateExerciseRequest) (claims : Claims) : course Exercise :=
  '(userID, role) ← on_tables (service (lift (claimsUserID claims)));
  rel ← on_class (loadOfferingRelation fault v offeringID userID role);
  if negb (CanAuthor rel) then fail (Service ErrNotOwner)
  else
    id ← gets sc_next;
    _ ← modify (fun s => s <| sc_next := id + 1 |>);
    on_tables (create_exercise id offeringID req).

Definition ListOfferingExercises (v : visit) (cached : option (list Exercise)) (offeringID : Z) (claims : Claims) : course (list Exercise) :=
  '(userID, role) ← on_tables (service (lift (claimsUserID claims)));
  rel ← on_class (loadOfferingRelation fault v offeringID userID role);
  if negb (CanView rel) then fail (Class_ Classes.ErrOfferingNotFound)
  else
    list ← on_tables (loadOfferingExercises cached offeringID);
    if CanAuthor rel then mret list
    else mret (List.filter (fun ex => exerciseVisible (xr_row ex) (Classes.vs_now v)) list).
End Exercises.
