(* ===== verification/Batch.v ===== *)
(** * Importing and exporting test cases

    [CreateTestCasesBatch] and [ExportExerciseTestCasesArchive] of
    [src/backend/services/test-cases-batch-service.go]: the cases of an archive become
    rows and objects in one transaction, and the cases of an exercise become the entries
    of an archive. Reading the body of an object is a request that may fail like the
    others. An entry is written by [archive/zip], which only refuses a name too long for
    the format; what a written archive is read as is the business of the reader of
    [Archive.v]. *)

From S2P Require Import Prelude Effects GoStrings Sql Catalog Limits Objects Authoring Archive.
Local Open Scope Z_scope.

(** ** Requests *)

Record BatchTestCaseConfig := mk_config {
  bc_InputType : string; bc_ExpectedOutputType : string;
  bc_ShowInput : bool; bc_ShowExpectedOutput : bool; bc_ShowUserOutput : bool;
  bc_CPUTimeLimitSeconds : option Z; bc_MemUsageLimitBytes : option Z;
  bc_StackLimitBytes : option Z; bc_FileSizeLimitBytes : option Z
}.
#[export] Instance BatchTestCaseConfig_eta : Settable BatchTestCaseConfig := fun c =>
  mk_config (bc_InputType c) (bc_ExpectedOutputType c) (bc_ShowInput c) (bc_ShowExpectedOutput c) (bc_ShowUserOutput c)
    (bc_CPUTimeLimitSeconds c) (bc_MemUsageLimitBytes c) (bc_StackLimitBytes c) (bc_FileSizeLimitBytes c).

(** The errors of both services: [services.ErrX], those of the archive,
    [storage.ErrObjectNotFound] and those of [archive/zip]. *)
Inductive batch_error := Service (e : svc_error) | BadArchive (e : archive_error) | ObjectNotFound | ZipWrite.

Abbreviation batch A := (eff world batch_error A).

Definition service {A} (m : act A) : batch A := fun w =>
  match m w with (w, Ok a) => (w, Ok a) | (w, Err e) => (w, Err (Service e)) end.

(** [if r, err := m; err == nil { ... }] *)
Definition attempt {A} (m : act A) : act (option A) := fun w =>
  match m w with (w, Ok a) => (w, Ok (Some a)) | (w, Err _) => (w, Ok None) end.

Definition or_default (v d : string) : string := if String.eqb v "" then d else v.

(** The configuration with its defaults, or [ErrInvalidTestCase]. *)
Definition validateBatchConfig (config : BatchTestCaseConfig) : res svc_error BatchTestCaseConfig :=
  let config := config <| bc_InputType := or_default (bc_InputType config) IOTypeText |>
                       <| bc_ExpectedOutputType := or_default (bc_ExpectedOutputType config) IOTypeText |> in
  if negb (validateIOType (bc_InputType config)) then Err ErrInvalidTestCase
  else if negb (validateIOType (bc_ExpectedOutputType config)) then Err ErrInvalidTestCase
  else if refuses (fun v => v <=? 0) (bc_CPUTimeLimitSeconds config) then Err ErrInvalidTestCase
  else if refuses (fun v => v <? 0) (bc_MemUsageLimitBytes config) || refuses (fun v => v <? 0) (bc_StackLimitBytes config) ||
          refuses (fun v => v <? 0) (bc_FileSizeLimitBytes config) then Err ErrInvalidTestCase
  else Ok config.

Definition batchLimitOverrides (config : BatchTestCaseConfig) : LimitOverrides :=
  mk_overrides (bc_CPUTimeLimitSeconds config) (bc_MemUsageLimitBytes config) (bc_StackLimitBytes config) (bc_FileSizeLimitBytes config).

(** The cases whose bytes are not text although they must be. *)
Definition text_issues (config : BatchTestCaseConfig) (cases : list batchTestCase) : issues :=
  fold_left (fun l c =>
    let l := if String.eqb (bc_InputType config) IOTypeText && negb (utf8_valid (bt_InputData c))
             then add_issue (bt_Folder c) InputNotText l else l in
    if String.eqb (bc_ExpectedOutputType config) IOTypeText && negb (utf8_valid (bt_OutputData c))
    then add_issue (bt_Folder c) OutputNotText l else l) cases [].

(** [models.BatchTestCaseImportResponse]. *)
Record BatchTestCaseImportResponse := mk_import { im_Created : nat; im_Ignored : list string; im_TestCases : list AuthoredCase }.

Section Batch.
Context {UT : UnicodeTables} {MO : MapOrder}.
Context (fault : nat -> bool) (collation : relation string) `{!RelDecision collation} (platform : Limits).

Local Abbreviation deleteObjects := (deleteCaseObjectsBestEffort fault).

(** ** Import *)

(** An [error] of the archive or its issues as an error value. *)
Definition from_archive {A} (r : res archive_error A) : res batch_error A :=
  match r with Ok a => Ok a | Err e => Err (BadArchive e) end.

Definition unset_limits (language : allowedLanguage) (o : LimitOverrides) : LanguageLimits :=
  mk_language_limits (al_id language) (al_name language) (al_extension language) o (mk_limits 0 0 0 0)
    (mk_sources LimitSourceUnset LimitSourceUnset LimitSourceUnset LimitSourceUnset).

Definition batchLanguageOverrides (exerciseID : Z) (config : BatchTestCaseConfig) : svc (list LanguageLimits) :=
  if Empty (batchLimitOverrides config) then mret []
  else languages ← loadAllowedLanguages fault collation exerciseID;
       mret ((fun language => unset_limits language (batchLimitOverrides config)) <$> languages).

Definition batch_row (config : BatchTestCaseConfig) (authoringID : Z) (c : batchTestCase) : CaseRow :=
  mk_case_row authoringID
    (if String.eqb (bc_InputType config) IOTypeText then bt_InputData c else bt_InputName c) (bc_InputType config) (bc_ShowInput config)
    (if String.eqb (bc_ExpectedOutputType config) IOTypeText then bt_OutputData c else bt_OutputName c) (bc_ExpectedOutputType config)
    (bc_ShowExpectedOutput config) (bc_ShowUserOutput config).

Definition side_object (ty data : string) : UploadedFile :=
  mk_uploaded "" (if String.eqb ty IOTypeText then "text/plain; charset=utf-8" else "application/octet-stream") data.

Definition extra_object (x : batchExtraFile) : UploadedFile := mk_uploaded (xf_Name x) "application/octet-stream" (xf_Data x).

Fixpoint upload_extras (caseID : Z) (uploaded : list string) (rows : list (Z * string)) (extras : list batchExtraFile)
  : act (list string * list (Z * string)) :=
  match extras with
  | [] => mret (uploaded, rows)
  | x :: rest =>
      uploaded ← upload fault uploaded (CaseFileKey caseID (xf_Name x)) (extra_object x);
      fileID ← or_else (insert_file_row fault caseID (FileBasename (xf_Name x))) (deleteObjects uploaded);
      upload_extras caseID uploaded (rows ++ [(fileID, FileBasename (xf_Name x))]) rest
  end.

(** One iteration: the row, its limits, its objects and the rows of its files. *)
Definition import_case (config : BatchTestCaseConfig) (authoringID : Z) (overrides : list LanguageLimits) (uploaded : list string)
    (c : batchTestCase) : act (list string * AuthoredCase) :=
  let row := batch_row config authoringID c in
  caseID ← or_else (insert_case_row fault row) (deleteObjects uploaded);
  _ ← or_else (on_db (InsertTestCaseLanguageLimits fault caseID overrides)) (deleteObjects uploaded);
  uploaded ← upload fault uploaded (CaseInputKey caseID) (side_object (bc_InputType config) (bt_InputData c));
  uploaded ← upload fault uploaded (CaseOutputKey caseID) (side_object (bc_ExpectedOutputType config) (bt_OutputData c));
  '(uploaded, files) ← upload_extras caseID uploaded [] (bt_ExtraFiles c);
  mret (uploaded, mk_authored caseID row overrides files).

Fixpoint import_cases (config : BatchTestCaseConfig) (authoringID : Z) (overrides : list LanguageLimits) (uploaded : list string)
    (created : list AuthoredCase) (cases : list batchTestCase) : act (list string * list AuthoredCase) :=
  match cases with
  | [] => mret (uploaded, created)
  | c :: rest =>
      '(uploaded, tc) ← import_case config authoringID overrides uploaded c;
      import_cases config authoringID overrides uploaded (created ++ [tc]) rest
  end.

Definition import_rows (config : BatchTestCaseConfig) (authoringID : Z) (cases : list batchTestCase) : act (list AuthoredCase) :=
  overrides ← on_db (batchLanguageOverrides authoringID config);
  '(uploaded, created) ← import_cases config authoringID overrides [] [] cases;
  _ ← or_else (commit_tx fault) (deleteObjects uploaded);
  mret created.

(** The effective limits of the new cases, when they can be read. *)
Definition with_limits (limits : option (gmap Z (list LanguageLimits))) (tc : AuthoredCase) : AuthoredCase :=
  mk_authored (at_ID tc) (at_row tc) (default (at_Limits tc) (m ← limits; m !! at_ID tc)) (at_Files tc).

Definition CreateTestCasesBatch (exerciseID : Z) (archive : archive) (config : BatchTestCaseConfig) (claims : Claims)
  : batch BatchTestCaseImportResponse :=
  acc ← service (on_db (requireExerciseAuthor fault exerciseID claims));
  let authoringID := authoringExerciseID acc in
  config ← service (lift (validateBatchConfig config));
  '(cases, ignored) ← lift (from_archive (ParseBatchTestCaseArchive archive));
  _ ← lift (from_archive (check_issues (text_issues config cases) tt));
  created ← service (with_tx fault (import_rows config authoringID cases));
  limits ← service (attempt (on_db (TestCaseLanguageLimits fault collation platform authoringID (at_ID <$> created))));
  mret (mk_import (length created) ignored (with_limits limits <$> created)).

(** ** Export *)

(** [None] is [storage.ErrObjectNotFound]. *)
Definition readCaseObject (key : string) : batch (option string) :=
  object ← service (getObject fault cases_bucket key);
  match object with
  | None => mret None
  | Some o =>
      data ← service (call fault (fun os => Some (os, ob_data o)));
      if MaxBatchCaseFileBytes <? Z.of_nat (String.length data) then fail (BadArchive ErrArchiveTooLarge) else mret (Some data)
  end.

Definition loadCaseObject (caseID : Z) (contentType columnValue : string) (output : bool) : batch string :=
  content ← readCaseObject (if output then CaseOutputKey caseID else CaseInputKey caseID);
  match content with
  | Some data => mret data
  | None => if String.eqb contentType IOTypeText then mret columnValue else fail (Service ErrServer)
  end.

(** The entries written so far. *)
Definition writeZipEntry (entries : list (string * string)) (name content : string) : batch (list (string * string)) :=
  if (65535 <? String.length name)%nat then fail ZipWrite else mret (entries ++ [(name, content)]).

Definition pad3 (n : nat) : string :=
  let s := fmt_int (Z.of_nat n) in String.concat "" (replicate (3 - String.length s) "0") +:+ s.
Definition case_folder (index : nat) : string := "caso_" +:+ pad3 (S index).

Definition extra_entry (folder name : string) : string :=
  if hasExtension name ".in" || hasExtension name ".out" then folder +:+ "/files/" +:+ name else folder +:+ "/" +:+ name.

Fixpoint export_files (folder : string) (caseID : Z) (entries : list (string * string)) (files : list (Z * string))
  : batch (list (string * string)) :=
  match files with
  | [] => mret entries
  | (_, path) :: rest =>
      let name := FileBasename path in
      content ← readCaseObject (CaseFileKey caseID name);
      match content with
      | None => fail ObjectNotFound
      | Some data => entries ← writeZipEntry entries (extra_entry folder name) data; export_files folder caseID entries rest
      end
  end.

Definition export_case (index : nat) (entries : list (string * string)) (caseID : Z) (row : CaseRow) (files : list (Z * string))
  : batch (list (string * string)) :=
  let folder := case_folder index in
  input ← loadCaseObject caseID (ca_input_type row) (ca_input row) false;
  output ← loadCaseObject caseID (ca_expected_type row) (ca_expected row) true;
  entries ← writeZipEntry entries (folder +:+ "/input.in") input;
  entries ← writeZipEntry entries (folder +:+ "/output.out") output;
  export_files folder caseID entries files.

Fixpoint export_cases (index : nat) (entries : list (string * string)) (files : Z -> list (Z * string)) (rows : list (Z * CaseRow))
  : batch (list (string * string)) :=
  match rows with
  | [] => mret entries
  | (id, row) :: rest => entries ← export_case index entries id row (files id); export_cases (S index) entries files rest
  end.

Definition ExportExerciseTestCasesArchive (exerciseID : Z) (claims : Claims) : batch (string * list (string * string)) :=
  acc ← service (on_db (requireExerciseAuthor fault exerciseID claims));
  let authoringID := authoringExerciseID acc in
  rows ← service (on_db (query fault ErrServer (rows_of_exercise authoringID)));
  files ← (match rows with
           | [] => mret (fun _ => [])
           | _ => service (on_db (query fault ErrServer (fun t id => files_of_case id t)))
           end);
  entries ← export_cases 0 [] files rows;
  mret ("exercicio-" +:+ fmt_int exerciseID +:+ "-casos-de-teste.zip", entries).
End Batch.
