(* ===== verification/BatchProofs.v ===== *)
(** * Importing cases is all or nothing

    [batch_all_or_nothing]: whatever fails, an import leaves the tables as they were or
    creates one case for each case of the archive, with the row the configuration means
    and the objects the judge will fetch. *)

From S2P Require Import Prelude Effects GoStrings GoPath Sql Catalog Limits LimitsProofs Objects Authoring AuthoringProofs.
From S2P Require SubmissionProofs.
From S2P Require Import Archive ArchiveProofs ArchiveExact Batch.
Local Open Scope Z_scope.

(** ** The names of an archive *)

(** One segment of a path. *)
Definition segment (n : string) : Prop := no_byte "/" n /\ no_byte "\" n.

Lemma replace_byte_gone c r s : no_byte c r -> no_byte c (replace_byte c r s).
Proof.
  intros Hr. induction s as [|a s IH]; [done|]. cbn. destruct (Ascii.eqb_spec a c); apply no_byte_app || apply no_byte_cons; done.
Qed.

Lemma trim_space_no_byte c s : no_byte c s -> no_byte c (trim_space s).
Proof.
  intros H. destruct (drop_while_split rune_space (runes s)) as [k Hk].
  destruct (drop_while_end_split rune_space (drop_while rune_space (runes s))) as [j Hj].
  rewrite <- (cat_runes s), Hk, Hj, !cat_app in H. apply no_byte_app in H as [_ H]. by apply no_byte_app in H as [H _].
Qed.

Lemma FileBasename_segment n : segment n -> FileBasename n = if String.eqb (trim_space n) "" || String.eqb (trim_space n) "." || String.eqb (trim_space n) ".." then "file" else trim_space n.
Proof.
  intros [Hs Hb]. apply (trim_space_no_byte _ _) in Hs, Hb. unfold FileBasename. rewrite SubmissionProofs.replace_byte_none by done.
  destruct (String.eqb_spec (trim_space n) "") as [->|He]; [done|]. rewrite SubmissionProofs.path_base_none by done.
  destruct (String.eqb_spec (trim_space n) ""); [done|]. cbn [orb].
  destruct (_ || String.eqb _ ".."); [done|]. destruct (String.eqb_spec (trim_space n) "/") as [E|]; [|done]. rewrite E in Hs. done.
Qed.

Lemma FileBasename_idem n : segment n -> FileBasename (FileBasename n) = FileBasename n.
Proof.
  intros Hn. rewrite (FileBasename_segment n Hn). destruct (_ || _) eqn:E; [done|].
  rewrite FileBasename_segment; [by rewrite trim_space_idem, E|]. split; by apply trim_space_no_byte, Hn.
Qed.

Lemma trim_prefix_no_byte c p s : no_byte c s -> no_byte c (trim_prefix p s).
Proof.
  intros H. unfold trim_prefix. destruct (has_prefix p s) eqn:E; [|done]. apply has_prefix_spec in E as [r ->].
  rewrite drop_bytes_app. by apply no_byte_app in H as [_ H].
Qed.

Lemma split_byte_keeps c d s : no_byte d s -> Forall (no_byte d) (split_byte c s).
Proof.
  induction s as [|a s IH]; intros H; [by repeat constructor|]. apply no_byte_cons in H as [Ha Hs]. specialize (IH Hs).
  cbn. destruct (Ascii.eqb a c); [by constructor|]. destruct (split_byte c s) as [|x l]; constructor.
  - by apply no_byte_cons.
  - by constructor.
  - apply no_byte_cons. split; [done|]. by inversion IH.
  - by inversion IH.
Qed.

Section Names.
Context {UT : UnicodeTables} {MO : MapOrder}.

Lemma normalize_segments name segs : normalizeArchivePath name = Some segs -> Forall segment segs.
Proof.
  unfold normalizeArchivePath. destruct (_ || _); [done|]. destruct (negb _); [done|].
  set (v := trim_prefix _ _). assert (no_byte "\" v) as Hv by by apply trim_prefix_no_byte, trim_space_no_byte, replace_byte_gone.
  intros H. assert (segs = filter (fun s => negb (String.eqb s "") && negb (String.eqb s ".")) (split_byte "/" v)) as ->.
  { destruct (filter _ _); [done|]. by injection H. }
  pose proof (split_byte_pieces "/" v) as H1. pose proof (split_byte_keeps "/" "\" v Hv) as H2. rewrite Forall_forall in H1, H2.
  apply Forall_forall. intros s [_ Hs]%list_elem_of_filter. split; auto.
Qed.

Lemma unwrapped_segments unwrap root segs : Forall segment segs -> Forall segment (unwrapped unwrap root segs).
Proof. destruct segs as [|a [|b l]]; [done..|]. cbn. destruct (_ && _); [|done]. by intros [_ ?]%Forall_cons. Qed.

(** The names below the folders. *)
Definition names_in (m : gmap string (gmap string string)) : Prop :=
  forall f files n d, m !! f = Some files -> files !! n = Some d -> segment n.

Lemma addArchiveFile_names folder name content m : segment name -> names_in m -> names_in (addArchiveFile folder name content m).
Proof.
  intros Hn Hm f files n d. unfold addArchiveFile. rewrite lookup_insert. case_decide as Hf; [|apply Hm]. subst f. intros [= <-].
  rewrite lookup_insert. case_decide as Hx; [by intros _; subst|]. destruct (m !! folder) as [files|] eqn:E; cbn; [by apply (Hm folder)|].
  by rewrite lookup_empty.
Qed.

Definition names_ok (e : batchArchiveEntries) : Prop := names_in (en_folders e) /\ names_in (en_extraFolders e).

Lemma place_entry_names f segs e e' : place_entry f segs e = Ok e' -> Forall segment segs -> names_ok e -> names_ok e'.
Proof.
  intros H Hs [H1 H2]. destruct segs as [|a [|b [|c [|d rest]]]]; cbn [place_entry] in H.
  - by injection H as <-.
  - unfold addRootEntry in H. destruct (String.eqb _ _); [by injection H as <-|]. destruct (String.eqb _ _); [by injection H as <-|].
    destruct (readZipEntry f); [|done]. by injection H as <-.
  - destruct (readZipEntry f) as [x|]; [|done]. injection H as <-. split; [|done]. apply addArchiveFile_names; [|done]. by apply Forall_cons in Hs as [_ [? _]%Forall_cons].
  - destruct (String.eqb b "files"); [|by injection H as <-]. destruct (readZipEntry f) as [x|]; [|done]. injection H as <-. split; [done|].
    apply addArchiveFile_names; [|done]. by apply Forall_cons in Hs as [_ [_ [? _]%Forall_cons]%Forall_cons].
  - by injection H as <-.
Qed.

Lemma read_entries_names unwrap root files : forall x e e', names_ok e -> read_entries unwrap root x files e = Ok e' -> names_ok e'.
Proof.
  induction files as [|f files IH]; intros x e e' He H; cbn [read_entries] in H; [by injection H as <-|].
  destruct (zf_IsDir f); [by eapply IH|]. destruct (normalizeArchivePath _) as [segs|] eqn:En; [|by eapply IH; [|exact H]].
  destruct (ignoredArchiveEntry segs); [by eapply IH|]. cbv zeta in H. destruct (_ <? _); [done|].
  destruct (place_entry _ _ e) as [e1|] eqn:Ep; [|done]. eapply IH; [|exact H].
  eapply place_entry_names; [exact Ep| |done]. by eapply unwrapped_segments, normalize_segments.
Qed.

Definition extras_ok (c : batchTestCase) : Prop := Forall (fun x => segment (xf_Name x)) (bt_ExtraFiles c).

Lemma add_extras_names name files more : forall extras l,
  Forall (fun x => segment x.1) more -> Forall (fun x => segment (xf_Name x)) extras ->
  Forall (fun x => segment (xf_Name x)) (add_extras name files more extras l).1.
Proof.
  unfold add_extras. induction more as [|x more IH]; intros extras l Hm He; [done|]. apply Forall_cons in Hm as [Hx Hm]. cbn [fold_left].
  destruct (bool_decide _); apply IH; try done. apply Forall_app. split; [done|]. by constructor.
Qed.

Lemma visit_segments m : (forall n d, m !! n = Some d -> segment n) -> Forall (fun x : string * string => segment x.1) (visit m).
Proof. intros H. rewrite Forall_forall. intros [n d]. rewrite visit_perm, elem_of_map_to_list. apply H. Qed.

Lemma folderCase_names e name files l c l' :
  names_ok e -> en_folders e !! name = Some files -> folderCase e name files l = (Some c, l') -> extras_ok c.
Proof.
  intros [H1 H2] Hf H. unfold folderCase in H. cbv zeta in H.
  destruct (only_name _ _ _) as [i|r]; [|by destruct (only_name _ _ _)]. destruct (only_name _ _ _) as [o|r]; [|done].
  match type of H with context [add_extras ?a ?b ?c ?d ?e] => pose proof (add_extras_names a b c d e) as Hx; destruct (add_extras a b c d e) as [xs l1] end.
  injection H as <- _. unfold extras_ok. cbn [bt_ExtraFiles]. rewrite merge_sort_Permutation. apply Hx.
  - apply visit_segments. intros n d. destruct (en_extraFolders e !! name) as [m|] eqn:E; cbn; [by eapply H2|by rewrite lookup_empty].
  - apply Forall_fmap. eapply Forall_sublist; [apply sublist_filter|]. apply visit_segments. intros n d. by eapply H1.
Qed.

Lemma testCases_names e cases : names_ok e -> testCases e = Ok cases -> Forall extras_ok cases.
Proof.
  intros He H. unfold testCases in H. destruct (rootPairNames e) as [[inputs outputs] l]. cbv zeta in H. destruct (issues_err _); [done|].
  destruct (uniqueSorted _) as [|n0 names0] eqn:En; [done|]. rewrite <- En in H. destruct (_ <? _)%nat; [done|].
  match type of H with (let '(_, _) := fold_left ?f ?ns0 ?acc0 in _) = _ =>
    assert (forall ns acc, Forall extras_ok acc.1 -> Forall extras_ok (fold_left f ns acc).1) as Hf end.
  { induction ns as [|n ns IH]; intros [cs li] Ha; [done|]. cbn [fold_left]. apply IH. unfold one_case.
    destruct (en_folders e !! n) as [folder|] eqn:Ef.
    - destruct (_ || _); [done|]. destruct (folderCase e n folder li) as [[c|] l'] eqn:Ec; [|done].
      apply Forall_app. split; [done|]. constructor; [by eapply folderCase_names|done].
    - destruct (inputs !! n), (outputs !! n); try done. apply Forall_app. by repeat constructor. }
  specialize (Hf (uniqueSorted ((visit (en_folders e)).*1 ++ (visit inputs).*1 ++ (visit outputs).*1)) ([], [])).
  destruct (fold_left _ _ _) as [cs li]. unfold check_issues in H. destruct (issues_err li); [done|]. injection H as <-. by apply Hf.
Qed.

Lemma readBatchArchive_names a unwrap e root : readBatchArchive a unwrap = Ok (e, root) -> names_ok e.
Proof.
  unfold readBatchArchive. destruct (_ =? _); [done|]. destruct (_ <? _); [done|]. destruct (ar_files a) as [files|]; [|done].
  destruct (_ <? _)%nat; [done|]. cbv zeta. destruct (read_entries _ _ _ _ _) as [e1|] eqn:E; [|done]. intros [= <- <-].
  eapply read_entries_names; [|exact E]. by split; intros f m n d; cbn; rewrite lookup_empty.
Qed.

(** The extra files of a case are named by one segment. *)
Lemma parsed_names a cases ignored : ParseBatchTestCaseArchive a = Ok (cases, ignored) -> Forall extras_ok cases.
Proof.
  unfold ParseBatchTestCaseArchive. destruct (readBatchArchive a false) as [[e root]|] eqn:Er; [|done]. cbn [mbind res_bind].
  apply readBatchArchive_names in Er. destruct (testCases e) as [cs|] eqn:Et; [intros [= <- _]; by eapply testCases_names|].
  destruct (String.eqb _ _); [done|]. destruct (readBatchArchive a true) as [[e' root']|] eqn:Er'; [|done].
  apply readBatchArchive_names in Er'. destruct (testCases e') as [cs|] eqn:Et'; [|done]. intros [= <- _]. by eapply testCases_names.
Qed.
End Names.

(** ** One case *)

(** The objects of the extra files: of the files stored under one key, the last. *)
Definition extras_stored (id : Z) (xs : list batchExtraFile) (os : objects) : Prop :=
  forall pre x post, xs = pre ++ x :: post ->
    (forall y, y ∈ post -> FileBasename (xf_Name y) <> FileBasename (xf_Name x)) ->
    has os (CaseFileKey id (xf_Name x)) (xf_Data x).

Lemma extras_stored_snoc id xs x os :
  extras_stored id xs os ->
  extras_stored id (xs ++ [x]) (<[(cases_bucket, CaseFileKey id (xf_Name x)) := typed (as_object (extra_object x))]> os).
Proof.
  intros H pre y post E Hy. destruct post as [|z post _] using rev_ind.
  - apply app_inj_tail in E as [_ <-]. apply (has_put os _ (extra_object x)).
  - rewrite app_comm_cons, app_assoc in E. apply app_inj_tail in E as [E <-].
    apply has_other; [|eapply H; [exact E|]; intros u Hu; apply Hy, elem_of_app; by left].
    intros Ek%file_key_inj. apply (Hy x); [apply elem_of_app; right; by left|done].
Qed.

(** The limits an import gives a case: one row for each language, over what was there. *)
Record limits_written (id : Z) (entries : list LanguageLimits) (t t' : Tables) : Prop := {
  lw_new : forall e, e ∈ entries -> Empty (ll_overrides e) = false -> t_case_limits t' !! (id, ll_id e) = Some (ll_overrides e);
  lw_old : forall k, k.1 <> id -> t_case_limits t' !! k = t_case_limits t !! k;
  lw_kept : forall k o, t_case_limits t !! k = Some o -> t_case_limits t' !! k = Some o
}.

Lemma InsertTestCaseLanguageLimits_written fault id entries : forall t t',
  runs (InsertTestCaseLanguageLimits fault id entries) t t' (Ok tt) -> limits_written id entries t t'.
Proof.
  induction entries as [|e entries IH]; intros t t' H.
  { apply runs_ret in H as [-> _]. split; [by intros e He%elem_of_nil|done|done]. }
  unfold InsertTestCaseLanguageLimits in H. cbn [each] in H. apply runs_bind in H as [(? & _ & [=])|(t1 & [] & H1 & H)].
  apply IH in H as [Hn Ho Hk]. destruct (Empty (ll_overrides e)) eqn:Ee.
  - apply runs_ret in H1 as [-> _]. split; [|done|done]. intros x [->|Hx]%elem_of_cons; [congruence|auto].
  - apply runs_exec in H1 as [[_ [=]]|[E _]]. unfold insert_override in E. destruct (_ && _) eqn:Eb; [|done]. cbn in E. injection E as <-.
    apply andb_true_iff in Eb as [_ Eb%bool_decide_eq_true]. cbn in Hk, Ho. split.
    + intros x [->|Hx]%elem_of_cons Hx'; [|auto]. apply Hk. by rewrite lookup_insert_eq.
    + intros k Hk'. rewrite Ho by done. rewrite lookup_insert_ne; [done|]. intros <-. by cbn in Hk'.
    + intros k o E. apply Hk. rewrite lookup_insert_ne; [done|]. intros <-. cbn in E. congruence.
Qed.

Section Case.
Context {UT : UnicodeTables} {MO : MapOrder}.
Context (fault : nat -> bool) (collation : relation string) `{!RelDecision collation} (platform : Limits).
Context (ws w0 : world) (P : string -> Prop) (id : Z).
Context (Hid : id = next_value w0 cases_seq) (HP : forall k, owned id k -> P k) (Hsi : since ws P w0).

Local Abbreviation building := (building ws w0 id).
Local Abbreviation undone := (undone ws P).

Lemma wp_upload_extras row i o lim xs : forall done fs keys (Q : list string * list (Z * string) -> world -> Prop) w,
  Forall P keys -> Forall (fun x => segment (xf_Name x)) xs -> building row fs w -> stored id i o fs (w_objects w) ->
  extras_stored id done (w_objects w) -> t_case_limits (w_tables w) = lim ->
  (forall keys' fs' w', Forall P keys' -> fs'.*2 = fs.*2 ++ ((fun x => FileBasename (xf_Name x)) <$> xs) ->
     building row fs' w' -> stored id i o fs' (w_objects w') -> extras_stored id (done ++ xs) (w_objects w') ->
     t_case_limits (w_tables w') = lim -> Q (keys', fs') w') ->
  wp (upload_extras fault id keys fs xs) Q (fun _ w' => undone w') w.
Proof using Hid HP Hsi.
  induction xs as [|x xs IH]; intros ys fs keys Q w Hks Hn Hb Hst Hex Hl HQ; cbn [upload_extras].
  { apply wp_ret, HQ; try done; cbn; by rewrite app_nil_r. }
  apply Forall_cons in Hn as [Hx Hn].
  apply wp_bind. eapply wp_upload; [done..|apply owned_file|exact Hb|]. intros Hb1.
  apply wp_bind, wp_guarded; [apply Forall_app; split; [done|]; constructor; [apply HP, owned_file|done]|].
  eapply wp_insert_file_row; [done..|exact Hb1|]. intros g w' Hb2 Ho Hl'.
  apply (IH (ys ++ [x])); try done.
  - apply Forall_app; split; [done|]. constructor; [apply HP, owned_file|done].
  - rewrite Ho. cbn. assert (CaseFileKey id (xf_Name x) = CaseFileKey id (FileBasename (xf_Name x))) as ->.
    { unfold CaseFileKey. by rewrite FileBasename_idem. }
    by apply stored_file.
  - rewrite Ho. by apply extras_stored_snoc.
  - by rewrite Hl'.
  - intros keys' fs' w'' Hk' Hfs' Hb' Hst' Hex' Hl''. apply HQ; try done; [|by rewrite <- app_assoc in Hex'].
    rewrite Hfs', fmap_app. cbn. by rewrite <- app_assoc.
Qed.

(** What one iteration has done. *)
Record case_done (cfg : BatchTestCaseConfig) (a : Z) (overrides : list LanguageLimits) (c : batchTestCase) (tc : AuthoredCase) (w : world) : Prop := {
  cd_id : at_ID tc = id;
  cd_row : at_row tc = batch_row cfg a c;
  cd_paths : (at_Files tc).*2 = (fun x => FileBasename (xf_Name x)) <$> bt_ExtraFiles c;
  cd_building : building (at_row tc) (at_Files tc) w;
  cd_stored : stored id (bt_InputData c) (bt_OutputData c) (at_Files tc) (w_objects w);
  cd_extras : extras_stored id (bt_ExtraFiles c) (w_objects w);
  cd_limits : limits_written id overrides (w_tables w0) (w_tables w)
}.

Lemma wp_import_case cfg a overrides c keys (Q : list string * AuthoredCase -> world -> Prop) :
  w_saved w0 = Some (w_tables ws) -> id <= 2 ^ 31 -> Forall P keys -> extras_ok c ->
  (forall keys' tc w', Forall P keys' -> case_done cfg a overrides c tc w' -> Q (keys', tc) w') ->
  wp (import_case fault cfg a overrides keys c) Q (fun _ w' => undone w') w0.
Proof using Hid HP Hsi.
  intros Hs Hmax Hks Hx HQ. unfold import_case. cbv zeta.
  apply wp_bind, wp_guarded; [done|]. eapply wp_insert_row; try done. intros w1 Hb1 Ho1 Hl1.
  apply wp_bind, wp_guarded; [done|]. apply wp_on_db. intros t n r Hr.
  pose proof (InsertTestCaseLanguageLimits_only _ _ _ _ _ _ _ (limits_only_refl (w_tables w1)) Hr) as Hlo.
  set (w2 := w1 <| w_conn := mk_conn t n |>). assert (Hb2 : building (batch_row cfg a c) [] w2).
  { destruct Hb1. split; try done. by eapply extended_limits. }
  destruct r as [[]|e]; [|by eapply building_undone]. apply InsertTestCaseLanguageLimits_written in Hr.
  assert (Hlw : limits_written id overrides (w_tables w0) t).
  { destruct Hr as [H1 H2 H3]. split; [done|..]; intros *; rewrite <- Hl1; [apply H2|apply H3]. }
  apply wp_bind. eapply wp_upload; [done..|apply owned_input|exact Hb2|]. intros Hb3. set (w3 := sent w2 <| w_objects := _ |>) in *.
  assert (Hk3 : Forall P (keys ++ [CaseInputKey id])) by (apply Forall_app; split; [done|]; constructor; [apply HP, owned_input|done]).
  apply wp_bind. eapply wp_upload; [done..|apply owned_output|exact Hb3|]. intros Hb4. set (w4 := sent w3 <| w_objects := _ |>) in *.
  apply wp_bind. eapply (wp_upload_extras _ (bt_InputData c) (bt_OutputData c) (t_case_limits t) _ []); [|exact Hx|exact Hb4| | |done|].
  - apply Forall_app. split; [done|]. constructor; [apply HP, owned_output|done].
  - split; [|split; [apply (has_put _ _ (side_object _ (bt_OutputData c)))|by intros p Hp%elem_of_nil]].
    apply has_other; [apply input_output_key|]. apply (has_put _ _ (side_object _ (bt_InputData c))).
  - intros pre x post E. by destruct pre.
  - intros keys' fs w5 Hk Hfs Hb5 Hst5 Hex5 Hl5. apply wp_ret, HQ; [done|]. split; try done. destruct Hlw as [H1 H2 H3]. by split; rewrite Hl5.
Qed.
End Case.

(** ** All the cases *)

(** What an import left of one case of the archive. *)
Record imported (cfg : BatchTestCaseConfig) (a : Z) (overrides : list LanguageLimits) (c : batchTestCase) (tc : AuthoredCase)
    (t : Tables) (os : objects) : Prop := {
  im_row : at_row tc = batch_row cfg a c;
  im_paths : (at_Files tc).*2 = (fun x => FileBasename (xf_Name x)) <$> bt_ExtraFiles c;
  im_case : t_cases t !! at_ID tc = Some (at_row tc);
  im_files : forall f p, t_case_files t !! f = Some (at_ID tc, p) <-> (f, p) ∈ at_Files tc;
  im_limits : forall e, e ∈ overrides -> Empty (ll_overrides e) = false ->
    t_case_limits t !! (at_ID tc, ll_id e) = Some (ll_overrides e);
  im_input : has os (CaseInputKey (at_ID tc)) (bt_InputData c);
  im_output : has os (CaseOutputKey (at_ID tc)) (bt_OutputData c);
  im_extras : extras_stored (at_ID tc) (bt_ExtraFiles c) os
}.

(** Nothing but the cases [ids], their files and their limits is new. *)
Record only_cases (t0 : Tables) (ids : list Z) (t : Tables) : Prop := {
  oc_tables : t = t0 <| t_cases := t_cases t |> <| t_case_files := t_case_files t |> <| t_case_limits := t_case_limits t |>;
  oc_cases : forall id, id ∉ ids -> t_cases t !! id = t_cases t0 !! id;
  oc_files : forall f id p, id ∉ ids -> t_case_files t !! f = Some (id, p) <-> t_case_files t0 !! f = Some (id, p);
  oc_limits : forall id l, id ∉ ids -> t_case_limits t !! (id, l) = t_case_limits t0 !! (id, l)
}.

(** The keys of the cases that do not exist in [w]. *)
Definition fresh (w : world) (k : string) : Prop := exists id, next_value w cases_seq <= id <= 2 ^ 31 /\ owned id k.

(** Between two iterations: the cases [cs] of the archive are there as [tcs]. *)
Record partial (ws : world) (cfg : BatchTestCaseConfig) (a : Z) (overrides : list LanguageLimits) (cs : list batchTestCase)
    (tcs : list AuthoredCase) (w : world) : Prop := {
  pa_saved : w_saved w = Some (w_tables ws);
  pa_since : since ws (fresh ws) w;
  pa_numbered : numbered w;
  pa_mirrored : mirrored (w_tables w) (w_objects w);
  pa_ids : at_ID <$> tcs = seqZ (next_value ws cases_seq) (Z.of_nat (length cs));
  pa_next : next_value w cases_seq = next_value ws cases_seq + Z.of_nat (length cs);
  pa_cases : Forall2 (fun c tc => imported cfg a overrides c tc (w_tables w) (w_objects w)) cs tcs;
  pa_tables : only_cases (w_tables ws) (at_ID <$> tcs) (w_tables w)
}.

(** A later case leaves the earlier ones alone. *)
Lemma imported_later ws w1 id row fs overrides w cfg a c tc :
  building ws w1 id row fs w -> limits_written id overrides (w_tables w1) (w_tables w) -> int64 id -> int64 (at_ID tc) -> at_ID tc <> id ->
  imported cfg a overrides c tc (w_tables w1) (w_objects w1) -> imported cfg a overrides c tc (w_tables w) (w_objects w).
Proof.
  intros [_ Ho [Ht Hf] _ _ _ _] [_ Hl _] Hi Hj Hne [].
  assert (Hk : forall k, owned (at_ID tc) k -> w_objects w !! (cases_bucket, k) = w_objects w1 !! (cases_bucket, k)).
  { intros k Hk. apply Ho. intros Hk'. by destruct (Hne (owned_inj _ _ _ Hj Hi Hk Hk')). }
  assert (Hh : forall k d, owned (at_ID tc) k -> has (w_objects w1) k d -> has (w_objects w) k d).
  { intros k d Hk' (ob & E & Hd). exists ob. by rewrite Hk. }
  split; try done.
  - rewrite Ht. cbn. by rewrite lookup_insert_ne.
  - intros f p. rewrite Hf. cbn. rewrite im_files0. split; [|by right]. by intros [[? _]|?].
  - intros e He Hem. rewrite Hl by done. by apply im_limits0.
  - apply Hh; [apply owned_input|done].
  - apply Hh; [apply owned_output|done].
  - intros pre x post E Hp. apply Hh; [apply owned_file|]. by eapply im_extras0.
Qed.

Section Loop.
Context {UT : UnicodeTables} {MO : MapOrder}.
Context (fault : nat -> bool) (collation : relation string) `{!RelDecision collation} (platform : Limits).
Context (ws : world) (cfg : BatchTestCaseConfig) (a : Z) (overrides : list LanguageLimits).

(** One iteration, on the case that is new. *)
Lemma case_done_imported w1 c tc w :
  numbered w1 -> case_done ws w1 (next_value w1 cases_seq) cfg a overrides c tc w ->
  imported cfg a overrides c tc (w_tables w) (w_objects w).
Proof.
  intros Hn [Eid Hrow Hp [_ _ [Ht Hf] _ _ _ _] (Hi & Ho & _) Hx [Hl _ _]]. rewrite <- Eid in *. split; try done.
  - rewrite Ht. cbn. apply lookup_insert_eq.
  - intros f p. rewrite Hf. cbn. split; [|by left]. intros [[_ ?]|E]; [done|]. apply (nu_owner _ Hn) in E as [r E].
    apply (nu_case _ Hn) in E. change "exercises_test_cases" with cases_seq in E. lia.
Qed.

Lemma case_done_created w1 c tc w :
  case_done ws w1 (next_value w1 cases_seq) cfg a overrides c tc w ->
  created w1 (next_value w1 cases_seq) (at_row tc) (at_Files tc) (w <| w_saved := None |>).
Proof. intros [_ _ _ [] _ _ _]. by split. Qed.

Lemma set_twice (u v : Tables) x y z :
  u = v <| t_cases := t_cases u |> <| t_case_files := t_case_files u |> <| t_case_limits := t_case_limits u |> ->
  u <| t_cases := x |> <| t_case_files := y |> <| t_case_limits := z |> = v <| t_cases := x |> <| t_case_files := y |> <| t_case_limits := z |>.
Proof. intros H. by rewrite H. Qed.

Lemma Forall2_impl_elem {A B} (R S : A -> B -> Prop) l k :
  Forall2 R l k -> (forall x y, y ∈ k -> R x y -> S x y) -> Forall2 S l k.
Proof. induction 1 as [|x y l k Hxy _ IH]; intros H; constructor; [apply H; [left|done]|apply IH; intros ???; apply H; by right]. Qed.

Lemma only_cases_step t0 ids t1 id row fs t ov :
  only_cases t0 ids t1 -> extended t1 id row fs t -> limits_written id ov t1 t -> only_cases t0 (ids ++ [id]) t.
Proof.
  intros [H1 H2 H3 H4] [Ht Hf] [_ Hl _]. split.
  - rewrite Ht. cbn. by apply set_twice.
  - intros i [Hi Hn]%not_elem_of_app. rewrite Ht. cbn. rewrite lookup_insert_ne by set_solver. by apply H2.
  - intros f i p [Hi Hn]%not_elem_of_app. rewrite Hf. cbn. rewrite <- H3 by done. split; [|by right]. intros [[-> _]|?]; [set_solver|done].
  - intros i l [Hi Hn]%not_elem_of_app. rewrite Hl by set_solver. by apply H4.
Qed.

Lemma since_step w1 id row fs w :
  since ws (fresh ws) w1 -> id = next_value w1 cases_seq -> id <= 2 ^ 31 -> building ws w1 id row fs w -> since ws (fresh ws) w.
Proof.
  intros [So Sc Sf] Hid Hle []. split; [|lia|lia]. intros k Hk. rewrite <- (So k Hk). apply bu_objects. intros Ho. apply Hk. exists id.
  split; [lia|done].
Qed.

Lemma partial_step cs tcs w1 c tc w :
  numbered ws -> partial ws cfg a overrides cs tcs w1 -> case_done ws w1 (next_value w1 cases_seq) cfg a overrides c tc w ->
  partial ws cfg a overrides (cs ++ [c]) (tcs ++ [tc]) w.
Proof.
  intros Hws [] Hd. pose proof (case_done_created _ _ _ _ Hd) as Hc. pose proof Hd as [Eid Hrow _ Hb Hst _ Hlw].
  pose proof (nu_next _ pa_numbered0) as Hnx. pose proof (nu_next _ Hws) as Hnw. fold cases_seq in Hnx, Hnw.
  set (id := next_value w1 cases_seq) in *. assert (Hi64 : int64 id) by by apply int64_id.
  split.
  - apply Hb.
  - eapply since_step; [done|reflexivity|lia|exact Hb].
  - pose proof (created_numbered w1 id _ _ _ pa_numbered0 eq_refl Hc) as []. by split.
  - refine (created_mirrored w1 id _ _ _ _ _ pa_numbered0 eq_refl pa_mirrored0 _ _ Hc Hst); rewrite Hrow; cbn; by intros ->.
  - rewrite fmap_app, length_app, pa_ids0. cbn. rewrite Nat.add_1_r, seqZ_S. by rewrite Eid, pa_next0.
  - rewrite (bu_cases _ _ _ _ _ _ Hb), length_app. cbn. lia.
  - apply Forall2_app; [|constructor; [by eapply case_done_imported|constructor]].
    eapply Forall2_impl_elem; [exact pa_cases0|]. intros c' tc' Htc Him. apply (list_elem_of_fmap_2 at_ID) in Htc. rewrite pa_ids0, elem_of_seqZ in Htc.
    eapply imported_later; [exact Hb|exact Hlw|done| |lia|done]. apply int64_id. lia.
  - rewrite fmap_app. cbn. rewrite Eid. eapply only_cases_step; [done|apply Hb|exact Hlw].
Qed.

Lemma partial_undone cs tcs w : partial ws cfg a overrides cs tcs w -> undone ws (fresh ws) w.
Proof.
  intros []. pose proof (nu_next _ pa_numbered0) as Hnx. fold cases_seq in Hnx. destruct pa_since0. split; try done; [|lia].
  unfold base_tables. by rewrite pa_saved0.
Qed.

Lemma wp_import_cases cs : forall prev tcs keys (Q : list string * list AuthoredCase -> world -> Prop) w,
  numbered ws -> Forall extras_ok cs -> Forall (fresh ws) keys -> partial ws cfg a overrides prev tcs w ->
  (forall keys' tcs' w', Forall (fresh ws) keys' -> partial ws cfg a overrides (prev ++ cs) tcs' w' -> Q (keys', tcs') w') ->
  wp (import_cases fault cfg a overrides keys tcs cs) Q (fun _ w' => undone ws (fresh ws) w') w.
Proof.
  induction cs as [|c cs IH]; intros prev tcs keys Q w Hws Hx Hk Hp HQ; cbn [import_cases].
  { apply wp_ret, HQ; [done|]. by rewrite app_nil_r. }
  apply Forall_cons in Hx as [Hc Hx]. pose proof (nu_next _ (pa_numbered _ _ _ _ _ _ _ Hp)) as Hnx. fold cases_seq in Hnx.
  apply wp_bind. eapply (wp_import_case fault ws w (fresh ws) (next_value w cases_seq) eq_refl); [|apply Hp|apply Hp|lia|done|done|].
  - intros k Ho. exists (next_value w cases_seq). split; [|done]. destruct (pa_since _ _ _ _ _ _ _ Hp). lia.
  - intros keys' tc w' Hk' Hd. cbn iota beta. eapply IH; [done|done|done|by eapply partial_step|].
    intros keys'' tcs' w'' Hk'' Hp''. apply HQ; [done|]. by rewrite <- app_assoc in Hp''.
Qed.
End Loop.

(** ** The whole import *)

Lemma wp_service {A} (m : act A) (Q : A -> world -> Prop) (R : batch_error -> world -> Prop) w :
  wp m Q (fun e => R (Service e)) w -> wp (service m) Q R w.
Proof. unfold wp, service. by destruct (m w) as [w' [x|e]]. Qed.

Lemma wp_attempt {A} (m : act A) (Q : option A -> world -> Prop) R w :
  wp m (fun x => Q (Some x)) (fun _ => Q None) w -> wp (attempt m) Q R w.
Proof. unfold wp, attempt. by destruct (m w) as [w' [x|e]]. Qed.

Section Whole.
Context {UT : UnicodeTables} {MO : MapOrder}.
Context (fault : nat -> bool) (collation : relation string) `{!RelDecision collation} (platform : Limits).

(** One override of the limits for each language of the exercise, when there is one. *)
Definition overrides_meant (cfg : BatchTestCaseConfig) (a : Z) (t : Tables) : list LanguageLimits :=
  if Empty (batchLimitOverrides cfg) then []
  else (fun l => unset_limits l (batchLimitOverrides cfg)) <$> allowed_languages collation a t.

(** What the author is told, and what is there afterwards. *)
Definition batch_imported (w : world) (ex : Z) (ar : archive) (config : BatchTestCaseConfig) (claims : Claims)
    (w' : world) (r : BatchTestCaseImportResponse) : Prop :=
  exists e a cfg cases, may_author (w_tables w) ex claims /\
    t_exercises (w_tables w) !! ex = Some e /\ a = owning_exercise ex e /\
    validateBatchConfig config = Ok cfg /\ ParseBatchTestCaseArchive ar = Ok (cases, im_Ignored r) /\ text_issues cfg cases = [] /\
    im_Created r = length cases /\
    at_ID <$> im_TestCases r = seqZ (next_value w cases_seq) (Z.of_nat (length cases)) /\
    Forall2 (fun c tc => imported cfg a (overrides_meant cfg a (w_tables w)) c tc (w_tables w') (w_objects w')) cases (im_TestCases r) /\
    only_cases (w_tables w) (at_ID <$> im_TestCases r) (w_tables w').

Lemma batchLanguageOverrides_runs a cfg t t' r :
  runs (batchLanguageOverrides fault collation a cfg) t t' r -> t' = t /\ forall l, r = Ok l -> l = overrides_meant cfg a t.
Proof.
  unfold batchLanguageOverrides, overrides_meant, loadAllowedLanguages. destruct (Empty _).
  - intros [-> ->]%runs_ret. split; [done|]. by intros l [= <-].
  - intros H. apply runs_bind in H as [(? & H & ->)|(? & langs & Hq & H)]; [apply runs_query in H as [-> _]; by split|].
    apply runs_query in Hq as [-> [[=]|[= ->]]]. apply runs_ret in H as [-> ->]. split; [done|]. by intros l [= <-].
Qed.

Lemma wp_import_rows ws cfg a cases (Q : list AuthoredCase -> world -> Prop) w :
  numbered ws -> mirrored (w_tables ws) (w_objects ws) -> Forall extras_ok cases ->
  w_saved w = Some (w_tables ws) -> w_tables w = w_tables ws -> w_objects w = w_objects ws -> w_next w = w_next ws ->
  (forall tcs w', partial ws cfg a (overrides_meant cfg a (w_tables ws)) cases tcs w' -> Q tcs (sent w' <| w_saved := None |>)) ->
  wp (import_rows fault collation cfg a cases) Q (fun _ w' => undone ws (fresh ws) w') w.
Proof.
  intros Hn Hm Hx Hs Ht Ho Hw HQ. unfold import_rows.
  apply wp_bind, wp_on_db. intros t n r [-> Hr]%batchLanguageOverrides_runs. rewrite Ht in *.
  set (w1 := w <| w_conn := _ |>).
  assert (Hv : forall s, next_value w1 s = next_value ws s) by (intros s; unfold next_value; cbn; by rewrite Hw).
  assert (Hp : forall ov, partial ws cfg a ov [] [] w1).
  { intros ov. split; try done.
    - split; [by intros k _; cbn; rewrite Ho|by rewrite Hv..].
    - destruct Hn. split; cbn; rewrite ?Hv; done.
    - cbn. by rewrite Ho.
    - cbn. rewrite Hv. lia.
    - split; cbn; [by destruct (w_tables ws)|done..]. }
  destruct r as [ov|e]; [|exact (partial_undone _ _ _ _ _ _ _ (Hp []))]. rewrite (Hr ov eq_refl).
  apply wp_bind. eapply wp_import_cases; [done|done|constructor|apply Hp|]. intros keys tcs w' Hk Hp'. cbn iota beta.
  apply wp_bind, wp_guarded; [done|]. apply wp_commit.
  - intros _. destruct (partial_undone _ _ _ _ _ _ _ Hp'). split.
    + unfold base_tables. rewrite rolled_back_saved. change (w_tables (rolled_back (sent w')) = w_tables ws). by rewrite rolled_back_tables.
    + by rewrite rolled_back_objects.
    + by rewrite rolled_back_value.
    + by rewrite rolled_back_value.
  - by apply wp_ret, HQ.
Qed.

Lemma fresh_frame w o t :
  numbered w -> t = w_tables w -> only_keys (fresh w) (w_objects w) o -> mirrored t (w_objects w) -> mirrored t o.
Proof.
  intros Hn -> Ho [Hi Hu Hf]. pose proof (nu_next _ Hn) as Hx. fold cases_seq in Hx.
  assert (Hk : forall id r k, t_cases (w_tables w) !! id = Some r -> owned id k -> o !! (cases_bucket, k) = w_objects w !! (cases_bucket, k)).
  { intros id r k Hr Hk. apply Ho. intros (id' & Hid' & Hk'). apply (nu_case _ Hn) in Hr. fold cases_seq in Hr.
    assert (id = id') as ->; [|lia]. eapply owned_inj; [| |exact Hk|exact Hk']; apply int64_id; lia. }
  split.
  - intros id r Hr. destruct (Hi id r Hr) as (ob & E & Hd). exists ob. by rewrite (Hk id r _ Hr (owned_input id)).
  - intros id r Hr. destruct (Hu id r Hr) as (ob & E & Hd). exists ob. by rewrite (Hk id r _ Hr (owned_output id)).
  - intros f id p Hp. destruct (nu_owner _ Hn _ _ _ Hp) as [r Hr]. rewrite (Hk id r _ Hr (owned_file id p)). by eapply Hf.
Qed.
(** What a failed import leaves: objects of cases that do not exist, and ids used up. *)
Definition settled (w w' : world) : Prop :=
  numbered w' /\ mirrored (w_tables w') (w_objects w') /\ w_saved w' = None /\
  only_keys (fresh w) (w_objects w) (w_objects w').

Lemma undone_settled w w' :
  numbered w -> mirrored (w_tables w) (w_objects w) -> undone w (fresh w) w' ->
  settled w (rolled_back w') /\ w_tables (rolled_back w') = w_tables w.
Proof.
  intros Hn Hm [Ht Ho Hc Hf]. assert (w_tables (rolled_back w') = w_tables w) as Et by by rewrite rolled_back_tables.
  split; [|done]. split_and!; [| |apply rolled_back_saved|by rewrite rolled_back_objects].
  - apply (undone_numbered w); try done; by rewrite rolled_back_value.
  - rewrite rolled_back_objects, Et. by apply (fresh_frame w).
Qed.

Lemma with_limits_same limits (tcs : list AuthoredCase) :
  (at_ID <$> (with_limits limits <$> tcs)) = at_ID <$> tcs.
Proof. rewrite <- list_fmap_compose. by apply list_fmap_ext. Qed.

Lemma with_limits_imported limits cfg a ov t os cs tcs :
  Forall2 (fun c tc => imported cfg a ov c tc t os) cs tcs -> Forall2 (fun c tc => imported cfg a ov c tc t os) cs (with_limits limits <$> tcs).
Proof. induction 1 as [|c tc cs tcs H _ IH]; [constructor|]. constructor; [|done]. destruct H. by split. Qed.

Lemma wp_CreateTestCasesBatch ex ar config claims w :
  numbered w -> mirrored (w_tables w) (w_objects w) -> w_saved w = None ->
  wp (CreateTestCasesBatch fault collation platform ex ar config claims)
    (fun r w' => settled w w' /\ batch_imported w ex ar config claims w' r)
    (fun _ w' => settled w w' /\ w_tables w' = w_tables w) w.
Proof.
  intros Hn Hm Hs. unfold CreateTestCasesBatch.
  assert (Hok : forall n, settled w (w <| w_conn := mk_conn (w_tables w) n |>)) by (intros n; split_and!; [by destruct Hn|done..]).
  apply wp_bind, wp_service, wp_on_db. intros t n r Hr. destruct r as [acc|e].
  2:{ apply requireExerciseAuthor_reads in Hr as ->. by split. }
  apply requireExerciseAuthor_ok in Hr as (-> & Ha & e & He & Hacc). rewrite Hacc. cbv zeta. set (a := owning_exercise ex e).
  set (w1 := w <| w_conn := _ |>).
  apply wp_bind, wp_service, wp_lift. destruct (validateBatchConfig config) as [cfg|er] eqn:Ecfg; [|split; [exact (Hok n)|done]].
  apply wp_bind, wp_lift. destruct (ParseBatchTestCaseArchive ar) as [[cases ignored]|er] eqn:Ep; [|split; [exact (Hok n)|done]]. cbn iota beta.
  apply wp_bind, wp_lift. unfold check_issues. destruct (issues_err (text_issues cfg cases)) as [er|] eqn:Et; [split; [exact (Hok n)|done]|].
  assert (text_issues cfg cases = []) as Et' by by destruct (text_issues cfg cases). cbn iota beta.
  apply wp_bind, wp_service, wp_with_tx; [intros _; split; [exact (Hok (S n))|done]|].
  eapply wp_mono; [apply (wp_import_rows w cfg a cases (fun tcs w' => exists w0, w' = sent w0 <| w_saved := None |> /\
    partial w cfg a (overrides_meant cfg a (w_tables w)) cases tcs w0)); try done; [by eapply parsed_names|]| |].
  - intros tcs w' Hp. by exists w'.
  - intros tcs w' (w0 & -> & Hp). set (w2 := sent w0 <| w_saved := None |>).
    assert (rolled_back w2 = w2) as -> by done.
    apply wp_bind, wp_service, wp_attempt.
    assert (Hfin : forall n limits, settled w (w2 <| w_conn := mk_conn (w_tables w2) n |>) /\
      batch_imported w ex ar config claims (w2 <| w_conn := mk_conn (w_tables w2) n |>) (mk_import (length tcs) ignored (with_limits limits <$> tcs))).
    { intros n' limits. destruct Hp. split.
      - split_and!; [destruct pa_numbered0; by split|done|done|]. apply pa_since0.
      - exists e, a, cfg, cases. split_and!; try done; cbn [im_Created im_TestCases].
        + apply Forall2_length in pa_cases0. by rewrite pa_cases0.
        + by rewrite with_limits_same.
        + by apply with_limits_imported.
        + by rewrite with_limits_same. }
    apply wp_on_db. intros t' n' r ->%TestCaseLanguageLimits_reads. destruct r as [m|er]; apply wp_ret, Hfin.
  - intros er w' Hu. by apply undone_settled.
Qed.
End Whole.

(** C27: An import is all or nothing, whichever statements and object writes fail, the
    clean-up's own included. After an error the tables are what they were. After an
    answer every case of the archive is there, in order, under the next ids, with the
    row and the limits the configuration means, the rows of its extra files and their
    objects, and nothing else is new; no other case loses an object. Every case of the
    tables keeps the objects the judge fetches for it. *)
Theorem batch_all_or_nothing {UT : UnicodeTables} {MO : MapOrder} fault collation `{!RelDecision collation} platform ex ar config claims w w' r
  (Hn : numbered w) (Hm : mirrored (w_tables w) (w_objects w)) (Hs : w_saved w = None)
  (H : CreateTestCasesBatch fault collation platform ex ar config claims w = (w', r)) :
  settled w w' /\
  match r with
  | Ok im => batch_imported collation w ex ar config claims w' im
  | Err _ => w_tables w' = w_tables w
  end.
Proof.
  pose proof (wp_CreateTestCasesBatch fault collation platform ex ar config claims w Hn Hm Hs) as Hwp.
  unfold wp in Hwp. rewrite H in Hwp. by destruct r.
Qed.
