(* ===== verification/ExportProofs.v ===== *)
(** * What is exported can be imported

    [export_imports_back]: the archive an exercise is exported to parses to its cases. *)

From S2P Require Import Prelude Effects GoStrings GoPath Sql Catalog Limits Objects Authoring AuthoringProofs.
From S2P Require Import Archive ArchiveProofs ArchiveExact Batch BatchProofs.
From S2P Require SubmissionProofs.
Local Open Scope Z_scope.

(** ** Names of the entries *)

Lemma runes_valid_plain s : plain s -> utf8_valid s = true.
Proof.
  unfold plain, utf8_valid. induction s as [|a s IH]; [done|]. cbn [all_bytes]. intros [Ha Hs]%andb_true_iff.
  destruct (plain_byte_space a Ha) as [Hl _]. cbn [runes]. rewrite Hl. cbn. by apply IH.
Qed.

Lemma drop_while_app_keep {A} (p : A -> bool) l k : drop_while p l = l -> l <> [] -> drop_while p (l ++ k) = l ++ k.
Proof.
  destruct l as [|x l]; [done|]. cbn. destruct (p x); [|done]. intros H _.
  destruct (drop_while_split p l) as [j Hj]. rewrite H in Hj. apply (f_equal length) in Hj. rewrite length_app in Hj. cbn in Hj. lia.
Qed.

(** A string that starts with visible characters and ends as a trimmed one is trimmed. *)
Lemma trim_space_join p n : plain p -> p <> "" -> trim_space n = n -> n <> "" -> trim_space (p +:+ n) = p +:+ n.
Proof.
  intros Hp Hpe Hn Hne. pose proof (runes_plain p Hp) as Hr. unfold trim_space. rewrite runes_app_valid by by apply runes_valid_plain.
  assert (runes p <> []) as Hpr by (intros E; by rewrite <- (cat_runes p), E in Hpe).
  destruct (drop_while_none _ _ Hr) as [Hd _]. rewrite drop_while_app_keep by done.
  assert (drop_while_end rune_space (runes p ++ runes n) = runes p ++ runes n) as ->; [|by rewrite cat_app, !cat_runes].
  assert (drop_while_end rune_space (runes n) = runes n) as He.
  { unfold trim_space in Hn. set (d := drop_while rune_space (runes n)) in *. set (e := drop_while_end rune_space d) in *.
    destruct (drop_while_split rune_space (runes n)) as [k Hk]. fold d in Hk.
    destruct (drop_while_end_split rune_space d) as [j Hj]. fold e in Hj.
    assert (runes (cat e) = e) as Hre by (apply (runes_prefix e j (cat d)); by rewrite (runes_suffix k d n)).
    rewrite Hn in Hre. rewrite Hre. unfold e. apply drop_while_end_idem. }
  unfold drop_while_end in *. rewrite reverse_app.
  assert (drop_while rune_space (reverse (runes n)) = reverse (runes n)) as He' by by rewrite <- (reverse_involutive (drop_while _ _)), He.
  rewrite drop_while_app_keep; [by rewrite reverse_app, !reverse_involutive|done|].
  intros E. apply (f_equal reverse) in E. rewrite reverse_involutive in E. apply Hne. by rewrite <- (cat_runes n), E.
Qed.

(** The folders of the first 500 cases. *)
Definition good_folder (s : string) : bool :=
  all_bytes plain_byte s && (count_byte "/" s =? 0)%nat && (count_byte "\" s =? 0)%nat && has_prefix "caso_" s.

Lemma folders_good : forallb good_folder (case_folder <$> seq 0 500) = true.
Proof. by vm_compute. Qed.

Fixpoint sortedb (l : list string) : bool :=
  match l with x :: ((y :: _) as r) => negb (String.ltb y x) && sortedb r | _ => true end.

Lemma sortedb_sorted l : sortedb l = true -> StronglySorted byte_le l.
Proof.
  intros H. apply Sorted_StronglySorted; [apply _|]. induction l as [|x l IH]; [constructor|]. destruct l as [|y l]; [by repeat constructor|].
  cbn [sortedb] in H. apply andb_true_iff in H as [Hx%negb_true_iff H]. constructor; [by apply IH|by constructor].
Qed.

Lemma folders_sorted : StronglySorted byte_le (case_folder <$> seq 0 500).
Proof. apply sortedb_sorted. by vm_compute. Qed.

Lemma folders_NoDup : NoDup (case_folder <$> seq 0 500).
Proof. apply (bool_decide_unpack _). by vm_compute. Qed.

(** The folders of the cases exported. *)
Lemma folders_prefix n : (n <= 500)%nat -> exists k, case_folder <$> seq 0 500 = (case_folder <$> seq 0 n) ++ k.
Proof.
  intros H. exists (case_folder <$> seq (0 + n) (500 - n)). rewrite <- fmap_app, <- seq_app. do 2 f_equal. lia.
Qed.

Lemma folder_spec i : (i < 500)%nat -> plain (case_folder i) /\ no_byte "/" (case_folder i) /\ no_byte "\" (case_folder i) /\ exists r, case_folder i = "caso_" +:+ r.
Proof.
  intros Hi. pose proof folders_good as H. rewrite forallb_forall in H.
  assert (good_folder (case_folder i) = true) as Hg.
  { apply H, list_elem_of_In, list_elem_of_fmap_2, elem_of_seq. lia. }
  unfold good_folder in Hg. apply andb_true_iff in Hg as [[[Hp Hs%Nat.eqb_eq]%andb_true_iff Hb%Nat.eqb_eq]%andb_true_iff Hc].
  split_and!; try done. by apply has_prefix_spec.
Qed.

Lemma contains_byte_none c s : no_byte c s -> contains_byte c s = false.
Proof.
  unfold contains_byte. induction s as [|a s IH]; [done|]. intros [Ha Hs]%no_byte_cons. cbn [contains].
  rewrite IH by done. unfold has_prefix, str1. cbn. destruct (ascii_dec c a); [congruence|done].
Qed.

(** A name under which an extra file can be exported and imported again. *)
Record portable (n : string) : Prop := {
  po_segment : segment n;
  po_base : FileBasename n = n;
  po_nul : no_byte "000" n;
  po_meta : String.eqb n ".DS_Store" || has_prefix "._" n = false;
  po_own : n <> "input.in" /\ n <> "output.out"
}.

(** A segment that reading leaves as it is. *)
Record neat (n : string) : Prop := {
  ne_trim : trim_space n = n;
  ne_segment : segment n;
  ne_name : n <> "" /\ n <> "." /\ n <> "..";
  ne_nul : no_byte "000" n
}.

Lemma portable_neat n : portable n -> neat n.
Proof.
  intros [Hs Hb Hz _ _]. assert (n <> "" /\ n <> "." /\ n <> "..") as H by (split_and!; intros ->; done).
  split; try done. rewrite FileBasename_segment in Hb by done. destruct (_ || _) eqn:E; [by rewrite <- Hb|exact Hb].
Qed.

Lemma plain_neat n : plain n -> segment n -> n <> "" /\ n <> "." /\ n <> ".." -> neat n.
Proof. intros Hp Hs Hn. split; try done; [by apply trim_space_plain|by apply (plain_no_byte "000")]. Qed.

(** What is left of the name of an entry before it is split. *)
Lemma entry_value i m n :
  (i < 500)%nat -> plain m -> no_byte "\" m -> neat n ->
  let v := case_folder i +:+ (m +:+ n) in
  trim_prefix "./" (trim_space (replace_byte "\" "/" v)) = v /\ String.eqb v "" || has_prefix "/" v = false.
Proof.
  intros Hi Hm Hmb [Ht [Hs Hb] [Hne _] _]. cbv zeta. destruct (folder_spec i Hi) as (Hp & _ & Hfb & r & Er).
  rewrite SubmissionProofs.replace_byte_none by by rewrite !no_byte_app.
  rewrite <- app_assoc_s, trim_space_join; [|by unfold plain; rewrite all_bytes_app; apply andb_true_iff|by rewrite Er|done|done].
  by rewrite Er.
Qed.

Lemma good_segments l : Forall neat l -> filter (fun s => negb (String.eqb s "") && negb (String.eqb s ".")) l = l /\ forallb good_segment l = true.
Proof.
  induction 1 as [|n l [_ _ (H1 & H2 & H3) Hz] _ [IH1 IH2]]; [done|].
  apply String.eqb_neq in H1, H2, H3. rewrite filter_bool_cons, H1, H2, IH1. cbn [negb andb]. split; [done|]. cbn [forallb]. unfold good_segment at 1.
  by rewrite H3, contains_byte_none, IH2.
Qed.

Lemma folder_neat i : (i < 500)%nat -> neat (case_folder i).
Proof. intros (Hp & Hs & Hb & r & Er)%folder_spec. apply plain_neat; [done|done|]. by rewrite Er. Qed.

Lemma normalize_own i n : (i < 500)%nat -> neat n -> normalizeArchivePath (case_folder i +:+ "/" +:+ n) = Some [case_folder i; n].
Proof.
  intros Hi Hn. unfold normalizeArchivePath. destruct (entry_value i "/" n Hi) as [Ev Ee]; [done..|]. cbv zeta in *. rewrite Ev, Ee.
  assert (split_byte "/" (case_folder i +:+ "/" +:+ n) = [case_folder i; n]) as ->.
  { cbn [String.append]. rewrite split_byte_app by by apply folder_spec. by rewrite split_byte_none by apply Hn. }
  destruct (good_segments [case_folder i; n]) as [-> ->]; [|done]. constructor; [by apply folder_neat|by apply Forall_singleton].
Qed.

Lemma normalize_sub i n : (i < 500)%nat -> neat n -> normalizeArchivePath (case_folder i +:+ "/files/" +:+ n) = Some [case_folder i; "files"; n].
Proof.
  intros Hi Hn. unfold normalizeArchivePath. destruct (entry_value i "/files/" n Hi) as [Ev Ee]; [done..|]. cbv zeta in *. rewrite Ev, Ee.
  assert (split_byte "/" (case_folder i +:+ "/files/" +:+ n) = [case_folder i; "files"; n]) as ->.
  { change ("/files/" +:+ n) with (String "/" ("files" +:+ String "/" n)).
    rewrite split_byte_app by by apply folder_spec. rewrite split_byte_app by done. by rewrite split_byte_none by apply Hn. }
  destruct (good_segments [case_folder i; "files"; n]) as [-> ->]; [|done].
  constructor; [by apply folder_neat|]. constructor; [by apply plain_neat|by apply Forall_singleton].
Qed.

(** ** What is exported *)

(** The bytes an object holds, or the text of the row. *)
Definition shown (os : objects) (key text : string) : string := from_option ob_data text (os !! (cases_bucket, key)).

Definition exported_extra (os : objects) (id : Z) (path : string) : batchExtraFile :=
  mk_extra (FileBasename path) (shown os (CaseFileKey id (FileBasename path)) "").

Definition zip_entry (e : string * string) : zip_file := mk_zip e.1 false (Z.of_nat (String.length e.2)) (Some e.2).

Section Exporting.
Context {UT : UnicodeTables} {MO : MapOrder}.
Context (fault : nat -> bool) (os : objects) (files : Z -> list (Z * string)).

Definition extras_of (id : Z) : list batchExtraFile := exported_extra os id <$> (files id).*2.

Definition exported_case (i : nat) (x : Z * CaseRow) : batchTestCase :=
  mk_case (case_folder i) "input.in" (shown os (CaseInputKey x.1) (ca_input x.2))
    "output.out" (shown os (CaseOutputKey x.1) (ca_expected x.2)) (merge_sort by_extra_name (extras_of x.1)).

Definition extra_zip (folder : string) (e : batchExtraFile) : string * string := (extra_entry folder (xf_Name e), xf_Data e).

Definition case_entries (i : nat) (x : Z * CaseRow) : list (string * string) :=
  (case_folder i +:+ "/input.in", shown os (CaseInputKey x.1) (ca_input x.2)) ::
  (case_folder i +:+ "/output.out", shown os (CaseOutputKey x.1) (ca_expected x.2)) :: (extra_zip (case_folder i) <$> extras_of x.1).

Definition all_entries (i : nat) (rows : list (Z * CaseRow)) : list (string * string) :=
  mjoin (zip_with case_entries (seq i (length rows)) rows).

Definition same (t : Tables) (w : world) : Prop := w_tables w = t /\ w_objects w = os.

Lemma wp_call_read {A} (f : objects -> A) t (Q : A -> world -> Prop) w :
  same t w -> (forall w', same t w' -> Q (f os) w') -> wp (service (call fault (fun o => Some (o, f o)))) Q (fun _ _ => True) w.
Proof. intros [Ht Ho] HQ. apply wp_service, wp_call; [done|]. rewrite Ho. apply HQ. by split. Qed.

Lemma wp_readCaseObject key t (Q : option string -> world -> Prop) w :
  same t w -> (forall w', same t w' -> Q (ob_data <$> os !! (cases_bucket, key)) w') -> wp (readCaseObject fault key) Q (fun _ _ => True) w.
Proof.
  intros Hw HQ. unfold readCaseObject, getObject. apply wp_bind. apply (wp_call_read (fun o : objects => o !! (cases_bucket, key)) t); [done|]. intros w1 H1.
  destruct (os !! (cases_bucket, key)) as [ob|]; [|by apply wp_ret, HQ].
  apply wp_bind. apply (wp_call_read (fun _ : objects => ob_data ob) t); [done|]. intros w2 H2.
  destruct (_ <? _); [by apply wp_fail|]. by apply wp_ret, HQ.
Qed.

Lemma wp_loadCaseObject id ty text (output : bool) t (Q : string -> world -> Prop) w :
  same t w -> (forall w', same t w' -> Q (shown os (if output then CaseOutputKey id else CaseInputKey id) text) w') ->
  wp (loadCaseObject fault id ty text output) Q (fun _ _ => True) w.
Proof.
  intros Hw HQ. unfold loadCaseObject, shown in *. apply wp_bind. apply (wp_readCaseObject _ t); [done|]. intros w1 H1.
  destruct (os !! _) as [ob|]; cbn [from_option fmap option_fmap option_map] in *; [by apply wp_ret, HQ|]. destruct (String.eqb _ _); [by apply wp_ret, HQ|by apply wp_fail].
Qed.

Lemma wp_writeZipEntry entries name content (Q : list (string * string) -> world -> Prop) w :
  Q (entries ++ [(name, content)]) w -> wp (writeZipEntry entries name content) Q (fun _ _ => True) w.
Proof. intros H. unfold writeZipEntry. destruct (_ <? _)%nat; [by apply wp_fail|by apply wp_ret]. Qed.

Lemma wp_export_files folder id t l : forall entries (Q : list (string * string) -> world -> Prop) w,
  same t w -> (forall w', same t w' -> Q (entries ++ (extra_zip folder <$> (exported_extra os id <$> l.*2))) w') ->
  wp (export_files fault folder id entries l) Q (fun _ _ => True) w.
Proof.
  induction l as [|[f path] l IH]; intros entries Q w Hw HQ; cbn [export_files].
  { apply wp_ret. specialize (HQ w Hw). by rewrite app_nil_r in HQ. }
  apply wp_bind. apply (wp_readCaseObject _ t); [done|]. intros w1 H1.
  destruct (os !! (cases_bucket, CaseFileKey id (FileBasename path))) as [ob|] eqn:Eo; cbn [fmap option_fmap option_map]; [|by apply wp_fail].
  apply wp_bind, wp_writeZipEntry. apply IH; [done|]. intros w2 H2. specialize (HQ w2 H2).
  rewrite <- app_assoc. cbn [fmap list_fmap snd] in HQ. unfold extra_zip at 1, exported_extra at 1 in HQ. cbn [xf_Name xf_Data] in HQ.
  unfold exported_extra at 1, shown in HQ. rewrite Eo in HQ. exact HQ.
Qed.

Lemma wp_export_cases t rows : forall i entries (Q : list (string * string) -> world -> Prop) w,
  same t w -> (forall w', same t w' -> Q (entries ++ all_entries i rows) w') ->
  wp (export_cases fault i entries files rows) Q (fun _ _ => True) w.
Proof.
  induction rows as [|[id row] rows IH]; intros i entries Q w Hw HQ; cbn [export_cases].
  { apply wp_ret. specialize (HQ w Hw). by rewrite app_nil_r in HQ. }
  apply wp_bind. unfold export_case.
  apply wp_bind. apply (wp_loadCaseObject _ _ _ _ t); [done|]. intros w1 H1.
  apply wp_bind. apply (wp_loadCaseObject _ _ _ _ t); [done|]. intros w2 H2.
  apply wp_bind, wp_writeZipEntry. apply wp_bind, wp_writeZipEntry. apply (wp_export_files _ _ t); [done|]. intros w3 H3.
  apply IH; [done|]. intros w4 H4. specialize (HQ w4 H4). unfold all_entries in *. cbn [length seq zip_with mjoin list_join] in HQ.
  rewrite <- !app_assoc. exact HQ.
Qed.
(** ** Its layout *)

(** The files of a case can be told apart and imported under their names. *)
Definition portable_files (id : Z) : Prop :=
  Forall portable (xf_Name <$> extras_of id) /\ NoDup (xf_Name <$> extras_of id).

Lemma own_neat : neat "input.in" /\ neat "output.out".
Proof. split; by apply plain_neat. Qed.

Lemma exported_case_wf i x : portable_files x.1 -> case_wf (exported_case i x).
Proof.
  intros [Hp Hn]. split; cbn [bt_InputName bt_OutputName bt_ExtraFiles exported_case]; [by vm_compute|by vm_compute| |].
  - assert (StronglySorted by_extra_name (merge_sort by_extra_name (extras_of x.1))) as H by (apply StronglySorted_merge_sort; apply _).
    induction H as [|y l _ IH Hy]; [constructor|]. cbn. constructor; [exact IH|]. by apply Forall_fmap.
  - rewrite merge_sort_Permutation. rewrite Forall_forall in Hp. apply NoDup_cons. split; [|apply NoDup_cons; split; [|done]].
    + intros [H|H]%elem_of_cons; [done|]. by apply Hp, po_own in H as [? _].
    + intros H. by apply Hp, po_own in H as [_ ?].
Qed.

Lemma item_of_own i n d : (i < 500)%nat -> neat n -> String.eqb n ".DS_Store" || has_prefix "._" n = false ->
  item_of false "" (zip_entry (case_folder i +:+ "/" +:+ n, d)) = Some ([case_folder i; n], d).
Proof.
  intros Hi Hn Hm. destruct (folder_spec i Hi) as (_ & _ & _ & r & Er). unfold item_of, live_path. cbn [zip_entry zf_IsDir zf_Name zf_data fst snd].
  rewrite normalize_own by done. unfold ignoredArchiveEntry. cbn [last from_option]. rewrite Hm, Er. done.
Qed.

Lemma item_of_sub i n d : (i < 500)%nat -> neat n -> String.eqb n ".DS_Store" || has_prefix "._" n = false ->
  item_of false "" (zip_entry (case_folder i +:+ "/files/" +:+ n, d)) = Some ([case_folder i; "files"; n], d).
Proof.
  intros Hi Hn Hm. destruct (folder_spec i Hi) as (_ & _ & _ & r & Er). unfold item_of, live_path. cbn [zip_entry zf_IsDir zf_Name zf_data fst snd].
  rewrite normalize_sub by done. unfold ignoredArchiveEntry. cbn [last from_option]. rewrite Hm, Er. done.
Qed.

Lemma item_of_extra i e : (i < 500)%nat -> portable (xf_Name e) ->
  item_of false "" (zip_entry (extra_zip (case_folder i) e)) =
  Some (if ambiguous e then [case_folder i; "files"; xf_Name e] else [case_folder i; xf_Name e], xf_Data e).
Proof.
  intros Hi Hp. unfold extra_zip, extra_entry, ambiguous. destruct (_ || _).
  - by apply item_of_sub; [|apply portable_neat|apply Hp].
  - by apply item_of_own; [|apply portable_neat|apply Hp].
Qed.

Lemma contents_app unwrap root l k : contents unwrap root (l ++ k) = contents unwrap root l ++ contents unwrap root k.
Proof. unfold contents. apply omap_app. Qed.

Lemma case_contents i x : (i < 500)%nat -> portable_files x.1 ->
  contents false "" (zip_entry <$> case_entries i x) ≡ₚ case_items (exported_case i x).
Proof.
  intros Hi [Hp _]. unfold contents, case_entries, case_items. cbn [fmap list_fmap omap list_omap exported_case bt_Folder bt_InputName bt_InputData bt_OutputName bt_OutputData bt_ExtraFiles].
  destruct own_neat as [N1 N2]. rewrite (item_of_own i "input.in"), (item_of_own i "output.out") by done. do 2 constructor.
  rewrite merge_sort_Permutation. revert Hp. generalize (extras_of x.1). induction l as [|e l IH]; intros Hp; [done|].
  cbn [fmap list_fmap] in Hp. apply Forall_cons in Hp as [He Hp]. cbn [fmap list_fmap omap list_omap]. rewrite item_of_extra by done.
  constructor. by apply IH.
Qed.

Lemma all_contents rows : forall i, (i + length rows <= 500)%nat -> Forall (fun x => portable_files x.1) rows ->
  contents false "" (zip_entry <$> all_entries i rows) ≡ₚ mjoin (case_items <$> zip_with exported_case (seq i (length rows)) rows).
Proof.
  induction rows as [|x rows IH]; intros i Hi Hp; [done|]. apply Forall_cons in Hp as [Hx Hp]. cbn [length] in Hi.
  unfold all_entries. cbn [length seq zip_with mjoin list_join fmap list_fmap]. rewrite fmap_app, contents_app.
  rewrite case_contents by (done || lia). by rewrite <- IH by (done || lia).
Qed.

Lemma exported_folders rows : forall i, bt_Folder <$> zip_with exported_case (seq i (length rows)) rows = case_folder <$> seq i (length rows).
Proof. induction rows as [|x rows IH]; intros i; [done|]. cbn. by rewrite IH. Qed.

Definition exported_cases (rows : list (Z * CaseRow)) : list batchTestCase := zip_with exported_case (seq 0 (length rows)) rows.

Lemma exported_wf rows i : Forall (fun x => portable_files x.1) rows -> Forall case_wf (zip_with exported_case (seq i (length rows)) rows).
Proof. intros Hp. revert i. induction Hp as [|x rows Hx _ IH]; intros i; constructor; [by apply exported_case_wf|apply IH]. Qed.

Lemma exported_layout rows : (length rows <= 500)%nat -> Forall (fun x => portable_files x.1) rows ->
  layout (exported_cases rows) (contents false "" (zip_entry <$> all_entries 0 rows)).
Proof.
  intros Hn Hp. destruct (folders_prefix (length rows) Hn) as [k Hk]. split.
  - by apply all_contents.
  - by apply exported_wf.
  - unfold exported_cases. rewrite exported_folders. eapply sorted_sublist; [|exact folders_sorted]. rewrite Hk. by apply sublist_inserts_r.
  - unfold exported_cases. rewrite exported_folders. pose proof folders_NoDup as H. rewrite Hk in H. by apply NoDup_app in H as [? _].
Qed.

(** Every entry is read and placed. *)
Definition placeable (f : zip_file) : Prop :=
  exists segs, normalizeArchivePath (zf_Name f) = Some segs /\ ignoredArchiveEntry segs = false /\ place_ok segs = true /\ ignored_root segs = false.

Lemma item_placeable f segs d : item_of false "" f = Some (segs, d) -> place_ok segs = true -> ignored_root segs = false -> placeable f.
Proof.
  unfold item_of, live_path. destruct (zf_IsDir f); [done|]. destruct (normalizeArchivePath (zf_Name f)) as [s|] eqn:E; [|done].
  destruct (ignoredArchiveEntry s) eqn:Ei; [done|]. cbn. intros [= E' _]. assert (unwrapped false "" s = s) as Eu by by destruct s as [|? [|? ?]].
  rewrite Eu in E'. subst s. intros. by exists segs.
Qed.

Lemma entries_placeable rows : forall i, (i + length rows <= 500)%nat -> Forall (fun x => portable_files x.1) rows ->
  Forall placeable (zip_entry <$> all_entries i rows).
Proof.
  induction rows as [|x rows IH]; intros i Hi Hp; [constructor|]. apply Forall_cons in Hp as [[Hx _] Hp]. cbn [length] in Hi.
  unfold all_entries. cbn [length seq zip_with mjoin list_join]. rewrite fmap_app. apply Forall_app. split; [|apply IH; [lia|done]].
  destruct own_neat as [N1 N2]. unfold case_entries. cbn [fmap list_fmap].
  constructor; [eapply item_placeable; [apply (item_of_own i "input.in"); done || lia|done|done]|].
  constructor; [eapply item_placeable; [apply (item_of_own i "output.out"); done || lia|done|done]|].
  rewrite Forall_fmap, Forall_fmap. rewrite Forall_fmap in Hx. eapply Forall_impl; [exact Hx|]. intros e He.
  eapply item_placeable; [apply item_of_extra; [lia|exact He]| |]; by destruct (ambiguous e).
Qed.

Lemma zip_entry_honest e : honest (zip_entry e).
Proof. by exists e.2. Qed.
End Exporting.

(** ** The round trip *)

Section RoundTrip.
Context {UT : UnicodeTables} {MO : MapOrder}.

(** The cases of an exercise, in the order of their ids, as an archive holds them. *)
Definition cases_shown (w : world) (a : Z) : list batchTestCase :=
  exported_cases (w_objects w) (fun id => files_of_case id (w_tables w)) (rows_of_exercise a (w_tables w)).

Lemma wp_Export fault ex claims w e (Q : string * list (string * string) -> world -> Prop) :
  t_exercises (w_tables w) !! ex = Some e ->
  let rows := rows_of_exercise (owning_exercise ex e) (w_tables w) in
  rows <> [] ->
  (forall w', same (w_objects w) (w_tables w) w' ->
     Q ("exercicio-" +:+ fmt_int ex +:+ "-casos-de-teste.zip",
        all_entries (w_objects w) (fun id => files_of_case id (w_tables w)) 0 rows) w') ->
  wp (ExportExerciseTestCasesArchive fault ex claims) Q (fun _ _ => True) w.
Proof.
  intros He rows Hne HQ. unfold ExportExerciseTestCasesArchive.
  apply wp_bind, wp_service, wp_on_db. intros t n [acc|er] Hr; [|done].
  apply requireExerciseAuthor_ok in Hr as (-> & _ & e' & He' & Hacc). rewrite He in He'. injection He' as <-. rewrite Hacc. cbv zeta.
  apply wp_bind, wp_service, wp_on_db. intros t n1 [l|er] Hr; [|done]. apply runs_query in Hr as [-> [[=]|[= ->]]].
  change (w_tables (w <| w_conn := mk_conn (w_tables w) n |>)) with (w_tables w).
  fold rows. apply wp_bind. destruct rows as [|x l] eqn:Erows; [done|]. rewrite <- Erows in *.
  apply wp_service, wp_on_db. intros t n2 [fs|er] Hr; [|done]. apply runs_query in Hr as [-> [[=]|[= ->]]].
  apply wp_bind. apply (wp_export_cases _ (w_objects w) _ (w_tables w)); [by split|]. intros w' Hw'. apply wp_ret. by apply HQ.
Qed.
(** An exercise that was exported, and an archive that holds the entries. *)
Record exported (fault : nat -> bool) (ex : Z) (claims : Claims) (w : world) (a : Z) (ar : archive) : Prop := {
  xp_answer : exists w' name entries, ExportExerciseTestCasesArchive fault ex claims w = (w', Ok (name, entries)) /\
    ar_files ar = Some (zip_entry <$> entries) /\ (length entries <= MaxBatchEntries)%nat /\
    Forall (fun x => Z.of_nat (String.length x.2) <= MaxBatchCaseFileBytes) entries /\ declared (zip_entry <$> entries) <= MaxBatchExpandedBytes;
  xp_owner : exists e, t_exercises (w_tables w) !! ex = Some e /\ a = owning_exercise ex e;
  xp_length : 0 < ar_len ar <= MaxBatchArchiveBytes;
  xp_some : rows_of_exercise a (w_tables w) <> [];
  xp_most : (length (rows_of_exercise a (w_tables w)) <= MaxBatchTestCases)%nat;
  xp_files : Forall (fun x => portable_files (w_objects w) (fun id => files_of_case id (w_tables w)) x.1) (rows_of_exercise a (w_tables w))
}.

Lemma export_parses fault ex claims w a ar :
  exported fault ex claims w a ar -> ParseBatchTestCaseArchive ar = Ok (cases_shown w a, []).
Proof.
  intros [(w' & name & entries & H & Ha & Hn & Hsize & Hsum) (e & He & ->) Hlen Hne Hmax Hfiles].
  set (rows := rows_of_exercise (owning_exercise ex e) (w_tables w)) in *.
  pose proof (wp_Export fault ex claims w e (fun r w' => r.2 = all_entries (w_objects w) (fun id => files_of_case id (w_tables w)) 0 rows)
    He Hne ltac:(by intros)) as Hwp.
  unfold wp in Hwp. rewrite H in Hwp. cbn in Hwp. subst entries.
  assert (Hl : length (cases_shown w (owning_exercise ex e)) = length rows).
  { unfold cases_shown, exported_cases. rewrite length_zip_with, length_seq. fold rows. lia. }
  apply (layout_round_trip ar _ _ Ha Hlen); [by rewrite length_fmap| |done|by apply exported_layout| |by rewrite Hl].
  - pose proof (entries_placeable (w_objects w) (fun id => files_of_case id (w_tables w)) rows 0 Hmax Hfiles) as Hp.
    rewrite Forall_fmap in Hp |- *. apply Forall_forall. intros x Hx. rewrite Forall_forall in Hp, Hsize.
    split; [apply zip_entry_honest|]. split; [by apply Hsize|]. right. by apply Hp.
  - intros E. rewrite E in Hl. by destruct rows.
Qed.

(** The copy [tc] of the case [x] of [w]. *)
Record copied (w : world) (x : Z * CaseRow) (tc : AuthoredCase) (os : objects) : Prop := {
  cp_input : has os (CaseInputKey (at_ID tc)) (shown (w_objects w) (CaseInputKey x.1) (ca_input x.2));
  cp_output : has os (CaseOutputKey (at_ID tc)) (shown (w_objects w) (CaseOutputKey x.1) (ca_expected x.2));
  cp_paths : (at_Files tc).*2 ≡ₚ FileBasename <$> (files_of_case x.1 (w_tables w)).*2;
  cp_extras : forall p, p ∈ (files_of_case x.1 (w_tables w)).*2 ->
    has os (CaseFileKey (at_ID tc) p) (shown (w_objects w) (CaseFileKey x.1 p) "");
  cp_text : ca_input_type x.2 = IOTypeText -> ca_input_type (at_row tc) = IOTypeText -> ca_input (at_row tc) = ca_input x.2;
  cp_expected : ca_expected_type x.2 = IOTypeText -> ca_expected_type (at_row tc) = IOTypeText -> ca_expected (at_row tc) = ca_expected x.2
}.

Lemma shown_text w key ty text : side_ok (w_objects w) key ty text -> ty = IOTypeText -> shown (w_objects w) key text = text.
Proof. intros (o & E & H) Hty. unfold shown. rewrite E. by apply H. Qed.

Lemma extras_all_stored id xs os x :
  extras_stored id xs os -> NoDup ((fun x => FileBasename (xf_Name x)) <$> xs) -> x ∈ xs -> has os (CaseFileKey id (xf_Name x)) (xf_Data x).
Proof.
  intros H Hn (pre & post & ->)%list_elem_of_split. apply (H pre x post eq_refl). intros y Hy E.
  rewrite fmap_app in Hn. apply NoDup_app in Hn as (_ & _ & Hn). cbn in Hn. apply NoDup_cons in Hn as [Hn _]. apply Hn.
  rewrite <- E. by apply (list_elem_of_fmap_2 (fun x => FileBasename (xf_Name x))).
Qed.

Lemma portable_base (l : list batchExtraFile) : Forall portable (xf_Name <$> l) -> (fun x => FileBasename (xf_Name x)) <$> l = xf_Name <$> l.
Proof.
  induction l as [|x l IH]; [done|]. cbn. intros [Hx Hl]%Forall_cons. by rewrite (po_base _ Hx), IH.
Qed.

Lemma imported_copied w i x cfg b ov tc t os :
  mirrored (w_tables w) (w_objects w) -> t_cases (w_tables w) !! x.1 = Some x.2 ->
  portable_files (w_objects w) (fun id => files_of_case id (w_tables w)) x.1 ->
  imported cfg b ov (exported_case (w_objects w) (fun id => files_of_case id (w_tables w)) i x) tc t os -> copied w x tc os.
Proof.
  intros [Hi Hu Hf] Hx [Hp Hnd] [Hrow Hpaths _ _ _ Him Hou Hext]. cbn in Him, Hou. cbn [exported_case bt_ExtraFiles] in Hpaths, Hext.
  assert (Hb : (fun y => FileBasename (xf_Name y)) <$> extras_of (w_objects w) (fun id => files_of_case id (w_tables w)) x.1 =
    FileBasename <$> (files_of_case x.1 (w_tables w)).*2).
  { rewrite (portable_base _ Hp). unfold extras_of. by rewrite <- list_fmap_compose. }
  split; try done.
  - by rewrite Hpaths, merge_sort_Permutation, Hb.
  - intros p Hin. pose proof (list_elem_of_fmap_2 (exported_extra (w_objects w) x.1) _ _ Hin) as Hin'.
    assert (FileBasename (FileBasename p) = FileBasename p) as Hpp.
    { rewrite Forall_forall in Hp. apply (list_elem_of_fmap_2 xf_Name), Hp in Hin'. by apply po_base in Hin'. }
    assert (forall id, CaseFileKey id p = CaseFileKey id (FileBasename p)) as Hk by (intros id; unfold CaseFileKey; by rewrite Hpp).
    rewrite !Hk. apply (extras_all_stored _ _ _ (exported_extra (w_objects w) x.1 p) Hext).
    + rewrite merge_sort_Permutation, Hb. rewrite <- Hb, (portable_base _ Hp). exact Hnd.
    + by rewrite merge_sort_Permutation.
  - rewrite Hrow. cbn. intros Ht ->. cbn. by apply (shown_text _ _ _ _ (Hi _ _ Hx)).
  - rewrite Hrow. cbn. intros Ht ->. cbn. by apply (shown_text _ _ _ _ (Hu _ _ Hx)).
Qed.

Lemma imported_all_copied w cfg b ov t os rows : forall i tcs,
  mirrored (w_tables w) (w_objects w) -> Forall (fun x => t_cases (w_tables w) !! x.1 = Some x.2) rows ->
  Forall (fun x => portable_files (w_objects w) (fun id => files_of_case id (w_tables w)) x.1) rows ->
  Forall2 (fun c tc => imported cfg b ov c tc t os)
    (zip_with (exported_case (w_objects w) (fun id => files_of_case id (w_tables w))) (seq i (length rows)) rows) tcs ->
  Forall2 (fun x tc => copied w x tc os) rows tcs.
Proof.
  induction rows as [|x rows IH]; intros i tcs Hm Hr Hp H; cbn in H; inversion H as [|? tc ? tcs' Hx Hl]; subst; constructor.
  - apply Forall_cons in Hr as [Hr _], Hp as [Hp _]. by eapply imported_copied.
  - apply Forall_cons in Hr as [_ Hr], Hp as [_ Hp]. by eapply IH.
Qed.
End RoundTrip.

(** What is exported can be imported. The archive an exercise was exported to, read
    back, parses to the exercise's cases in the order of their ids, with the bytes of
    their objects (or the text of the row) and their extra files, and nothing is
    ignored; provided the exercise has 1 to 500 cases, the archive respects the limits
    on sizes and the extra files of a case have distinct portable names. *)
Theorem export_imports_back {UT : UnicodeTables} {MO : MapOrder} fault ex claims w a ar (H : exported fault ex claims w a ar) :
  ParseBatchTestCaseArchive ar = Ok (cases_shown w a, []).
Proof. by eapply export_parses. Qed.

