(* ===== verification/BatchAccept.v ===== *)
(** * When an import is answered

    [import_accepted]: when no request fails, an author's valid archive is imported. *)

From S2P Require Import Prelude Effects GoStrings Sql Catalog Limits LimitsProofs Objects Authoring AuthoringProofs.
From S2P Require Import Archive ArchiveProofs ArchiveExact Batch BatchProofs.
From S2P Require CommitDb.
Local Open Scope Z_scope.

(** Room for [nc] more cases of the exercise [a] and [nf] more files. *)
Record room (a nc nf : Z) (w : world) : Prop := {
  rm_exercise : is_Some (t_exercises (w_tables w) !! a);
  rm_cases : next_value w cases_seq + nc <= 2 ^ 31;
  rm_files : next_value w files_seq + nf <= 2 ^ 31;
  rm_free : forall id, next_value w cases_seq <= id -> t_cases (w_tables w) !! id = None;
  rm_file_free : forall f, next_value w files_seq <= f -> t_case_files (w_tables w) !! f = None;
  rm_limit_free : forall id l, next_value w cases_seq <= id -> t_case_limits (w_tables w) !! (id, l) = None
}.

(** A case whose texts and names PostgreSQL stores. *)
Definition storable (cfg : BatchTestCaseConfig) (a : Z) (c : batchTestCase) : Prop :=
  row_fits (batch_row cfg a c) = true /\ Forall (fun x => CommitDb.pg_text (FileBasename (xf_Name x)) = true) (bt_ExtraFiles c).

(** Limits the columns hold, for languages of the catalogue. *)
Definition storable_limits (entries : list LanguageLimits) (t : Tables) : Prop :=
  NoDup (ll_id <$> entries) /\ Forall (fun e => is_Some (t_languages t !! ll_id e) /\ overrides_fit (ll_overrides e) = true) entries.

Section Accept.
Context (fault : nat -> bool) (Hnever : forall n, fault n = false).

Abbreviation succeeds m Q w := (wp m Q (fun _ _ => False) w).

Lemma ok_upload keys k f (Q : list string -> world -> Prop) w :
  Q (keys ++ [k]) (sent w <| w_objects := <[(cases_bucket, k) := typed (as_object f)]> (w_objects w) |>) ->
  succeeds (upload fault keys k f) Q w.
Proof using Hnever. intros HQ. unfold wp, upload, mbind, eff_bind, or_else, put_object, call. by rewrite Hnever. Qed.

Lemma ok_exec (f : Tables -> option Tables) t (Q : unit -> world -> Prop) w :
  f (w_tables w) = Some t -> Q tt (set_tables t (sent w)) -> succeeds (on_db (exec fault ErrServer f)) Q w.
Proof using Hnever. intros E HQ. apply wp_exec; [by rewrite Hnever|by rewrite E]. Qed.

Lemma ok_on_db {A} (m : svc A) c x (Q : A -> world -> Prop) w :
  m (w_conn w) = (c, Ok x) -> Q x (w <| w_conn := c |>) -> succeeds (on_db m) Q w.
Proof. unfold wp, on_db. by intros ->. Qed.

Lemma ok_query {A} (f : Tables -> A) (Q : A -> world -> Prop) w :
  Q (f (w_tables w)) (sent w) -> succeeds (on_db (query fault ErrServer f)) Q w.
Proof using Hnever. intros HQ. apply wp_statement; [by rewrite Hnever|]. by destruct w as [[] ? ? ?]. Qed.

Lemma ok_or_else {A} (m : act A) c (Q : A -> world -> Prop) w : succeeds m Q w -> succeeds (or_else m c) Q w.
Proof. unfold wp, or_else. by destruct (m w) as [w' [x|e]]. Qed.

Lemma next_value_step w s s' : next_value (w <| w_next := <[s := next_value w s + 1]> (w_next w) |>) s' = if decide (s = s') then next_value w s + 1 else next_value w s'.
Proof. unfold next_value. cbn. rewrite lookup_insert. by case_decide. Qed.

Lemma ok_insert_file_row a nc nf id path (Q : Z -> world -> Prop) w :
  room a nc (nf + 1) w -> 0 <= nf -> is_Some (t_cases (w_tables w) !! id) -> CommitDb.pg_text path = true ->
  (forall f w', room a nc nf w' -> t_cases (w_tables w') = t_cases (w_tables w) -> t_languages (w_tables w') = t_languages (w_tables w) -> Q f w') ->
  succeeds (insert_file_row fault id path) Q w.
Proof using Hnever.
  intros [] Hnf Hc Hp HQ. unfold insert_file_row. apply wp_bind. unfold wp at 1, next_id. fold files_seq.
  rewrite (proj2 (Z.ltb_lt _ _)) by lia. set (w1 := w <| w_next := _ |>). set (f := next_value w files_seq) in *.
  apply wp_bind. eapply ok_exec.
  { unfold insert_case_file. change (w_tables w1) with (w_tables w). rewrite !bool_decide_true by (done || apply rm_file_free0; lia). by rewrite Hp. }
  apply wp_ret, HQ; [|done..].
  set (w2 := set_tables _ _).
  assert (next_value w2 cases_seq = next_value w cases_seq) as Ec by (unfold w2; exact (next_value_step w files_seq cases_seq)).
  assert (next_value w2 files_seq = f + 1) as Ef by (unfold w2; exact (next_value_step w files_seq files_seq)).
  split; rewrite ?Ec, ?Ef; try done; [lia|]. intros g Hg. cbn. rewrite lookup_insert_ne by lia. apply rm_file_free0. lia.
Qed.

Lemma ok_insert_limits id entries : forall c,
  is_Some (t_cases (cn_db c) !! id) -> storable_limits entries (cn_db c) -> (forall l, l ∈ ll_id <$> entries -> t_case_limits (cn_db c) !! (id, l) = None) ->
  exists c', InsertTestCaseLanguageLimits fault id entries c = (c', Ok tt) /\
    limits_only (cn_db c) (cn_db c') /\ forall k, k.1 <> id -> t_case_limits (cn_db c') !! k = t_case_limits (cn_db c) !! k.
Proof using Hnever.
  induction entries as [|e entries IH]; intros c Hc [Hn Hf] Hl; [exists c; by split_and!; [|apply limits_only_refl|]|].
  cbn in Hn. apply NoDup_cons in Hn as [He Hn]. apply Forall_cons in Hf as [[Hlang Hfit] Hf].
  unfold InsertTestCaseLanguageLimits. cbn [each]. unfold mbind, eff_bind. destruct (Empty (ll_overrides e)).
  { apply IH; [done|by split|]. intros l Hin. apply Hl. by right. }
  destruct c as [t n]. cbn in *.
  set (m := <[(id, ll_id e) := ll_overrides e]> (t_case_limits t)).
  assert (insert_override id (ll_id e) (ll_overrides e) (bool_decide (is_Some (t_cases t !! id))) (t_languages t) (t_case_limits t) = Some m) as E.
  { unfold insert_override. rewrite !bool_decide_true by (done || apply Hl; by left). by rewrite Hfit. }
  destruct (IH (mk_conn (t <| t_case_limits := m |>) (S n))) as (c' & Ec & Hlo & Hk); [done|by split| |].
  { intros l Hin. cbn. unfold m. rewrite lookup_insert_ne; [apply Hl; by right|]. intros [= Hel]. apply He. by rewrite Hel. }
  exists c'. split; [|split].
  - unfold exec, statement. cbn. rewrite Hnever, E. cbn. exact Ec.
  - unfold limits_only in *. rewrite Hlo at 1. done.
  - intros k Hk'. rewrite Hk by done. cbn. unfold m. rewrite lookup_insert_ne; [done|]. intros <-. by cbn in Hk'.
Qed.
Lemma room_ext a nc nf w w' : w_tables w' = w_tables w -> w_next w' = w_next w -> room a nc nf w -> room a nc nf w'.
Proof. intros Ht Hn []. split; unfold next_value in *; rewrite ?Ht, ?Hn; done. Qed.

Lemma ok_upload_extras a nc nf id xs : forall fs keys (Q : list string * list (Z * string) -> world -> Prop) w,
  room a nc (nf + Z.of_nat (length xs)) w -> 0 <= nf -> is_Some (t_cases (w_tables w) !! id) ->
  Forall (fun x => CommitDb.pg_text (FileBasename (xf_Name x)) = true) xs ->
  (forall r w', room a nc nf w' -> t_languages (w_tables w') = t_languages (w_tables w) -> Q r w') ->
  succeeds (upload_extras fault id keys fs xs) Q w.
Proof using Hnever.
  induction xs as [|x xs IH]; intros fs keys Q w Hr Hnf Hc Hp HQ; cbn [upload_extras].
  { apply wp_ret, HQ; [|done]. cbn in Hr. by rewrite Z.add_0_r in Hr. }
  apply Forall_cons in Hp as [Hx Hp]. apply wp_bind, ok_upload. set (w1 := sent w <| w_objects := _ |>).
  assert (room a nc (nf + Z.of_nat (length xs) + 1) w1) as Hr1.
  { apply (room_ext _ _ _ w); [done|done|]. by replace (nf + Z.of_nat (length xs) + 1) with (nf + Z.of_nat (length (x :: xs))) by (cbn; lia). }
  apply wp_bind, ok_or_else. eapply ok_insert_file_row; [exact Hr1|lia|done|done|]. intros f w2 Hr2 Hc2 Hl2.
  apply IH; [done|done|by rewrite Hc2|done|]. intros r w3 Hr3 Hl3. apply HQ; [done|]. by rewrite Hl3, Hl2.
Qed.

Lemma ok_insert_case_row a nc nf row (Q : Z -> world -> Prop) w :
  room a (nc + 1) nf w -> 0 <= nc -> ca_exercise row = a -> row_fits row = true ->
  (forall id w', room a nc nf w' -> is_Some (t_cases (w_tables w') !! id) -> (forall l, t_case_limits (w_tables w') !! (id, l) = None) ->
     id < next_value w' cases_seq -> t_languages (w_tables w') = t_languages (w_tables w) -> Q id w') ->
  succeeds (insert_case_row fault row) Q w.
Proof using Hnever.
  intros [] Hnc Hrow Hfit HQ. unfold insert_case_row. apply wp_bind. unfold wp at 1, next_id. fold cases_seq.
  rewrite (proj2 (Z.ltb_lt _ _)) by lia. set (w1 := w <| w_next := _ |>). set (id := next_value w cases_seq) in *.
  apply wp_bind. eapply ok_exec.
  { unfold insert_case. change (w_tables w1) with (w_tables w). rewrite Hrow, !bool_decide_true by (done || apply rm_free0; lia). by rewrite Hfit. }
  set (w2 := set_tables _ _).
  assert (next_value w2 cases_seq = id + 1) as Ec by (unfold w2; exact (next_value_step w cases_seq cases_seq)).
  assert (next_value w2 files_seq = next_value w files_seq) as Ef by (unfold w2; exact (next_value_step w cases_seq files_seq)).
  apply wp_ret, HQ; [|by cbn; rewrite lookup_insert_eq|intros l; apply rm_limit_free0; lia|lia|done].
  split; rewrite ?Ec, ?Ef; try done; [lia| |].
  - intros i Hi. cbn. rewrite lookup_insert_ne by lia. apply rm_free0. lia.
  - intros i l Hi. apply rm_limit_free0. lia.
Qed.

Lemma ok_import_case cfg a overrides nc nf c keys (Q : list string * AuthoredCase -> world -> Prop) w :
  room a (nc + 1) (nf + Z.of_nat (length (bt_ExtraFiles c))) w -> 0 <= nc -> 0 <= nf -> storable cfg a c -> storable_limits overrides (w_tables w) ->
  (forall r w', room a nc nf w' -> storable_limits overrides (w_tables w') -> Q r w') ->
  succeeds (import_case fault cfg a overrides keys c) Q w.
Proof using Hnever.
  intros Hr Hnc Hnf [Hfit Hp] Hl HQ. unfold import_case. cbv zeta.
  apply wp_bind, ok_or_else. eapply ok_insert_case_row; [exact Hr|done|done|done|]. intros id w1 Hr1 Hc1 Hf1 Hlt1 Hl1.
  destruct (ok_insert_limits id overrides (w_conn w1)) as (c' & Ec & Hlo & Hk); [done|by unfold storable_limits; fold (w_tables w1); rewrite Hl1|by intros|].
  apply wp_bind, ok_or_else. eapply ok_on_db; [exact Ec|]. set (w2 := w1 <| w_conn := c' |>).
  assert (room a nc (nf + Z.of_nat (length (bt_ExtraFiles c))) w2) as Hr2.
  { fold (w_tables w1) in Hlo, Hk. unfold limits_only in Hlo. destruct Hr1. split; unfold w2; try done.
    - unfold w_tables at 1. cbn. by rewrite Hlo.
    - intros i Hi. unfold w_tables at 1. cbn. rewrite Hlo. by apply rm_free0.
    - intros i Hi. unfold w_tables at 1. cbn. rewrite Hlo. by apply rm_file_free0.
    - intros i l Hi. unfold w_tables at 1. cbn. change (next_value _ cases_seq) with (next_value w1 cases_seq) in Hi.
      rewrite Hk by (cbn; lia). by apply rm_limit_free0. }
  assert (is_Some (t_cases (w_tables w2) !! id)) as Hc2.
  { unfold limits_only in Hlo. unfold w2, w_tables. cbn. rewrite Hlo. exact Hc1. }
  assert (t_languages (w_tables w2) = t_languages (w_tables w)) as Hl2.
  { rewrite <- Hl1. unfold limits_only in Hlo. unfold w2, w_tables. cbn. by rewrite Hlo. }
  apply wp_bind, ok_upload. apply wp_bind, ok_upload. set (w4 := sent _ <| w_objects := _ |>).
  apply wp_bind. eapply (ok_upload_extras a nc nf); [|done|exact Hc2|exact Hp|]; [by apply (room_ext _ _ _ w2)|].
  intros [keys' fs] w5 Hr5 Hl5. apply wp_ret, HQ; [done|]. unfold storable_limits in *. by rewrite Hl5, <- Hl2 in *.
Qed.
Definition extra_count (cases : list batchTestCase) : Z := foldr Z.add 0 ((fun c => Z.of_nat (length (bt_ExtraFiles c))) <$> cases).

Lemma extra_count_nonneg cases : 0 <= extra_count cases.
Proof. induction cases as [|c cases IH]; [done|]. unfold extra_count in *. cbn. lia. Qed.

Lemma ok_import_cases cfg a overrides cases : forall keys created (Q : list string * list AuthoredCase -> world -> Prop) w,
  room a (Z.of_nat (length cases)) (extra_count cases) w -> Forall (storable cfg a) cases -> storable_limits overrides (w_tables w) ->
  (forall r w', Q r w') -> succeeds (import_cases fault cfg a overrides keys created cases) Q w.
Proof using Hnever.
  induction cases as [|c cases IH]; intros keys created Q w Hr Hs Hl HQ; cbn [import_cases]; [by apply wp_ret|].
  apply Forall_cons in Hs as [Hc Hs]. pose proof (extra_count_nonneg cases). apply wp_bind.
  eapply (ok_import_case cfg a overrides (Z.of_nat (length cases)) (extra_count cases)); [|lia|lia|done|done|].
  - unfold extra_count in *. cbn in Hr.
    by replace (Z.of_nat (length cases) + 1) with (Z.of_nat (S (length cases))) by lia; rewrite Z.add_comm.
  - intros [keys' tc] w' Hr' Hl'. by apply IH.
Qed.

Lemma allowed_NoDup collation `{!RelDecision collation} ex t :
  NoDup (al_id <$> allowed_languages collation ex t) /\ forall l, l ∈ allowed_languages collation ex t -> is_Some (t_languages t !! al_id l).
Proof using.
  unfold allowed_languages. set (f := fun '(e, l) => _). split.
  - rewrite merge_sort_Permutation. pose proof (NoDup_elements (t_allowed t)) as H. revert H. generalize (elements (t_allowed t)).
    induction l as [|[x i] l IH]; [constructor|]. intros [Hx Hn]%NoDup_cons. cbn [omap list_omap].
    destruct (f (x, i)) as [y|] eqn:Ey; [|by apply IH]. cbn. apply NoDup_cons. split; [|by apply IH].
    intros (z & Ez & ((x', i') & Hin & Hz)%list_elem_of_omap)%list_elem_of_fmap. unfold f in Ey, Hz.
    case_decide; [|done]. case_decide; [|done]. subst. destruct (t_languages t !! i), (t_languages t !! i'); try done.
    injection Ey as <-. injection Hz as <-. cbn in Ez. by subst.
  - intros y. rewrite merge_sort_Permutation. intros ([x i] & _ & Hy)%list_elem_of_omap. unfold f in Hy. case_decide; [|done].
    destruct (t_languages t !! i) eqn:E; [|done]. injection Hy as <-. cbn. rewrite E. by eexists.
Qed.

Lemma meant_storable collation `{!RelDecision collation} cfg a t :
  overrides_fit (batchLimitOverrides cfg) = true -> storable_limits (overrides_meant collation cfg a t) t.
Proof using.
  intros Hf. unfold overrides_meant, storable_limits. destruct (Empty _); [by split; constructor|].
  destruct (allowed_NoDup collation a t) as [Hn Hl]. split.
  - rewrite <- list_fmap_compose. exact Hn.
  - rewrite Forall_fmap. apply Forall_forall. intros l Hin. split; [by apply Hl|exact Hf].
Qed.

Lemma author_accepted ex claims c e :
  may_author (cn_db c) ex claims -> t_exercises (cn_db c) !! ex = Some e ->
  exists acc n, requireExerciseAuthor fault ex claims c = (mk_conn (cn_db c) n, Ok acc) /\ authoringExerciseID acc = owning_exercise ex e.
Proof using Hnever.
  intros (e' & o & user & Hid & He' & Ho & Hr) He. rewrite He in He'. injection He' as <-. destruct claims as [? role]. cbn in Hid, Hr. subst.
  unfold requireExerciseAuthor, loadExerciseAccessForClaims, claimsUserID, loadExerciseAccess, query, statement, mbind, eff_bind, lift. cbn.
  rewrite Hnever. unfold access_row. rewrite He. cbn. rewrite Ho. cbn.
  match goal with |- context [if ?b then mret _ else _] => assert (b = true) as -> end; [|by eexists _, _].
  apply orb_true_iff. destruct Hr as [[H1 H2]|(en & H1 & H2 & H3)].
  - left. apply andb_true_iff. split; [by destruct H2 as [-> | ->]|]. by rewrite bool_decide_true.
  - right. rewrite H1. cbn. by rewrite H2, H3.
Qed.
Lemma overrides_read collation `{!RelDecision collation} a cfg c :
  exists n, batchLanguageOverrides fault collation a cfg c = (mk_conn (cn_db c) n, Ok (overrides_meant collation cfg a (cn_db c))).
Proof using Hnever.
  destruct c as [t n]. unfold batchLanguageOverrides, overrides_meant. destruct (Empty _); [by exists n|].
  exists (S n). unfold loadAllowedLanguages, query, statement, mbind, eff_bind. cbn. by rewrite Hnever.
Qed.

Lemma ok_import_rows collation `{!RelDecision collation} cfg a cases w (Q : list AuthoredCase -> world -> Prop) :
  room a (Z.of_nat (length cases)) (extra_count cases) w -> Forall (storable cfg a) cases -> overrides_fit (batchLimitOverrides cfg) = true ->
  (forall tcs w', Q tcs w') -> succeeds (import_rows fault collation cfg a cases) Q w.
Proof using Hnever.
  intros Hr Hs Hf HQ. unfold import_rows. destruct (overrides_read collation a cfg (w_conn w)) as [n En].
  apply wp_bind. eapply ok_on_db; [exact En|]. set (w1 := w <| w_conn := _ |>).
  apply wp_bind. eapply ok_import_cases; [by apply (room_ext _ _ _ w)|done|by apply meant_storable|].
  intros [uploaded created] w'. cbn iota beta. apply wp_bind, ok_or_else, wp_commit; [by rewrite Hnever|]. by apply wp_ret.
Qed.

Lemma numbered_room w a nc nf :
  numbered w -> (forall id l o, t_case_limits (w_tables w) !! (id, l) = Some o -> is_Some (t_cases (w_tables w) !! id)) ->
  is_Some (t_exercises (w_tables w) !! a) -> next_value w cases_seq + nc <= 2 ^ 31 -> next_value w files_seq + nf <= 2 ^ 31 -> room a nc nf w.
Proof using.
  intros [] Ho He Hc Hf. fold cases_seq files_seq in *.
  assert (Hfree : forall id, next_value w cases_seq <= id -> t_cases (w_tables w) !! id = None).
  { intros id Hid. destruct (t_cases (w_tables w) !! id) eqn:E; [|done]. apply nu_case in E. lia. }
  split; try done.
  - intros f Hf'. destruct (t_case_files (w_tables w) !! f) eqn:E; [|done]. apply nu_file in E. lia.
  - intros id l Hid. destruct (t_case_limits (w_tables w) !! (id, l)) eqn:E; [|done]. apply Ho in E as [r E]. by rewrite Hfree in E.
Qed.
End Accept.

(** C29: When no request fails, the author of an exercise who sends a valid archive gets
    an answer: the configuration is valid, the archive parses, its texts are text, what
    it says fits the columns, and the identity sequences are not used up. *)
Theorem import_accepted {UT : UnicodeTables} {MO : MapOrder} fault collation `{!RelDecision collation} platform ex ar config claims w e cfg cases ignored
  (Hnever : forall n, fault n = false) (Hn : numbered w)
  (Howned : forall id l o, t_case_limits (w_tables w) !! (id, l) = Some o -> is_Some (t_cases (w_tables w) !! id))
  (Ha : may_author (w_tables w) ex claims) (He : t_exercises (w_tables w) !! ex = Some e)
  (Ho : is_Some (t_exercises (w_tables w) !! owning_exercise ex e))
  (Hc : validateBatchConfig config = Ok cfg) (Hf : overrides_fit (batchLimitOverrides cfg) = true)
  (Hp : ParseBatchTestCaseArchive ar = Ok (cases, ignored)) (Ht : text_issues cfg cases = [])
  (Hs : Forall (storable cfg (owning_exercise ex e)) cases)
  (Hroom : next_value w cases_seq + Z.of_nat (length cases) <= 2 ^ 31 /\ next_value w files_seq + extra_count cases <= 2 ^ 31) :
  exists w' im, CreateTestCasesBatch fault collation platform ex ar config claims w = (w', Ok im).
Proof.
  assert (wp (CreateTestCasesBatch fault collation platform ex ar config claims) (fun _ _ => True) (fun _ _ => False) w) as H.
  2:{ unfold wp in H. destruct (CreateTestCasesBatch _ _ _ _ _ _ _ w) as [w' [im|er]]; [by exists w', im|done]. }
  unfold CreateTestCasesBatch.
  destruct (author_accepted fault Hnever ex claims (w_conn w) e Ha He) as (acc & n & Eacc & Hacc).
  apply wp_bind, wp_service. eapply ok_on_db; [exact Eacc|]. rewrite Hacc. cbv zeta.
  apply wp_bind, wp_service, wp_lift. rewrite Hc. apply wp_bind, wp_lift. rewrite Hp. cbn [from_archive].
  apply wp_bind, wp_lift. rewrite Ht. cbn [check_issues issues_err from_archive].
  apply wp_bind, wp_service, wp_with_tx; [by rewrite Hnever|]. set (w1 := sent _ <| w_saved := _ |>).
  assert (Hfin : forall tcs w', wp (limits ← service (attempt (on_db (TestCaseLanguageLimits fault collation platform (owning_exercise ex e) (at_ID <$> tcs))));
    mret (mk_import (length tcs) ignored (with_limits limits <$> tcs)) : batch BatchTestCaseImportResponse) (fun _ _ => True) (fun _ _ => False) w').
  { intros tcs w'. apply wp_bind, wp_service, wp_attempt. unfold wp. destruct (on_db _ _) as [w'' [?|?]]; done. }
  apply (wp_mono _ _ (fun _ _ => True) _ (fun _ _ => False)); [|intros tcs w' _; by apply Hfin|done].
  apply ok_import_rows; try done. apply (room_ext _ _ _ w); [done|done|]. destruct Hroom. by apply numbered_room.
Qed.
