(* ===== verification/BatchExamples.v ===== *)
(** * Importing and exporting, on a class

    The theorems of [BatchProofs.v], [BatchAccept.v] and [ExportProofs.v] applied to the class of
    [LimitsProofs.sample], and what the two services do at the edges. *)

From S2P Require Import Prelude Effects GoStrings Sql Catalog Limits LimitsProofs Objects Authoring AuthoringProofs AuthoringUpdate.
From S2P Require Import Archive ArchiveProofs ArchiveExact Batch BatchProofs BatchAccept ExportProofs.
Local Open Scope Z_scope.

#[local] Existing Instance ascii_tables.
#[local] Existing Instance sorted_order.

Definition three_seconds_each : BatchTestCaseConfig := mk_config "" "text" true true false (Some 3) None None None.

Lemma batch_all_or_nothing_witness :
  exists w' im, CreateTestCasesBatch never byte_order defaults 11 (zipped two_cases) three_seconds_each teacher sample_world = (w', Ok im) /\
    im_Created im = 2%nat /\ at_ID <$> im_TestCases im = [101; 102] /\ mirrored (w_tables w') (w_objects w') /\
    t_case_limits (w_tables w') !! (102, 1) = Some (mk_overrides (Some 3) None None None).
Proof.
  destruct (CreateTestCasesBatch never byte_order defaults 11 (zipped two_cases) three_seconds_each teacher sample_world) as [w' r] eqn:E.
  pose proof (batch_all_or_nothing never byte_order defaults 11 (zipped two_cases) three_seconds_each teacher sample_world w' r
    sample_numbered sample_mirrored eq_refl E) as [(_ & Hm & _) _].
  assert (Hr : match r with Ok im => (im_Created im, at_ID <$> im_TestCases im) = (2%nat, [101; 102]) | Err _ => False end)
    by (apply (f_equal snd) in E; cbn [snd] in E; rewrite <- E; by vm_compute).
  destruct r as [im|e]; [|destruct Hr]. injection Hr as H1 H2. exists w', im.
  split; [reflexivity|]. split; [exact H1|]. split; [exact H2|]. split; [exact Hm|].
  apply (f_equal (fun x => t_case_limits (w_tables (fst x)) !! (102, 1))) in E. cbn [fst] in E. rewrite <- E. by vm_compute.
Defined.

Lemma import_accepted_witness :
  exists w' im, CreateTestCasesBatch never byte_order defaults 11 (zipped two_cases) three_seconds_each teacher sample_world = (w', Ok im).
Proof.
  eapply (import_accepted never byte_order defaults 11 (zipped two_cases) three_seconds_each teacher sample_world).
  - done.
  - exact sample_numbered.
  - intros id l o H. cbn in H. apply lookup_singleton_Some in H as [[= <- <-] _]. by eexists.
  - eexists _, _, 7. split; [done|]. split; [by vm_compute|]. split; [by vm_compute|]. left. by split; [|left].
  - by vm_compute.
  - by eexists.
  - by vm_compute.
  - by vm_compute.
  - by vm_compute.
  - by vm_compute.
  - repeat constructor.
  - split; by vm_compute.
Defined.

(** The 14th request writes the second file of the second case. *)
Example import_undone :
  (fun x : world * res batch_error BatchTestCaseImportResponse =>
    (match snd x with Ok _ => None | Err e => Some e end, (map_to_list (w_objects (fst x))).*1, t_cases (w_tables (fst x)) !! 101))
    (CreateTestCasesBatch (Nat.eqb 14) byte_order defaults 11 (zipped two_cases) three_seconds_each teacher sample_world) =
  (Some (Service ErrServer), (map_to_list (w_objects sample_world)).*1, None).
Proof. by vm_compute. Qed.

(** An exercise whose case has an extra file named like an input. *)
Definition with_extra (name : string) : world :=
  mk_world (mk_conn (sample <| t_case_files := {[1 := (100, name)]} |>) 0) None
    (<[(cases_bucket, CaseFileKey 100 name) := mk_object "e" "text/plain"]> (w_objects sample_world)) {[cases_seq := 101; files_seq := 2]}.

Definition archive_of (w : world) : archive :=
  match snd (ExportExerciseTestCasesArchive never 10 teacher w) with
  | Ok (_, entries) => zipped (zip_entry <$> entries)
  | Err _ => mk_archive 0 None
  end.

Lemma with_extra_mirrored name : mirrored (w_tables (with_extra name)) (w_objects (with_extra name)).
Proof.
  split; cbn.
  - intros id r H. apply lookup_singleton_Some in H as [<- <-]. exists (mk_object "1" "text/plain"). split; [|done].
    rewrite lookup_insert_ne; [by vm_compute|]. by intros [= E].
  - intros id r H. apply lookup_singleton_Some in H as [<- <-]. exists (mk_object "2" "text/plain"). split; [|done].
    rewrite lookup_insert_ne; [by vm_compute|]. by intros [= E].
  - intros f id p H. apply lookup_singleton_Some in H as [<- [= <- <-]]. rewrite lookup_insert_eq. by eexists.
Qed.

Lemma dados_exported : exported never 10 teacher (with_extra "dados.in") 10 (archive_of (with_extra "dados.in")).
Proof.
  split.
  - eexists _, _, _. split; [vm_compute; reflexivity|]. split; [vm_compute; reflexivity|]. split; [by apply Nat.leb_le; vm_compute|].
    split; [by repeat constructor|by vm_compute].
  - by eexists.
  - by vm_compute.
  - by vm_compute.
  - by apply Nat.leb_le; vm_compute.
  - assert (rows_of_exercise 10 (w_tables (with_extra "dados.in")) = [(100, mk_case_row 10 "1" "text" true "2" "text" true false)]) as -> by by vm_compute.
    constructor; [|constructor]. unfold portable_files. cbn [fst]. split.
    + assert (xf_Name <$> extras_of (w_objects (with_extra "dados.in")) (fun id => files_of_case id (w_tables (with_extra "dados.in"))) 100 = ["dados.in"]) as -> by by vm_compute.
      constructor; [|constructor]. split; [by split|done|done|done|done].
    + apply (bool_decide_unpack _). by vm_compute.
Qed.

Lemma export_imports_back_witness :
  ParseBatchTestCaseArchive (archive_of (with_extra "dados.in")) =
    Ok ([mk_case "caso_001" "input.in" "1" "output.out" "2" [mk_extra "dados.in" "e"]], []).
Proof.
  rewrite (export_imports_back never 10 teacher (with_extra "dados.in") 10 _ dados_exported). by vm_compute.
Defined.


(** An extra file named like the input every exported case has: the archive is
    refused. *)
Example extra_named_input :
  ParseBatchTestCaseArchive (archive_of (with_extra "input.in")) = Err (BatchImportError [("caso_001", [DuplicateExtra "input.in"])]).
Proof. by vm_compute. Qed.

(** An extra file that looks like the metadata of an operating system is lost. *)
Example extra_lost :
  ParseBatchTestCaseArchive (archive_of (with_extra "._dados")) = Ok ([mk_case "caso_001" "input.in" "1" "output.out" "2" []], []).
Proof. by vm_compute. Qed.

(** A text with a NUL is valid UTF-8, so it is not refused with the name of its folder;
    PostgreSQL refuses it in the middle of the import. *)
Definition nul_case : list zip_file := [file "1/1.in" (String "000" ""); file "1/1.out" "b"].
Example nul_is_a_server_error :
  text_issues three_seconds_each [mk_case "1" "1.in" (String "000" "") "1.out" "b" []] = [] /\
  snd (CreateTestCasesBatch never byte_order defaults 10 (zipped nul_case) three_seconds_each teacher sample_world) = Err (Service ErrServer).
Proof. by vm_compute. Qed.
