(* ===== verification/ExercisesProofs.v ===== *)
(** * What changing an exercise keeps

    [update_exercise_exact]: a change is what was asked or nothing. [limits_stay_allowed]:
    however exercises are created, changed and removed and limits stored, no limit is
    kept for a language its exercise does not allow. *)

From S2P Require Import Prelude Effects GoStrings Sql Catalog Limits LimitsProofs.
From S2P Require Import Exercises.
From S2P Require Authoring Batch BatchProofs.
Local Open Scope Z_scope.

Lemma runs_service {A} (m : svc A) t t' r :
  runs (service m) t t' r -> exists r0, runs m t t' r0 /\ r = match r0 with Ok a => Ok a | Err e => Err (Service e) end.
Proof.
  intros (n & n' & H). unfold service in H. destruct (m _) as [c [a|e]] eqn:E; injection H as -> <-; eexists; (split; [by exists n, n'|done]).
Qed.

Lemma runs_lift {E A} (r0 : res E A) (t t' : Tables) r : runs (lift r0) t t' r -> t' = t /\ r = r0.
Proof. by intros (n & n' & [= -> -> ->]). Qed.

Lemma elem_of_dedupe ids : forall seen id, id ∈ dedupe seen ids <-> id ∈ ids /\ id ∉ seen.
Proof.
  induction ids as [|i ids IH]; intros seen id; cbn [dedupe]; [rewrite elem_of_nil; naive_solver|]. case_bool_decide as Hi.
  - rewrite IH, elem_of_cons. naive_solver.
  - rewrite !elem_of_cons, IH. destruct (decide (id = i)) as [->|]; set_unfold; naive_solver.
Qed.

Lemma elem_of_dedupeIDs ids id : id ∈ dedupeIDs ids <-> id ∈ ids.
Proof. unfold dedupeIDs. rewrite elem_of_dedupe. set_solver. Qed.

Lemma dedupe_NoDup ids : forall seen, NoDup (dedupe seen ids).
Proof.
  induction ids as [|i ids IH]; intros seen; cbn [dedupe]; [constructor|]. case_bool_decide; [done|].
  constructor; [|done]. rewrite elem_of_dedupe. set_solver.
Qed.

#[local] Arguments dedupeIDs : simpl never.
#[local] Arguments owning_exercise : simpl never.

Section Runs.
Context (fault : nat -> bool).

Lemma attached_runs ex t t' r : runs (attached fault ex) t t' r -> t' = t /\ exists ex', r = Ok ex'.
Proof.
  intros (n & n' & H). unfold attached, attachAllowedFileTypes, query, statement in H. cbn in H.
  destruct (fault n); cbn in H; injection H as -> _ <-; eauto.
Qed.

(** Every language asked for is there and available. *)
Lemma validateAllowedFileTypeIDs_runs ids t t' r :
  runs (validateAllowedFileTypeIDs fault ids) t t' r ->
  t' = t /\ (r = Ok tt -> forall id, id ∈ ids -> exists l, t_languages t !! id = Some l /\ la_available l = true).
Proof.
  unfold validateAllowedFileTypeIDs. destruct ids as [|i ids0]; [by intros [-> _]%runs_ret; split; [|intros _ id ?%elem_of_nil]|].
  set (ids := i :: ids0). intros H. apply runs_bind in H as [(e & H & ->)|(t1 & count & Hq & H)]; [by apply runs_query in H as [-> _]|].
  apply runs_query in Hq as [-> [[=]|[= ->]]]. unfold available_count in H. set (m := filter _ _) in H.
  destruct (size m =? _)%nat eqn:E; cbn [negb] in H; [|by apply runs_fail in H as [-> ->]].
  apply runs_ret in H as [-> ->]. split; [done|]. intros _ id Hid. apply Nat.eqb_eq in E.
  assert (Hs : dom m = list_to_set (dedupeIDs ids)).
  { apply leibniz_equiv, set_subseteq_size_equiv.
    - intros k [l Hl]%elem_of_dom. apply map_lookup_filter_Some in Hl as [_ [Hk _]]. by apply elem_of_list_to_set.
    - rewrite size_list_to_set by apply dedupe_NoDup. rewrite size_dom. lia. }
  assert (Hd : id ∈ dom m) by (rewrite Hs; by apply elem_of_list_to_set, elem_of_dedupeIDs).
  apply elem_of_dom in Hd as [l Hl]. apply map_lookup_filter_Some in Hl as [Hl [_ Ha]]. eauto.
Qed.

(** [t'] is [t] with the languages [ids] allowed for [x]. *)
Record allowing (x : Z) (ids : list Z) (t t' : Tables) : Prop := {
  al_tables : t' = t <| t_allowed := t_allowed t' |>;
  al_rows : forall p, p ∈ t_allowed t' <-> (p.1 = x /\ p.2 ∈ ids) \/ p ∈ t_allowed t
}.

Lemma insertAllowed_loop x ids : forall t t',
  runs (each (fun id => exec fault (Service ErrServer) (insert_allowed x id)) ids) t t' (Ok tt) -> allowing x ids t t'.
Proof.
  induction ids as [|i ids IH]; intros t t' H; cbn [each] in H.
  - apply runs_ret in H as [-> _]. split; [by destruct t|set_solver].
  - apply runs_bind in H as [(e & _ & [=])|(t1 & [] & H1 & H)]. apply runs_exec in H1 as [[_ [=]]|[E _]].
    unfold insert_allowed in E. destruct (_ && _); [|done]. injection E as <-. apply IH in H as [Ht Hr]. split.
    + rewrite Ht. by destruct t.
    + intros p. rewrite Hr. cbn. rewrite elem_of_union, elem_of_singleton, elem_of_cons. destruct p. cbn. naive_solver.
Qed.

Lemma insertAllowedFileTypes_runs x ids t t' :
  runs (insertAllowedFileTypes fault x ids) t t' (Ok tt) -> allowing x ids t t'.
Proof. intros [Ht Hr]%insertAllowed_loop. split; [done|]. intros p. by rewrite Hr, elem_of_dedupeIDs. Qed.

(** ** Creating *)

Lemma create_exercise_runs id off req t t' r :
  runs (create_exercise fault id off req) t t' r ->
  (t' = t /\ exists e, r = Err e) \/
  (t_exercises t !! id = None /\ allowing id (ce_AllowedFileTypeIDs req) (t <| t_exercises := <[id := new_exercise off req]> (t_exercises t) |>) t').
Proof.
  unfold create_exercise. intros H.
  apply runs_bind in H as [(e & H & ->)|(t1 & [] & H1 & H)]; [apply validateAllowedFileTypeIDs_runs in H as [-> _]; eauto|].
  apply validateAllowedFileTypeIDs_runs in H1 as [-> _].
  apply runs_bind in H as [(e & H & ->)|(t1 & [] & H1 & H)]; [apply runs_lift in H as [-> _]; eauto|].
  apply runs_lift in H1 as [-> _].
  apply runs_bind in H as [(e & H & ->)|(t1 & [] & H1 & H)]; [apply runs_transaction_err in H as ->; eauto|].
  apply runs_transaction in H1 as [[_ (? & [=])]|(? & [= <-] & H1)]. apply attached_runs in H as [-> _]. right.
  apply runs_bind in H1 as [(e & _ & [=])|(t2 & [] & H2 & H1)]. apply runs_exec in H2 as [[_ [=]]|[E _]].
  unfold insert_exercise in E. destruct (_ && _) eqn:Eb in E; [|done]. injection E as <-.
  apply andb_true_iff in Eb as [[[_ Eb%bool_decide_eq_true]%andb_true_iff _]%andb_true_iff _].
  split; [done|]. by apply insertAllowedFileTypes_runs.
Qed.

(** ** Changing *)

Lemma update_requested x req row t :
  t_exercises t !! x = Some row ->
  update_exercise x (requested req row) t =
  if CommitDb.pg_text (ex_title (requested req row)) && CommitDb.pg_text (ex_description (requested req row))
  then Some (t <| t_exercises := <[x := requested req row]> (t_exercises t) |>) else None.
Proof.
  intros E. unfold update_exercise. rewrite E. destruct (_ && _); [|done]. do 3 f_equal. destruct row, req as [[] [] [] [] [] ?]; done.
Qed.

(** The tables after the languages of [x] became [ids], where [a] owns its limits. *)
Record relisted (x a : Z) (ids : list Z) (t t' : Tables) : Prop := {
  rl_tables : t' = t <| t_allowed := t_allowed t' |> <| t_exercise_limits := t_exercise_limits t' |> <| t_case_limits := t_case_limits t' |>;
  rl_allowed : forall p, p ∈ t_allowed t' <-> (p.1 = x /\ p.2 ∈ ids) \/ (p.1 <> x /\ p ∈ t_allowed t);
  rl_exercise : forall e l o, t_exercise_limits t' !! (e, l) = Some o <-> t_exercise_limits t !! (e, l) = Some o /\ (e = a -> l ∈ ids);
  rl_case : forall c l o, t_case_limits t' !! (c, l) = Some o <->
    t_case_limits t !! (c, l) = Some o /\ (ca_exercise <$> t_cases t !! c = Some a -> l ∈ ids)
}.

Lemma replace_allowed_runs x a ids t t' r : runs (replace_allowed fault x a ids) t t' (Ok r) -> relisted x a ids t t' /\ r = dedupeIDs ids.
Proof.
  unfold replace_allowed. intros H.
  apply runs_bind in H as [(e & _ & [=])|(t1 & [] & H1 & H)]. apply runs_exec in H1 as [[_ [=]]|[[= <-] _]].
  apply runs_bind in H as [(e & _ & [=])|(t2 & [] & H2 & H)]. apply insertAllowedFileTypes_runs in H2 as [Ht Hr].
  apply runs_bind in H as [(e & _ & [=])|(t3 & [] & H3 & H)]. apply runs_exec in H3 as [[_ [=]]|[[= <-] _]].
  apply runs_bind in H as [(e & _ & [=])|(t4 & [] & H4 & H)]. apply runs_exec in H4 as [[_ [=]]|[[= <-] _]].
  apply runs_ret in H as [-> [= ->]]. split; [|done]. split.
  - rewrite Ht. by destruct t.
  - intros p. cbn. rewrite Hr. cbn. rewrite elem_of_filter. naive_solver.
  - intros e l o. rewrite Ht. cbn. rewrite map_lookup_filter_Some. cbn. rewrite elem_of_dedupeIDs. split.
    + intros [Ho Hn]. split; [done|]. intros ->. destruct (decide (l ∈ ids)); [done|]. by destruct Hn.
    + intros [Ho Hl]. split; [done|]. intros [-> Hn]. by apply Hn, Hl.
  - intros c l o. rewrite Ht. cbn. rewrite map_lookup_filter_Some. cbn. rewrite elem_of_dedupeIDs. split.
    + intros [Ho Hn]. split; [done|]. intros E. destruct (decide (l ∈ ids)); [done|]. by destruct Hn.
    + intros [Ho Hl]. split; [done|]. intros [E Hn]. by apply Hn, Hl.
Qed.

(** What an accepted change leaves. *)
Definition exercise_changed (x : Z) (req : UpdateExerciseRequest) (row : ExerciseRow) (t t' : Tables) : Prop :=
  let t1 := t <| t_exercises := <[x := requested req row]> (t_exercises t) |> in
  match ue_AllowedFileTypeIDs req with
  | None => t' = t1
  | Some ids => relisted x (owning_exercise x row) ids t1 t' /\
                forall id, id ∈ ids -> exists l, t_languages t !! id = Some l /\ la_available l = true
  end.

Lemma access_exercise t x user role acc : access_row t x user role = Some acc ->
  t_exercises t !! x = Some (ac_exercise acc) /\ ac_id acc = x.
Proof.
  unfold access_row. destruct (t_exercises t !! x) as [ex|]; [|done]. cbn. destruct (t_offerings t !! _); [|done]. cbn. by intros [= <-].
Qed.

Lemma UpdateExercise_runs x req claims t t' r :
  runs (UpdateExercise fault x req claims) t t' r ->
  (t' = t /\ exists e, r = Err e) \/
  (exists row ex, r = Ok ex /\ t_exercises t !! x = Some row /\ may_author t x claims /\
     ValidateExerciseFields (ex_title (requested req row)) (ex_deadline (requested req row)) (ex_open_date (requested req row)) = Ok tt /\
     exercise_changed x req row t t').
Proof.
  unfold UpdateExercise. intros H.
  apply runs_bind in H as [(e & H & ->)|(t1 & [user role] & H1 & H)].
  { apply runs_service in H as (r0 & [-> _]%runs_lift & _). eauto. }
  apply runs_service in H1 as (r0 & [-> ->]%runs_lift & Hc). destruct (claimsUserID claims) as [p|] eqn:Ecl; [|done]. injection Hc as <-.
  apply runs_bind in H as [(e & H & ->)|(t1 & acc & H1 & H)].
  { apply runs_service in H as (r1 & H & _). unfold loadExerciseAccess in H.
    apply runs_bind in H as [(? & H & _)|(? & ? & Hq & H)]; [apply runs_query in H as [-> _]; eauto|].
    apply runs_query in Hq as [-> _]. case_match; [apply runs_ret in H as [-> _]|apply runs_fail in H as [-> _]]; eauto. }
  apply runs_service in H1 as ([acc'|] & H1 & [= <-]). unfold loadExerciseAccess in H1.
  apply runs_bind in H1 as [(? & _ & [=])|(? & row & Hq & H1)]. apply runs_query in Hq as [-> [[=]|[= ->]]].
  destruct (access_row t x user role) as [acc'|] eqn:Ea; [|by apply runs_fail in H1 as [_ [=]]]. apply runs_ret in H1 as [-> [= <-]].
  destruct (ac_canAuthor acc) eqn:Eau; cbn [negb] in H; [|apply runs_fail in H as [-> ->]; eauto].
  assert (Hau : may_author t x claims).
  { unfold claimsUserID in Ecl. destruct claims as [[u|] ro]; [|done]. injection Ecl as <- <-. by eapply access_row_author. }
  apply access_exercise in Ea as [Ex Ei].
  apply runs_bind in H as [(e & H & ->)|(t1 & [] & H1 & H)]; [apply runs_lift in H as [-> _]; eauto|]. apply runs_lift in H1 as [-> Hv].
  apply runs_bind in H as [(e & H & ->)|(t1 & [] & H1 & H)].
  { destruct (ue_AllowedFileTypeIDs req); [apply validateAllowedFileTypeIDs_runs in H as [-> _]|apply runs_ret in H as [-> _]]; eauto. }
  assert (Hids : t1 = t /\ forall ids, ue_AllowedFileTypeIDs req = Some ids -> forall id, id ∈ ids -> exists l, t_languages t !! id = Some l /\ la_available l = true).
  { destruct (ue_AllowedFileTypeIDs req) as [ids|]; [|by apply runs_ret in H1 as [-> _]].
    apply validateAllowedFileTypeIDs_runs in H1 as [-> H1]. split; [done|]. intros ids' [= <-]. by apply H1. }
  destruct Hids as [-> Hids]. clear H1.
  apply runs_bind in H as [(e & H & ->)|(t1 & ids & H1 & H)]; [apply runs_transaction_err in H as ->; eauto|].
  apply runs_transaction in H1 as [[_ (? & [=])]|(? & [= <-] & H1)]. apply attached_runs in H as [-> [ex' ->]].
  right. exists (ac_exercise acc), ex'. split_and!; try done.
  apply runs_bind in H1 as [(e & _ & [=])|(t2 & [] & H2 & H1)]. apply runs_exec in H2 as [[_ [=]]|[E _]].
  rewrite (update_requested x req _ t Ex) in E. destruct (_ && _) in E; [|done]. injection E as <-.
  unfold exercise_changed. destruct (ue_AllowedFileTypeIDs req) as [l|] eqn:El.
  - apply replace_allowed_runs in H1 as [H1 _]. unfold authoringExerciseID in H1. rewrite Ei in H1. split; [done|]. by apply Hids.
  - by apply runs_query in H1 as [-> _].
Qed.
End Runs.

(** A change of an exercise is all or nothing, whichever statement fails. Only who may
    author the exercise changes it; the fields the request leaves out stay, the new ones
    make a valid exercise; and when the request lists languages, they are exactly the
    ones allowed afterwards, all of them available, and no limit of another language is
    left to the exercise that owns the limits or to its cases. *)
Theorem update_exercise_exact fault x req claims t t' r
  (H : runs (UpdateExercise fault x req claims) t t' r) :
  match r with
  | Err _ => t' = t
  | Ok _ => exists row, t_exercises t !! x = Some row /\ may_author t x claims /\
      ValidateExerciseFields (ex_title (requested req row)) (ex_deadline (requested req row)) (ex_open_date (requested req row)) = Ok tt /\
      exercise_changed x req row t t'
  end.
Proof.
  apply UpdateExercise_runs in H as [[-> [e ->]]|(row & ex & -> & H)]; [done|]. by exists row.
Qed.

(** ** Limits of languages that are not allowed *)

(** Not a ghost of another exercise. *)
Definition owns (t : Tables) (e : Z) : Prop := exists row, t_exercises t !! e = Some row /\ owning_exercise e row = e.

(** Every stored limit is of a language its exercise allows; limits and cases belong to
    exercises that are not ghosts. *)
Record limits_allowed (t : Tables) : Prop := {
  la_exercise : forall e l o, t_exercise_limits t !! (e, l) = Some o -> (e, l) ∈ t_allowed t /\ owns t e;
  la_case : forall c l o, t_case_limits t !! (c, l) = Some o -> exists row, t_cases t !! c = Some row /\ (ca_exercise row, l) ∈ t_allowed t;
  la_owner : forall c row, t_cases t !! c = Some row -> owns t (ca_exercise row);
  la_real : forall x row, t_exercises t !! x = Some row -> is_Some (t_exercises t !! owning_exercise x row) -> owns t (owning_exercise x row)
}.

Section Allowed.
Context (fault : nat -> bool) (collation : relation string) `{!RelDecision collation} (platform : Limits).

Lemma allowed_language_row e t l : l ∈ al_id <$> allowed_languages collation e t -> (e, l) ∈ t_allowed t.
Proof.
  intros (lang & -> & H)%list_elem_of_fmap. unfold allowed_languages in H. rewrite merge_sort_Permutation in H.
  apply list_elem_of_omap in H as ([e' l] & Hin & H). apply elem_of_elements in Hin. case_decide as He; [|done]. subst e'.
  destruct (t_languages t !! l); [|done]. by injection H as <-.
Qed.

Lemma insert_exercise_limit t a l o ow langs m :
  limits_allowed t -> (a, l) ∈ t_allowed t -> owns t a ->
  insert_override a l o ow langs (t_exercise_limits t) = Some m -> limits_allowed (t <| t_exercise_limits := m |>).
Proof.
  intros [] Ha Ho ->%insert_override_Some. split; try done. intros e l' o'. cbn. rewrite lookup_insert_Some.
  intros [[[= <- <-] _]|[_ E]]; [done|]. by eapply la_exercise0.
Qed.

Lemma insert_case_limit t c row l o ow langs m :
  limits_allowed t -> t_cases t !! c = Some row -> (ca_exercise row, l) ∈ t_allowed t ->
  insert_override c l o ow langs (t_case_limits t) = Some m -> limits_allowed (t <| t_case_limits := m |>).
Proof.
  intros [] Hc Ha ->%insert_override_Some. split; try done. intros c' l' o'. cbn. rewrite lookup_insert_Some.
  intros [[[= <- <-] _]|[_ E]]; [by exists row|]. by eapply la_case0.
Qed.

Lemma InsertExerciseLanguageLimits_allowed a entries t t' r :
  (forall e, e ∈ entries -> (a, ll_id e) ∈ t_allowed t) -> (is_Some (t_exercises t !! a) -> owns t a) -> limits_allowed t ->
  runs (InsertExerciseLanguageLimits fault a entries) t t' r -> limits_allowed t'.
Proof.
  intros He Ho Ht H. cut (limits_allowed t' /\ t_allowed t' = t_allowed t /\ t_exercises t' = t_exercises t); [by intros []|].
  revert H. apply (runs_each (fun u => limits_allowed u /\ t_allowed u = t_allowed t /\ t_exercises u = t_exercises t)); [|done].
  intros e u u' r' Hin (Hu & Ea & Ee) H. destruct (Empty _); [by apply runs_ret in H as [-> _]|].
  apply runs_exec in H as [[-> _]|[H _]]; [done|]. destruct (insert_override _ _ _ _ _ _) as [m|] eqn:Em; [|done]. injection H as <-.
  split; [|done]. eapply insert_exercise_limit; [done| | |exact Em]; [rewrite Ea; by apply He|].
  unfold owns. rewrite Ee. apply Ho. rewrite <- Ee. unfold insert_override in Em.
  destruct (bool_decide (is_Some (t_exercises u !! a))) eqn:Eb; [by apply bool_decide_eq_true in Eb|done].
Qed.

Lemma InsertTestCaseLanguageLimits_allowed c row entries t t' r :
  t_cases t !! c = Some row -> (forall e, e ∈ entries -> (ca_exercise row, ll_id e) ∈ t_allowed t) -> limits_allowed t ->
  runs (InsertTestCaseLanguageLimits fault c entries) t t' r -> limits_allowed t'.
Proof.
  intros Hc He Ht H. cut (limits_allowed t' /\ t_allowed t' = t_allowed t /\ t_cases t' = t_cases t); [by intros []|].
  revert H. apply (runs_each (fun u => limits_allowed u /\ t_allowed u = t_allowed t /\ t_cases u = t_cases t)); [|done].
  intros e u u' r' Hin (Hu & Ea & Ec) H. destruct (Empty _); [by apply runs_ret in H as [-> _]|].
  apply runs_exec in H as [[-> _]|[H _]]; [done|]. destruct (insert_override _ _ _ _ _ _) as [m|] eqn:Em; [|done]. injection H as <-.
  split; [|done]. eapply insert_case_limit; [done|by rewrite Ec| |exact Em]. rewrite Ea. by apply He.
Qed.

Lemma delete_exercise_limits t a : limits_allowed t -> limits_allowed (t <| t_exercise_limits := delete_overrides a (t_exercise_limits t) |>).
Proof. intros []. split; try done. intros e l o. cbn. rewrite delete_overrides_lookup. case_decide; [done|]. apply la_exercise0. Qed.
Lemma delete_case_limits t c : limits_allowed t -> limits_allowed (t <| t_case_limits := delete_overrides c (t_case_limits t) |>).
Proof. intros []. split; try done. intros e l o. cbn. rewrite delete_overrides_lookup. case_decide; [done|]. apply la_case0. Qed.

Lemma well_formed_allowed e t entries :
  well_formed (allowed_languages collation e t) entries -> forall x, x ∈ entries -> (e, ll_id x) ∈ t_allowed t.
Proof. intros [_ Hf] x Hx. rewrite Forall_forall in Hf. by eapply allowed_language_row, Hf. Qed.

Lemma ReplaceExerciseLanguageLimits_allowed x entries claims t t' r :
  limits_allowed t -> runs (ReplaceExerciseLanguageLimits fault collation platform x entries claims) t t' r -> limits_allowed t'.
Proof.
  intros W H. unfold ReplaceExerciseLanguageLimits in H.
  apply runs_bind in H as [(e & H & _)|(t1 & acc & Ha & H)]; [by apply requireExerciseAuthor_reads in H as ->|].
  apply requireExerciseAuthor_ok in Ha as (-> & _ & row & Er & Ea). rewrite Ea in H.
  apply runs_bind in H as [(e & H & _)|(t1 & langs & Hl & H)]; [by apply runs_query in H as [-> _]|].
  apply runs_query in Hl as [-> [[=]|[= ->]]].
  destruct (validateLanguageLimits_spec (allowed_languages collation (owning_exercise x row) t) entries) as [Hv _].
  destruct (validateLanguageLimits _ _) as [e|]; [by apply runs_fail in H as [-> _]|].
  destruct Hv as [Hv _]. specialize (Hv eq_refl).
  apply runs_bind in H as [(e & H & _)|(t1 & [] & Ht & H)]; [by apply runs_transaction_err in H as ->|].
  apply ListExerciseLanguageLimits_reads in H as ->.
  apply runs_transaction in Ht as [[-> _]|(? & _ & Hs)]; [done|].
  apply runs_bind in Hs as [(? & _ & [=])|(t2 & [] & Hd & Hs)]. apply runs_exec in Hd as [[_ [=]]|[[= <-] _]].
  refine (InsertExerciseLanguageLimits_allowed _ _ _ _ _ _ _ _ Hs); [by eapply well_formed_allowed| |by apply delete_exercise_limits].
  by apply (la_real _ W x row).
Qed.

Lemma ReplaceTestCaseLanguageLimits_allowed c row entries t t' r :
  t_cases t !! c = Some row -> limits_allowed t ->
  runs (ReplaceTestCaseLanguageLimits fault collation c (ca_exercise row) entries) t t' r -> limits_allowed t'.
Proof.
  intros Hc W H. unfold ReplaceTestCaseLanguageLimits in H.
  apply runs_bind in H as [(e & H & _)|(t1 & langs & Hl & H)]; [by apply runs_query in H as [-> _]|].
  apply runs_query in Hl as [-> [[=]|[= ->]]].
  destruct (validateLanguageLimits_spec (allowed_languages collation (ca_exercise row) t) entries) as [Hv _].
  destruct (validateLanguageLimits _ _) as [e|]; [by apply runs_fail in H as [-> _]|].
  destruct Hv as [Hv _]. specialize (Hv eq_refl).
  apply runs_bind in H as [(e & H & _)|(t2 & [] & Hd & H)].
  - apply runs_exec in H as [[-> _]|[[= <-] [=]]]; done.
  - apply runs_exec in Hd as [[_ [=]]|[[= <-] _]].
    refine (InsertTestCaseLanguageLimits_allowed _ row _ _ _ _ _ _ _ H); [done|by eapply well_formed_allowed|by apply delete_case_limits].
Qed.

(** ** The requests *)

(** One request, as far as exercises, their cases and limits go. A case is created for
    the exercise that owns the rows of the one named, with limits checked against its
    languages or, by an import, drawn from them. *)
Inductive limit_step (t t' : Tables) : Prop :=
| step_create id off req r : runs (create_exercise fault id off req) t t' r -> limit_step t t'
| step_update x req claims r : runs (UpdateExercise fault x req claims) t t' r -> limit_step t t'
| step_delete x claims r : runs (DeleteExercise fault x claims) t t' r -> limit_step t t'
| step_limits x entries claims r : runs (ReplaceExerciseLanguageLimits fault collation platform x entries claims) t t' r -> limit_step t t'
| step_case c row entries r : t_cases t !! c = Some row ->
    runs (transaction fault ErrServer (ReplaceTestCaseLanguageLimits fault collation c (ca_exercise row) entries)) t t' r -> limit_step t t'
| step_new_case c row x ex entries r : t_exercises t !! x = Some ex -> ca_exercise row = owning_exercise x ex ->
    runs (transaction fault ErrServer (_ ← exec fault ErrServer (Authoring.insert_case c row);
            ReplaceTestCaseLanguageLimits fault collation c (ca_exercise row) entries)) t t' r -> limit_step t t'
| step_import c row x ex cfg r : t_exercises t !! x = Some ex -> ca_exercise row = owning_exercise x ex ->
    runs (transaction fault ErrServer (overrides ← Batch.batchLanguageOverrides fault collation (ca_exercise row) cfg;
            _ ← exec fault ErrServer (Authoring.insert_case c row); InsertTestCaseLanguageLimits fault c overrides)) t t' r -> limit_step t t'
| step_delete_case c : t' = delete_case c t -> limit_step t t'.

Lemma insert_case_allowed c row x ex t t' :
  limits_allowed t -> t_exercises t !! x = Some ex -> ca_exercise row = owning_exercise x ex ->
  Authoring.insert_case c row t = Some t' ->
  limits_allowed t' /\ t_cases t' !! c = Some row /\ t_allowed t' = t_allowed t /\ t_languages t' = t_languages t.
Proof.
  intros [] Ex Eo H. unfold Authoring.insert_case in H. destruct (_ && _) eqn:E; [|done]. injection H as <-.
  apply andb_true_iff in E as [E Hn%bool_decide_eq_true]. apply andb_true_iff in E as [He%bool_decide_eq_true _].
  split; [|split; [apply lookup_insert_eq|done]]. split; try done.
  - intros c' l o Hl. apply la_case0 in Hl as (row' & Hr & Ha). exists row'. split; [|done]. cbn. rewrite lookup_insert_ne; [done|congruence].
  - intros c' row'. cbn. rewrite lookup_insert_Some. intros [[_ <-]|[_ Hr]]; [|by eapply la_owner0].
    rewrite Eo in *. by eapply la_real0.
Qed.

(** Allowing more, for rows that own what they owned, breaks nothing. *)
Lemma create_allowed id off req t t' r : limits_allowed t -> runs (create_exercise fault id off req) t t' r -> limits_allowed t'.
Proof.
  intros [] [[-> _]|(Hn & [Ht Ha])]%create_exercise_runs; [done|].
  assert (Hx : t_exercises t' = <[id := new_exercise off req]> (t_exercises t)) by (rewrite Ht; done).
  assert (Ho : forall e, owns t e -> owns t' e).
  { intros e (row & Hr & He). exists row. rewrite Hx, lookup_insert_ne; [done|congruence]. }
  assert (Hp : forall p, p ∈ t_allowed t -> p ∈ t_allowed t') by (intros p Hp; apply Ha; by right).
  assert (t_exercise_limits t' = t_exercise_limits t /\ t_case_limits t' = t_case_limits t /\ t_cases t' = t_cases t) as (El & Ec & Es) by by rewrite Ht.
  clear Ht. split.
  - intros e l o. rewrite El. intros H%la_exercise0. destruct H. auto.
  - intros c l o. rewrite Ec, Es. intros (row & Hr & Hal)%la_case0. eauto.
  - intros c row. rewrite Es. intros H%la_owner0. auto.
  - intros x row. rewrite Hx. rewrite lookup_insert_Some. intros [[<- <-]|[Hne Hr]].
    + intros _. exists (new_exercise off req). by rewrite Hx, lookup_insert_eq.
    + intros [row' Hr']. destruct (decide (owning_exercise x row = id)) as [->|Hd].
      * exists (new_exercise off req). by rewrite Hx, lookup_insert_eq.
      * rewrite lookup_insert_ne in Hr' by done. apply Ho. eapply la_real0; [done|by eexists].
Qed.

(** Changing the fields of an exercise. *)
Lemma fields_allowed x row row' t :
  t_exercises t !! x = Some row -> ex_ghost row' = ex_ghost row -> ex_real row' = ex_real row ->
  limits_allowed t -> limits_allowed (t <| t_exercises := <[x := row']> (t_exercises t) |>).
Proof.
  intros Ex Hg Hr []. assert (Hw : forall e, owning_exercise e row' = owning_exercise e row) by (intros e; unfold owning_exercise; by rewrite Hg, Hr).
  assert (Ho : forall e, owns t e -> owns (t <| t_exercises := <[x := row']> (t_exercises t) |>) e).
  { intros e (r & He & Eo). destruct (decide (e = x)) as [->|Hd].
    - exists row'. cbn. rewrite lookup_insert_eq, Hw. split; [done|]. congruence.
    - exists r. cbn. by rewrite lookup_insert_ne. }
  split.
  - intros e l o H%la_exercise0. destruct H. auto.
  - intros c l o H%la_case0. done.
  - intros c r H%la_owner0. auto.
  - intros e r. cbn. rewrite lookup_insert_Some. intros He Hs. apply Ho.
    assert (exists r0, t_exercises t !! e = Some r0 /\ owning_exercise e r = owning_exercise e r0) as (r0 & He0 & Eow).
    { destruct He as [[<- <-]|[_ He]]; [by exists row|by exists r]. }
    rewrite Eow in *. eapply la_real0; [done|]. apply lookup_insert_is_Some in Hs. destruct Hs as [<-|[_ Hs]]; [by rewrite Ex|done].
Qed.

Lemma requested_ghost req row : ex_ghost (requested req row) = ex_ghost row /\ ex_real (requested req row) = ex_real row.
Proof. unfold requested. by destruct req as [[] [] [] [] [] ?]. Qed.

Lemma relisted_allowed x row ids t t' :
  t_exercises t !! x = Some row -> limits_allowed t -> relisted x (owning_exercise x row) ids t t' -> limits_allowed t'.
Proof.
  intros Ex [] [Ht Ha He Hc]. assert (Ho : forall e, owns t' e <-> owns t e) by (intros e; unfold owns; by rewrite Ht).
  assert (Hown : forall e, owns t e -> e = x -> owning_exercise x row = e) by (intros e (r & Er & Eo) ->; congruence).
  assert (t_cases t' = t_cases t /\ t_exercises t' = t_exercises t) as [Hcs Hxs] by by rewrite Ht.
  clear Ht.
  split.
  - intros e l o [H Hl]%He. apply la_exercise0 in H as [Hal How]. split; [|by apply Ho]. apply Ha. cbn.
    destruct (decide (e = x)) as [Hx|]; [left|by right]. split; [done|]. apply Hl. symmetry. by apply Hown.
  - intros c l o [H Hl]%Hc. apply la_case0 in H as (r & Hr & Hal). exists r. rewrite Hcs. split; [done|]. apply Ha. cbn.
    destruct (decide (ca_exercise r = x)) as [Hx|]; [left|by right]. split; [done|]. apply Hl. rewrite Hr. cbn. f_equal.
    symmetry. apply Hown; [by eapply la_owner0|done].
  - intros c r. rewrite Hcs. intros H%la_owner0. by apply Ho.
  - intros e r. rewrite Hxs. intros He' Hs. apply Ho. by eapply (la_real0 e r).
Qed.

(** C17: No limit outlives its language. However exercises are created, changed and
    removed, their limits replaced, and cases created, imported, changed and deleted,
    whichever statements fail, every stored limit of an exercise or a case is of a
    language the exercise still allows; so allowing a language again does not bring back
    limits nobody remembers. *)
Theorem limits_stay_allowed t t' (W : limits_allowed t) (H : rtc limit_step t t') : limits_allowed t'.
Proof.
  induction H as [t|t t1 t' Hstep _ IH]; [done|]. apply IH. clear IH. destruct Hstep.
  - by eapply create_allowed.
  - apply UpdateExercise_runs in H as [[-> _]|(row & ex & _ & Er & _ & _ & Hc)]; [done|]. unfold exercise_changed in Hc.
    destruct (requested_ghost req row) as [Hg Hr]. pose proof (fields_allowed x row (requested req row) t Er Hg Hr W) as W1.
    destruct (ue_AllowedFileTypeIDs req); [|by subst]. destruct Hc as [Hc _].
    eapply (relisted_allowed x (requested req row)); [|exact W1|]; [apply lookup_insert_eq|].
    unfold owning_exercise in *. by rewrite Hg, Hr.
  - unfold DeleteExercise in H. apply runs_bind in H as [(e & H & _)|(t2 & acc & Ha & H)].
    + apply runs_service in H as (r0 & H & _). by apply requireExerciseAuthor_reads in H as ->.
    + apply runs_service in Ha as (r0 & Ha & _). apply requireExerciseAuthor_reads in Ha as ->.
      apply runs_exec in H as [[-> _]|[[= <-] _]]; [done|]. destruct (t_exercises t !! x) as [row|] eqn:Er; [|done].
      by eapply fields_allowed.
  - by eapply ReplaceExerciseLanguageLimits_allowed.
  - apply runs_transaction in H0 as [[-> _]|(a & _ & H0)]; [done|]. by eapply ReplaceTestCaseLanguageLimits_allowed.
  - apply runs_transaction in H1 as [[-> _]|(a & _ & H1)]; [done|].
    apply runs_bind in H1 as [(e & _ & [=])|(t2 & [] & H2 & H1)]. apply runs_exec in H2 as [[_ [=]]|[E _]].
    eapply insert_case_allowed in E as (W1 & Hc & _); [|done..]. by eapply ReplaceTestCaseLanguageLimits_allowed.
  - apply runs_transaction in H1 as [[-> _]|(a & _ & H1)]; [done|].
    apply runs_bind in H1 as [(e & _ & [=])|(t2 & ov & Hov & H1)]. apply BatchProofs.batchLanguageOverrides_runs in Hov as [-> Hov].
    apply runs_bind in H1 as [(e & _ & [=])|(t3 & [] & H2 & H1)]. apply runs_exec in H2 as [[_ [=]]|[E _]].
    pose proof E as E'. eapply insert_case_allowed in E as (W1 & Hc & Eal & _); [|done..].
    eapply (InsertTestCaseLanguageLimits_allowed c row); [done| |done|exact H1]. intros e Hin. rewrite Eal.
    rewrite (Hov _ eq_refl) in Hin. unfold BatchProofs.overrides_meant in Hin. destruct (Empty _); [by apply elem_of_nil in Hin|].
    apply list_elem_of_fmap in Hin as (lang & -> & Hl). eapply allowed_language_row. exact (list_elem_of_fmap_2 al_id _ _ Hl).
  - subst. destruct W. split; cbn.
    + done.
    + intros c' l o [H Hne]%map_lookup_filter_Some. cbn in Hne. apply la_case0 in H as (row & Hr & Ha). exists row. by rewrite lookup_delete_ne.
    + intros c' row [_ H]%lookup_delete_Some. by eapply la_owner0.
    + done.
Qed.
End Allowed.

(** ** The class of [LimitsProofs], whose exercise 11 is a ghost of exercise 10 *)

(** A request that only lists the languages. *)
Definition only_languages (ids : list Z) : UpdateExerciseRequest := mk_update_exercise None None None None None (Some ids).

Definition named : Tables := sample <| t_exercises := (fun r => r <| ex_title := "Sum" |>) <$> t_exercises sample |>.

Definition updated (x : Z) (ids : list Z) : Tables :=
  cn_db (UpdateExercise never x (only_languages ids) teacher (mk_conn named 0)).1.

Lemma updated_runs x ids : runs (UpdateExercise never x (only_languages ids) teacher) named (updated x ids)
  (UpdateExercise never x (only_languages ids) teacher (mk_conn named 0)).2.
Proof. unfold runs, updated. destruct (UpdateExercise _ _ _ _ _) as [[d n] r] eqn:E. exists 0%nat, n. exact E. Qed.

Lemma named_allowed : limits_allowed named.
Proof.
  split.
  - intros e l o. cbn. intros H. apply lookup_singleton_Some in H as [[= <- <-] _]. split; [by apply elem_of_union; left; apply elem_of_singleton|].
    eexists. by split; [vm_compute; reflexivity|].
  - intros c l o. cbn. intros H. apply lookup_singleton_Some in H as [[= <- <-] _]. eexists. split; [by vm_compute|].
    by apply elem_of_union; left; apply elem_of_singleton.
  - intros c row. cbn. intros H. apply lookup_singleton_Some in H as [<- <-]. eexists. by split; [vm_compute; reflexivity|].
  - intros x row H _. unfold named in H. cbn in H. rewrite lookup_fmap_Some in H. destruct H as (r & <- & H).
    apply lookup_insert_Some in H as [[<- <-]|[_ H]]; [|apply lookup_singleton_Some in H as [<- <-]]; eexists; by split; [vm_compute; reflexivity|].
Qed.

Lemma limits_stay_allowed_witness :
  limits_allowed (updated 10 []) /\ t_exercise_limits (updated 10 []) = ∅ /\ t_case_limits (updated 10 []) = ∅.
Proof.
  split; [|by vm_compute].
  refine (limits_stay_allowed never byte_order defaults named (updated 10 []) named_allowed _).
  apply rtc_once. exact (step_update _ _ _ _ _ 10 (only_languages []) teacher _ (updated_runs 10 [])).
Defined.

Lemma update_exercise_exact_witness :
  exists row, t_exercises named !! 10 = Some row /\ exercise_changed 10 (only_languages []) row named (updated 10 []).
Proof.
  pose proof (update_exercise_exact never 10 (only_languages []) teacher named (updated 10 []) _ (updated_runs 10 [])) as H.
  assert (E : exists ex, (UpdateExercise never 10 (only_languages []) teacher (mk_conn named 0)).2 = Ok ex) by (eexists; vm_compute; reflexivity).
  destruct E as [ex E]. rewrite E in H. destruct H as (row & Hr & _ & _ & H). by exists row.
Defined.

(** Changing the languages of a ghost drops limits of the exercise it points to, for a
    language that exercise still allows. *)
Example ghost_update_drops_limits :
  t_exercise_limits named !! (10, 1) = Some (mk_overrides (Some 2) None None None) /\
  t_exercise_limits (updated 11 []) !! (10, 1) = None /\ (10, 1) ∈ t_allowed (updated 11 []).
Proof. split_and!; [by vm_compute..|]. apply (bool_decide_unpack _). by vm_compute. Qed.
