(* ===== verification/Transfer.v ===== *)
(** * The archive of a class

    [src/backend/services/offering-transfer-service.go]: a class with its exercises,
    cases and files becomes a zip file, and such a file becomes a new class. The zip
    reader is that of [Archive.v]; the manifest's JSON and the texts of dates are the
    class [Manifests]. Texts of errors are the constructors of [transfer_reason]. Any
    request to PostgreSQL or the object store may fail. *)

From S2P Require Import Prelude Effects GoStrings Sql Catalog Limits Objects Authoring Archive.
From S2P Require Batch Exercises Quota Accounts Classes Cache CommitDb.
Import Batch(writeZipEntry, pad3, unset_limits, loadCaseObject, readCaseObject, or_default).
Local Open Scope Z_scope.

Definition offeringArchiveFormat := "runcodes-offering".
Definition offeringArchiveVersion : Z := 2.
Definition offeringArchiveMinVersion : Z := 1.
Definition MaxOfferingArchiveBytes : Z := 256 * 2 ^ 20.
Definition MaxOfferingExpandedBytes : Z := 512 * 2 ^ 20.
Definition MaxOfferingArchiveEntries : nat := Z.to_nat 20000.
Definition MaxImportedExercises : nat := 500.
Definition MaxImportedTestCases : nat := Z.to_nat 5000.
Definition maxImportFileBytes : Z := MaxBatchCaseFileBytes.

(** ** Data *)

Record offeringArchiveLimit := mk_archive_limit { tl_Extension : string; tl_overrides : LimitOverrides }.

Record offeringArchiveTestCase := mk_archive_case {
  tc_Input : string; tc_InputType : string; tc_ShowInput : bool;
  tc_ExpectedOutput : string; tc_ExpectedOutputType : string; tc_ShowExpectedOutput : bool; tc_ShowUserOutput : bool;
  tc_Limits : list offeringArchiveLimit; tc_CPUTimeLimitSeconds : Z; tc_MemUsageLimitBytes : Z;
  tc_StackLimitBytes : Z; tc_FileSizeLimitBytes : Z; tc_Files : list string
}.
#[export] Instance offeringArchiveTestCase_eta : Settable offeringArchiveTestCase := fun c =>
  mk_archive_case (tc_Input c) (tc_InputType c) (tc_ShowInput c) (tc_ExpectedOutput c) (tc_ExpectedOutputType c)
    (tc_ShowExpectedOutput c) (tc_ShowUserOutput c) (tc_Limits c) (tc_CPUTimeLimitSeconds c) (tc_MemUsageLimitBytes c)
    (tc_StackLimitBytes c) (tc_FileSizeLimitBytes c) (tc_Files c).

Record offeringArchiveExercise := mk_archive_exercise {
  te_Title : string; te_Description : string; te_Deadline : Z; te_OpenDate : Z;
  te_ShowBeforeOpenDate : bool; te_Removed : bool; te_Extensions : list string;
  te_Limits : list offeringArchiveLimit; te_TestCases : list offeringArchiveTestCase;
  te_CompilationFiles : list string; te_AttachedFiles : list string
}.
#[export] Instance offeringArchiveExercise_eta : Settable offeringArchiveExercise := fun e =>
  mk_archive_exercise (te_Title e) (te_Description e) (te_Deadline e) (te_OpenDate e) (te_ShowBeforeOpenDate e) (te_Removed e)
    (te_Extensions e) (te_Limits e) (te_TestCases e) (te_CompilationFiles e) (te_AttachedFiles e).

Record offeringArchiveOffering := mk_archive_offering {
  to_Name : string; to_Description : string; to_EndDate : string; to_VisibleToEnroll : bool
}.
#[export] Instance offeringArchiveOffering_eta : Settable offeringArchiveOffering := fun o =>
  mk_archive_offering (to_Name o) (to_Description o) (to_EndDate o) (to_VisibleToEnroll o).

Record offeringArchiveManifest := mk_manifest {
  tm_Format : string; tm_Version : Z; tm_ExportedAt : Z; tm_Offering : offeringArchiveOffering;
  tm_Exercises : list offeringArchiveExercise
}.
#[export] Instance offeringArchiveManifest_eta : Settable offeringArchiveManifest := fun m =>
  mk_manifest (tm_Format m) (tm_Version m) (tm_ExportedAt m) (tm_Offering m) (tm_Exercises m).

(** [nil] and absent options are [None]; an absent name is empty. *)
Record OfferingImportOptions := mk_options { io_Name : string; io_Description : option string; io_EndDate : option Z }.

Record offeringArchive := mk_offering_archive { oa_manifest : offeringArchiveManifest; oa_entries : gmap string zip_file }.

(** [encoding/json] on the manifest, [time.Parse] and [Format] with RFC 3339. *)
Class Manifests := {
  unmarshal : string -> option offeringArchiveManifest;
  marshal : offeringArchiveManifest -> option string;
  parse_rfc3339 : string -> option Z;
  format_rfc3339 : Z -> string
}.

Inductive transfer_reason :=
| InvalidEntry (name : string) | DuplicateEntry (name : string) | NoManifest | InvalidManifest
| UnknownFormat (format : string) | UnsupportedVersion (version : Z) | InvalidOfferingName | InvalidTitle (index : nat)
| NoDates (title : string) | ClosesBeforeOpens (title : string) | DuplicateFileType (extension title : string)
| InvalidIOType (case_ : nat) (title : string) | NegativeCaseLimit (case_ : nat) (title : string)
| RepeatedLimits (extension : string) | LimitNotAllowed (extension : string) | NonPositiveCPU | NegativeLimit
| InvalidFileName (name : string) | NotPlainName (name : string) | DuplicateFile (name : string)
| MissingEntry (name : string) | InvalidEndDate | UnknownLimitType (extension : string).

(** The services' errors, [ErrInvalidTransfer] with its reason, [ErrImportFailed] with
    the missing language, and the errors of the zip and class components. *)
Inductive transfer_error :=
| Service (e : svc_error) | Zip (e : archive_error) | ErrInvalidTransfer (r : transfer_reason)
| ErrImportFailed (extension : option string) | Input (v : Accounts.validation_error) | Class_ (e : Classes.class_error)
| Storage (e : Batch.batch_error).

(** ** Reading an archive *)

Section Parse.
Context {UT : UnicodeTables} {MF : Manifests}.

Definition ignored_name (name : string) : bool :=
  String.eqb name "__MACOSX" || has_prefix "__MACOSX/" name || String.eqb name ".DS_Store" || has_suffix "/.DS_Store" name.

(** [expanded] is an [int64]. *)
Fixpoint index_entries (expanded : Z) (files : list zip_file) (entries : gmap string zip_file) :
  res transfer_error (gmap string zip_file) :=
  match files with
  | [] => Ok entries
  | f :: rest =>
      if zf_IsDir f then index_entries expanded rest entries
      else match normalizeArchivePath (zf_Name f) with
      | None => Err (ErrInvalidTransfer (InvalidEntry (zf_Name f)))
      | Some segments =>
          let name := String.concat "/" segments in
          if ignored_name name then index_entries expanded rest entries
          else if bool_decide (is_Some (entries !! name)) then Err (ErrInvalidTransfer (DuplicateEntry name))
          else
            let expanded := wrap64 (expanded + wrap64 (zf_size f)) in
            if MaxOfferingExpandedBytes <? expanded then Err (Zip ErrArchiveTooLarge)
            else index_entries expanded rest (<[name := f]> entries)
      end
  end.

(** [file] of an archive, read. *)
Definition read_entry (f : zip_file) : res transfer_error string :=
  match readZipEntry f with Ok data => Ok data | Err e => Err (Zip e) end.

(** The names under their base names, or why one is refused. *)
Fixpoint clean_names (seen : gset string) (names : list string) : res transfer_error (list string) :=
  match names with
  | [] => Ok []
  | name :: rest =>
      let base := FileBasename name in
      if String.eqb base "" || String.eqb base "file" && String.eqb (trim_space name) ""
      then Err (ErrInvalidTransfer (InvalidFileName name))
      else if negb (String.eqb base (trim_space name)) then Err (ErrInvalidTransfer (NotPlainName name))
      else if bool_decide (base ∈ seen) then Err (ErrInvalidTransfer (DuplicateFile base))
      else cleaned ← clean_names ({[base]} ∪ seen) rest; Ok (base :: cleaned)
  end.
Definition validateArchiveFileNames (names : list string) : res transfer_error (list string) := clean_names ∅ names.

Definition negative (v : option Z) : bool := refuses (fun v => v <? 0) v.

Fixpoint check_limits (seen allowed : gset string) (limits : list offeringArchiveLimit) : res transfer_error unit :=
  match limits with
  | [] => Ok tt
  | l :: rest =>
      let extension := to_lower (tl_Extension l) in
      if bool_decide (extension ∈ seen) then Err (ErrInvalidTransfer (RepeatedLimits extension))
      else if negb (bool_decide (extension ∈ allowed)) then Err (ErrInvalidTransfer (LimitNotAllowed extension))
      else if refuses (fun v => v <=? 0) (lo_cpu (tl_overrides l)) then Err (ErrInvalidTransfer NonPositiveCPU)
      else if negative (lo_mem (tl_overrides l)) || negative (lo_stack (tl_overrides l)) || negative (lo_file (tl_overrides l))
      then Err (ErrInvalidTransfer NegativeLimit)
      else check_limits ({[extension]} ∪ seen) allowed rest
  end.
Definition validateArchiveLimits (limits : list offeringArchiveLimit) (allowed : gset string) : res transfer_error unit :=
  check_limits ∅ allowed limits.

Fixpoint check_extensions (title : string) (seen : gset string) (extensions : list string) : res transfer_error (gset string) :=
  match extensions with
  | [] => Ok seen
  | e :: rest =>
      let extension := to_lower e in
      if bool_decide (extension ∈ seen) then Err (ErrInvalidTransfer (DuplicateFileType extension title))
      else check_extensions title ({[extension]} ∪ seen) rest
  end.

(** One case, [index] from 1. *)
Definition validate_case (title : string) (allowed : gset string) (index : nat) (c : offeringArchiveTestCase) :
  res transfer_error offeringArchiveTestCase :=
  if negb (validateIOType (tc_InputType c)) then Err (ErrInvalidTransfer (InvalidIOType index title))
  else if negb (validateIOType (tc_ExpectedOutputType c)) then Err (ErrInvalidTransfer (InvalidIOType index title))
  else if (tc_CPUTimeLimitSeconds c <? 0) || (tc_MemUsageLimitBytes c <? 0) || (tc_StackLimitBytes c <? 0) || (tc_FileSizeLimitBytes c <? 0)
  then Err (ErrInvalidTransfer (NegativeCaseLimit index title))
  else
    _ ← validateArchiveLimits (tc_Limits c) allowed;
    files ← validateArchiveFileNames (tc_Files c);
    Ok (c <| tc_Files := files |>).

(** A loop with an index that may refuse an element. *)
Fixpoint check_each {A} (f : nat -> A -> res transfer_error A) (index : nat) (l : list A) : res transfer_error (list A) :=
  match l with
  | [] => Ok []
  | x :: rest => x ← f index x; rest ← check_each f (S index) rest; Ok (x :: rest)
  end.

Definition validate_exercise (index total : nat) (e : offeringArchiveExercise) : res transfer_error (offeringArchiveExercise * nat) :=
  let title := trim_space (te_Title e) in
  match Accounts.ValidateRequiredString title Exercises.MaxExerciseTitleLength with
  | Err _ => Err (ErrInvalidTransfer (InvalidTitle index))
  | Ok _ =>
      if (te_OpenDate e =? Exercises.zero_time) || (te_Deadline e =? Exercises.zero_time)
      then Err (ErrInvalidTransfer (NoDates title))
      else if te_Deadline e <? te_OpenDate e then Err (ErrInvalidTransfer (ClosesBeforeOpens title))
      else if (MaxImportedTestCases <? length (te_TestCases e))%nat then Err (Zip ErrArchiveTooLarge)
      else
        let total := (total + length (te_TestCases e))%nat in
        if (MaxImportedTestCases <? total)%nat then Err (Zip ErrArchiveTooLarge)
        else
          allowed ← check_extensions title ∅ (te_Extensions e);
          _ ← validateArchiveLimits (te_Limits e) allowed;
          cases ← check_each (validate_case title allowed) 1 (te_TestCases e);
          compilation ← validateArchiveFileNames (te_CompilationFiles e);
          attached ← validateArchiveFileNames (te_AttachedFiles e);
          Ok (e <| te_Title := title |> <| te_TestCases := cases |> <| te_CompilationFiles := compilation |>
                <| te_AttachedFiles := attached |>, total)
  end.

Fixpoint validate_exercises (index total : nat) (l : list offeringArchiveExercise) : res transfer_error (list offeringArchiveExercise) :=
  match l with
  | [] => Ok []
  | e :: rest =>
      '(e, total) ← validate_exercise index total e;
      rest ← validate_exercises (S index) total rest;
      Ok (e :: rest)
  end.

(** The manifest with its names trimmed and its files' names cleaned. *)
Definition validateOfferingManifest (m : offeringArchiveManifest) : res transfer_error offeringArchiveManifest :=
  let name := trim_space (to_Name (tm_Offering m)) in
  match Accounts.ValidateRequiredString name Classes.MaxOfferingNameLength with
  | Err _ => Err (ErrInvalidTransfer InvalidOfferingName)
  | Ok _ =>
      if (MaxImportedExercises <? length (tm_Exercises m))%nat then Err (Zip ErrArchiveTooLarge)
      else
        exercises ← validate_exercises 1 0 (tm_Exercises m);
        Ok (m <| tm_Offering := (tm_Offering m) <| to_Name := name |> |> <| tm_Exercises := exercises |>)
  end.

(** Where a file of the manifest is; the indices are from 0. *)
Definition case_base (exercise case_ : nat) : string := "exercises/" +:+ pad3 (S exercise) +:+ "/testcases/" +:+ pad3 (S case_).
Definition compilation_entry (exercise : nat) (name : string) : string := "exercises/" +:+ pad3 (S exercise) +:+ "/compilation/" +:+ name.
Definition attached_entry (exercise : nat) (name : string) : string := "exercises/" +:+ pad3 (S exercise) +:+ "/attached/" +:+ name.

Definition entries_of_case (base : string) (c : offeringArchiveTestCase) : list string :=
  [base +:+ "/in"; base +:+ "/out"] ++ ((fun name => base +:+ "/files/" +:+ name) <$> tc_Files c).
Definition exercise_entries (index : nat) (e : offeringArchiveExercise) : list string :=
  concat (imap (fun i c => entries_of_case (case_base index i) c) (te_TestCases e)) ++
  (compilation_entry index <$> te_CompilationFiles e) ++ (attached_entry index <$> te_AttachedFiles e).

Definition requireEntry (entries : gmap string zip_file) (name : string) : res transfer_error unit :=
  match entries !! name with
  | None => Err (ErrInvalidTransfer (MissingEntry name))
  | Some f => if maxImportFileBytes <? zf_size f then Err (Zip ErrArchiveTooLarge) else Ok tt
  end.
Fixpoint require_all (entries : gmap string zip_file) (names : list string) : res transfer_error unit :=
  match names with [] => Ok tt | name :: rest => _ ← requireEntry entries name; require_all entries rest end.

Definition validateFiles (entries : gmap string zip_file) (m : offeringArchiveManifest) : res transfer_error unit :=
  require_all entries (concat (imap exercise_entries (tm_Exercises m))).

Definition ParseOfferingArchive (data : archive) : res transfer_error offeringArchive :=
  if ar_len data =? 0 then Err (Zip ErrInvalidArchive)
  else if MaxOfferingArchiveBytes <? ar_len data then Err (Zip ErrArchiveTooLarge)
  else match ar_files data with
  | None => Err (Zip ErrInvalidArchive)
  | Some files =>
      if (MaxOfferingArchiveEntries <? length files)%nat then Err (Zip ErrArchiveTooLarge)
      else
        entries ← index_entries 0 files ∅;
        match entries !! "manifest.json" with
        | None => Err (ErrInvalidTransfer NoManifest)
        | Some f =>
            text ← read_entry f;
            match unmarshal text with
            | None => Err (ErrInvalidTransfer InvalidManifest)
            | Some manifest =>
                if negb (String.eqb (tm_Format manifest) offeringArchiveFormat)
                then Err (ErrInvalidTransfer (UnknownFormat (tm_Format manifest)))
                else if (tm_Version manifest <? offeringArchiveMinVersion) || (offeringArchiveVersion <? tm_Version manifest)
                then Err (ErrInvalidTransfer (UnsupportedVersion (tm_Version manifest)))
                else
                  manifest ← validateOfferingManifest manifest;
                  _ ← validateFiles entries manifest;
                  Ok (mk_offering_archive manifest entries)
            end
        end
  end.

(** [offeringArchive.read]. *)
Definition read (entries : gmap string zip_file) (name : string) : res transfer_error string :=
  match entries !! name with None => Err (ErrInvalidTransfer (MissingEntry name)) | Some f => read_entry f end.

(** ** Limits *)

Definition archiveLimits (overrides : gmap Z LimitOverrides) (languages : list allowedLanguage) : list offeringArchiveLimit :=
  omap (fun language =>
    let override := layer_of overrides (al_id language) in
    if Empty override then None else Some (mk_archive_limit (al_extension language) override)) languages.

(** A language of the new exercise: its identity and the extension it was named by. *)
Definition imported_limits (id : Z) (extension : string) (o : LimitOverrides) : LanguageLimits :=
  unset_limits (mk_allowed id "" extension) o.

(** The last language of an extension counts. *)
Definition by_extension (languages : list LanguageLimits) : gmap string Z :=
  fold_left (fun m l => <[to_lower (ll_extension l) := ll_id l]> m) languages ∅.

Fixpoint resolve_limits (ids : gmap string Z) (limits : list offeringArchiveLimit) : res transfer_error (list LanguageLimits) :=
  match limits with
  | [] => Ok []
  | l :: rest =>
      match ids !! to_lower (tl_Extension l) with
      | None => Err (ErrInvalidTransfer (UnknownLimitType (tl_Extension l)))
      | Some id => resolved ← resolve_limits ids rest; Ok (imported_limits id (tl_Extension l) (tl_overrides l) :: resolved)
      end
  end.
Definition archiveLimitsByExtension (limits : list offeringArchiveLimit) (languages : list LanguageLimits) :
  res transfer_error (list LanguageLimits) := resolve_limits (by_extension languages) limits.

Definition positive (v : Z) : option Z := if 0 <? v then Some v else None.

(** A case without the list has one set of limits, for every language. *)
Definition archiveCaseLimits (c : offeringArchiveTestCase) (languages : list LanguageLimits) : res transfer_error (list LanguageLimits) :=
  match tc_Limits c with
  | [] =>
      let override := mk_overrides (positive (tc_CPUTimeLimitSeconds c)) (positive (tc_MemUsageLimitBytes c))
                        (positive (tc_StackLimitBytes c)) (positive (tc_FileSizeLimitBytes c)) in
      if (tc_CPUTimeLimitSeconds c <=? 0) && (tc_MemUsageLimitBytes c <=? 0) && (tc_StackLimitBytes c <=? 0) &&
         (tc_FileSizeLimitBytes c <=? 0) then Ok []
      else Ok ((fun l => imported_limits (ll_id l) (ll_extension l) override) <$> languages)
  | limits => archiveLimitsByExtension limits languages
  end.
End Parse.

(** ** Importing *)

Definition files_bucket := "files".
Definition CompilationFileKey (exerciseID : Z) (filename : string) : string :=
  "compilationfiles/" +:+ fmt_int exerciseID +:+ "/" +:+ FileBasename filename.
Definition AttachmentKey (exerciseID : Z) (filename : string) : string :=
  "attachments/" +:+ fmt_int exerciseID +:+ "/" +:+ FileBasename filename.

(** The open import: the world and the tagged keys uploaded so far. *)
Record job_state := mk_job { jb_world : world; jb_uploaded : list string }.
#[export] Instance job_state_eta : Settable job_state := fun j => mk_job (jb_world j) (jb_uploaded j).

Abbreviation transfer A := (eff world transfer_error A).
Abbreviation job A := (eff job_state transfer_error A).

Definition service {A} (m : act A) : transfer A := fun w =>
  match m w with (w, Ok a) => (w, Ok a) | (w, Err e) => (w, Err (Service e)) end.
Definition on_world {A} (m : act A) : job A := fun j =>
  match m (jb_world j) with
  | (w, Ok a) => (j <| jb_world := w |>, Ok a)
  | (w, Err e) => (j <| jb_world := w |>, Err (Service e))
  end.

(** The clock, twice; [time.Now().AddDate(0, 6, 0)]; and the draws of the code. *)
Record import_env := mk_import_env { ie_now : Z; ie_semester : Z; ie_draws : option (list Z) }.

(** A row of [exercises_compilation_files] or [exercises_attached_files]. *)
Inductive file_table := Compilation | Attached.
Definition file_rows (k : file_table) (t : Tables) : gmap Z (Z * string) :=
  match k with Compilation => t_compilation_files t | Attached => t_attached_files t end.
Definition set_file_rows (k : file_table) (m : gmap Z (Z * string)) (t : Tables) : Tables :=
  match k with Compilation => t <| t_compilation_files := m |> | Attached => t <| t_attached_files := m |> end.
Definition file_sequence (k : file_table) : string :=
  match k with Compilation => "exercises_compilation_files" | Attached => "exercises_attached_files" end.
Definition file_key (k : file_table) : Z -> string -> string :=
  match k with Compilation => CompilationFileKey | Attached => AttachmentKey end.
Definition file_entry (k : file_table) : nat -> string -> string :=
  match k with Compilation => compilation_entry | Attached => attached_entry end.

Definition insert_exercise_file (k : file_table) (id exerciseID : Z) (path : string) (t : Tables) : option Tables :=
  if bool_decide (is_Some (t_exercises t !! exerciseID)) && CommitDb.pg_text path && bool_decide (file_rows k t !! id = None)
  then Some (set_file_rows k (<[id := (exerciseID, path)]> (file_rows k t)) t) else None.

Section Importing.
Context {UT : UnicodeTables} {MF : Manifests}.
Context (fault : nat -> bool) (users : gmap Z Accounts.UserRow).
(** The rows of the catalog in the order of a query without one. *)
Context (scan : gmap Z LanguageRow -> list (Z * LanguageRow)).

Local Abbreviation put f := (exec fault ErrServer f).

Definition insert_offering (id : Z) (row : OfferingRow) (code : string) (t : Tables) : option Tables :=
  if negb (Classes.code_taken id code t) && bool_decide (is_Some (of_owner row ≫= fun o => users !! o)) &&
     CommitDb.pg_text (of_name row) && CommitDb.pg_text (default "" (of_description row)) && bool_decide (t_offerings t !! id = None)
  then Some (t <| t_offerings := <[id := row]> (t_offerings t) |>) else None.

Definition insert_row {A} (table : string) (f : Z -> Tables -> option Tables) (k : Z -> act A) : act A :=
  id ← next_id table; _ ← on_db (put (f id)); k id.

Definition types_by_extension (rows : list (Z * LanguageRow)) : gmap string Z :=
  fold_left (fun m x => <[to_lower (la_extension x.2) := x.1]> m) rows ∅.
Definition loadAllowedFileTypeIDsByExtension : svc (gmap string Z) :=
  query fault ErrServer (fun t => types_by_extension (scan (t_languages t))).

Definition deleteImportedObjectsBestEffort (keys : list string) : act unit :=
  let tagged tag := trim_prefix tag <$> filter (fun k => has_prefix tag k = true) keys in
  _ ← each (fun key => best_effort (delete_object fault cases_bucket key)) (tagged "case:");
  each (fun key => best_effort (delete_object fault files_bucket key)) (tagged "file:").

(** A returned error goes through [fail]. *)
Definition with_uploads {A} (m : job A) : transfer A := fun w =>
  match m (mk_job w []) with
  | (j, Ok a) => (jb_world j, Ok a)
  | (j, Err e) => (fst (deleteImportedObjectsBestEffort (jb_uploaded j) (jb_world j)), Err e)
  end.

Definition uploadCase (key content contentType : string) : job unit :=
  _ ← on_world (put_object fault cases_bucket key (mk_object content contentType));
  modify (fun j => j <| jb_uploaded := jb_uploaded j ++ ["case:" +:+ key] |>).
Definition uploadFile (key content : string) : job unit :=
  _ ← on_world (put_object fault files_bucket key (mk_object content "application/octet-stream"));
  modify (fun j => j <| jb_uploaded := jb_uploaded j ++ ["file:" +:+ key] |>).

Definition import_case_file (entries : gmap string zip_file) (base : string) (caseID : Z) (fileName : string) : job unit :=
  content ← lift (read entries (base +:+ "/files/" +:+ fileName));
  _ ← uploadCase (CaseFileKey caseID fileName) content "application/octet-stream";
  on_world (insert_row "exercises_test_cases_files" (fun id => insert_case_file id caseID fileName) (fun _ => mret tt)).

Definition imported_row (exerciseID : Z) (c : offeringArchiveTestCase) : CaseRow :=
  mk_case_row exerciseID (tc_Input c) (tc_InputType c) (tc_ShowInput c) (tc_ExpectedOutput c) (tc_ExpectedOutputType c)
    (tc_ShowExpectedOutput c) (tc_ShowUserOutput c).

Definition import_offering_case (entries : gmap string zip_file) (exerciseID : Z) (exerciseTypes : list LanguageLimits) (base : string)
    (c : offeringArchiveTestCase) : job unit :=
  input ← lift (read entries (base +:+ "/in"));
  output ← lift (read entries (base +:+ "/out"));
  caseID ← on_world (insert_row "exercises_test_cases" (fun id => insert_case id (imported_row exerciseID c)) mret);
  limits ← lift (archiveCaseLimits c exerciseTypes);
  _ ← on_world (on_db (InsertTestCaseLanguageLimits fault caseID limits));
  _ ← uploadCase (CaseInputKey caseID) input "text/plain; charset=utf-8";
  _ ← uploadCase (CaseOutputKey caseID) output "text/plain; charset=utf-8";
  each (import_case_file entries base caseID) (tc_Files c).

(** A loop with an index. *)
Fixpoint each_indexed {S E A} (f : nat -> A -> eff S E unit) (index : nat) (l : list A) : eff S E unit :=
  match l with [] => mret tt | x :: rest => _ ← f index x; each_indexed f (Datatypes.S index) rest end.

Definition import_file (entries : gmap string zip_file) (index : nat) (exerciseID : Z) (k : file_table) (fileName : string) : job unit :=
  content ← lift (read entries (file_entry k index fileName));
  _ ← uploadFile (file_key k exerciseID fileName) content;
  on_world (insert_row (file_sequence k) (fun id => insert_exercise_file k id exerciseID fileName) (fun _ => mret tt)).

(** The languages of the new exercise. *)
Fixpoint import_types (allowedTypes : gmap string Z) (exerciseID : Z) (extensions : list string) : job (list LanguageLimits) :=
  match extensions with
  | [] => mret []
  | extension :: rest =>
      match allowedTypes !! to_lower extension with
      | None => fail (ErrImportFailed (Some extension))
      | Some typeID =>
          _ ← on_world (on_db (put (Exercises.insert_allowed exerciseID typeID)));
          types ← import_types allowedTypes exerciseID rest;
          mret (imported_limits typeID extension no_overrides :: types)
      end
  end.

Definition shifted_row (offeringID shift : Z) (e : offeringArchiveExercise) : ExerciseRow :=
  mk_exercise offeringID (te_Deadline e + shift) (te_OpenDate e + shift) (te_ShowBeforeOpenDate e) (te_Removed e) false None
    (te_Title e) (te_Description e).

Definition import_exercise (entries : gmap string zip_file) (allowedTypes : gmap string Z) (offeringID shift : Z) (index : nat)
    (e : offeringArchiveExercise) : job unit :=
  exerciseID ← on_world (insert_row "exercises" (fun id => Exercises.insert_exercise id (shifted_row offeringID shift e)) mret);
  exerciseTypes ← import_types allowedTypes exerciseID (te_Extensions e);
  exerciseLimits ← lift (archiveLimitsByExtension (te_Limits e) exerciseTypes);
  _ ← on_world (on_db (InsertExerciseLanguageLimits fault exerciseID exerciseLimits));
  _ ← each_indexed (fun i => import_offering_case entries exerciseID exerciseTypes (case_base index i)) 0 (te_TestCases e);
  _ ← each (import_file entries index exerciseID Compilation) (te_CompilationFiles e);
  each (import_file entries index exerciseID Attached) (te_AttachedFiles e).

(** The class of the options and the manifest: name, description, end and shift. *)
Record import_plan := mk_plan { ip_name : string; ip_description : string; ip_end : Z; ip_shift : Z }.

Definition plan_import (env : import_env) (manifest : offeringArchiveManifest) (options : OfferingImportOptions) :
  res transfer_error import_plan :=
  match parse_rfc3339 (to_EndDate (tm_Offering manifest)) with
  | None => Err (ErrInvalidTransfer InvalidEndDate)
  | Some oldEnd =>
      let name := or_default (trim_space (io_Name options)) (to_Name (tm_Offering manifest)) in
      match Accounts.ValidateRequiredString name Classes.MaxOfferingNameLength with
      | Err e => Err (Input e)
      | Ok _ =>
          let newEnd := default oldEnd (io_EndDate options) in
          let newEnd := if ie_now env <? newEnd then newEnd else ie_semester env in
          Ok (mk_plan name (default (to_Description (tm_Offering manifest)) (io_Description options)) newEnd (Quota.time_sub newEnd oldEnd))
      end
  end.

Definition offering_row (userID : Z) (plan : import_plan) (code : string) (visible : bool) : OfferingRow :=
  mk_offering (Some userID) (ip_end plan) (ip_name plan) (Some (ip_description plan)) (Some code) visible.

(** Inside the transaction. *)
Definition import_offering_rows (env : import_env) (userID : Z) (archive : offeringArchive) (plan : import_plan) (allowedTypes : gmap string Z) :
  transfer (Z * string) :=
  let manifest := oa_manifest archive in
  code ← lift (match Classes.newEnrollmentCode (ie_draws env) with Some code => Ok code | None => Err (Service ErrServer) end);
  offeringID ← service (insert_row "offerings"
    (fun id => insert_offering id (offering_row userID plan code (to_VisibleToEnroll (tm_Offering manifest))) code) mret);
  _ ← with_uploads
    (_ ← each_indexed (import_exercise (oa_entries archive) allowedTypes offeringID (ip_shift plan)) 0 (tm_Exercises manifest);
     on_world (commit_tx fault));
  mret (offeringID, code).

(** [defer tx.Rollback()]. *)
Definition in_transaction {A} (m : transfer A) : transfer A :=
  _ ← service (begin_tx fault); finally m (service rollback).

Definition ImportOfferingArchive (env : import_env) (data : archive) (options : OfferingImportOptions) (claims : Claims) :
  transfer Classes.Offering :=
  '(userID, _) ← service (on_db (lift (claimsUserID claims)));
  archive ← lift (ParseOfferingArchive data);
  plan ← lift (plan_import env (oa_manifest archive) options);
  allowedTypes ← service (on_db loadAllowedFileTypeIDsByExtension);
  '(offeringID, code) ← in_transaction (import_offering_rows env userID archive plan allowedTypes);
  mret (Classes.mk_off offeringID (ip_name plan) (Classes.whole_seconds (ip_end plan)) (ip_description plan) code
          (to_VisibleToEnroll (tm_Offering (oa_manifest archive)))).
End Importing.

(** ** Exporting *)

(** The world, the cache of classes and the identities of new ones. *)
Record site := mk_site { si_world : world; si_cache : Cache.cache Classes.cachedOffering; si_next : Z }.

Abbreviation tour A := (eff site transfer_error A).

Definition on_class {A} (m : eff Classes.campus Classes.class_error A) : tour A := fun s =>
  match m (Classes.mk_campus (w_conn (si_world s)) (si_cache s) (si_next s)) with
  | (c, r) =>
      (mk_site ((si_world s) <| w_conn := Classes.cm_conn c |>) (Classes.cm_cache c) (Classes.cm_next c),
       match r with Ok a => Ok a | Err e => Err (Class_ e) end)
  end.
Definition on_site {A} (m : transfer A) : tour A := fun s =>
  let '(w, r) := m (si_world s) in (mk_site w (si_cache s) (si_next s), r).
Definition batch {A} (m : eff world Batch.batch_error A) : transfer A := fun w =>
  match m w with (w, Ok a) => (w, Ok a) | (w, Err e) => (w, Err (Storage e)) end.

Section Exporting.
Context {MF : Manifests} {TX : Classes.Texts}.
Context (fault : nat -> bool) (collation : relation string) `{!RelDecision collation}.

Local Abbreviation ask f := (service (on_db (query fault ErrServer f))).
Local Abbreviation entry := (string * string)%type.

Definition by_opening (x y : Z * ExerciseRow) : Prop :=
  ex_open_date x.2 < ex_open_date y.2 \/ ex_open_date x.2 = ex_open_date y.2 /\ x.1 <= y.1.
#[local] Instance by_opening_dec : RelDecision by_opening.
Proof. intros x y. unfold by_opening. apply _. Defined.

(** The exercises of a class, in the order of the archive. *)
Definition exported_exercises (offeringID : Z) (t : Tables) : list (Z * ExerciseRow) :=
  merge_sort by_opening (sorted_keys (fun x : Z * ExerciseRow => ex_offering x.2 = offeringID) (t_exercises t)).

Definition loadExerciseFileTypeExtensions (exerciseID : Z) : transfer (list string) :=
  ask (fun t => merge_sort collation (al_extension <$> allowed_languages collation exerciseID t)).

(** The cases with their files. *)
Definition loadExportTestCases (authoringID : Z) : transfer (list AuthoredCase) :=
  rows ← ask (rows_of_exercise authoringID);
  match rows with
  | [] => mret []
  | _ => ask (fun t => (fun x : Z * CaseRow => mk_authored x.1 x.2 [] (files_of_case x.1 t)) <$> rows)
  end.

Definition loadExerciseFilePaths (k : file_table) (exerciseID : Z) : transfer (list string) :=
  ask (fun t => FileBasename <$> merge_sort collation
         ((fun x : Z * (Z * string) => x.2.2) <$> sorted_keys (fun x : Z * (Z * string) => x.2.1 = exerciseID) (file_rows k t))).

Definition readFileObject (key : string) : transfer string :=
  object ← service (getObject fault files_bucket key);
  match object with
  | None => fail (ErrImportFailed None)
  | Some o =>
      data ← service (call fault (fun os => Some (os, ob_data o)));
      if maxImportFileBytes <? Z.of_nat (String.length data) then fail (Zip ErrArchiveTooLarge) else mret data
  end.

(** The files of a case, after [written]. *)
Fixpoint export_case_files (base : string) (caseID : Z) (written : list entry) (files : list (Z * string)) : transfer (list entry) :=
  match files with
  | [] => mret written
  | (_, path) :: rest =>
      content ← batch (readCaseObject fault (CaseFileKey caseID path));
      match content with
      | None => fail (Storage Batch.ObjectNotFound)
      | Some data =>
          written ← batch (writeZipEntry written (base +:+ "/files/" +:+ FileBasename path) data);
          export_case_files base caseID written rest
      end
  end.

Definition export_offering_case (overrides : gmap Z (gmap Z LimitOverrides)) (languages : list allowedLanguage) (base : string)
    (written : list entry) (c : AuthoredCase) : transfer (list entry * offeringArchiveTestCase) :=
  let row := at_row c in
  input ← batch (loadCaseObject fault (at_ID c) (ca_input_type row) (ca_input row) false);
  output ← batch (loadCaseObject fault (at_ID c) (ca_expected_type row) (ca_expected row) true);
  written ← batch (writeZipEntry written (base +:+ "/in") input);
  written ← batch (writeZipEntry written (base +:+ "/out") output);
  written ← export_case_files base (at_ID c) written (at_Files c);
  mret (written, mk_archive_case (ca_input row) (ca_input_type row) (ca_show_input row) (ca_expected row) (ca_expected_type row)
                   (ca_show_expected row) (ca_show_output row) (archiveLimits (default ∅ (overrides !! at_ID c)) languages)
                   0 0 0 0 ((fun x : Z * string => FileBasename x.2) <$> at_Files c)).

(** A loop over the archive written so far. *)
Fixpoint export_each {A B} (f : nat -> list entry -> A -> transfer (list entry * B)) (index : nat) (written : list entry) (l : list A) :
  transfer (list entry * list B) :=
  match l with
  | [] => mret (written, [])
  | x :: rest =>
      '(written, b) ← f index written x;
      '(written, bs) ← export_each f (S index) written rest;
      mret (written, b :: bs)
  end.

Definition export_file (index : nat) (k : file_table) (exerciseID : Z) (_ : nat) (written : list entry) (name : string) :
  transfer (list entry * string) :=
  content ← readFileObject (file_key k exerciseID name);
  written ← batch (writeZipEntry written (file_entry k index name) content);
  mret (written, name).

(** The languages, cases and limits of the exercise a ghost stands for, and the files
    of the exercise itself. *)
Definition export_exercise (index : nat) (written : list entry) (x : Z * ExerciseRow) : transfer (list entry * offeringArchiveExercise) :=
  let '(id, row) := x in
  let authoringID := owning_exercise id row in
  extensions ← loadExerciseFileTypeExtensions authoringID;
  cases ← loadExportTestCases authoringID;
  languages ← service (on_db (loadAllowedLanguages fault collation authoringID));
  caseOverrides ← service (on_db (loadCaseOverrides fault (at_ID <$> cases)));
  exerciseOverrides ← service (on_db (loadExerciseOverrides fault authoringID));
  '(written, exported) ← export_each (fun i => export_offering_case caseOverrides languages (case_base index i)) 0 written cases;
  compilationFiles ← loadExerciseFilePaths Compilation id;
  '(written, compilation) ← export_each (export_file index Compilation id) 0 written compilationFiles;
  attachedFiles ← loadExerciseFilePaths Attached id;
  '(written, attached) ← export_each (export_file index Attached id) 0 written attachedFiles;
  mret (written, mk_archive_exercise (ex_title row) (ex_description row) (ex_deadline row) (ex_open_date row) (ex_show_before row)
                   (ex_removed row) extensions (archiveLimits exerciseOverrides languages) exported compilation attached).

Definition archive_filename (offeringID : Z) : string := "turma-" +:+ fmt_int offeringID +:+ ".zip".

Definition write_archive (now : Z) (o : Classes.Offering) (offeringID : Z) : transfer (string * list entry) :=
  rows ← ask (exported_exercises offeringID);
  '(written, exercises) ← export_each export_exercise 0 [] rows;
  match marshal (mk_manifest offeringArchiveFormat offeringArchiveVersion now
           (mk_archive_offering (Classes.on_Name o) (Classes.on_Description o) (format_rfc3339 (Classes.on_EndDate o)) (Classes.on_Visible o))
           exercises) with
  | None => fail (Service ErrServer)
  | Some encoded =>
      written ← map_error (fun _ => Service ErrServer) (batch (writeZipEntry written "manifest.json" encoded));
      mret (archive_filename offeringID, written)
  end.

Definition ExportOfferingArchive (v : Classes.visit) (offeringID : Z) (claims : Claims) : tour (string * list entry) :=
  '(userID, role) ← on_site (service (on_db (lift (claimsUserID claims))));
  rel ← on_class (Classes.loadOfferingRelation fault v offeringID userID role);
  if negb (Classes.CanAuthor rel) then fail (Class_ Classes.ErrOfferingNotFound)
  else on_site (write_archive (Classes.vs_now v) (Classes.rl_Offering rel) offeringID).
End Exporting.
