(* ===== verification/TransferProofs.v ===== *)
(** * Importing a class is all or nothing

    [class_imported_or_nothing]: whatever fails, an import leaves the tables as they were,
    or creates the class with every exercise, case, limit and file of the archive. Every
    row it writes is new, so that what an earlier step wrote is still there at the end
    ([later]); every object it writes belongs to a row that is new. *)

From S2P Require Import Prelude Effects GoStrings GoPath Sql Catalog Limits LimitsProofs Objects Authoring AuthoringProofs.
From S2P Require Import Archive Exercises Transfer.
From S2P Require SubmissionProofs BatchProofs CommitDb.
Import Transfer(service, import_offering_case, import_exercise, import_file).
Import BatchProofs(segment, FileBasename_segment, FileBasename_idem).
Local Open Scope Z_scope.

Definition exercises_seq := "exercises".

(** ** Keys *)

Lemma file_key_inj2 k1 k2 id1 id2 n1 n2 : int64 id1 -> int64 id2 ->
  file_key k1 id1 n1 = file_key k2 id2 n2 -> k1 = k2 /\ id1 = id2 /\ FileBasename n1 = FileBasename n2.
Proof.
  intros H1 H2 H. assert (Hc : forall i1 i2 r1 r2, int64 i1 -> int64 i2 -> fmt_int i1 +:+ String "/" r1 = fmt_int i2 +:+ String "/" r2 -> i1 = i2 /\ r1 = r2).
  { intros i1 i2 r1 r2 Hi1 Hi2 E. assert (cut_byte "/" (fmt_int i1 +:+ String "/" r1) = Some (fmt_int i1, r1)) as E1 by by apply cut_byte_app, fmt_int_no_byte.
    rewrite E, cut_byte_app in E1 by by apply fmt_int_no_byte. injection E1 as Ef ->. split; [|done]. symmetry. by apply fmt_int_inj. }
  destruct k1, k2; cbn in H; try discriminate H; injection H as H; (apply Hc in H as [-> Hn]; [|done..]); done.
Qed.

Definition file_owned (id : Z) (k : string) : Prop := exists kd n, k = file_key kd id n.

Lemma file_owned_inj id1 id2 k : int64 id1 -> int64 id2 -> file_owned id1 k -> file_owned id2 k -> id1 = id2.
Proof. intros H1 H2 (k1 & n1 & ->) (k2 & n2 & E). by apply file_key_inj2 in E as (_ & ? & _). Qed.

(** The objects of the cases [C] and the files of the exercises [X]. *)
Definition at_ids (C X : Z -> Prop) (bk : string * string) : Prop :=
  (bk.1 = cases_bucket /\ exists id, int64 id /\ C id /\ owned id bk.2) \/
  (bk.1 = files_bucket /\ exists id, int64 id /\ X id /\ file_owned id bk.2).

Lemma at_ids_mono (C C' X X' : Z -> Prop) bk :
  (forall id, C id -> C' id) -> (forall id, X id -> X' id) -> at_ids C X bk -> at_ids C' X' bk.
Proof. intros HC HX [[? (id & ? & ? & ?)]|[? (id & ? & ? & ?)]]; [left|right]; (split; [done|]); exists id; auto. Qed.

Lemma at_ids_disjoint (C C' X X' : Z -> Prop) bk :
  (forall id, C id -> C' id -> False) -> (forall id, X id -> X' id -> False) -> at_ids C X bk -> at_ids C' X' bk -> False.
Proof.
  intros HC HX [[Eb (id & Hi & H & Ho)]|[Eb (id & Hi & H & Ho)]] [[Eb' (id' & Hi' & H' & Ho')]|[Eb' (id' & Hi' & H' & Ho')]];
    try (rewrite Eb in Eb'; discriminate Eb').
  - rewrite (owned_inj id id' _ Hi Hi' Ho Ho') in H. by eapply HC.
  - rewrite (file_owned_inj id id' _ Hi Hi' Ho Ho') in H. by eapply HX.
Qed.

(** ** Tables that only gain rows *)

Record grows (t t' : Tables) : Prop := {
  gr_offerings : t_offerings t ⊆ t_offerings t';
  gr_exercises : t_exercises t ⊆ t_exercises t';
  gr_allowed : t_allowed t ⊆ t_allowed t';
  gr_cases : t_cases t ⊆ t_cases t';
  gr_case_files : t_case_files t ⊆ t_case_files t';
  gr_exercise_limits : t_exercise_limits t ⊆ t_exercise_limits t';
  gr_case_limits : t_case_limits t ⊆ t_case_limits t';
  gr_files : forall k, file_rows k t ⊆ file_rows k t';
  gr_same : t_enrollments t' = t_enrollments t /\ t_languages t' = t_languages t /\ t_commits t' = t_commits t /\
    t_snapshot t' = t_snapshot t /\ t_results t' = t_results t
}.

Lemma grows_refl t : grows t t.
Proof. by split; [reflexivity..| |split_and!]. Qed.

Lemma grows_trans t1 t2 t3 : grows t1 t2 -> grows t2 t3 -> grows t1 t3.
Proof.
  intros [] []. split; [by etrans|by etrans|by etrans|by etrans|by etrans|by etrans|by etrans| |].
  - intros k. etrans; [apply gr_files0|apply gr_files1].
  - destruct gr_same0 as (? & ? & ? & ? & ?), gr_same1 as (? & ? & ? & ? & ?). split_and!; congruence.
Qed.

(** Every row that is not of [t0] belongs to the class [off] or to something new. *)
Record only_new (t0 : Tables) (off : Z) (t : Tables) : Prop := {
  on_offerings : forall id r, t_offerings t !! id = Some r -> t_offerings t0 !! id = Some r \/ t_offerings t0 !! id = None /\ id = off;
  on_exercises : forall id r, t_exercises t !! id = Some r -> t_exercises t0 !! id = Some r \/ t_exercises t0 !! id = None /\ ex_offering r = off;
  on_allowed : forall e l, (e, l) ∈ t_allowed t -> (e, l) ∈ t_allowed t0 \/ t_exercises t0 !! e = None;
  on_cases : forall id r, t_cases t !! id = Some r -> t_cases t0 !! id = Some r \/ t_cases t0 !! id = None /\ t_exercises t0 !! ca_exercise r = None;
  on_case_files : forall f x, t_case_files t !! f = Some x -> t_case_files t0 !! f = Some x \/ t_cases t0 !! x.1 = None;
  on_exercise_limits : forall k o, t_exercise_limits t !! k = Some o -> t_exercise_limits t0 !! k = Some o \/ t_exercises t0 !! k.1 = None;
  on_case_limits : forall k o, t_case_limits t !! k = Some o -> t_case_limits t0 !! k = Some o \/ t_cases t0 !! k.1 = None;
  on_files : forall k f x, file_rows k t !! f = Some x -> file_rows k t0 !! f = Some x \/ t_exercises t0 !! x.1 = None
}.

Lemma only_new_refl t off : only_new t off t.
Proof. split; intros; by left. Qed.

(** One statement of the import. *)
Definition adds (t0 : Tables) (off : Z) (t t' : Tables) : Prop := grows t t' /\ (only_new t0 off t -> only_new t0 off t').

Lemma adds_refl t0 off t : adds t0 off t t.
Proof. split; [apply grows_refl|done]. Qed.
Lemma adds_trans t0 off t1 t2 t3 : adds t0 off t1 t2 -> adds t0 off t2 t3 -> adds t0 off t1 t3.
Proof. intros [] []. split; [by eapply grows_trans|auto]. Qed.

(** Insertions: a new key, or one more element. *)
Ltac adds_insert :=
  split; [split; cbn; first [reflexivity | by apply insert_subseteq | apply union_subseteq_r | by intros [] | by split_and!]|];
  intros []; split; cbn; try assumption.

Lemma insert_case_adds t0 off id row t t' :
  t_cases t0 ⊆ t_cases t -> t_exercises t0 !! ca_exercise row = None -> insert_case id row t = Some t' -> adds t0 off t t' /\ t_cases t0 !! id = None.
Proof.
  intros H0 Hx H. unfold insert_case in H. destruct (_ && _) eqn:E; [|done]. apply andb_true_iff in E as [_ E%bool_decide_eq_true].
  injection H as <-. assert (t_cases t0 !! id = None) by by eapply lookup_weaken_None. split; [|done]. adds_insert.
  intros i r [[<- <-]|[_ ?]]%lookup_insert_Some; auto.
Qed.

Lemma insert_case_file_adds t0 off f id path t t' :
  t_cases t0 !! id = None -> insert_case_file f id path t = Some t' -> adds t0 off t t' /\ t_case_files t' !! f = Some (id, path).
Proof.
  intros Hx H. unfold insert_case_file in H. destruct (_ && _) eqn:E; [|done]. apply andb_true_iff in E as [_ E%bool_decide_eq_true].
  injection H as <-. split; [|apply lookup_insert_eq]. adds_insert. intros i x [[<- <-]|[_ ?]]%lookup_insert_Some; auto.
Qed.

Lemma insert_exercise_adds t0 off id row t t' :
  t_exercises t0 ⊆ t_exercises t -> ex_offering row = off -> insert_exercise id row t = Some t' ->
  adds t0 off t t' /\ t_exercises t0 !! id = None /\ t_exercises t' !! id = Some row.
Proof.
  intros H0 Hx H. unfold insert_exercise in H. destruct (_ && _) eqn:E; [|done].
  apply andb_true_iff in E as [[[_ E%bool_decide_eq_true]%andb_true_iff _]%andb_true_iff _].
  injection H as <-. assert (t_exercises t0 !! id = None) by by eapply lookup_weaken_None. split; [|split; [done|apply lookup_insert_eq]]. adds_insert.
  intros i r [[<- <-]|[_ ?]]%lookup_insert_Some; auto.
Qed.

Lemma insert_allowed_adds t0 off e l t t' :
  t_exercises t0 !! e = None -> insert_allowed e l t = Some t' -> adds t0 off t t' /\ (e, l) ∈ t_allowed t'.
Proof.
  intros Hx H. unfold insert_allowed in H. destruct (_ && _) eqn:E; [|done]. injection H as <-. split; [|cbn; set_solver]. adds_insert.
  intros e' l' [[= -> ->]%elem_of_singleton|?]%elem_of_union; auto.
Qed.

Lemma insert_exercise_file_adds t0 off k f e path t t' :
  t_exercises t0 !! e = None -> insert_exercise_file k f e path t = Some t' -> adds t0 off t t' /\ file_rows k t' !! f = Some (e, path).
Proof.
  intros Hx H. unfold insert_exercise_file in H. destruct (_ && _) eqn:E; [|done]. apply andb_true_iff in E as [_ E%bool_decide_eq_true].
  injection H as <-. split; [|destruct k; apply lookup_insert_eq]. destruct k; cbn in *.
  - split; [split; cbn; try done; intros []; cbn; [by apply insert_subseteq|done]|]. intros []. split; cbn; try done.
    intros [] i x; cbn; [|apply (on_files0 Attached)]. intros [[<- <-]|[_ ?]]%lookup_insert_Some; [by right|by apply (on_files0 Compilation)].
  - split; [split; cbn; try done; intros []; cbn; [done|by apply insert_subseteq]|]. intros []. split; cbn; try done.
    intros [] i x; cbn; [apply (on_files0 Compilation)|]. intros [[<- <-]|[_ ?]]%lookup_insert_Some; [by right|by apply (on_files0 Attached)].
Qed.

Lemma insert_override_some owner l o owned languages m m' :
  insert_override owner l o owned languages m = Some m' -> m !! (owner, l) = None /\ m' = <[(owner, l) := o]> m.
Proof.
  unfold insert_override. destruct (_ && _) eqn:E; [|done]. apply andb_true_iff in E as [_ E%bool_decide_eq_true]. by intros [= <-].
Qed.

(** The rows of one owner's limits. *)
Definition limits_there (owner : Z) (entries : list LanguageLimits) (m : gmap (Z * Z) LimitOverrides) : Prop :=
  forall e, e ∈ entries -> Empty (ll_overrides e) = false -> m !! (owner, ll_id e) = Some (ll_overrides e).

(** Both services that insert limits. *)
Section InsertLimits.
Context (fault : nat -> bool) (t0 : Tables) (off owner : Z).
Context (get : Tables -> gmap (Z * Z) LimitOverrides) (set : gmap (Z * Z) LimitOverrides -> Tables -> Tables).
Context (owned : Tables -> bool).
Context (get_set : forall m t, get (set m t) = m).
Context (set_adds : forall t l o, get t !! (owner, l) = None -> adds t0 off t (set (<[(owner, l) := o]> (get t)) t)).

Definition insert_limits (entries : list LanguageLimits) : svc unit :=
  each (fun e =>
    if Empty (ll_overrides e) then mret tt
    else exec fault ErrServer (fun t =>
      (fun m => set m t) <$> insert_override owner (ll_id e) (ll_overrides e) (owned t) (t_languages t) (get t))) entries.

Lemma insert_limits_step e t t' r :
  runs (if Empty (ll_overrides e) then mret tt
        else exec fault ErrServer (fun t =>
          (fun m => set m t) <$> insert_override owner (ll_id e) (ll_overrides e) (owned t) (t_languages t) (get t))) t t' r ->
  adds t0 off t t' /\ get t ⊆ get t' /\
  (r = Ok tt -> Empty (ll_overrides e) = false -> get t' !! (owner, ll_id e) = Some (ll_overrides e)).
Proof using get_set set_adds.
  intros H. destruct (Empty _); [apply runs_ret in H as [-> _]; by split; [apply adds_refl|]|].
  apply runs_exec in H as [[-> ->]|[E ->]]; [by split; [apply adds_refl|]|].
  destruct (insert_override _ _ _ _ _ _) as [m|] eqn:Eo; [|done]. injection E as <-. apply insert_override_some in Eo as [Hn ->].
  split; [by apply set_adds|]. rewrite get_set. split; [by apply insert_subseteq|]. by rewrite lookup_insert_eq.
Qed.

Lemma insert_limits_runs entries : forall t t' r, runs (insert_limits entries) t t' r ->
  adds t0 off t t' /\ get t ⊆ get t' /\ (r = Ok tt -> limits_there owner entries (get t')).
Proof using get_set set_adds.
  induction entries as [|e entries IH]; intros t t' r H; unfold insert_limits in *; cbn [each] in H.
  { apply runs_ret in H as [-> _]. split_and!; [apply adds_refl|done|]. by intros _ e He%elem_of_nil. }
  apply runs_bind in H as [(er & H & ->)|(t1 & [] & H1 & H)].
  - apply insert_limits_step in H as (? & ? & _). by split_and!.
  - apply insert_limits_step in H1 as (A1 & S1 & L1). apply IH in H as (A2 & S2 & L2). split_and!; [by eapply adds_trans|by etrans|].
    intros Hr x [->|Hx]%elem_of_cons Hne; [eapply lookup_weaken; [by apply L1|done]|by apply L2].
Qed.
End InsertLimits.

Lemma InsertTestCaseLanguageLimits_adds fault t0 off id entries t t' r :
  t_cases t0 !! id = None -> runs (InsertTestCaseLanguageLimits fault id entries) t t' r ->
  adds t0 off t t' /\ (r = Ok tt -> limits_there id entries (t_case_limits t')).
Proof.
  intros Hn H. eapply (insert_limits_runs fault t0 off id t_case_limits (fun m t => t <| t_case_limits := m |>)) in H as (? & _ & ?); [by split|done|].
  clear - Hn. intros t l o E. adds_insert. intros k x [[<- <-]|[_ ?]]%lookup_insert_Some; auto.
Qed.

Lemma InsertExerciseLanguageLimits_adds fault t0 off id entries t t' r :
  t_exercises t0 !! id = None -> runs (InsertExerciseLanguageLimits fault id entries) t t' r ->
  adds t0 off t t' /\ (r = Ok tt -> limits_there id entries (t_exercise_limits t')).
Proof.
  intros Hn H. eapply (insert_limits_runs fault t0 off id t_exercise_limits (fun m t => t <| t_exercise_limits := m |>)) in H as (? & _ & ?); [by split|done|].
  clear - Hn. intros t l o E. adds_insert. intros k x [[<- <-]|[_ ?]]%lookup_insert_Some; auto.
Qed.

(** ** The open import *)

(** The sequences of an [int] column. *)
Definition sequences (w : world) : Prop := forall s, 0 < next_value w s <= 2 ^ 31.

(** The keys of cases and exercises that are not there in [ws]. *)
Definition new_key (ws : world) : string * string -> Prop :=
  at_ids (fun id => next_value ws cases_seq <= id) (fun id => next_value ws exercises_seq <= id).

Record inside (ws : world) (off : Z) (w : world) : Prop := {
  in_saved : w_saved w = Some (w_tables ws);
  in_objects : forall bk, ~ new_key ws bk -> w_objects w !! bk = w_objects ws !! bk;
  in_sequences : sequences w;
  in_next : forall s, next_value ws s <= next_value w s;
  in_grows : grows (w_tables ws) (w_tables w);
  in_rows : only_new (w_tables ws) off (w_tables w)
}.

(** Rows stay there, and the objects [P]. *)
Record later (P : string * string -> Prop) (w w' : world) : Prop := {
  la_grows : grows (w_tables w) (w_tables w');
  la_objects : forall bk, P bk -> w_objects w' !! bk = w_objects w !! bk;
  la_next : forall s, next_value w s <= next_value w' s
}.

Lemma later_refl P w : later P w w.
Proof. split; [apply grows_refl|done|reflexivity]. Qed.

Lemma later_trans P w1 w2 w3 : later P w1 w2 -> later P w2 w3 -> later P w1 w3.
Proof.
  intros [G1 O1 N1] [G2 O2 N2]. split; [by eapply grows_trans| |intros s; specialize (N1 s); specialize (N2 s); lia].
  intros bk Hbk. rewrite O2 by done. by apply O1.
Qed.

Lemma later_weaken (P P' : string * string -> Prop) w w' : (forall bk, P bk -> P' bk) -> later P' w w' -> later P w w'.
Proof. intros H []. split; auto. Qed.

(** The objects of every case and exercise there is. *)
Definition present (w : world) : string * string -> Prop :=
  at_ids (fun id => id < next_value w cases_seq) (fun id => id < next_value w exercises_seq).

Lemma present_later P w w' bk : later P w w' -> present w bk -> present w' bk.
Proof. intros [_ _ N]. pose proof (N cases_seq). pose proof (N exercises_seq). apply at_ids_mono; intros; lia. Qed.

Section Steps.
Context {UT : UnicodeTables} (fault : nat -> bool) (ws : world) (off : Z).

Local Abbreviation inside := (inside ws off).
Local Abbreviation t0 := (w_tables ws).

Definition tagged_new (s : string) : Prop :=
  exists k, (s = "case:" +:+ k /\ new_key ws (cases_bucket, k)) \/ (s = "file:" +:+ k /\ new_key ws (files_bucket, k)).

Definition good (j : job_state) : Prop := inside (jb_world j) /\ Forall tagged_new (jb_uploaded j).

(** [m] keeps what is there, and ends in [Q] if it ends well. *)
Definition goes {A} (P : string * string -> Prop) (m : job A) (j : job_state) (Q : A -> job_state -> Prop) : Prop :=
  wp m (fun a j' => good j' /\ later P (jb_world j) (jb_world j') /\ Q a j') (fun _ j' => good j') j.

Lemma goes_ret {A} P (a : A) j (Q : A -> job_state -> Prop) : good j -> Q a j -> goes P (mret a) j Q.
Proof. intros Hg HQ. split_and!; [done|apply later_refl|done]. Qed.

Lemma goes_lift {A} P (r : res transfer_error A) j (Q : A -> job_state -> Prop) :
  good j -> (forall a, r = Ok a -> Q a j) -> goes P (lift r) j Q.
Proof. intros Hg HQ. unfold goes. apply wp_lift. destruct r; [|done]. split_and!; [done|apply later_refl|by apply HQ]. Qed.

Lemma goes_fail {A} P e j (Q : A -> job_state -> Prop) : good j -> goes P (fail e) j Q.
Proof. done. Qed.

Lemma goes_bind {A B} P (m : job A) (k : A -> job B) j Q R :
  goes P m j Q ->
  (forall a j1, good j1 -> later P (jb_world j) (jb_world j1) -> Q a j1 -> goes P (k a) j1 R) -> goes P (m ≫= k) j R.
Proof.
  intros Hm Hk. apply wp_bind. eapply wp_mono; [exact Hm| |done]. intros a j1 (Hg & Hl & HQ).
  eapply wp_mono; [by apply Hk| |done]. intros b j2 (Hg2 & Hl2 & HR). split_and!; [done|by eapply later_trans|done].
Qed.

Lemma goes_mono {A} P (m : job A) j (Q R : A -> job_state -> Prop) :
  goes P m j Q -> (forall a j', good j' -> later P (jb_world j) (jb_world j') -> Q a j' -> R a j') -> goes P m j R.
Proof. intros Hm H. eapply wp_mono; [exact Hm| |done]. intros a j' (? & ? & ?). split_and!; auto. Qed.

Lemma goes_weaken {A} (P P' : string * string -> Prop) (m : job A) j Q :
  (forall bk, P bk -> P' bk) -> goes P' m j Q -> goes P m j Q.
Proof. intros H Hm. eapply wp_mono; [exact Hm| |done]. intros a j' (? & ? & ?). split_and!; [done|by eapply later_weaken|done]. Qed.

Lemma inside_tables w t n : inside w -> adds t0 off (w_tables w) t -> inside (w <| w_conn := mk_conn t n |>).
Proof. intros [] [Hg Hn]. split; try done; cbn; [by eapply grows_trans|by apply Hn]. Qed.

Lemma later_tables P w t n : grows (w_tables w) t -> later P w (w <| w_conn := mk_conn t n |>).
Proof. intros H. split; [done|done|reflexivity]. Qed.

Lemma inside_sent w : inside w -> inside (sent w).
Proof. intros []. by split. Qed.

(** A statement or a group of them. *)
Lemma goes_svc {A} P (m : svc A) j (Q : A -> job_state -> Prop) :
  good j ->
  (forall t r, runs m (w_tables (jb_world j)) t r ->
     adds t0 off (w_tables (jb_world j)) t /\ forall a, r = Ok a -> forall n, Q a (j <| jb_world := (jb_world j) <| w_conn := mk_conn t n |> |>)) ->
  goes P (on_world (on_db m)) j Q.
Proof.
  intros [Hi Hu] H. destruct j as [w up]. cbn in *. unfold goes, wp, on_world, on_db. cbn.
  destruct (m (w_conn w)) as [[t n] r] eqn:E. destruct (H t r) as [Ha HQ]; [destruct w as [[t1 n1] sv os nx]; by exists n1, n|].
  assert (inside (w <| w_conn := mk_conn t n |>)) by by apply inside_tables.
  destruct r as [a|e]; [|done]. split_and!; [done|apply later_tables, Ha|by apply HQ].
Qed.

Lemma next_value_bump w s s' : next_value (w <| w_next := <[s := next_value w s + 1]> (w_next w) |>) s' = if decide (s = s') then next_value w s + 1 else next_value w s'.
Proof. unfold next_value at 1. cbn. rewrite lookup_insert. by case_decide. Qed.

(** A row under a fresh identity. *)
Lemma wp_fresh_row {A} P s f (k : Z -> A) w (Q : A -> world -> Prop) :
  inside w ->
  (forall id t, id = next_value w s -> id < 2 ^ 31 -> f id (w_tables w) = Some t ->
     adds t0 off (w_tables w) t /\
     forall w', w_tables w' = t -> w_objects w' = w_objects w -> next_value w' s = id + 1 ->
       (forall s', s' <> s -> next_value w' s' = next_value w s') -> Q (k id) w') ->
  wp (insert_row fault s f (fun id => mret (k id))) (fun a w' => inside w' /\ later P w w' /\ Q a w') (fun _ w' => inside w') w.
Proof.
  intros Hi H. unfold insert_row. apply wp_bind, wp_next_id; [|done]. intros Hlt. set (w1 := w <| w_next := _ |>).
  assert (Hi1 : inside w1).
  { destruct Hi. split; try done; intros s'; unfold w1; rewrite next_value_bump; case_decide; subst; try apply in_sequences0; try apply in_next0.
    - specialize (in_sequences0 s'). lia.
    - specialize (in_next0 s'). lia. }
  apply wp_bind, wp_exec; [intros _; by apply inside_sent|]. change (w_tables w1) with (w_tables w).
  destruct (f _ _) as [t|] eqn:Ef; [|by apply inside_sent]. destruct (H _ t eq_refl Hlt Ef) as [Ha HQ]. apply wp_ret. split_and!.
  - apply inside_tables; [by apply inside_sent|done].
  - split; [by apply Ha|done|]. intros s'. change (next_value w s' <= next_value w1 s'). unfold w1. rewrite next_value_bump. case_decide; [subst; lia|done].
  - apply HQ; [done|done| |].
    + change (next_value w1 s = next_value w s + 1). unfold w1. rewrite next_value_bump. by case_decide.
    + intros s' Hs. change (next_value w1 s' = next_value w s'). unfold w1. rewrite next_value_bump. by case_decide.
Qed.

Lemma goes_insert_row {A} P s f (k : Z -> A) j (Q : A -> job_state -> Prop) :
  good j ->
  (forall id t, id = next_value (jb_world j) s -> id < 2 ^ 31 -> f id (w_tables (jb_world j)) = Some t ->
     adds t0 off (w_tables (jb_world j)) t /\
     forall w, w_tables w = t -> w_objects w = w_objects (jb_world j) -> next_value w s = id + 1 ->
       (forall s', s' <> s -> next_value w s' = next_value (jb_world j) s') -> Q (k id) (j <| jb_world := w |>)) ->
  goes P (on_world (insert_row fault s f (fun id => mret (k id)))) j Q.
Proof.
  intros [Hi Hu] H. pose proof (wp_fresh_row P s f k _ (fun a w => Q a (j <| jb_world := w |>)) Hi H) as Hwp.
  destruct j as [w up]. unfold goes, on_world, wp in *. cbn in *.
  destruct (insert_row _ _ _ _ _) as [w' [a|e]]; cbn; [destruct Hwp as (? & ? & ?); by split_and!|done].
Qed.

(** An object under a new key. *)
Lemma goes_put P tag b k o j :
  good j -> tagged_new (tag +:+ k) -> new_key ws (b, k) -> ~ P (b, k) ->
  goes P (_ ← on_world (put_object fault b k o); modify (fun j => j <| jb_uploaded := jb_uploaded j ++ [tag +:+ k] |>)) j
    (fun _ j' => w_tables (jb_world j') = w_tables (jb_world j) /\ w_objects (jb_world j') !! (b, k) = Some (typed o)).
Proof.
  intros [Hi Hu] Ht Hn HP. destruct j as [w up]. cbn in *. unfold goes, wp, mbind, eff_bind, on_world, put_object, call, modify. cbn.
  destruct (fault (w_sent w)); cbn; [split; [by apply inside_sent|done]|]. split_and!.
  - split; cbn; [|apply Forall_app; split; [done|]; by constructor].
    destruct Hi. split; try done. cbn. intros bk Hbk. rewrite lookup_insert_ne; [auto|]. by intros <-.
  - split; [apply grows_refl| |reflexivity]. intros bk Hbk. cbn. rewrite lookup_insert_ne; [done|]. by intros <-.
  - done.
  - cbn. apply lookup_insert_eq.
Qed.

(** Files one after the other, each under its own key. *)
Lemma goes_each {A} (key : A -> string * string) (F : A -> world -> Prop) (f : A -> job unit) l :
  (forall x P j, x ∈ l -> good j -> ~ P (key x) -> goes P (f x) j (fun _ j' => F x (jb_world j'))) ->
  (forall x P w w', P (key x) -> later P w w' -> F x w -> F x w') ->
  NoDup (key <$> l) ->
  forall P j, good j -> (forall x, x ∈ l -> ~ P (key x)) -> goes P (each f l) j (fun _ j' => forall x, x ∈ l -> F x (jb_world j')).
Proof.
  induction l as [|x l IH]; intros Hf HF Hnd P j Hj HP; cbn [each]; [apply goes_ret; [done|by intros x ?%elem_of_nil]|].
  apply NoDup_cons in Hnd as [Hx Hnd]. eapply goes_bind; [apply Hf; [left|done|apply HP; left]|]. intros u j1 Hj1 _ HFx. cbn beta in HFx.
  apply (goes_weaken _ (fun bk => P bk \/ bk = key x)); [by left|]. eapply goes_mono.
  - apply IH; [intros y ? ? Hy; apply Hf; by right|done|done|done|]. intros y Hy Hk. cbn beta in Hk. destruct Hk as [Hyp|Hyk].
    + eapply HP; [by right|done].
    + apply Hx. rewrite <- Hyk. by apply list_elem_of_fmap_2.
  - cbn beta. intros [] j2 _ Hl Hr y [->|Hy]%elem_of_cons; [|by apply Hr]. eapply HF; [|exact Hl|done]. by right.
Qed.
End Steps.

(** ** What an import leaves of an archive *)

(** The elements of a list with their positions. *)
Definition indexed {A} (i : nat) (l : list A) : list (nat * A) := zip (seq i (length l)) l.

Section Copied.
Context {UT : UnicodeTables} (entries : gmap string zip_file).

Definition case_file_copied (base : string) (id : Z) (name : string) (w : world) : Prop :=
  exists data f, read entries (base +:+ "/files/" +:+ name) = Ok data /\ has (w_objects w) (CaseFileKey id name) data /\
    t_case_files (w_tables w) !! f = Some (id, name).

(** A case of the archive is the case [id] of the exercise [eid]. *)
Record case_copied (eid : Z) (types : list LanguageLimits) (base : string) (c : offeringArchiveTestCase) (id : Z) (w : world) : Prop := {
  cc_id : int64 id /\ id < next_value w cases_seq;
  cc_row : t_cases (w_tables w) !! id = Some (imported_row eid c);
  cc_limits : exists limits, archiveCaseLimits c types = Ok limits /\ limits_there id limits (t_case_limits (w_tables w));
  cc_input : exists data, read entries (base +:+ "/in") = Ok data /\ has (w_objects w) (CaseInputKey id) data;
  cc_output : exists data, read entries (base +:+ "/out") = Ok data /\ has (w_objects w) (CaseOutputKey id) data;
  cc_files : forall name, name ∈ tc_Files c -> case_file_copied base id name w
}.

Definition has_file (os : objects) (key data : string) : Prop := exists o, os !! (files_bucket, key) = Some o /\ ob_data o = data.

(** A file of the exercise. *)
Definition file_copied (index : nat) (eid : Z) (k : file_table) (name : string) (w : world) : Prop :=
  exists data f, read entries (file_entry k index name) = Ok data /\ has_file (w_objects w) (file_key k eid name) data /\
    file_rows k (w_tables w) !! f = Some (eid, name).

(** The languages of the exercise. *)
Definition types_copied (allowedTypes : gmap string Z) (eid : Z) (extensions : list string) (types : list LanguageLimits) (t : Tables) : Prop :=
  Forall2 (fun extension l => allowedTypes !! to_lower extension = Some (ll_id l) /\ ll_extension l = extension /\
             (eid, ll_id l) ∈ t_allowed t) extensions types.

(** An exercise of the archive is the exercise [eid], with its dates shifted. *)
Record exercise_copied (allowedTypes : gmap string Z) (off shift : Z) (index : nat) (e : offeringArchiveExercise) (eid : Z) (w : world) : Prop := {
  xc_id : int64 eid /\ eid < next_value w exercises_seq;
  xc_row : t_exercises (w_tables w) !! eid = Some (shifted_row off shift e);
  xc_rest : exists types limits ids,
    types_copied allowedTypes eid (te_Extensions e) types (w_tables w) /\
    archiveLimitsByExtension (te_Limits e) types = Ok limits /\ limits_there eid limits (t_exercise_limits (w_tables w)) /\
    NoDup ids /\ Forall2 (fun p id => case_copied eid types (case_base index p.1) p.2 id w) (indexed 0 (te_TestCases e)) ids;
  xc_compilation : forall name, name ∈ te_CompilationFiles e -> file_copied index eid Compilation name w;
  xc_attached : forall name, name ∈ te_AttachedFiles e -> file_copied index eid Attached name w
}.

Lemma has_later P w w' k data : P (cases_bucket, k) -> later P w w' -> has (w_objects w) k data -> has (w_objects w') k data.
Proof. intros HP [_ Ho _] (o & E & Hd). exists o. by rewrite Ho. Qed.

Lemma has_file_later P w w' k data : P (files_bucket, k) -> later P w w' -> has_file (w_objects w) k data -> has_file (w_objects w') k data.
Proof. intros HP [_ Ho _] (o & E & Hd). exists o. by rewrite Ho. Qed.

Lemma case_file_copied_later P base id name w w' :
  P (cases_bucket, CaseFileKey id name) -> later P w w' -> case_file_copied base id name w -> case_file_copied base id name w'.
Proof.
  intros HP Hl (data & f & Hr & Hh & Hf). exists data, f. split_and!; [done|by eapply has_later|]. eapply lookup_weaken; [done|apply Hl].
Qed.

Lemma file_copied_later P index eid k name w w' :
  P (files_bucket, file_key k eid name) -> later P w w' -> file_copied index eid k name w -> file_copied index eid k name w'.
Proof.
  intros HP Hl (data & f & Hr & Hh & Hf). exists data, f. split_and!; [done|by eapply has_file_later|]. eapply lookup_weaken; [done|apply Hl].
Qed.

Lemma limits_there_later owner limits m m' : m ⊆ m' -> limits_there owner limits m -> limits_there owner limits m'.
Proof. intros H Hl e He Hne. eapply lookup_weaken; [by apply Hl|done]. Qed.

Lemma present_case w id k : int64 id -> id < next_value w cases_seq -> owned id k -> present w (cases_bucket, k).
Proof. intros Hi Hlt Ho. left. split; [done|]. by exists id. Qed.

Lemma present_file w id k n : int64 id -> id < next_value w exercises_seq -> present w (files_bucket, file_key k id n).
Proof. intros Hi Hlt. right. split; [done|]. exists id. split_and!; [done|done|by exists k, n]. Qed.

Lemma case_copied_later P eid types base c id w w' :
  (forall k, owned id k -> P (cases_bucket, k)) -> later P w w' -> case_copied eid types base c id w -> case_copied eid types base c id w'.
Proof.
  intros HP Hl [[Hi Hlt] Hr (ls & Hls & Hlt') (i & Hi1 & Hi2) (o & Ho1 & Ho2) Hf]. pose proof (la_next _ _ _ Hl cases_seq). split.
  - split; [done|lia].
  - eapply lookup_weaken; [done|apply Hl].
  - exists ls. split; [done|]. eapply limits_there_later; [|done]. apply Hl.
  - exists i. split; [done|]. eapply has_later; [apply HP, owned_input|done..].
  - exists o. split; [done|]. eapply has_later; [apply HP, owned_output|done..].
  - intros name Hn. eapply case_file_copied_later; [apply HP, owned_file|done|by apply Hf].
Qed.

Lemma types_copied_later allowedTypes eid exts types t t' :
  grows t t' -> types_copied allowedTypes eid exts types t -> types_copied allowedTypes eid exts types t'.
Proof. intros [] H. eapply Forall2_impl; [exact H|]. cbn. intros x l (? & ? & ?). split_and!; [done|done|by apply gr_allowed0]. Qed.

Lemma exercise_copied_later allowedTypes off shift index e eid w w' :
  later (present w) w w' -> exercise_copied allowedTypes off shift index e eid w -> exercise_copied allowedTypes off shift index e eid w'.
Proof.
  intros Hl [[Hi Hlt] Hr (types & limits & ids & Ht & Hls & Hlm & Hnd & Hc) Hcf Haf]. pose proof (la_next _ _ _ Hl exercises_seq). split.
  - split; [done|lia].
  - eapply lookup_weaken; [done|apply Hl].
  - exists types, limits, ids. split_and!; [eapply types_copied_later; [apply Hl|done]|done| |done|].
    + eapply limits_there_later; [|done]. apply Hl.
    + eapply Forall2_impl; [exact Hc|]. intros p id Hp. eapply case_copied_later; [|exact Hl|exact Hp].
      intros k. apply present_case; apply Hp.
  - intros name Hn. eapply file_copied_later; [|exact Hl|by apply Hcf]. by apply (present_file _ _ Compilation).
  - intros name Hn. eapply file_copied_later; [|exact Hl|by apply Haf]. by apply (present_file _ _ Attached).
Qed.
End Copied.

Section Importing.
Context {UT : UnicodeTables} {MF : Manifests} (fault : nat -> bool) (users : gmap Z Accounts.UserRow) (ws : world) (off : Z).
Context (entries : gmap string zip_file) (allowedTypes : gmap string Z) (shift : Z).

Local Abbreviation t0 := (w_tables ws).
Local Abbreviation good := (good ws off).
Local Abbreviation goes := (goes ws off).

Lemma has_typed os k data ty o : os !! (cases_bucket, k) = Some (typed o) -> o = mk_object data ty -> has os k data.
Proof. intros E ->. exists (typed (mk_object data ty)). split; [done|]. unfold typed. by destruct (String.eqb _ _). Qed.

(** A loop that gives every element an identity. *)
Lemma goes_indexed {A} s (G : nat -> A -> Z -> world -> Prop) (f : nat -> A -> job unit) :
  (forall i x id w w', later (present w) w w' -> G i x id w -> G i x id w') ->
  forall l i j,
  (forall i x j, x ∈ l -> good j ->
     goes (present (jb_world j)) (f i x) j (fun _ j' => exists id, next_value (jb_world j) s <= id < next_value (jb_world j') s /\ G i x id (jb_world j'))) ->
  good j ->
  goes (present (jb_world j)) (each_indexed f i l) j (fun _ j' => exists ids,
    NoDup ids /\ Forall (fun id => next_value (jb_world j) s <= id) ids /\
    Forall2 (fun p id => G p.1 p.2 id (jb_world j')) (indexed i l) ids).
Proof.
  intros HG l. induction l as [|x l IH]; intros i j Hf Hj; cbn [each_indexed].
  { apply goes_ret; [done|]. exists []. by repeat constructor. }
  eapply goes_bind; [apply Hf; [left|done]|]. intros u j1 Hj1 Hl1 (id & Hid & HGx).
  apply (goes_weaken _ _ _ (present (jb_world j1))); [by intros bk; eapply present_later|].
  eapply goes_mono; [apply IH; [intros i' y j' Hy; apply Hf; by right|done]|]. intros u' j2 _ Hl2 (ids & Hnd & Hge & Hall).
  exists (id :: ids). split_and!.
  - constructor; [|done]. intros Hin. rewrite Forall_forall in Hge. apply Hge in Hin. lia.
  - constructor; [lia|]. eapply Forall_impl; [exact Hge|]. cbn. lia.
  - unfold indexed. cbn. constructor; [|exact Hall]. by eapply HG.
Qed.

Lemma import_case_file_goes base id name P j :
  good j -> int64 id -> next_value ws cases_seq <= id -> t_cases t0 !! id = None -> ~ P (cases_bucket, CaseFileKey id name) ->
  goes P (import_case_file fault entries base id name) j (fun _ j' => case_file_copied entries base id name (jb_world j')).
Proof.
  intros Hj Hi Hge Hn HP. unfold import_case_file. eapply goes_bind; [apply (goes_lift _ _ _ _ j (fun a _ => read entries (base +:+ "/files/" +:+ name) = Ok a)); auto|].
  intros data j1 Hj1 _ Hd.
  assert (Hnew : new_key ws (cases_bucket, CaseFileKey id name)) by (left; split; [done|]; exists id; split_and!; [done|done|apply owned_file]).
  eapply goes_bind; [apply (goes_put fault ws off P "case:"); [done| |done|done]|].
  { exists (CaseFileKey id name). by left. }
  intros u j2 Hj2 _ [_ Ho]. apply (goes_insert_row fault ws off P _ _ (fun _ => tt)); [done|].
  intros f t -> _ Ef. destruct (insert_case_file_adds t0 off _ _ _ _ _ Hn Ef) as [Ha Hf]. split; [done|].
  intros w Ht Ho' _ _. exists data, (next_value (jb_world j2) files_seq). split_and!; [done| |by cbn; rewrite Ht].
  cbn. rewrite Ho'. by eapply has_typed.
Qed.

Lemma upload_case_goes P k content ty j :
  good j -> new_key ws (cases_bucket, k) -> ~ P (cases_bucket, k) ->
  goes P (uploadCase fault k content ty) j (fun _ j' => w_tables (jb_world j') = w_tables (jb_world j) /\ has (w_objects (jb_world j')) k content).
Proof.
  intros Hj Hn HP. eapply goes_mono; [apply (goes_put fault ws off P "case:"); [done| |done|done]|].
  - exists k. by left.
  - cbn. intros u j' _ _ [Ht Ho]. split; [done|]. by eapply has_typed.
Qed.

Lemma import_case_goes eid types base c j :
  good j -> t_exercises t0 !! eid = None -> NoDup (FileBasename <$> tc_Files c) ->
  goes (present (jb_world j)) (import_offering_case fault entries eid types base c) j (fun _ j' => exists id,
    next_value (jb_world j) cases_seq <= id < next_value (jb_world j') cases_seq /\
    case_copied entries eid types base c id (jb_world j')).
Proof.
  intros Hj Hx Hnd. unfold import_offering_case. set (P := present (jb_world j)).
  eapply goes_bind; [apply (goes_lift _ _ _ _ j (fun a _ => read entries (base +:+ "/in") = Ok a)); auto|]. intros input j1 Hj1 L1 Hin.
  eapply goes_bind; [apply (goes_lift _ _ _ _ j1 (fun a _ => read entries (base +:+ "/out") = Ok a)); auto|]. intros output j2 Hj2 L2 Hout.
  eapply goes_bind; [apply (goes_insert_row fault ws off P _ _ (fun id => id) j2 (fun id j3 => id = next_value (jb_world j2) cases_seq /\
    id < 2 ^ 31 /\ next_value (jb_world j3) cases_seq = id + 1 /\ t_cases t0 !! id = None /\ t_cases (w_tables (jb_world j3)) !! id = Some (imported_row eid c))); [done|]|].
  { intros id t -> Hlt Ef. pose proof Hj2 as [[_ _ _ _ Hg _] _]. destruct (insert_case_adds t0 off _ (imported_row eid c) _ _ (gr_cases _ _ Hg) Hx Ef) as [Ha Hn].
    split; [done|]. intros w Ht Ho Hs _. split_and!; [done|done|done|done|]. cbn. rewrite Ht. unfold insert_case in Ef. destruct (_ && _); [|done].
    injection Ef as <-. apply lookup_insert_eq. }
  intros id j3 Hj3 L3 (Eid & Hlt & Hs3 & Hn & Hrow3).
  assert (Hge : next_value (jb_world j) cases_seq <= id) by (rewrite Eid; etrans; [apply (la_next _ _ _ L1)|apply (la_next _ _ _ L2)]).
  assert (Hpos : 0 < id) by (rewrite Eid; pose proof (in_sequences _ _ _ (proj1 Hj2) cases_seq); lia).
  assert (Hws : next_value ws cases_seq <= id) by (rewrite Eid; apply (in_next _ _ _ (proj1 Hj2))).
  assert (Hi : int64 id) by (unfold int64, min_int64, max_int64; lia).
  assert (Hfree : forall k, owned id k -> ~ P (cases_bucket, k)).
  { intros k Hk Hp. eapply (at_ids_disjoint _ (fun i => i = id) _ (fun _ => False)); [| |exact Hp|left; split; [done|]; by exists id]; cbn; intros; lia. }
  assert (Hnew : forall k, owned id k -> new_key ws (cases_bucket, k)) by (intros k Hk; left; split; [done|]; by exists id).
  eapply goes_bind; [apply (goes_lift _ _ _ _ j3 (fun a _ => archiveCaseLimits c types = Ok a)); auto|]. intros limits j4 Hj4 L4 Hlim.
  eapply goes_bind; [apply (goes_svc ws off P _ _ (fun _ j5 => limits_there id limits (t_case_limits (w_tables (jb_world j5)))))|]; [done| |].
  { intros t r Hr. apply (InsertTestCaseLanguageLimits_adds fault t0 off) in Hr as [Ha Hl]; [|done]. split; [done|]. intros [] -> n. by apply Hl. }
  intros u j5 Hj5 L5 Hl5.
  eapply goes_bind; [apply upload_case_goes; [done|apply Hnew, owned_input|apply Hfree, owned_input]|]. intros u6 j6 Hj6 L6 [Ht6 Ho6].
  set (P6 := fun bk => P bk \/ bk = (cases_bucket, CaseInputKey id)). apply (goes_weaken _ _ _ P6); [by left|].
  eapply goes_bind; [apply upload_case_goes; [done|apply Hnew, owned_output|]|].
  { intros [Hp|[= E]]; [by eapply Hfree, Hp; apply owned_output|by apply (input_output_key id)]. }
  intros u7 j7 Hj7 L7 [Ht7 Ho7].
  set (P7 := fun bk => P6 bk \/ bk = (cases_bucket, CaseOutputKey id)). apply (goes_weaken _ _ _ P7); [by left|].
  eapply goes_mono.
  - apply (goes_each ws off (fun name => (cases_bucket, CaseFileKey id name)) (case_file_copied entries base id)).
    + intros name P' j' _ Hj' HP'. by apply import_case_file_goes.
    + intros name P' w w' HP' Hl. by eapply case_file_copied_later.
    + set (g := fun n => (cases_bucket, fmt_int id +:+ "/files/" +:+ n)).
      assert (Inj (=) (=) g) as Hg by (intros n1 n2 E; by injection E as [= ?]%key_inj).
      apply (NoDup_fmap_2 g) in Hnd. by rewrite <- list_fmap_compose in Hnd.
    + done.
    + intros name _ [[Hp|[= E]]|[= E]]; [by eapply Hfree, Hp; apply owned_file|by eapply input_file_key|by eapply output_file_key].
  - intros u8 j8 Hj8 L8 Hfiles. exists id. pose proof (la_next _ _ _ L4 cases_seq). pose proof (la_next _ _ _ L5 cases_seq).
    pose proof (la_next _ _ _ L6 cases_seq). pose proof (la_next _ _ _ L7 cases_seq). pose proof (la_next _ _ _ L8 cases_seq).
    split; [lia|]. split.
    + split; [done|lia].
    + eapply lookup_weaken; [exact Hrow3|]. etrans; [apply (la_grows _ _ _ L4)|]. etrans; [apply (la_grows _ _ _ L5)|].
      etrans; [apply (la_grows _ _ _ L6)|]. etrans; [apply (la_grows _ _ _ L7)|apply (la_grows _ _ _ L8)].
    + exists limits. split; [done|]. eapply limits_there_later; [|exact Hl5].
      etrans; [apply (la_grows _ _ _ L6)|]. etrans; [apply (la_grows _ _ _ L7)|apply (la_grows _ _ _ L8)].
    + exists input. split; [done|]. eapply has_later; [|exact L8|]; [left; by right|]. eapply has_later; [|exact L7|done]. by right.
    + exists output. split; [done|]. eapply has_later; [|exact L8|done]. by right.
    + done.
Qed.

(** A fresh exercise, and the objects of its files. *)
Record fresh_exercise (eid : Z) : Prop := {
  fe_int : int64 eid;
  fe_next : next_value ws exercises_seq <= eid;
  fe_new : t_exercises t0 !! eid = None
}.

Lemma import_file_goes index eid k name P j :
  good j -> fresh_exercise eid -> ~ P (files_bucket, file_key k eid name) ->
  goes P (import_file fault entries index eid k name) j (fun _ j' => file_copied entries index eid k name (jb_world j')).
Proof.
  intros Hj [Hi Hge Hn] HP. unfold import_file. eapply goes_bind; [apply (goes_lift _ _ _ _ j (fun a _ => read entries (file_entry k index name) = Ok a)); auto|].
  intros data j1 Hj1 _ Hd.
  assert (Hnew : new_key ws (files_bucket, file_key k eid name)).
  { right. split; [done|]. exists eid. split_and!; [done|done|by exists k, name]. }
  eapply goes_bind; [apply (goes_put fault ws off P "file:"); [done| |done|done]|].
  { exists (file_key k eid name). by right. }
  intros u j2 Hj2 _ [_ Ho]. apply (goes_insert_row fault ws off P _ _ (fun _ => tt)); [done|].
  intros f t -> _ Ef. destruct (insert_exercise_file_adds t0 off _ _ _ _ _ _ Hn Ef) as [Ha Hf]. split; [done|].
  intros w Ht Ho' _ _. exists data, (next_value (jb_world j2) (file_sequence k)). split_and!; [done| |by cbn; rewrite Ht].
  exists (typed (mk_object data "application/octet-stream")). split; [|done]. change (w_objects w !! (files_bucket, file_key k eid name) = Some (typed (mk_object data "application/octet-stream"))). by rewrite Ho'.
Qed.

Lemma import_files_goes index eid k names P j :
  good j -> fresh_exercise eid -> NoDup (FileBasename <$> names) -> (forall name, name ∈ names -> ~ P (files_bucket, file_key k eid name)) ->
  goes P (each (import_file fault entries index eid k) names) j (fun _ j' => forall name, name ∈ names -> file_copied entries index eid k name (jb_world j')).
Proof.
  intros Hj Hf Hnd HP. apply (goes_each ws off (fun name => (files_bucket, file_key k eid name))).
  - intros name P' j' _ Hj' HP'. by apply import_file_goes.
  - intros name P' w w' HP' Hl. by eapply file_copied_later.
  - apply NoDup_alt. intros i i' x Ei Ei'. rewrite list_lookup_fmap_Some in Ei, Ei'.
    destruct Ei as (n & -> & En), Ei' as (n' & Ex & En'). injection Ex as (_ & _ & Eb)%file_key_inj2; [|apply Hf..].
    eapply NoDup_lookup; [exact Hnd|by rewrite list_lookup_fmap, En|rewrite list_lookup_fmap, En'; cbn; by rewrite Eb].
  - done.
  - done.
Qed.

Lemma import_types_goes eid exts : forall P j,
  good j -> t_exercises t0 !! eid = None ->
  goes P (import_types fault allowedTypes eid exts) j (fun types j' => types_copied allowedTypes eid exts types (w_tables (jb_world j'))).
Proof.
  induction exts as [|x exts IH]; intros P j Hj Hn; cbn [import_types]; [apply goes_ret; [done|constructor]|].
  destruct (allowedTypes !! to_lower x) as [id|] eqn:E; [|by apply goes_fail].
  eapply goes_bind; [apply (goes_svc ws off P _ _ (fun _ j1 => (eid, id) ∈ t_allowed (w_tables (jb_world j1)))); [done|]|].
  { intros t r [[-> ->]|[Ei ->]]%runs_exec; [split; [apply adds_refl|done]|].
    destruct (insert_allowed_adds t0 off _ _ _ _ Hn Ei). by split. }
  intros u j1 Hj1 _ Hin. eapply goes_bind; [by apply IH|]. intros types j2 Hj2 L2 Ht. apply goes_ret; [done|].
  constructor; [|done]. split_and!; [done|done|]. by apply (gr_allowed _ _ (la_grows _ _ _ L2)).
Qed.

(** The names of files an exercise of a checked manifest lists. *)
Definition names_distinct (e : offeringArchiveExercise) : Prop :=
  (forall c, c ∈ te_TestCases e -> NoDup (FileBasename <$> tc_Files c)) /\
  NoDup (FileBasename <$> te_CompilationFiles e) /\ NoDup (FileBasename <$> te_AttachedFiles e).

Lemma import_exercise_goes index e j :
  good j -> names_distinct e ->
  goes (present (jb_world j)) (import_exercise fault entries allowedTypes off shift index e) j (fun _ j' => exists eid,
    next_value (jb_world j) exercises_seq <= eid < next_value (jb_world j') exercises_seq /\
    exercise_copied entries allowedTypes off shift index e eid (jb_world j')).
Proof.
  intros Hj (Hdc & Hdf & Hda). unfold import_exercise. set (P := present (jb_world j)).
  eapply goes_bind; [apply (goes_insert_row fault ws off P _ _ (fun id => id) j (fun id j1 => id = next_value (jb_world j) exercises_seq /\
    id < 2 ^ 31 /\ next_value (jb_world j1) exercises_seq = id + 1 /\ t_exercises t0 !! id = None /\
    t_exercises (w_tables (jb_world j1)) !! id = Some (shifted_row off shift e))); [done|]|].
  { intros id t -> Hlt Ef. pose proof Hj as [[_ _ _ _ Hg _] _].
    destruct (insert_exercise_adds t0 off _ (shifted_row off shift e) _ _ (gr_exercises _ _ Hg) eq_refl Ef) as (Ha & Hn & Hr).
    split; [done|]. intros w Ht Ho Hs _. split_and!; [done|done|done|done|]. cbn. by rewrite Ht. }
  intros eid j1 Hj1 L1 (Eid & Hlt & Hs1 & Hn & Hrow1).
  assert (Hfe : fresh_exercise eid).
  { split; [|rewrite Eid; apply (in_next _ _ _ (proj1 Hj))|done].
    pose proof (in_sequences _ _ _ (proj1 Hj) exercises_seq). unfold int64, min_int64, max_int64. lia. }
  eapply goes_bind; [by apply import_types_goes|]. intros types j2 Hj2 L2 Htypes.
  eapply goes_bind; [apply (goes_lift _ _ _ _ j2 (fun a _ => archiveLimitsByExtension (te_Limits e) types = Ok a)); auto|]. intros limits j3 Hj3 L3 Hlim.
  eapply goes_bind; [apply (goes_svc ws off P _ _ (fun _ j4 => limits_there eid limits (t_exercise_limits (w_tables (jb_world j4))))); [done|]|].
  { intros t r Hr. apply (InsertExerciseLanguageLimits_adds fault t0 off) in Hr as [Ha Hl]; [|done]. split; [done|]. intros [] -> n. by apply Hl. }
  intros u4 j4 Hj4 L4 Hl4.
  eapply goes_bind; [eapply (goes_weaken _ _ _ (present (jb_world j4)))|].
  { intros bk Hbk. eapply present_later; [exact L4|]. eapply present_later; [exact L3|]. eapply present_later; [exact L2|]. by eapply present_later. }
  { apply (goes_indexed cases_seq (fun i c id w => case_copied entries eid types (case_base index i) c id w)); [| |done].
    - intros i c id w w' Hl Hc. eapply case_copied_later; [|exact Hl|exact Hc]. intros k. apply present_case; apply Hc.
    - intros i c j' Hc Hj'. apply import_case_goes; [done|done|by apply Hdc]. }
  intros u5 j5 Hj5 L5 (ids & Hnd & _ & Hcases).
  set (P5 := at_ids (fun id => id < next_value (jb_world j5) cases_seq) (fun id => id < eid)).
  apply (goes_weaken _ _ _ P5).
  { intros bk. apply at_ids_mono; intros id Hid; [|lia]. pose proof (la_next _ _ _ L1 cases_seq). pose proof (la_next _ _ _ L2 cases_seq).
    pose proof (la_next _ _ _ L3 cases_seq). pose proof (la_next _ _ _ L4 cases_seq). pose proof (la_next _ _ _ L5 cases_seq). lia. }
  assert (Hfree : forall k name, ~ P5 (files_bucket, file_key k eid name)).
  { intros k name Hp. eapply (at_ids_disjoint _ (fun _ => False) _ (fun i => i = eid)); [| |exact Hp|right; split; [done|]; exists eid; split_and!; [apply Hfe|done|by exists k, name]];
      cbn; intros; lia. }
  eapply goes_bind; [apply import_files_goes; [done|done|done|by intros name _]|]. intros u6 j6 Hj6 L6 Hcomp.
  apply (goes_weaken _ _ _ (fun bk => P5 bk \/ exists name, bk = (files_bucket, file_key Compilation eid name))); [by left|].
  eapply goes_mono; [apply import_files_goes; [done|done|done|]|].
  { intros name _ [Hp|(n & [=])]. by eapply Hfree. }
  intros u7 j7 Hj7 L7 Hatt. exists eid.
  assert (G : forall i j, i = j4 \/ i = j5 -> j = j7 -> grows (w_tables (jb_world i)) (w_tables (jb_world j))).
  { intros i i' [->| ->] ->; repeat (first [apply (la_grows _ _ _ L7)|eapply grows_trans; [first [apply (la_grows _ _ _ L5)|apply (la_grows _ _ _ L6)]|]]). }
  assert (G2 : grows (w_tables (jb_world j2)) (w_tables (jb_world j7))).
  { eapply grows_trans; [apply (la_grows _ _ _ L3)|]. eapply grows_trans; [apply (la_grows _ _ _ L4)|apply G; auto]. }
  assert (Hnx : eid < next_value (jb_world j7) exercises_seq).
  { pose proof (la_next _ _ _ L2 exercises_seq). pose proof (la_next _ _ _ L3 exercises_seq). pose proof (la_next _ _ _ L4 exercises_seq).
    pose proof (la_next _ _ _ L5 exercises_seq). pose proof (la_next _ _ _ L6 exercises_seq). pose proof (la_next _ _ _ L7 exercises_seq). lia. }
  split; [lia|]. split.
  - split; [apply Hfe|done].
  - eapply lookup_weaken; [exact Hrow1|]. etrans; [apply (la_grows _ _ _ L2)|apply G2].
  - exists types, limits, ids. split_and!; [by eapply types_copied_later|done| |done|].
    + eapply limits_there_later; [|exact Hl4]. apply (G j4 j7); auto.
    + eapply Forall2_impl; [exact Hcases|]. intros p id Hc. cbn in Hc.
      assert (HP5 : forall k, owned id k -> P5 (cases_bucket, k)).
      { intros k Hk. left. split; [done|]. exists id. split_and!; [apply Hc|apply Hc|done]. }
      eapply case_copied_later; [|exact L7|]; [intros k Hk; left; by apply HP5|]. eapply case_copied_later; [exact HP5|exact L6|done].
  - intros name Hname. eapply file_copied_later; [|exact L7|by apply Hcomp]. right. by exists name.
  - done.
Qed.
End Importing.

(** ** The names of a checked manifest *)

Section Manifest.
Context {UT : UnicodeTables} {MF : Manifests}.

Lemma clean_names_spec names : forall seen out, clean_names seen names = Ok out ->
  (FileBasename <$> out) = out /\ NoDup out /\ forall b, b ∈ out -> b ∉ seen.
Proof.
  induction names as [|n names IH]; intros seen out H; cbn [clean_names] in H; [injection H as <-; split_and!; [done|constructor|by intros b ?%elem_of_nil]|].
  destruct (_ || _); [done|]. destruct (String.eqb_spec (FileBasename n) (trim_space n)) as [Eb|]; [|done]. cbn [negb] in H.
  case_bool_decide as Hs; [done|]. apply res_bind_ok in H as (cs & H & [= <-]). apply IH in H as (Hm & Hnd & Hout). cbn [fmap list_fmap].
  split_and!.
  - change (list_fmap _ _ FileBasename cs) with (FileBasename <$> cs). rewrite Hm. f_equal. rewrite Eb at 1. unfold FileBasename at 1. by rewrite trim_space_idem.
  - constructor; [|done]. intros Hin%Hout. set_solver.
  - intros b [->|Hb%Hout]%elem_of_cons; [done|set_solver].
Qed.

Lemma archive_names_distinct names out : validateArchiveFileNames names = Ok out -> NoDup (FileBasename <$> out).
Proof. intros (-> & ? & _)%clean_names_spec. done. Qed.

Lemma check_each_elem {A} (f : nat -> A -> res transfer_error A) l : forall i out y,
  check_each f i l = Ok out -> y ∈ out -> exists i x, f i x = Ok y.
Proof.
  induction l as [|x l IH]; intros i out y H Hy; cbn [check_each] in H; [injection H as <-; by apply elem_of_nil in Hy|].
  apply res_bind_ok in H as (x' & Hx & H). apply res_bind_ok in H as (l' & Hl & [= <-]). apply elem_of_cons in Hy as [->|Hy]; eauto.
Qed.

Lemma validate_case_names title allowed i c c' : validate_case title allowed i c = Ok c' -> NoDup (FileBasename <$> tc_Files c').
Proof.
  unfold validate_case. destruct (negb _); [done|]. destruct (negb _); [done|]. destruct (_ || _); [done|]. intros H.
  apply res_bind_ok in H as (? & _ & H). apply res_bind_ok in H as (fs & Hf & [= <-]). by eapply archive_names_distinct.
Qed.

Lemma validate_exercise_names i n e e' n' : validate_exercise i n e = Ok (e', n') -> names_distinct e'.
Proof.
  unfold validate_exercise. destruct (Accounts.ValidateRequiredString _ _); [|done]. destruct (_ || _); [done|]. destruct (_ <? _); [done|].
  destruct (_ <? _)%nat; [done|]. destruct (_ <? _)%nat; [done|]. intros H.
  apply res_bind_ok in H as (al & _ & H). apply res_bind_ok in H as (? & _ & H). apply res_bind_ok in H as (cs & Hcs & H).
  apply res_bind_ok in H as (cf & Hcf & H). apply res_bind_ok in H as (af & Haf & [= <- _]). split_and!.
  - intros c Hc. cbn in Hc. destruct (check_each_elem _ _ _ _ _ Hcs Hc) as (? & ? & ?). by eapply validate_case_names.
  - by eapply archive_names_distinct.
  - by eapply archive_names_distinct.
Qed.

Lemma validate_exercises_names l : forall i n l', validate_exercises i n l = Ok l' -> Forall names_distinct l'.
Proof.
  induction l as [|e l IH]; intros i n l' H; cbn [validate_exercises] in H; [injection H as <-; constructor|].
  apply res_bind_ok in H as ([e' n'] & He & H). cbn iota beta in H. apply res_bind_ok in H as (r & Hr & [= <-]). constructor; [by eapply validate_exercise_names|by eapply IH].
Qed.

Lemma parsed_manifest data a : ParseOfferingArchive data = Ok a -> Forall names_distinct (tm_Exercises (oa_manifest a)).
Proof.
  unfold ParseOfferingArchive. destruct (_ =? _); [done|]. destruct (_ <? _); [done|]. destruct (ar_files data); [|done].
  destruct (_ <? _)%nat; [done|]. intros H. apply res_bind_ok in H as (entries & _ & H). destruct (entries !! _); [|done].
  apply res_bind_ok in H as (text & _ & H). destruct (unmarshal text) as [m|]; [|done]. destruct (negb _); [done|]. destruct (_ || _); [done|].
  apply res_bind_ok in H as (m' & Hm & H). apply res_bind_ok in H as (? & _ & [= <-]). cbn. unfold validateOfferingManifest in Hm.
  destruct (Accounts.ValidateRequiredString _ _); [|done]. destruct (_ <? _)%nat; [done|]. apply res_bind_ok in Hm as (es & Hes & [= <-]). cbn.
  by eapply validate_exercises_names.
Qed.
End Manifest.

(** ** The whole import *)

Lemma wp_served {A} (m : act A) (Q : A -> world -> Prop) (R : transfer_error -> world -> Prop) w :
  wp m Q (fun e => R (Service e)) w -> wp (service m) Q R w.
Proof. unfold wp, service. by destruct (m w) as [w' [x|e]]. Qed.

Section Whole.
Context {UT : UnicodeTables} {MF : Manifests} (fault : nat -> bool) (users : gmap Z Accounts.UserRow).
Context (scan : gmap Z LanguageRow -> list (Z * LanguageRow)).

(** What every way out but success leaves: the tables, after the roll-back, and the
    objects of rows that exist. *)
Record undone (ws w : world) : Prop := {
  un_tables : base_tables w = w_tables ws;
  un_objects : forall bk, ~ new_key ws bk -> w_objects w !! bk = w_objects ws !! bk;
  un_sequences : sequences w /\ forall s, next_value ws s <= next_value w s
}.

Lemma inside_undone ws off w : inside ws off w -> undone ws w.
Proof. intros []. split; [unfold base_tables; by rewrite in_saved0|done|done]. Qed.

Lemma unfinished_sent ws w : undone ws w -> undone ws (sent w).
Proof. intros []. by split. Qed.

Lemma unfinished_delete ws w bk : new_key ws bk -> undone ws w -> undone ws (sent w <| w_objects := delete bk (w_objects w) |>).
Proof.
  intros Hn []. split; try done. intros bk' Hbk. cbn. rewrite lookup_delete_ne; [auto|]. by intros <-.
Qed.

Lemma undone_rolled_back ws w : undone ws w -> undone ws (rolled_back w).
Proof.
  intros [Ht Ho [Hs Hn]]. split.
  - unfold base_tables at 1. by rewrite rolled_back_saved, rolled_back_tables.
  - by rewrite rolled_back_objects.
  - split; intros s; rewrite rolled_back_value; auto.
Qed.

Lemma cleanup_undone ws keys w (Q : unit -> world -> Prop) R :
  Forall (tagged_new ws) keys -> undone ws w -> (forall w', undone ws w' -> Q tt w') -> wp (deleteImportedObjectsBestEffort fault keys) Q R w.
Proof.
  intros Hk Hu HQ. rewrite Forall_forall in Hk. unfold deleteImportedObjectsBestEffort.
  apply wp_bind, (wp_deletes fault cases_bucket _ (undone ws)); [|done|].
  - intros w1 k Hw1 Hin. split; [by apply unfinished_sent|]. apply unfinished_delete; [|done].
    apply list_elem_of_fmap in Hin as (s & -> & [Hp Hin]%list_elem_of_filter). destruct (Hk s Hin) as (k & [[-> Hn]|[-> _]]); [by rewrite trim_prefix_app|by rewrite has_prefix_spec in Hp; destruct Hp].
  - intros w1 Hw1. apply (wp_deletes fault files_bucket _ (undone ws)); [|done|done].
    intros w2 k Hw2 Hin. split; [by apply unfinished_sent|]. apply unfinished_delete; [|done].
    apply list_elem_of_fmap in Hin as (s & -> & [Hp Hin]%list_elem_of_filter). destruct (Hk s Hin) as (k & [[-> _]|[-> Hn]]); [by rewrite has_prefix_spec in Hp; destruct Hp|by rewrite trim_prefix_app].
Qed.

Lemma insert_offering_adds id row code t t' :
  of_code row = Some code -> insert_offering users id row code t = Some t' ->
  adds t id t t' /\ t_offerings t !! id = None /\ t_offerings t' !! id = Some row /\ is_Some (of_owner row ≫= fun o => users !! o) /\
  Classes.code_taken id code t = false.
Proof.
  intros Hc H. unfold insert_offering in H. destruct (_ && _) eqn:E; [|done].
  apply andb_true_iff in E as [[[[Ec%negb_true_iff Eo%bool_decide_eq_true]%andb_true_iff _]%andb_true_iff _]%andb_true_iff E%bool_decide_eq_true].
  injection H as <-. split_and!; [|done|apply lookup_insert_eq|done|done]. adds_insert.
  intros i r [[<- <-]|[_ ?]]%lookup_insert_Some; auto.
Qed.

(** The new class: its row, and an exercise for each one of the archive. *)
Record class_created (ws : world) (userID : Z) (archive : offeringArchive) (plan : import_plan) (id : Z) (code : string) (w : world) : Prop := {
  cl_new : t_offerings (w_tables ws) !! id = None;
  cl_row : t_offerings (w_tables w) !! id =
    Some (offering_row userID plan code (to_VisibleToEnroll (tm_Offering (oa_manifest archive))));
  cl_owner : is_Some (users !! userID);
  cl_code : Classes.code_taken id code (w_tables ws) = false;
  cl_exercises : exists ids, NoDup ids /\
    Forall2 (fun p eid => exercise_copied (oa_entries archive) (types_by_extension (scan (t_languages (w_tables ws)))) id (ip_shift plan)
               p.1 p.2 eid w) (indexed 0 (tm_Exercises (oa_manifest archive))) ids;
  cl_kept : grows (w_tables ws) (w_tables w);
  cl_only : only_new (w_tables ws) id (w_tables w)
}.

(** The world is at rest, with the objects of the rows that existed. *)
Record at_rest (ws w : world) : Prop := {
  ar_saved : w_saved w = None;
  ar_objects : forall bk, ~ new_key ws bk -> w_objects w !! bk = w_objects ws !! bk;
  ar_sequences : sequences w
}.

Lemma with_uploads_wp {A} ws (m : job A) (Q : A -> world -> Prop) w :
  wp m (fun a j' => Q a (jb_world j')) (fun _ j' => undone ws (jb_world j') /\ Forall (tagged_new ws) (jb_uploaded j')) (mk_job w []) ->
  wp (with_uploads fault m) Q (fun _ w' => undone ws w') w.
Proof.
  unfold wp, with_uploads. destruct (m _) as [j [a|e]]; [done|]. intros [Hu Hk].
  pose proof (cleanup_undone ws _ _ (fun _ w' => undone ws w') (fun _ w' => undone ws w') Hk Hu) as Hw. unfold wp in Hw.
  specialize (Hw (fun _ H => H)). by destruct (deleteImportedObjectsBestEffort _ _ _) as [w' [u|e']].
Qed.

Lemma exercise_committed entries allowedTypes off shift i e eid w :
  exercise_copied entries allowedTypes off shift i e eid w -> exercise_copied entries allowedTypes off shift i e eid (sent w <| w_saved := None |>).
Proof. apply exercise_copied_later. split; [apply grows_refl|done|reflexivity]. Qed.

Lemma wp_import_offering_rows ws env userID archive plan w :
  Forall names_distinct (tm_Exercises (oa_manifest archive)) -> inside ws (next_value ws "offerings") w -> w_tables w = w_tables ws ->
  w_next w = w_next ws ->
  wp (import_offering_rows fault users env userID archive plan (types_by_extension (scan (t_languages (w_tables ws)))))
    (fun '(id, code) w' => at_rest ws w' /\ Classes.newEnrollmentCode (ie_draws env) = Some code /\ class_created ws userID archive plan id code w')
    (fun _ w' => undone ws w') w.
Proof.
  intros Hnames Hi Ht Hnx. set (off := next_value ws "offerings") in *. unfold import_offering_rows. cbv zeta.
  apply wp_bind, wp_lift. destruct (Classes.newEnrollmentCode _) as [code|] eqn:Ecode; [|by eapply inside_undone].
  set (row := offering_row userID plan code _).
  apply wp_bind, wp_served. eapply wp_mono; [eapply (wp_fresh_row fault ws off (fun _ => False) _ _ (fun id => id) w
    (fun id w' => id = off /\ t_offerings (w_tables ws) !! off = None /\ t_offerings (w_tables w') !! off = Some row /\
       is_Some (users !! userID) /\ Classes.code_taken off code (w_tables ws) = false)); [done|]| |].
  { intros id t Eid _ Ef. assert (id = off) as -> by (rewrite Eid; unfold next_value; by rewrite Hnx).
    rewrite Ht in Ef. apply insert_offering_adds in Ef as (Ha & Hn & Hr & Ho & Hc); [|done]. rewrite Ht. split; [done|].
    intros w' Ht' _ _ _. rewrite Ht'. by split_and!. }
  2:{ intros e w' Hw'. exact (inside_undone _ _ _ Hw'). }
  intros id w1 (Hi1 & _ & -> & Hn & Hr & Ho & Hc). apply wp_bind.
  set (entries := oa_entries archive). set (types := types_by_extension _).
  eapply wp_mono; [apply (with_uploads_wp ws _ (fun _ w' => at_rest ws w' /\ class_created ws userID archive plan off code w'))| |done].
  - assert (Hg : good ws off (mk_job w1 [])) by by split.
    pose proof (goes_indexed ws off exercises_seq (fun i e eid w => exercise_copied entries types off (ip_shift plan) i e eid w)
      (import_exercise fault entries types off (ip_shift plan))
      (fun i e eid w w' => exercise_copied_later entries types off (ip_shift plan) i e eid w w')
      (tm_Exercises (oa_manifest archive)) 0 (mk_job w1 [])) as Hall.
    apply wp_bind. eapply wp_mono; [apply Hall; [|done]| |].
    + intros i e j He Hj. apply import_exercise_goes; [done|]. rewrite Forall_forall in Hnames. by apply Hnames.
    + intros u j (Hj & Hl & ids & Hnd & _ & Hids). cbn [jb_world] in Hl. destruct Hj as [Hij Huj]. unfold wp, on_world, commit_tx.
      destruct (fault _); cbn.
      { split; [|done]. change (undone ws (rolled_back (sent (jb_world j)))). eapply undone_rolled_back, unfinished_sent, inside_undone, Hij. }
      split; [destruct Hij; by split|]. split; [done| |done|done| |apply Hij|apply Hij].
      * cbn. eapply lookup_weaken; [exact Hr|apply (la_grows _ _ _ Hl)].
      * exists ids. split; [done|]. eapply Forall2_impl; [exact Hids|]. intros p eid. apply exercise_committed.
    + intros e j [Hij Huj]. split; [by eapply inside_undone|done].
  - intros u w' [Hr' Hc']. apply wp_ret. by split_and!.
Qed.

Lemma wp_in_transaction {A} (m : transfer A) (Q : A -> world -> Prop) R w :
  R (Service ErrServer) (sent w) ->
  wp m (fun a w' => Q a (rolled_back w')) (fun e w' => R e (rolled_back w')) (sent w <| w_saved := Some (w_tables w) |>) ->
  wp (in_transaction fault m) Q R w.
Proof.
  intros H1 H2. unfold in_transaction. apply wp_bind, wp_served. unfold wp at 1, begin_tx.
  destruct (fault (w_sent w)); [by apply H1|]. by apply wp_finally.
Qed.

(** What the author is told of the class. *)
Definition class_imported (ws : world) (env : import_env) (data : archive) (options : OfferingImportOptions) (claims : Claims)
    (w : world) (o : Classes.Offering) : Prop :=
  exists userID role archive plan code,
    claimsUserID claims = Ok (userID, role) /\ ParseOfferingArchive data = Ok archive /\
    plan_import env (oa_manifest archive) options = Ok plan /\ Classes.newEnrollmentCode (ie_draws env) = Some code /\
    o = Classes.mk_off (Classes.on_ID o) (ip_name plan) (Classes.whole_seconds (ip_end plan)) (ip_description plan) code
          (to_VisibleToEnroll (tm_Offering (oa_manifest archive))) /\
    class_created ws userID archive plan (Classes.on_ID o) code w.

Lemma undone_at_rest ws w : undone ws w -> at_rest ws (rolled_back w) /\ w_tables (rolled_back w) = w_tables ws.
Proof.
  intros Hu. pose proof (undone_rolled_back ws w Hu) as [Ht Ho [Hs _]]. split; [split; [apply rolled_back_saved|done|done]|].
  unfold base_tables in Ht. by rewrite rolled_back_saved in Ht.
Qed.

Lemma wp_ImportOfferingArchive env data options claims w :
  sequences w -> w_saved w = None ->
  wp (ImportOfferingArchive fault users scan env data options claims)
    (fun o w' => at_rest w w' /\ class_imported w env data options claims w' o)
    (fun _ w' => at_rest w w' /\ w_tables w' = w_tables w) w.
Proof.
  intros Hq Hs. unfold ImportOfferingArchive.
  assert (Hok : forall n, at_rest w (w <| w_conn := mk_conn (w_tables w) n |>)) by by split.
  apply wp_bind, wp_served, wp_on_db. intros t n r (n1 & n2 & [= <- _ <-]). unfold lift. destruct (claimsUserID claims) as [[userID role]|e] eqn:Eu; [|split; [apply Hok|done]].
  apply wp_bind, wp_lift. destruct (ParseOfferingArchive data) as [archive|e] eqn:Ep; [|split; [apply Hok|done]].
  apply wp_bind, wp_lift. destruct (plan_import _ _ _) as [plan|e] eqn:Epl; [|split; [apply Hok|done]].
  apply wp_bind, wp_served, wp_on_db. intros t n' r [-> Hr]%runs_query. cbn [w_tables cn_db w_conn rset] in Hr.
  destruct Hr as [->| ->]; [split; [apply (Hok n')|done]|]. apply wp_bind.
  set (w1 := w <| w_conn := _ |> <| w_conn := _ |>).
  assert (Hu1 : forall n, undone w (w1 <| w_conn := mk_conn (w_tables w) n |>)).
  { intros m. split; [unfold base_tables; cbn; by rewrite Hs|done|]. split; [exact Hq|]. intros s. reflexivity. }
  apply wp_in_transaction; [split; [apply (Hok (S n'))|done]|].
  eapply wp_mono; [apply (wp_import_offering_rows w); [by eapply parsed_manifest| |done|done]| |].
  - split; try done; first [apply grows_refl|apply only_new_refl].
  - intros [id code] w' (Hr & Ec & Hc). cbn iota beta. assert (rolled_back w' = w') as -> by (unfold rolled_back, rollback; by destruct Hr as [-> _ _]).
    apply wp_ret. split; [done|]. exists userID, role, archive, plan, code. by split_and!.
  - intros e w' Hw'. by apply undone_at_rest.
Qed.
End Whole.

(** C30: Importing a class is all or nothing, whichever statements and object writes fail,
    the clean-up's own included. After an error the tables are what they were. After an
    answer the class is there, owned by the caller under a code that was free, with the
    name, description and end the options and the manifest give; it has one exercise for
    each exercise of the archive, in order, with its dates shifted, its languages and
    limits, its cases with their limits and the objects the judge will fetch, and its
    files; every row there was is still there, and every other new row belongs to the
    new class. In both cases no object of a case or exercise there was is touched. *)
Theorem class_imported_or_nothing {UT : UnicodeTables} {MF : Manifests} fault users scan env data options claims w w' r
  (Hq : sequences w) (Hs : w_saved w = None)
  (H : ImportOfferingArchive fault users scan env data options claims w = (w', r)) :
  at_rest w w' /\
  match r with
  | Ok o => class_imported users scan w env data options claims w' o
  | Err _ => w_tables w' = w_tables w
  end.
Proof.
  pose proof (wp_ImportOfferingArchive fault users scan env data options claims w Hq Hs) as Hwp.
  unfold wp in Hwp. rewrite H in Hwp. by destruct r.
Qed.
