(* ===== verification/TransferExamples.v ===== *)
(** * Copying a class

    The theorem of [TransferProofs.v] applied to the class of [LimitsProofs.sample], and
    what an export leaves out. *)

From S2P Require Import Prelude Effects GoStrings Sql Catalog Limits LimitsProofs Objects Authoring AuthoringProofs AuthoringUpdate.
From S2P Require Import Archive Transfer TransferProofs.
From S2P Require AccountLinks Accounts Classes ClassesProofs Cache.
Local Open Scope Z_scope.

#[local] Existing Instance ascii_tables.

Definition summed : offeringArchiveExercise :=
  mk_archive_exercise " Sum " "" 500 100 false false ["C"] [mk_archive_limit "c" (mk_overrides (Some 3) None None None)]
    [mk_archive_case "1" "text" true "2" "text" true false [] 2 0 0 0 ["data.txt"]] ["lib.h"] ["a.pdf"].
Definition algorithms : offeringArchiveManifest :=
  mk_manifest offeringArchiveFormat 2 0 (mk_archive_offering "Algorithms" "" "end" true) [summed].

(** Texts of manifests and dates: enough of them for the examples. *)
Definition few_texts : Manifests := {|
  unmarshal s := if String.eqb s "algorithms" then Some algorithms else None;
  marshal m := Some "";
  parse_rfc3339 s := if String.eqb s "end" then Some 1000 else None;
  format_rfc3339 _ := "end"
|}.
#[local] Existing Instance few_texts.

Definition zip_of (files : list (string * string)) : archive :=
  mk_archive 1 (Some ((fun x => mk_zip x.1 false (Z.of_nat (String.length x.2)) (Some x.2)) <$> files)).
Definition algorithms_zip : archive := zip_of
  [("exercises/001/testcases/001/in", "1"); ("exercises/001/testcases/001/out", "2"); ("exercises/001/testcases/001/files/data.txt", "d");
   ("exercises/001/compilation/lib.h", "#define N 3"); ("exercises/001/attached/a.pdf", "%PDF"); ("manifest.json", "algorithms")].

(** The class of [sample], with identities for new rows. *)
Definition school : world := mk_world (mk_conn sample 0) None ∅
  {["offerings" := 2; "exercises" := 12; cases_seq := 101]}.
Definition staff : gmap Z Accounts.UserRow := {[7 := AccountLinks.ada]}.
Definition spring : import_env := mk_import_env 1500 2000 (Some (replicate 8 0)).
Definition as_exported : OfferingImportOptions := mk_options "" None None.

Definition imported_school (fault : nat -> bool) : world * res transfer_error Classes.Offering :=
  ImportOfferingArchive fault staff map_to_list spring algorithms_zip as_exported teacher school.

Lemma school_sequences : sequences school.
Proof.
  intros s. unfold next_value, school. cbn [w_next].
  destruct (decide (s = "offerings")) as [->|]; [by vm_compute|]. destruct (decide (s = "exercises")) as [->|]; [by vm_compute|].
  destruct (decide (s = cases_seq)) as [->|]; [by vm_compute|]. unfold cases_seq in *. rewrite !lookup_insert_ne by done. rewrite lookup_singleton_ne by done. cbn. lia.
Qed.

(** The old end is past: the new class ends in six months, and its dates move along. *)
Example imported_demo :
  let w := (imported_school never).1 in
  t_exercises (w_tables w) !! 12 = Some (mk_exercise 2 1500 1100 false false false None "Sum" "") /\
  t_case_limits (w_tables w) !! (101, 1) = Some (mk_overrides (Some 2) None None None) /\
  w_objects w !! (files_bucket, "compilationfiles/12/lib.h") = Some (mk_object "#define N 3" "application/octet-stream").
Proof. by vm_compute. Qed.

(** The 13th request writes the last file; what was uploaded is removed. *)
Example import_undone_demo :
  (w_objects (imported_school (Nat.eqb 13)).1, (imported_school (Nat.eqb 13)).2) = (∅, Err (Service ErrServer)).
Proof. by vm_compute. Qed.

Lemma class_imported_or_nothing_witness :
  exists w' o, imported_school never = (w', Ok o) /\ Classes.on_ID o = 2 /\
    only_new sample 2 (w_tables w') /\ t_exercises (w_tables w') !! 10 = t_exercises sample !! 10.
Proof.
  destruct (imported_school never) as [w' r] eqn:E.
  pose proof (class_imported_or_nothing never staff map_to_list spring algorithms_zip as_exported teacher school w' r school_sequences eq_refl E) as [_ H].
  assert (Hr : match r with Ok o => Classes.on_ID o = 2 | Err _ => False end) by (apply (f_equal snd) in E; cbn [snd] in E; rewrite <- E; by vm_compute).
  destruct r as [o|e]; [|destruct Hr]. destruct H as (u & ro & a & p & c & _ & _ & _ & _ & _ & [_ _ _ _ _ Hg Ho]). rewrite Hr in Ho.
  exists w', o. split_and!; [done|done|exact Ho|]. transitivity (Some (mk_exercise 1 500 100 false false false None "" "")); [|by vm_compute].
  apply (lookup_weaken (t_exercises sample)); [by vm_compute|exact (gr_exercises _ _ Hg)].
Defined.

(** ** Exporting *)

(** The exercises of the class that the manifest would list. *)
Definition listed (w : world) : res transfer_error (list (nat * list string * list string)) :=
  match (x ← service (on_db (query never ErrServer (exported_exercises 1))); export_each (export_exercise never byte_order) 0 [] x) w with
  | (_, Ok (_, exercises)) => Ok ((fun e => (length (te_TestCases e), te_CompilationFiles e, te_AttachedFiles e)) <$> exercises)
  | (_, Err e) => Err e
  end.

Definition with_library : world := mk_world
  (mk_conn (sample <| t_compilation_files := {[1 := (10, "lib.h")]} |> <| t_attached_files := {[1 := (10, ".DS_Store")]} |>) 0) None
  {[(cases_bucket, CaseInputKey 100) := mk_object "1" "text/plain"; (cases_bucket, CaseOutputKey 100) := mk_object "2" "text/plain";
    (files_bucket, CompilationFileKey 10 "lib.h") := mk_object "#define N 3" ""; (files_bucket, AttachmentKey 10 ".DS_Store") := mk_object "x" ""]} ∅.

(** Exercise 11 is a ghost of 10: its copy has the cases of 10 without the file they are
    compiled with. *)
Example ghost_exported_without_library : listed with_library = Ok [(1%nat, ["lib.h"], [".DS_Store"]); (1%nat, [], [])].
Proof. by vm_compute. Qed.

(** A material named like a file of a Mac's folder is exported, and then not found. *)
Example ds_store_not_imported :
  validateFiles (match index_entries 0 (default [] (ar_files (zip_of [(attached_entry 0 ".DS_Store", "x")]))) ∅ with Ok m => m | Err _ => ∅ end)
    (algorithms <| tm_Exercises := [summed <| te_TestCases := [] |> <| te_CompilationFiles := [] |> <| te_AttachedFiles := [".DS_Store"] |>] |>)
  = Err (ErrInvalidTransfer (MissingEntry "exercises/001/attached/.DS_Store")).
Proof. by vm_compute. Qed.
