(* ===== verification/ExerciseFiles.v ===== *)
(** * The files of an exercise

    [src/backend/services/compilation-files-service.go] and
    [attached-files-service.go]: the sources every submission is compiled with, and the
    material students download. A compilation file belongs to the exercise a ghost stands
    for, a material to the exercise itself. Reading the body of a download is left to the
    handler; a content type is the object's. *)

From S2P Require Import Prelude Effects GoStrings Sql Catalog LimitsProofs Objects Authoring Transfer.
From S2P Require Import AuthoringProofs TransferProofs.
From S2P Require AuthoringUpdate.
Local Open Scope Z_scope.

(** [models.CompilationFile] and [models.AttachedFile], whose file name is the path. *)
Record ExerciseFile := mk_exercise_file { xf_ID : Z; xf_ExerciseID : Z; xf_Path : string }.

Inductive file_error := Service (e : svc_error) | ErrFileNotFound (k : file_table).

Abbreviation filing A := (eff world file_error A).

Definition service {A} (m : act A) : filing A := fun w =>
  match m w with (w, Ok a) => (w, Ok a) | (w, Err e) => (w, Err (Service e)) end.

Definition clear_path (k : file_table) (exerciseID : Z) (path : string) (t : Tables) : Tables :=
  set_file_rows k (filter (fun x : Z * (Z * string) => x.2 <> (exerciseID, path)) (file_rows k t)) t.

(** The rows of an exercise, by identity. *)
Definition files_of (k : file_table) (exerciseID : Z) (t : Tables) : list ExerciseFile :=
  (fun x : Z * (Z * string) => mk_exercise_file x.1 exerciseID x.2.2) <$>
    sorted_keys (fun x : Z * (Z * string) => x.2.1 = exerciseID) (file_rows k t).

(** [WHERE id = $1 AND exercise_id = $2]. *)
Definition find_file (k : file_table) (fileID exerciseID : Z) (t : Tables) : option string :=
  x ← file_rows k t !! fileID; if decide (x.1 = exerciseID) then Some x.2 else None.

Section Files.
Context (fault : nat -> bool) (token : nat -> string).

Local Abbreviation ask f := (query fault ErrServer f).
Local Abbreviation put f := (exec fault ErrServer f).

(** [queryCompilationFiles] and [queryAttachedFiles]. *)
Definition queryFiles (k : file_table) (exerciseID : Z) : svc (list ExerciseFile) := ask (files_of k exerciseID).

(** The transaction of both services: the row under the name is replaced, and its
    object, which comes back when the transaction fails. *)
Definition store_file (k : file_table) (exerciseID : Z) (file : UploadedFile) : act Z :=
  let name := FileBasename (uf_Filename file) in
  with_tx fault (
    _ ← on_db (put (fun t => Some (clear_path k exerciseID name t)));
    fileID ← next_id (file_sequence k);
    _ ← on_db (put (insert_exercise_file k fileID exerciseID name));
    items ← or_else (Replace fault token files_bucket [] (file_key k exerciseID name) (as_object file)) (Restore fault files_bucket []);
    _ ← or_else (commit_tx fault) (Restore fault files_bucket items);
    _ ← Discard fault files_bucket items;
    mret fileID).

Definition stored_file (k : file_table) (exerciseID : Z) (file : UploadedFile) : filing ExerciseFile :=
  fileID ← service (store_file k exerciseID file);
  mret (mk_exercise_file fileID exerciseID (FileBasename (uf_Filename file))).

Definition deleteFileObjectBestEffort (key : string) : act unit := best_effort (delete_object fault files_bucket key).

(** [DELETE ... RETURNING path], and the object. *)
Definition delete_file (k : file_table) (exerciseID fileID : Z) : filing unit :=
  path ← service (on_db (statement fault ErrServer (fun t =>
    match find_file k fileID exerciseID t with
    | Some path => Some (set_file_rows k (delete fileID (file_rows k t)) t, Some path)
    | None => Some (t, None)
    end)));
  match path with
  | None => fail (ErrFileNotFound k)
  | Some path => service (deleteFileObjectBestEffort (file_key k exerciseID path))
  end.

(** ** Compilation files *)

Definition ListCompilationFiles (exerciseID : Z) (claims : Claims) : filing (list ExerciseFile) :=
  acc ← service (on_db (requireExerciseAuthor fault exerciseID claims));
  service (on_db (queryFiles Compilation (authoringExerciseID acc))).

Definition GetCompilationFile (exerciseID fileID : Z) (claims : Claims) : filing ExerciseFile :=
  acc ← service (on_db (requireExerciseAuthor fault exerciseID claims));
  path ← service (on_db (ask (find_file Compilation fileID (authoringExerciseID acc))));
  match path with
  | None => fail (ErrFileNotFound Compilation)
  | Some path => mret (mk_exercise_file fileID (authoringExerciseID acc) path)
  end.

Definition CreateCompilationFile (exerciseID : Z) (file : UploadedFile) (claims : Claims) : filing ExerciseFile :=
  acc ← service (on_db (requireExerciseAuthor fault exerciseID claims));
  stored_file Compilation (authoringExerciseID acc) file.

Definition DeleteCompilationFile (exerciseID fileID : Z) (claims : Claims) : filing unit :=
  acc ← service (on_db (requireExerciseAuthor fault exerciseID claims));
  delete_file Compilation (authoringExerciseID acc) fileID.

(** ** Materials *)

Definition canReadExerciseContent (acc : exerciseAccess) (now : Z) : res svc_error unit :=
  if negb (ac_canAuthor acc) && negb (ac_isEnrolled acc) then Err ErrNotEnrolled
  else if negb (ac_canAuthor acc) && negb (exerciseVisible (ac_exercise acc) now) then Err ErrExerciseNotFound
  else Ok tt.

(** What both readers check first. *)
Definition content_access (now exerciseID : Z) (claims : Claims) : svc unit :=
  '(userID, role) ← lift (claimsUserID claims);
  acc ← loadExerciseAccess fault exerciseID userID role;
  lift (canReadExerciseContent acc now).

Definition ListAttachedFiles (now exerciseID : Z) (claims : Claims) : filing (list ExerciseFile) :=
  _ ← service (on_db (content_access now exerciseID claims));
  service (on_db (queryFiles Attached exerciseID)).

(** The name and the object. *)
Definition GetAttachedFile (now exerciseID fileID : Z) (claims : Claims) : filing (string * object) :=
  _ ← service (on_db (content_access now exerciseID claims));
  path ← service (on_db (ask (find_file Attached fileID exerciseID)));
  match path with
  | None => fail (ErrFileNotFound Attached)
  | Some path =>
      o ← service (getObject fault files_bucket (AttachmentKey exerciseID path));
      match o with Some o => mret (path, o) | None => fail (Service ErrServer) end
  end.

Definition CreateAttachedFile (exerciseID : Z) (file : UploadedFile) (claims : Claims) : filing ExerciseFile :=
  _ ← service (on_db (requireExerciseAuthor fault exerciseID claims));
  stored_file Attached exerciseID file.

Definition DeleteAttachedFile (exerciseID fileID : Z) (claims : Claims) : filing unit :=
  _ ← service (on_db (requireExerciseAuthor fault exerciseID claims));
  delete_file Attached exerciseID fileID.
End Files.

(** ** Replacing a file *)

(** What was put under the name. *)
Record file_stored (token : nat -> string) (k : file_table) (exerciseID : Z) (file : UploadedFile) (w w' : world) (id : Z) : Prop := {
  fs_tables : w_tables w' = set_file_rows k (<[id := (exerciseID, FileBasename (uf_Filename file))]>
    (file_rows k (clear_path k exerciseID (FileBasename (uf_Filename file)) (w_tables w)))) (w_tables w);
  fs_new : file_rows k (w_tables w) !! id = None \/ file_rows k (w_tables w) !! id = Some (exerciseID, FileBasename (uf_Filename file));
  fs_object : w_objects w' !! (files_bucket, file_key k exerciseID (FileBasename (uf_Filename file))) = Some (typed (as_object file));
  fs_others : forall bk, bk <> (files_bucket, file_key k exerciseID (FileBasename (uf_Filename file))) ->
    (forall n, bk <> (files_bucket, file_key k exerciseID (FileBasename (uf_Filename file)) +:+ ".backup-" +:+ token n)) ->
    w_objects w' !! bk = w_objects w !! bk
}.

Lemma backup_differs (key s : string) : key <> key +:+ ".backup-" +:+ s.
Proof. intros E. apply (f_equal String.length) in E. rewrite !length_app_s in E. cbn in E. lia. Qed.

Lemma set_clear k x p t m : set_file_rows k m (clear_path k x p t) = set_file_rows k m t.
Proof. by destruct k. Qed.
Lemma file_rows_set k m t : file_rows k (set_file_rows k m t) = m.
Proof. by destruct k. Qed.

Section Proofs.
Context (fault : nat -> bool) (token : nat -> string).

(** Deleting a backup that was just made, whatever the object is now. *)
Lemma undo_backup (os : objects) (b k : string * string) o v :
  os !! b = None -> os !! k = Some o -> delete b (<[k := o]> (<[k := v]> (<[b := o]> os))) = os.
Proof.
  intros Hb Hk. assert (b <> k) by congruence. rewrite insert_insert_eq, delete_insert_ne by done.
  rewrite delete_insert_id by done. by rewrite insert_id.
Qed.

(** The items a replacement leaves, and the objects. *)
Definition replaced (key : string) (o : object) (os os' : objects) (items : list replacedObject) : Prop :=
  (items = [mk_replaced key None] /\ os !! (files_bucket, key) = None /\ os' = <[(files_bucket, key) := typed o]> os) \/
  exists n old, items = [mk_replaced key (Some (key +:+ ".backup-" +:+ token n))] /\ os !! (files_bucket, key) = Some old /\
    os' = <[(files_bucket, key) := typed o]> (<[(files_bucket, key +:+ ".backup-" +:+ token n) := old]> os).

Definition same_tables (w w' : world) : Prop := w_tables w' = w_tables w /\ w_saved w' = w_saved w.

(** Nothing happened, or a request of the clean-up failed too. *)
Definition unchanged (w w' : world) : Prop :=
  w_tables w' = w_tables w /\ w_saved w' = w_saved w /\ (AuthoringUpdate.one_fault fault -> w_objects w' = w_objects w).

Local Ltac two_faults :=
  match goal with
  | H1 : fault ?n = true, H2 : fault ?m = true |- AuthoringUpdate.one_fault fault -> _ =>
      let H := fresh in intros H; specialize (H n m H1 H2); lia
  end.

Lemma wp_replace_file key o (Q : list replacedObject -> world -> Prop) (R : svc_error -> world -> Prop) w :
  (forall n, w_objects w !! (files_bucket, key +:+ ".backup-" +:+ token n) = None) ->
  (forall items w', same_tables w w' -> replaced key o (w_objects w) (w_objects w') items -> Q items w') -> (forall e w', unchanged w w' -> R e w') ->
  wp (or_else (Replace fault token files_bucket [] key o) (Restore fault files_bucket [])) Q R w.
Proof.
  intros Hb HQ HR. apply wp_or_else. set (w0 := w) in |- *.
  assert (Hre : forall e w', unchanged w w' -> wp (Restore fault files_bucket []) (fun _ => R e) (fun _ => R e) w') by (intros e w' Hw'; apply wp_ret; by apply HR).
  unfold Replace. apply wp_bind, wp_call; [intros _; by apply Hre|]. set (w1 := sent w0 <| w_objects := _ |>).
  case_bool_decide as Ek; apply wp_bind.
  - destruct Ek as [old Eo]. apply wp_bind, wp_gets. change (backupKeyFor token w1 key) with (key +:+ ".backup-" +:+ token (S (w_sent w))).
    set (b := key +:+ _). apply wp_bind, wp_call; [intros _; by apply Hre|]. change (w_objects w1) with (w_objects w). unfold w0 in Eo. rewrite Eo. cbn [mbind option_bind].
    set (w2 := sent w1 <| w_objects := _ |>). apply wp_ret. apply wp_bind, wp_or_else. apply wp_call.
    + intros F. unfold remove. apply wp_best_effort, wp_call.
      * intros F2. apply Hre. split; [done|]. split; [done|]. intros Hone. specialize (Hone _ _ F F2). cbn in Hone. lia.
      * apply Hre. split; [done|]. split; [done|]. intros _. cbn. rewrite delete_insert_id; [done|]. apply Hb.
    + apply wp_ret. apply HQ; [done|]. right. by exists (S (w_sent w)), old.
  - apply wp_ret, wp_bind, wp_or_else, wp_call; [intros _; apply wp_ret; by apply Hre|]. apply wp_ret, HQ; [done|]. left. split; [done|]. split; [by apply eq_None_not_Some|done].
Qed.

(** Putting back what a replacement changed. *)
Lemma wp_restore_file key o items os w (Q : unit -> world -> Prop) (R : svc_error -> world -> Prop) :
  (forall n, os !! (files_bucket, key +:+ ".backup-" +:+ token n) = None) -> replaced key o os (w_objects w) items ->
  (forall w', same_tables w w' -> (AuthoringUpdate.quiet fault w -> w_objects w' = os) -> Q tt w') ->
  wp (Restore fault files_bucket items) Q R w.
Proof.
  intros Hb [(-> & E & Ho)|(n & old & -> & E & Ho)] HQ; unfold Restore; cbn [each ro_backup ro_key].
  - apply wp_bind. unfold remove. apply wp_best_effort, wp_call.
    + intros F. apply wp_ret, HQ; [done|]. intros Hq. by rewrite Hq in F.
    + apply wp_ret, HQ; [done|]. intros _. cbn. rewrite Ho. by rewrite delete_insert_id.
  - set (b := key +:+ _) in *. assert (Hne : (files_bucket, b) <> (files_bucket, key)) by (intros [= E']; by eapply backup_differs).
    apply wp_bind, wp_bind, wp_best_effort, wp_call.
    + intros F. unfold remove. apply wp_best_effort, wp_call; intros; apply wp_ret, HQ; try done; intros Hq; by rewrite Hq in F.
    + rewrite Ho, lookup_insert_ne, lookup_insert_eq by done. cbn [mbind option_bind]. unfold remove. apply wp_best_effort, wp_call.
      * intros F. apply wp_ret, HQ; [done|]. intros Hq. rewrite Hq in F; [done|]. change (w_sent w <= S (w_sent w))%nat. lia.
      * apply wp_ret, HQ; [done|]. intros _. cbn. rewrite undo_backup; [done|apply Hb|done].
Qed.

Lemma wp_discard_file key o items os w (Q : unit -> world -> Prop) (R : svc_error -> world -> Prop) :
  replaced key o os (w_objects w) items ->
  (forall w', same_tables w w' ->
     (forall bk, (forall n, bk <> (files_bucket, key +:+ ".backup-" +:+ token n)) -> w_objects w' !! bk = w_objects w !! bk) -> Q tt w') ->
  wp (Discard fault files_bucket items) Q R w.
Proof.
  intros [(-> & _ & _)|(n & old & -> & _ & _)] HQ; unfold Discard; cbn [each ro_backup remove].
  - apply wp_bind, wp_ret, wp_ret. by apply HQ.
  - apply wp_bind, wp_best_effort, wp_call; [by intros _; apply wp_ret, HQ|]. apply wp_ret, HQ; [done|].
    intros bk Hbk. cbn. rewrite lookup_delete_ne; [done|]. intros E. by apply (Hbk n).
Qed.

Lemma replaced_lookup key o os os' items bk :
  replaced key o os os' items ->
  os' !! (files_bucket, key) = Some (typed o) /\
  (bk <> (files_bucket, key) -> (forall n, bk <> (files_bucket, key +:+ ".backup-" +:+ token n)) -> os' !! bk = os !! bk).
Proof.
  intros [(_ & _ & ->)|(n & old & _ & _ & ->)]; (split; [apply lookup_insert_eq|]); intros H1 H2; by rewrite ?lookup_insert_ne.
Qed.

(** After a failure: nothing is different, unless a second request failed. *)
Definition as_before (w w' : world) : Prop :=
  w_saved w' = None /\ w_tables w' = w_tables w /\ (AuthoringUpdate.one_fault fault -> w_objects w' = w_objects w).

Lemma wp_store_file k exerciseID file w :
  w_saved w = None ->
  (forall n, w_objects w !! (files_bucket, file_key k exerciseID (FileBasename (uf_Filename file)) +:+ ".backup-" +:+ token n) = None) ->
  wp (store_file fault token k exerciseID file)
    (fun id w' => w_saved w' = None /\ file_stored token k exerciseID file w w' id) (fun _ => as_before w) w.
Proof.
  intros Hs Hb. unfold store_file. cbv zeta. set (name := FileBasename _) in *. set (key := file_key k exerciseID name) in *.
  assert (Hfail : forall w', w_saved w' = Some (w_tables w) -> (AuthoringUpdate.one_fault fault -> w_objects w' = w_objects w) -> as_before w (rolled_back w')).
  { intros w' Hsv Ho. unfold as_before. rewrite rolled_back_saved, rolled_back_tables, rolled_back_objects. unfold base_tables. by rewrite Hsv. }
  apply wp_with_tx; [done|]. set (w1 := sent w <| w_saved := _ |>).
  apply wp_bind, wp_exec; [intros _; by apply Hfail|]. change (w_tables w1) with (w_tables w). set (w2 := set_tables _ (sent w1)).
  apply wp_bind, wp_next_id; [intros _|by apply Hfail]. set (w3 := w2 <| w_next := _ |>). set (id := next_value w2 _).
  apply wp_bind, wp_exec; [intros _; by apply Hfail|].
  destruct (insert_exercise_file k id exerciseID name (w_tables w3)) as [t|] eqn:Ei; [|by apply Hfail].
  unfold insert_exercise_file in Ei. destruct (_ && _) eqn:Ec; [|done]. apply andb_true_iff in Ec as [_ Ec%bool_decide_eq_true]. injection Ei as <-.
  change (w_tables w3) with (clear_path k exerciseID name (w_tables w)) in *. set (w4 := set_tables _ (sent w3)).
  apply wp_bind, (wp_replace_file key); [exact Hb| |intros e w' (_ & Hsv & Ho); by apply Hfail].
  intros items w5 [Ht5 Hs5] Hr. apply wp_bind, wp_or_else, wp_commit.
  - intros F. eapply (wp_restore_file key _ _ (w_objects w)); [exact Hb|rewrite rolled_back_objects; exact Hr|].
    intros w' [Ht' Hs'] Ho'. rewrite rolled_back_saved in Hs'. rewrite rolled_back_tables in Ht'.
    assert (rolled_back w' = w') as -> by (unfold rolled_back, rollback; by rewrite Hs'). split; [done|]. split.
    + rewrite Ht'. unfold base_tables. change (w_saved (sent w5)) with (w_saved w5). by rewrite Hs5.
    + intros Hone. apply Ho'. eapply AuthoringUpdate.quiet_sent; [by apply (AuthoringUpdate.fault_quiet fault w5)|]. by rewrite rolled_back_sent.
  - apply wp_bind. eapply (wp_discard_file key _ _ (w_objects w)); [exact Hr|]. intros w' [Ht' Hs'] Ho'. apply wp_ret.
    assert (rolled_back w' = w') as -> by (unfold rolled_back, rollback; by rewrite Hs'). split; [done|].
    destruct (replaced_lookup _ _ _ _ _ (files_bucket, key) Hr) as [Hput _]. split.
    + rewrite Ht'. change (w_tables w5 = set_file_rows k (<[id := (exerciseID, name)]> (file_rows k (clear_path k exerciseID name (w_tables w)))) (w_tables w)).
      rewrite Ht5. cbn. by rewrite set_clear.
    + unfold clear_path in Ec. rewrite file_rows_set, map_lookup_filter_None in Ec. destruct (file_rows k (w_tables w) !! id) as [x|]; [|by left].
      right. destruct Ec as [?|Ec]; [done|]. specialize (Ec x eq_refl). cbn in Ec. f_equal. by destruct (decide (x = (exerciseID, name))).
    + rewrite Ho'; [exact Hput|]. intros n E. apply (f_equal snd) in E. by apply (backup_differs key) in E.
    + intros bk H1 H2. rewrite Ho' by done. by apply (replaced_lookup _ _ _ _ _ bk Hr).
Qed.
End Proofs.

Lemma wp_served_file {A} (m : act A) (Q : A -> world -> Prop) (R : file_error -> world -> Prop) w :
  wp m Q (fun e => R (Service e)) w -> wp (service m) Q R w.
Proof. unfold wp, service. by destruct (m w) as [w' [x|e]]. Qed.

(** [POST] of both services. *)
Definition create_exercise_file (k : file_table) (fault : nat -> bool) (token : nat -> string) (exerciseID : Z) (file : UploadedFile)
    (claims : Claims) : filing ExerciseFile :=
  match k with
  | Compilation => CreateCompilationFile fault token exerciseID file claims
  | Attached => CreateAttachedFile fault token exerciseID file claims
  end.

(** The exercise a file of the two kinds belongs to. *)
Definition file_owner (k : file_table) (exerciseID : Z) (e : ExerciseRow) : Z :=
  match k with Compilation => owning_exercise exerciseID e | Attached => exerciseID end.

(** The backups a request may make are not there yet. *)
Definition backups_free (token : nat -> string) (os : objects) : Prop :=
  forall key n, os !! (files_bucket, key +:+ ".backup-" +:+ token n) = None.

Lemma wp_stored_file fault token k owner file w :
  w_saved w = None -> backups_free token (w_objects w) ->
  wp (stored_file fault token k owner file)
    (fun f w' => w_saved w' = None /\ xf_ExerciseID f = owner /\ xf_Path f = FileBasename (uf_Filename file) /\
       file_stored token k owner file w w' (xf_ID f))
    (fun _ => as_before fault w) w.
Proof.
  intros Hs Hb. unfold stored_file. apply wp_bind, wp_served_file. eapply wp_mono; [by apply wp_store_file| |done].
  intros id w' [Hs' Hf]. by apply wp_ret.
Qed.

Lemma wp_create_exercise_file k fault token exerciseID file claims w :
  w_saved w = None -> backups_free token (w_objects w) ->
  wp (create_exercise_file k fault token exerciseID file claims)
    (fun f w' => w_saved w' = None /\ exists e, may_author (w_tables w) exerciseID claims /\ t_exercises (w_tables w) !! exerciseID = Some e /\
       xf_ExerciseID f = file_owner k exerciseID e /\ xf_Path f = FileBasename (uf_Filename file) /\
       file_stored token k (file_owner k exerciseID e) file w w' (xf_ID f))
    (fun _ => as_before fault w) w.
Proof.
  intros Hs Hb.
  assert (Hgo : forall (m : exerciseAccess -> filing ExerciseFile) (owner : exerciseAccess -> Z),
    (forall acc, m acc = stored_file fault token k (owner acc) file) ->
    (forall acc e, authoringExerciseID acc = owning_exercise exerciseID e -> owner acc = file_owner k exerciseID e) ->
    wp (acc ← service (on_db (requireExerciseAuthor fault exerciseID claims)); m acc)
      (fun f w' => w_saved w' = None /\ exists e, may_author (w_tables w) exerciseID claims /\ t_exercises (w_tables w) !! exerciseID = Some e /\
         xf_ExerciseID f = file_owner k exerciseID e /\ xf_Path f = FileBasename (uf_Filename file) /\
         file_stored token k (file_owner k exerciseID e) file w w' (xf_ID f))
      (fun _ => as_before fault w) w).
  { intros m owner Hm Ho. apply wp_bind, wp_served_file, wp_on_db. intros t n r Hr. destruct r as [acc|e].
    2:{ apply requireExerciseAuthor_reads in Hr as ->. by split. }
    apply requireExerciseAuthor_ok in Hr as (-> & Ha & e & He & Hacc). rewrite Hm, (Ho acc e Hacc).
    eapply wp_mono; [by apply wp_stored_file| |].
    - intros f w' (Hs' & H1 & H2 & [H3 H4 H5 H6]). split; [done|]. exists e. by split_and!.
    - intros er w' [? [? ?]]. by split_and!. }
  destruct k; [by apply (Hgo _ authoringExerciseID)|by apply (Hgo _ (fun _ => exerciseID))].
Qed.

(** Who may read an exercise's materials. *)
Definition may_read (t : Tables) (now exerciseID : Z) (claims : Claims) : Prop :=
  exists user acc, cl_id claims = Some user /\ access_row t exerciseID user (cl_role claims) = Some acc /\
    canReadExerciseContent acc now = Ok tt.

Lemma GetAttachedFile_reads now exerciseID id path o claims w :
  may_read (w_tables w) now exerciseID claims -> t_attached_files (w_tables w) !! id = Some (exerciseID, path) ->
  w_objects w !! (files_bucket, AttachmentKey exerciseID path) = Some o ->
  (GetAttachedFile (fun _ => false) now exerciseID id claims w).2 = Ok (path, o).
Proof.
  intros (user & acc & Hu & Ha & Hc) Hf Ho. destruct claims as [u role]. cbn in Hu, Ha. subst u. destruct w as [[t n] sv os nx].
  unfold w_tables in *. cbn in *.
  unfold GetAttachedFile, content_access, loadExerciseAccess, service, on_db, query, statement, lift, mbind, eff_bind, mret, eff_ret, fail. cbn.
  rewrite Ha. cbn. rewrite Hc. cbn. unfold find_file. cbn. rewrite Hf. cbn. rewrite decide_True by done.
  unfold call, w_sent. cbn. by rewrite Ho.
Qed.

Lemma access_same_files t m now ex claims :
  may_read t now ex claims -> may_read (t <| t_attached_files := m |>) now ex claims.
Proof. done. Qed.

(** C31: A file of an exercise is replaced or kept. Whichever statements and object writes
    fail, uploading a compilation file or a material either leaves the tables as they
    were, and every object too when no second request fails; or stores it for the author
    who asked: the row under a new identity is the only one of its name, the object is
    the bytes sent, and no other object is touched but backups. Whoever may read the
    exercise then downloads those bytes. *)
Theorem file_replaced_or_kept k fault token exerciseID file claims w w' r
  (Hs : w_saved w = None) (Hb : backups_free token (w_objects w))
  (H : create_exercise_file k fault token exerciseID file claims w = (w', r)) :
  match r with
  | Ok f => w_saved w' = None /\ exists e, may_author (w_tables w) exerciseID claims /\ t_exercises (w_tables w) !! exerciseID = Some e /\
      xf_ExerciseID f = file_owner k exerciseID e /\ xf_Path f = FileBasename (uf_Filename file) /\
      file_stored token k (file_owner k exerciseID e) file w w' (xf_ID f) /\
      (k = Attached -> forall now reader, may_read (w_tables w) now exerciseID reader ->
         (GetAttachedFile (fun _ => false) now exerciseID (xf_ID f) reader w').2 = Ok (xf_Path f, typed (as_object file)))
  | Err _ => as_before fault w w'
  end.
Proof.
  pose proof (wp_create_exercise_file k fault token exerciseID file claims w Hs Hb) as Hwp. unfold wp in Hwp. rewrite H in Hwp.
  destruct r as [f|e]; [|done]. destruct Hwp as (Hs' & e & Ha & He & Ho & Hp & Hf). split; [done|]. exists e. split_and!; [done..|].
  intros -> now reader Hr. destruct Hf as [Ht _ Hobj _]. cbn [file_owner] in *. rewrite Hp. apply GetAttachedFile_reads.
  - rewrite Ht. by apply access_same_files.
  - rewrite Ht. apply lookup_insert_eq.
  - exact Hobj.
Qed.

(** ** A class *)

Definition notes (name data : string) : UploadedFile := mk_uploaded name "application/pdf" data.
Definition marks (n : nat) : string := "5f".
Definition with_notes : world := mk_world (mk_conn sample 0) None ∅ ∅.

Lemma file_replaced_or_kept_witness :
  exists w' f, create_exercise_file Attached never marks 10 (notes "a.pdf" "%PDF") teacher with_notes = (w', Ok f) /\
    (GetAttachedFile (fun _ => false) 200 10 (xf_ID f) teacher w').2 = Ok ("a.pdf", mk_object "%PDF" "application/pdf").
Proof.
  destruct (create_exercise_file Attached never marks 10 (notes "a.pdf" "%PDF") teacher with_notes) as [w' r] eqn:E.
  pose proof (file_replaced_or_kept Attached never marks 10 (notes "a.pdf" "%PDF") teacher with_notes w' r eq_refl (fun _ _ => eq_refl) E) as H.
  assert (Hr : match r with Ok f => xf_Path f = "a.pdf" | Err _ => False end) by (apply (f_equal snd) in E; cbn [snd] in E; rewrite <- E; by vm_compute).
  destruct r as [f|e]; [|destruct Hr]. destruct H as (_ & e & _ & _ & _ & _ & _ & H). exists w', f. split; [done|].
  rewrite (H eq_refl 200 teacher); [by rewrite Hr|]. eexists _, _. split; [done|]. split; [by vm_compute|done].
Defined.

(** The name is trimmed before the directory is dropped, so that a name may keep a space
    its key does not have: two materials, one object. *)
Example two_names_one_object :
  let w1 := (CreateAttachedFile never marks 10 (notes "b.pdf" "first") teacher with_notes).1 in
  let w2 := (CreateAttachedFile never marks 10 (notes "x\ b.pdf" "second") teacher w1).1 in
  (ListAttachedFiles never 200 10 teacher w2).2 = Ok [mk_exercise_file 1 10 "b.pdf"; mk_exercise_file 2 10 " b.pdf"] /\
  (GetAttachedFile never 200 10 1 teacher w2).2 = Ok ("b.pdf", mk_object "second" "application/pdf").
Proof. by vm_compute. Qed.

(** A replacement that any one request breaks: eight of them are answered with an error,
    and the object is what it was. *)
Example replacement_undone :
  let w1 := (CreateAttachedFile never marks 10 (notes "b.pdf" "first") teacher with_notes).1 in
  (fun n => match CreateAttachedFile (Nat.eqb (w_sent w1 + n)) marks 10 (notes "b.pdf" "second") teacher w1 with
            | (w, Err _) => Some (bool_decide (w_objects w = w_objects w1))
            | (_, Ok _) => None
            end) <$> seq 0 9 = replicate 8 (Some true) ++ [None].
Proof. by vm_compute. Qed.
