(* ===== verification/Podman.v ===== *)
(** * The container runtime

    [src/judge/internal/podman/client.go] and [limits.go]: what the judge asks podman for
    a run, the containers it prunes and the images it pulls, and the log of a container
    cut into lines. Podman's answers are arguments; requests are not modelled further
    than that, nor the text of [socketAdvice]. *)

From S2P Require Import Prelude GoStrings GoPath JudgeConfig Quota.
Local Open Scope Z_scope.

(** ** Limits *)

Definition cpuPeriodMicros : Z := 100000.

Record PodmanLimits := mk_podman_limits {
  pl_MemoryBytes : Z; pl_PidsLimit : Z; pl_CPUQuota : Z; pl_TmpfsBytes : Z; pl_DisableCgroups : bool
}.

(** [spec.LinuxResources]; [None] is an absent block. *)
Record LinuxResources := mk_resources {
  lr_Memory : option (Z * Z); lr_Pids : option Z; lr_CPU : option (Z * Z)
}.

Definition Configured (l : PodmanLimits) : bool := (0 <? pl_MemoryBytes l) || (0 <? pl_PidsLimit l) || (0 <? pl_CPUQuota l).

(** The limit of memory and swap together is the limit of memory. *)
Definition Resources (l : PodmanLimits) : option LinuxResources :=
  if negb (Configured l) then None
  else Some (mk_resources
    (if 0 <? pl_MemoryBytes l then Some (pl_MemoryBytes l, pl_MemoryBytes l) else None)
    (if 0 <? pl_PidsLimit l then Some (pl_PidsLimit l) else None)
    (if 0 <? pl_CPUQuota l then Some (pl_CPUQuota l, cpuPeriodMicros) else None)).

(** ** The specification of a container *)

Inductive ns_mode := Private | NoNetwork.
Record Mount := mk_mount { mt_Type : string; mt_Source : string; mt_Destination : string; mt_Options : list string }.

(** The fields of [specgen.SpecGenerator] the judge sets. *)
Record SpecGenerator := mk_spec {
  sg_Image : string; sg_Name : string; sg_Labels : list (string * string);
  sg_PidNS : ns_mode; sg_UtsNS : ns_mode; sg_IpcNS : ns_mode; sg_CgroupNS : ns_mode; sg_NetNS : ns_mode;
  sg_NoNewPrivileges : bool; sg_CapDrop : list string; sg_CgroupsMode : string; sg_ResourceLimits : option LinuxResources;
  sg_Umask : string; sg_ReadOnlyFilesystem : bool; sg_ReadWriteTmpfs : bool; sg_Mounts : list Mount
}.

Record RunConfig := mk_run_config { rc_Name : string; rc_Image : string; rc_MountSource : string; rc_Labels : list (string * string) }.

Definition containerUmask := "0000".
Definition defaultTmpfsBytes : Z := 256 * 2 ^ 20.
Definition runTmpfsBytes : Z := 16 * 2 ^ 20.

Definition tmpfs (destination : string) (size : Z) : Mount :=
  mk_mount "tmpfs" "" destination ["rw"; "nosuid"; "nodev"; "size=" +:+ fmt_int size].

Definition specFor (rc : RunConfig) (limits : PodmanLimits) : SpecGenerator :=
  mk_spec (rc_Image rc) (rc_Name rc) (rc_Labels rc) Private Private Private Private NoNetwork true ["ALL"]
    (if pl_DisableCgroups limits then "disabled" else "") (if pl_DisableCgroups limits then None else Resources limits)
    containerUmask true false
    [mk_mount "bind" (rc_MountSource rc) "/root" ["rw"; "z"];
     tmpfs "/tmp" (if pl_TmpfsBytes limits <=? 0 then defaultTmpfsBytes else pl_TmpfsBytes limits); tmpfs "/run" runTmpfsBytes].

(** ** Containers left behind *)

(** A container with the judge's label; [None]: podman gives no creation time. *)
Record leftover := mk_leftover { lf_ID : string; lf_Exited : bool; lf_Created : option Z }.

(** Whether it may still be of use to the previous judge. *)
Definition spared (now olderThan : Z) (l : leftover) : bool :=
  match lf_Created l with
  | Some created => negb (lf_Exited l) && (time_sub now created <=? olderThan)
  | None => false
  end.

(** The containers removed and those whose removal failed; [None]: podman cannot be
    reached or does not list. *)
Definition PruneLeftovers (now olderThan : Z) (listed : option (list leftover)) (removes : string -> bool) :
  option (list string * list string) :=
  match listed with
  | None => None
  | Some list =>
      let ids := lf_ID <$> filter (fun l => spared now olderThan l = false) list in
      Some (filter (fun id => removes id = true) ids, filter (fun id => removes id = false) ids)
  end.

(** ** Images *)

(** What podman answers: the connection, whether the image is there, and the pull. *)
Record image_answers := mk_image_answers { ia_connects : bool; ia_exists : option bool; ia_pulls : bool }.

(** The images seen, and whether this call pulled one; [None] is an error. *)
Definition EnsureImage (image : string) (a : image_answers) (ensured : gset string) : gset string * option bool :=
  if bool_decide (image ∈ ensured) then (ensured, Some false)
  else if negb (ia_connects a) then (ensured, None)
  else match ia_exists a with
  | None => (ensured, None)
  | Some true => ({[image]} ∪ ensured, Some false)
  | Some false => if ia_pulls a then ({[image]} ∪ ensured, Some true) else (ensured, None)
  end.

(** [false] is an error; a container of the name is removed when there is one. *)
Definition RemoveByName (connects : bool) (exists_ : option bool) (removes : bool) : bool :=
  connects && match exists_ with None => false | Some false => true | Some true => removes end.

(** ** Lines *)

Definition logReplayMargin : Z := 2 * second.
(** The instant the log is asked from; a container that was not created here has none. *)
Definition log_since (now : Z) (createdAt : option Z) : Z := default now createdAt - logReplayMargin.

Definition truncatedMarker := "...[truncated]".
Definition linefeed : ascii := "010"%char.
Definition return_ : ascii := "013"%char.

Section Lines.
(** [maxLineBytes]. *)
Context (maxLineBytes : nat).

(** The line being read, whether it was already cut, and the lines sent. *)
Record splitter := mk_splitter { sp_buf : string; sp_truncated : bool; sp_out : list string }.

Definition emit (line : string) (out : list string) : list string := out ++ [trim_right_bytes return_ line].
Definition cut_line (line : string) : string := take_bytes maxLineBytes line +:+ truncatedMarker.

(** No newline in what is left of the chunk. *)
Definition feed_rest (chunk : string) (s : splitter) : splitter :=
  if sp_truncated s then s
  else
    let buf := sp_buf s +:+ chunk in
    if (maxLineBytes <? String.length buf)%nat then mk_splitter buf true (emit (cut_line buf) (sp_out s))
    else mk_splitter buf false (sp_out s).

(** The line ends. *)
Definition feed_line (line : string) (s : splitter) : splitter :=
  mk_splitter "" false
    (if sp_truncated s then sp_out s
     else if (maxLineBytes <? String.length (sp_buf s) + String.length line)%nat then emit (cut_line (sp_buf s +:+ line)) (sp_out s)
     else emit (sp_buf s +:+ line) (sp_out s)).

(** One chunk: a round for each newline and one for the rest. *)
Fixpoint feed (fuel : nat) (chunk : string) (s : splitter) : splitter :=
  match fuel with
  | O => s
  | S fuel =>
      if String.eqb chunk "" then s
      else match cut_byte linefeed chunk with
      | None => feed_rest chunk s
      | Some (line, rest) => feed fuel rest (feed_line line s)
      end
  end.

Definition feed_all (chunks : list string) (s : splitter) : splitter :=
  fold_left (fun s chunk => feed (S (String.length chunk)) chunk s) chunks s.

Definition emitLines_of (chunks : list string) : list string :=
  let s := feed_all chunks (mk_splitter "" false []) in
  if negb (sp_truncated s) && negb (String.eqb (sp_buf s) "") then emit (sp_buf s) (sp_out s) else sp_out s.
End Lines.

Definition maxLineBytes : nat := Z.to_nat (64 * 1024).
Definition emitLines (chunks : list string) : list string := emitLines_of maxLineBytes chunks.

(** ** The lines do not depend on the chunks *)

(** The reference: a text's lines, the last one when it is not empty, each cut at the
    bound and without its carriage returns. *)
Definition shown_line (max : nat) (line : string) : string :=
  trim_right_bytes return_ (if (max <? String.length line)%nat then take_bytes max line +:+ truncatedMarker else line).
Definition text_lines (text : string) : list string :=
  let lines := split_byte linefeed text in
  if String.eqb (default "" (last lines)) "" then take (length lines - 1) lines else lines.
Definition shown_lines (max : nat) (text : string) : list string := shown_line max <$> text_lines text.

Lemma cut_byte_some c s a b : cut_byte c s = Some (a, b) -> s = a +:+ String c b /\ no_byte c a.
Proof.
  revert a b. induction s as [|x s IH]; intros a b; cbn; [done|]. destruct (Ascii.eqb_spec x c) as [->|Hne].
  - intros [= <- <-]. done.
  - destruct (cut_byte c s) as [[u v]|]; [|done]. intros [= <- <-]. destruct (IH u v eq_refl) as [-> H]. split; [done|]. by apply no_byte_cons.
Qed.

Lemma cut_byte_none c s : cut_byte c s = None -> no_byte c s.
Proof.
  induction s as [|x s IH]; cbn; [done|]. destruct (Ascii.eqb_spec x c) as [->|Hne]; [done|].
  destruct (cut_byte c s) as [[u v]|]; [done|]. intros _. apply no_byte_cons. auto.
Qed.

(** The text so far is the lines [done] and the beginning [cur] of one. *)
Record reading (max : nat) (lines : list string) (cur : string) (s : splitter) : Prop := {
  rd_cur : no_byte linefeed cur;
  rd_cut : sp_truncated s = (max <? String.length cur)%nat;
  rd_buf : sp_truncated s = false -> sp_buf s = cur;
  rd_out : sp_out s = (shown_line max <$> lines) ++ (if sp_truncated s then [shown_line max cur] else [])
}.

Section Proofs.
Context (max : nat).

Lemma shown_cut line : (max < String.length line)%nat -> shown_line max line = trim_right_bytes return_ (cut_line max line).
Proof. intros H. unfold shown_line. by rewrite (proj2 (Nat.ltb_lt _ _) H). Qed.

Lemma shown_whole line : (String.length line <= max)%nat -> shown_line max line = trim_right_bytes return_ line.
Proof. intros H. unfold shown_line. by rewrite (proj2 (Nat.ltb_ge _ _) H). Qed.

Lemma take_bytes_over n a b : (n <= String.length a)%nat -> take_bytes n (a +:+ b) = take_bytes n a.
Proof. revert n. induction a as [|c a IH]; intros [|n] H; cbn in *; [done|lia|done|]. rewrite IH; [done|lia]. Qed.

(** An over-long line shows the same whatever follows. *)
Lemma shown_over a b : (max < String.length a)%nat -> shown_line max (a +:+ b) = shown_line max a.
Proof.
  intros H. rewrite !shown_cut by (rewrite ?length_app_s; lia). unfold cut_line. by rewrite take_bytes_over by lia.
Qed.

(** The line that ends or is cut. *)
Lemma shown_emit line out :
  (if (max <? String.length line)%nat then emit (cut_line max line) out else emit line out) = out ++ [shown_line max line].
Proof. unfold emit, cut_line, shown_line. by destruct (max <? String.length line)%nat. Qed.

Lemma reading_start : reading max [] "" (mk_splitter "" false []).
Proof. split; [done| |done..]. symmetry. apply Nat.ltb_ge. cbn. lia. Qed.

(** The rest of a chunk continues the line. *)
Lemma reading_rest lines cur chunk s :
  no_byte linefeed chunk -> reading max lines cur s -> reading max lines (cur +:+ chunk) (feed_rest max chunk s).
Proof.
  intros Hc [Hcur Hcut Hbuf Hout]. unfold feed_rest. destruct (sp_truncated s) eqn:T.
  - symmetry in Hcut. apply Nat.ltb_lt in Hcut. split; [by apply no_byte_app| |by rewrite T|].
    + rewrite T. symmetry. apply Nat.ltb_lt. rewrite length_app_s. lia.
    + by rewrite T, shown_over.
  - rewrite Hbuf by done. pose proof (shown_emit (cur +:+ chunk) (sp_out s)) as He.
    destruct (max <? String.length (cur +:+ chunk))%nat eqn:L; split; cbn; rewrite ?L; try done; try by apply no_byte_app.
    by rewrite He, Hout, app_nil_r.
Qed.

(** A newline ends it. *)
Lemma reading_line lines cur line s :
  no_byte linefeed line -> reading max lines cur s -> reading max (lines ++ [cur +:+ line]) "" (feed_line max line s).
Proof.
  intros Hl [Hcur Hcut Hbuf Hout]. unfold feed_line. split; [done|done|done|]. cbn [sp_out sp_truncated].
  rewrite app_nil_r, fmap_app. change (shown_line max <$> [?x]) with [shown_line max x]. destruct (sp_truncated s) eqn:T.
  - symmetry in Hcut. apply Nat.ltb_lt in Hcut. by rewrite Hout, shown_over.
  - rewrite Hbuf by done. rewrite <- length_app_s, shown_emit. by rewrite Hout, app_nil_r.
Qed.

(** The lines the text so far ends with: [lines] and the beginning of one. *)
Definition read_to (text : string) (s : splitter) : Prop :=
  exists lines cur, split_byte linefeed text = lines ++ [cur] /\ reading max lines cur s.

Lemma split_byte_last c text lines cur s : split_byte c text = lines ++ [cur] ->
  split_byte c (text +:+ s) = lines ++ match split_byte c s with [] => [] | w :: ws => (cur +:+ w) :: ws end.
Proof.
  revert lines cur. induction text as [|a text IH]; intros lines cur E.
  - destruct lines as [|l [|]]; [|done..]. injection E as <-. cbn. by destruct (split_byte c s).
  - cbn in E |- *. destruct (Ascii.eqb a c).
    + destruct lines as [|l lines]; cbn in E; injection E; [intros H; by apply split_byte_ne in H|]. intros E' <-.
      cbn. by rewrite (IH lines cur).
    + pose proof (split_byte_ne c text) as Hn. destruct (split_byte c text) as [|w ws] eqn:Et; [done|].
      destruct lines as [|l lines]; cbn in E; injection E as <- ->.
      * rewrite (IH [] w) by done. pose proof (split_byte_ne c s). by destruct (split_byte c s).
      * by rewrite (IH (w :: lines) cur).
Qed.

Lemma feed_reads fuel chunk text s : (String.length chunk < fuel)%nat -> read_to text s -> read_to (text +:+ chunk) (feed max fuel chunk s).
Proof.
  revert chunk text s. induction fuel as [|fuel IH]; intros chunk text s Hf (lines & cur & E & H); [lia|]. cbn [feed].
  destruct (String.eqb_spec chunk "") as [->|Hn]; [rewrite app_nil_r_s; by exists lines, cur|].
  destruct (cut_byte linefeed chunk) as [[line rest]|] eqn:C.
  - apply cut_byte_some in C as [-> Hl].
    replace (text +:+ (line +:+ String linefeed rest)) with ((text +:+ (line +:+ str1 linefeed)) +:+ rest) by by rewrite !app_assoc_s.
    apply IH; [rewrite length_app_s in Hf; cbn in Hf; lia|].
    exists (lines ++ [cur +:+ line]), "". split; [|by apply reading_line].
    rewrite (split_byte_last _ _ _ _ _ E). unfold str1. by rewrite split_byte_app, <- app_assoc.
  - apply cut_byte_none in C. exists lines, (cur +:+ chunk). split; [|by apply reading_rest].
    by rewrite (split_byte_last _ _ _ _ _ E), split_byte_none.
Qed.

Lemma feed_all_reads chunks text s : read_to text s -> read_to (text +:+ String.concat "" chunks) (feed_all max chunks s).
Proof.
  revert text s. induction chunks as [|c chunks IH]; intros text s H; cbn [feed_all fold_left].
  - cbn. by rewrite app_nil_r_s.
  - replace (String.concat "" (c :: chunks)) with (c +:+ String.concat "" chunks) by (destruct chunks; cbn; by rewrite ?app_nil_r_s).
    rewrite <- app_assoc_s. apply IH, feed_reads; [lia|done].
Qed.

(** What is sent when the log ends. *)
Lemma reading_ends text s : read_to text s ->
  (if negb (sp_truncated s) && negb (String.eqb (sp_buf s) "") then emit (sp_buf s) (sp_out s) else sp_out s) = shown_lines max text.
Proof.
  intros (lines & cur & E & [Hcur Hcut Hbuf Hout]). unfold shown_lines, text_lines. rewrite E, last_snoc. cbn [default]. unfold id.
  destruct (sp_truncated s) eqn:T; cbn [negb andb].
  - destruct (String.eqb_spec cur "") as [->|]; [by symmetry in Hcut; apply Nat.ltb_lt in Hcut; cbn in Hcut; lia|].
    by rewrite Hout, fmap_app.
  - rewrite Hbuf by done. symmetry in Hcut. apply Nat.ltb_ge in Hcut. destruct (String.eqb_spec cur "") as [->|]; cbn [negb].
    + rewrite length_app. cbn. replace (length lines + 1 - 1)%nat with (length lines) by lia. by rewrite take_app_length, Hout, app_nil_r.
    + unfold emit. rewrite <- (shown_whole cur) by done. by rewrite Hout, fmap_app, app_nil_r.
Qed.
End Proofs.

Lemma emitLines_of_shown max chunks : emitLines_of max chunks = shown_lines max (String.concat "" chunks).
Proof.
  unfold emitLines_of. apply reading_ends. apply (feed_all_reads _ chunks "").
  exists [], "". split; [done|apply reading_start].
Qed.

Lemma take_bytes_length n s : (String.length (take_bytes n s) <= n)%nat.
Proof. revert s. induction n as [|n IH]; intros [|a s]; cbn; [lia..|]. specialize (IH s). lia. Qed.

Lemma trim_right_bytes_length c s : (String.length (trim_right_bytes c s) <= String.length s)%nat.
Proof. induction s as [|a s IH]; cbn [trim_right_bytes]; [done|]. destruct (_ && _); cbn; lia. Qed.

Lemma shown_line_length max line : (String.length (shown_line max line) <= max + String.length truncatedMarker)%nat.
Proof.
  unfold shown_line. etransitivity; [apply trim_right_bytes_length|]. destruct (max <? String.length line)%nat eqn:E.
  - rewrite length_app_s. pose proof (take_bytes_length max line). lia.
  - apply Nat.ltb_ge in E. lia.
Qed.

(** What is kept of the line being read stays within the bound and the last chunk. *)
Lemma feed_memory max c fuel chunk s : (String.length chunk <= c)%nat ->
  (String.length (sp_buf s) <= max + c)%nat -> (sp_truncated s = false -> (String.length (sp_buf s) <= max)%nat) ->
  let s' := feed max fuel chunk s in
  (String.length (sp_buf s') <= max + c)%nat /\ (sp_truncated s' = false -> (String.length (sp_buf s') <= max)%nat).
Proof.
  revert chunk s. induction fuel as [|fuel IH]; intros chunk s Hc Hb Ht; [done|]. cbn [feed].
  destruct (String.eqb chunk ""); [done|]. destruct (cut_byte linefeed chunk) as [[line rest]|] eqn:C.
  - apply cut_byte_some in C as [-> _]. rewrite length_app_s in Hc. cbn in Hc.
    apply IH; [lia|cbn; lia|cbn; lia].
  - unfold feed_rest. destruct (sp_truncated s) eqn:T; [by rewrite T|]. specialize (Ht eq_refl).
    destruct (max <? String.length (sp_buf s +:+ chunk))%nat eqn:L; cbn.
    + rewrite length_app_s. split; [lia|done].
    + apply Nat.ltb_ge in L. lia.
Qed.

Lemma log_memory c chunks : Forall (fun chunk => (String.length chunk <= c)%nat) chunks ->
  (String.length (sp_buf (feed_all maxLineBytes chunks (mk_splitter "" false []))) <= maxLineBytes + c)%nat.
Proof.
  intros H. assert (forall s, (String.length (sp_buf s) <= maxLineBytes + c)%nat ->
    (sp_truncated s = false -> (String.length (sp_buf s) <= maxLineBytes)%nat) ->
    (String.length (sp_buf (feed_all maxLineBytes chunks s)) <= maxLineBytes + c)%nat) as G; [|apply G; cbn; lia].
  induction H as [|chunk chunks Hc _ IH]; intros s Hb Ht; [done|]. cbn [feed_all fold_left].
  destruct (feed_memory maxLineBytes c (S (String.length chunk)) chunk s Hc Hb Ht) as [? ?]. by apply IH.
Qed.

(** C35: However the log of a container arrives in chunks, what is sent is its lines: the
    text is cut at its newlines, a last line without one counts when it is not empty, a
    line longer than [maxLineBytes] is cut there and marked, and the carriage returns that
    end a line go. No line sent is longer than the bound and its mark, and what is kept
    while reading is never more than the bound and one chunk. *)
Theorem log_lines chunks :
  emitLines chunks = shown_lines maxLineBytes (String.concat "" chunks) /\
  Forall (fun l => (String.length l <= maxLineBytes + String.length truncatedMarker)%nat) (emitLines chunks) /\
  forall c n, Forall (fun chunk => (String.length chunk <= c)%nat) chunks ->
    (String.length (sp_buf (feed_all maxLineBytes (take n chunks) (mk_splitter "" false []))) <= maxLineBytes + c)%nat.
Proof.
  unfold emitLines. rewrite emitLines_of_shown. split; [done|split].
  - apply Forall_fmap, Forall_forall. intros l _. apply shown_line_length.
  - intros c n H. by apply log_memory, Forall_take.
Qed.

Example log_lines_demo :
  emitLines_of 4 ["ab"; "c" +:+ str1 return_ +:+ str1 linefeed +:+ "12345"; "67" +:+ str1 linefeed; str1 linefeed +:+ "xy"] =
  ["abc"; "1234" +:+ truncatedMarker; ""; "xy"].
Proof. reflexivity. Qed.

(** ** Containers *)

(** A production container has no network, no capability, a memory limit that swap does
    not widen, and a workspace and sized scratch as all it can write. *)
Lemma container_confined rc limits : pl_DisableCgroups limits = false -> 0 < pl_MemoryBytes limits ->
  let s := specFor rc limits in
  sg_NetNS s = NoNetwork /\ sg_CapDrop s = ["ALL"] /\ sg_NoNewPrivileges s = true /\ sg_ReadOnlyFilesystem s = true /\
  (exists r, sg_ResourceLimits s = Some r /\ lr_Memory r = Some (pl_MemoryBytes limits, pl_MemoryBytes limits)) /\
  Forall (fun m => mt_Destination m = "/root" /\ mt_Source m = rc_MountSource rc \/
    exists size, 0 < size /\ mt_Type m = "tmpfs" /\ ("size=" +:+ fmt_int size) ∈ mt_Options m) (sg_Mounts s).
Proof.
  intros Hd Hm. unfold specFor. rewrite Hd. cbn -[fmt_int tmpfs defaultTmpfsBytes runTmpfsBytes].
  repeat (split; [done|]). split.
  - unfold Resources, Configured. rewrite (proj2 (Z.ltb_lt _ _) Hm). cbn. by eexists.
  - apply Forall_cons; split; [by left|]. assert (forall size d, 0 < size ->
      exists size', 0 < size' /\ mt_Type (tmpfs d size) = "tmpfs" /\ ("size=" +:+ fmt_int size') ∈ mt_Options (tmpfs d size)) as T.
    { intros size d Hs. exists size. repeat split; [done|]. cbn -[fmt_int]. set_solver. }
    apply Forall_cons; split; [right; apply T|apply Forall_cons; split; [right; by apply T|by constructor]].
    destruct (Z.leb_spec (pl_TmpfsBytes limits) 0); [done|lia].
Qed.

(** A container the previous judge may still use is left alone, and every other one is
    asked to go. *)
Lemma pruned_or_spared now olderThan list removes l gone failed :
  PruneLeftovers now olderThan (Some list) removes = Some (gone, failed) -> l ∈ list ->
  NoDup (lf_ID <$> list) ->
  if spared now olderThan l then lf_ID l ∉ gone /\ lf_ID l ∉ failed
  else if removes (lf_ID l) then lf_ID l ∈ gone else lf_ID l ∈ failed.
Proof.
  intros [= <- <-] Hl Hn. destruct (spared now olderThan l) eqn:S.
  - assert (lf_ID l ∉ lf_ID <$> filter (fun l => spared now olderThan l = false) list) as H.
    { intros (l' & E & [Hs Hl']%list_elem_of_filter)%list_elem_of_fmap.
      assert (l = l') as <-; [|congruence].
      apply list_elem_of_lookup in Hl as [i Hi], Hl' as [j Hj]. assert (i = j) as <-; [|congruence].
      eapply NoDup_lookup; [exact Hn|rewrite list_lookup_fmap, Hi; done|rewrite list_lookup_fmap, Hj; cbn; congruence]. }
    split; intros [_ ?]%list_elem_of_filter; done.
  - assert (lf_ID l ∈ lf_ID <$> filter (fun l => spared now olderThan l = false) list) as H.
    { apply list_elem_of_fmap. exists l. split; [done|]. by apply list_elem_of_filter. }
    destruct (removes (lf_ID l)) eqn:R; by apply list_elem_of_filter.
Qed.

(** An image is remembered exactly when the judge may use it. *)
Lemma ensured_or_error image a ensured : let '(ensured', r) := EnsureImage image a ensured in
  match r with Some _ => image ∈ ensured' | None => ensured' = ensured /\ image ∉ ensured end.
Proof.
  unfold EnsureImage. case_bool_decide; [done|]. destruct (ia_connects a); [|done]. destruct (ia_exists a) as [[]|]; [set_solver| |done].
  destruct (ia_pulls a); [set_solver|done].
Qed.
